(* ===== verification/_CoqProject ===== *)
-Q . S2P
Prelude.v
Sysendian.v
Sha256.v
Sha256Spec.v
Sha256Correct.v
Hmac.v
HmacCorrect.v
Simd.v
Salsa20.v
Mem.v
Pwxform.v
PwxformCorrect.v
Blockmix.v
BlockmixCorrect.v
Smix.v
SmixCorrect.v
SmixMain.v
Yespower.v
YespowerCorrect.v
Yp2.v
Yp2Correct.v
Serialize.v
MinerUtil.v
MinerUtilCorrect.v
Limbs.v
ArithUint.v
ArithCorrect.v
Compact.v
Params.v
Chain.v
ChainCorrect.v
ChainIndex.v
ChainActive.v
Double.v
Pow.v
PowCorrect.v
Subsidy.v
SubsidyCorrect.v
Headers.v
HeadersCorrect.v
HashX11.v
Workers.v
WorkersCorrect.v
