(* ===== verification/Prelude.v ===== *)
(** * Korsh Core: verification of the proof-of-work and mining path

    Korsh Core is a node of the Bitcoin and Dash family whose proof of work is
    the memory-hard hash yespower.  This library models the code that decides
    what a valid proof of work is, how hard it has to be, what a block earns
    and which chain is the best, together with the repository's own miner, and
    proves what that code computes.  All paths below are paths of the
    repository.

    ** The parts of the program and where they are modelled

    The hash, from the bottom up.  A node hashes the 80 bytes of a block header
    with [yespower_hash]; the miner hashes two headers at once with a kernel of
    its own.

    - byte order ([src/src/crypto/yespower/sysendian.h]): [Sysendian];
    - SHA-256, HMAC and PBKDF2 ([src/src/crypto/yespower/sha256.c]): [Sha256]
      and [Hmac], with the definitions of FIPS 180-4 in [Sha256Spec] and those
      of RFC 2104 and RFC 8018 in [HmacCorrect]; the contexts are records with
      the fields of the C structures, the scratch arrays are arguments;
    - SSE2 vectors and the Salsa20 cores: [Simd], [Salsa20];
    - the scratch memory: [Mem], a finite map from byte addresses to 16-byte
      lanes in a state monad that fails on an access outside the allocated
      region;
    - [pwxform], block mixing, SMix ([src/src/crypto/yespower/yespower-opt.c]):
      [Pwxform], [Blockmix], [Smix], each a program on that memory next to a
      reference definition on lists, with refinement proofs in
      [PwxformCorrect], [BlockmixCorrect], [SmixCorrect] and [SmixMain];
    - memory regions, [yespower], [yespower_tls] and [yespower_hash]
      ([yespower-platform.c], [yespower-opt.c], [yespower.c]): [Yespower] over
      the class [Platform] of [mmap] and [munmap], whose laws are the class
      [PlatformLaws]; proofs in [YespowerCorrect];
    - the two-way kernel ([src/contrib/korsh-miner/korsh-yp2.c]): [Yp2],
      [Yp2Correct]; two memories, one per instance, and woven instructions;
    - the hash of a header object ([src/src/hash_x11.h],
      [src/src/primitives/block.cpp]): [HashX11].

    Consensus.  The rules are functions of the block tree.

    - 256-bit arithmetic and compact targets ([src/src/arith_uint256.h] and
      [.cpp]): [Limbs], [ArithUint], [ArithCorrect], [Compact];
    - parameters of the networks ([src/src/consensus/params.h],
      [src/src/chainparams.cpp]): [Params];
    - the block index and the active chain ([src/src/chain.h], [chain.cpp],
      [src/src/node/blockstorage.cpp]): [Chain], with the invariant in
      [ChainCorrect] and the theorems in [ChainIndex] and [ChainActive]; a
      pointer to an entry is its hash, the heap is the map from hashes to
      entries, and a null or dangling pointer gives [None];
    - difficulty ([src/src/pow.cpp]): [Pow], [PowCorrect], over the binary64
      operations of [Double];
    - emission ([src/src/validation.cpp]): [Subsidy], [SubsidyCorrect].

    Messages.

    - fixed-width integers, CompactSize and VarInt ([src/src/serialize.h]):
      [Serialize], readers as a monad with the exceptions of the code;
    - headers, compressed headers and the handler of [getheaders] and
      [getheaders2] ([src/src/primitives/block.h], [block.cpp],
      [src/src/net_processing.cpp]): [Headers], [HeadersCorrect].

    The miner ([src/contrib/korsh-miner/korsh-miner.c]).

    - helpers: [MinerUtil], [MinerUtilCorrect];
    - threads: [Workers], [WorkersCorrect]; one step is one access of one
      thread to the shared variables, an execution is a list of choices.  The
      workers of [worker] take steps by [worker_step]; the main thread
      publishes jobs ([publish_step]), collects shares or a solution
      ([collect_step]) and stops ([stop_step]).

    ** What the theorems show

    - The hash is a function of the header: whatever the thread hashed before
      and whatever its memory holds, [yespower_hash] stays within its region
      and returns the reference hash or reports that memory was refused; the
      two-way kernel returns the same hashes; the vector and the portable
      builds agree; SHA-256, HMAC and PBKDF2 are those of the standards, in
      every way of cutting the input into calls.
    - Memory: the size recorded for [munmap] is that of the mapping in use,
      rounded to huge pages exactly when huge pages were mapped.
    - Arithmetic and targets: the operators of [arith_uint256] (sums, products,
      quotients, shifts, the bitwise ones, those with a 64-bit operand and the
      comparisons) are the integer operations modulo [2^256]; compact targets
      are decoded exactly and encoded with a bounded loss.
    - Difficulty: the required target never exceeds the limit of the network,
      Dark Gravity Wave is the average of twenty targets scaled modulo [2^256]
      by the time they took, kept between a third and three times the expected
      one, and [CheckProofOfWork] accepts exactly the hashes at or below a
      valid target.  [PowCorrect] also proves that the product overflows at the
      minimum difficulty of the main network, whatever the times of the blocks.
    - Emission: the sum of the subsidies of the main network never exceeds the
      maximal amount; [SubsidyCorrect] proves that the test network exceeds it.
      The masternode share is a part of the block value; signed overflow of its
      products is [None], and the bound on the value that excludes it is stated.
    - Block tree: insertion keeps the invariant (links, skip pointers, work,
      times, best header, parent index), ancestors are found and searches end,
      [SetTip] installs exactly the ancestors of the tip.
    - Messages: encodings are canonical and decode to what was encoded, header
      messages included.  Between two nodes whose indexes agree on the blocks
      both know, the answer to [getheaders] is a segment of the active chain
      above a common ancestor, cut at the stop hash and at the limit.
    - Miner: addresses; hexadecimal against a specification of its digits;
      when hashing does not fail, every share that is sent solves the job it
      names in every interleaving of the threads; a late report for an old job
      hides the solution of the current one.

    ** Fuel and bounds

    Loops of the code that run a computed number of times are recursions on
    that number.  Where the code walks pointers, the fuel is a height plus one,
    or the number of entries of the tree, and the theorems prove that it is
    enough: they state results, not only partial correctness.  Machine integers
    are [Z] with [u8], [u32] and [u64] written where the code truncates.
    Heights of blocks, and the step of [GetLocator] that they bound, are
    unbounded in the model, and job numbers wrap; theorems that depend on a
    width assume the bound ([2^31] blocks, [2^32] jobs).  Code of others
    that is called is a parameter with its documented laws: [mmap] and [munmap]
    ([Platform]), [realloc] ([MinerUtil]), [pow] of the C library ([Double]).

    ** What is not modelled

    The builds of the memory allocator without [mmap]; text conversions of
    numbers; reading the index from disk; the parameters of networks other than
    the two public ones; [ProcessHeadersMessage] and the state kept per peer;
    the miner's network code, command line and benchmark; and the parts of the
    node outside this path: connecting of blocks and transactions, scripts,
    wallet, masternodes and quorums, network, storage, interfaces and vendored
    libraries.

    ** Plan

    Next: the miner's construction of a block and of Stratum jobs
    ([build_block], [merkle], [stratum_job], [diff_to_target]), script numbers
    and the height in the coinbase, Merkle roots of the node, base 58. *)

From Stdlib Require Import ZArith Lia List.
From stdpp Require Export base tactics numbers list sets gmap options.

#[global] Set Default Proof Using "Type".

(** ** Machine words

    A [w]-bit unsigned integer is a [Z]; [uN] is the conversion to [uintN_t],
    that is the reduction modulo [2^N] that C performs on every unsigned
    operation. *)
Definition u8 (x : Z) : Z := x `mod` 2 ^ 8.
Definition u32 (x : Z) : Z := x `mod` 2 ^ 32.
Definition u64 (x : Z) : Z := x `mod` 2 ^ 64.

(** [in_width w x]: the value [x] fits in [w] bits. *)
Definition in_width (w x : Z) : Prop := (0 <= x < 2 ^ w)%Z.

Abbreviation is_u8 := (in_width 8).
Abbreviation is_u32 := (in_width 32).
Abbreviation is_u64 := (in_width 64).
Abbreviation bytes := (Forall is_u8).
Abbreviation words := (Forall is_u32).

#[global] Instance in_width_dec w x : Decision (in_width w x).
Proof. unfold in_width. apply _. Defined.

Declare Scope word_scope.
Delimit Scope word_scope with word.

(** 32-bit arithmetic as the sources write it. *)
Definition add32 (x y : Z) : Z := u32 (x + y).
Definition shl32 (x n : Z) : Z := u32 (x ≪ n).
Infix "+w" := add32 (at level 50, left associativity) : word_scope.
Infix "<<w" := shl32 (at level 35, right associativity) : word_scope.
Infix "^w" := Z.lxor (at level 47, left associativity) : word_scope.

Create HintDb width.

Section Words.
Local Open Scope Z_scope.

Lemma u8_width x : in_width 8 (u8 x).
Proof. by apply Z.mod_pos_bound. Qed.
Lemma u32_width x : in_width 32 (u32 x).
Proof. by apply Z.mod_pos_bound. Qed.
Lemma u64_width x : in_width 64 (u64 x).
Proof. by apply Z.mod_pos_bound. Qed.
Lemma add32_width x y : in_width 32 (add32 x y).
Proof. apply u32_width. Qed.

Lemma u8_id x : in_width 8 x → u8 x = x.
Proof. intros. unfold u8, in_width in *. by apply Z.mod_small. Qed.
Lemma u32_id x : in_width 32 x → u32 x = x.
Proof. intros. unfold u32, in_width in *. by apply Z.mod_small. Qed.
Lemma u64_id x : in_width 64 x → u64 x = x.
Proof. intros. unfold u64, in_width in *. by apply Z.mod_small. Qed.

Lemma add32_comm x y : add32 x y = add32 y x.
Proof. unfold add32. by rewrite Z.add_comm. Qed.
Lemma add32_assoc x y z : add32 (add32 x y) z = add32 x (add32 y z).
Proof.
  unfold add32, u32. rewrite Zplus_mod_idemp_l, Zplus_mod_idemp_r.
  f_equal; lia.
Qed.

(** A value fits in [w] bits exactly when its high bits vanish. *)
Lemma in_width_testbit w x i :
  0 <= w → in_width w x → w <= i → Z.testbit x i = false.
Proof.
  intros Hw [Hx0 Hx] Hi. destruct (decide (x = 0)) as [->|Hne].
  { apply Z.testbit_0_l. }
  apply Z.bits_above_log2; [lia|].
  apply Z.log2_lt_pow2; [lia|].
  eapply Z.lt_le_trans; [exact Hx|]. apply Z.pow_le_mono_r; lia.
Qed.

Lemma in_width_bits w x :
  0 <= w → 0 <= x → (∀ i, w <= i → Z.testbit x i = false) → in_width w x.
Proof.
  intros Hw Hx Hb. split; [done|].
  destruct (Z.lt_ge_cases x (2 ^ w)) as [|Hge]; [done|exfalso].
  assert (0 < 2 ^ w) by (apply Z.pow_pos_nonneg; lia).
  assert (w <= Z.log2 x) by (apply Z.log2_le_pow2; lia).
  specialize (Hb (Z.log2 x) ltac:(lia)).
  rewrite Z.bit_log2 in Hb by lia. done.
Qed.

Lemma lxor_width w x y :
  0 <= w → in_width w x → in_width w y → in_width w (Z.lxor x y).
Proof.
  intros Hw Hx Hy. apply in_width_bits; [done| |].
  - apply Z.lxor_nonneg. unfold in_width in *. lia.
  - intros i Hi. rewrite Z.lxor_spec.
    by rewrite !(in_width_testbit w) by done.
Qed.
Lemma lor_width w x y :
  0 <= w → in_width w x → in_width w y → in_width w (Z.lor x y).
Proof.
  intros Hw Hx Hy. apply in_width_bits; [done| |].
  - apply Z.lor_nonneg. unfold in_width in *. lia.
  - intros i Hi. rewrite Z.lor_spec.
    by rewrite !(in_width_testbit w) by done.
Qed.
Lemma land_width_l w x y :
  0 <= w → in_width w x → in_width w (Z.land x y).
Proof.
  intros Hw Hx. apply in_width_bits; [done| |].
  - apply Z.land_nonneg. unfold in_width in *. lia.
  - intros i Hi. rewrite Z.land_spec. by rewrite (in_width_testbit w x).
Qed.
Lemma land_width_r w x y :
  0 <= w → in_width w y → in_width w (Z.land x y).
Proof. rewrite Z.land_comm. apply land_width_l. Qed.
Lemma shiftr_width w x n :
  0 <= w → 0 <= n → in_width w x → in_width w (x ≫ n).
Proof.
  intros Hw Hn Hx. apply in_width_bits; [done| |].
  - apply Z.shiftr_nonneg. unfold in_width in *. lia.
  - intros i Hi. rewrite Z.shiftr_spec by lia.
    apply (in_width_testbit w); [done|done|lia].
Qed.
Lemma in_width_mono w v x : 0 <= w <= v → in_width w x → in_width v x.
Proof.
  intros Hwv [Hx0 Hx]. split; [done|].
  eapply Z.lt_le_trans; [exact Hx|]. apply Z.pow_le_mono_r; lia.
Qed.
End Words.

#[export] Hint Resolve u8_width u32_width u64_width add32_width : width.
#[export] Hint Extern 2 (in_width _ (Z.lxor _ _)) => apply lxor_width; [lia| |] : width.
#[export] Hint Extern 2 (in_width _ (Z.lor _ _)) => apply lor_width; [lia| |] : width.
#[export] Hint Extern 2 (in_width _ (Z.shiftr _ _)) => apply shiftr_width; [lia|lia|] : width.

(** ** Bitwise reasoning

    [bitwise] proves an equation between integers bit by bit: it pushes
    [Z.testbit] through the operations, and leaves the Boolean combination of
    range tests and atomic bits to case analysis. *)
Create Rewrite HintDb bits.
Create Rewrite HintDb len.
#[global] Hint Rewrite Z.lor_spec Z.land_spec Z.lxor_spec Z.ldiff_spec Z.testbit_0_l : bits.
#[global] Hint Rewrite Z.shiftl_spec Z.shiftr_spec Z.testbit_mod_pow2 using lia : bits.

Ltac split_bits :=
  repeat match goal with
  | |- context [Z.ltb ?a ?b] => destruct (Z.ltb_spec a b)
  | |- context [Z.testbit ?a ?i] =>
      match goal with
      | H : in_width ?w a |- _ =>
          rewrite (in_width_testbit w a i) by first [lia | exact H]
      | |- _ => rewrite (Z.testbit_neg_r a i) by lia
      end
  end;
  repeat match goal with
  | |- context [Z.testbit ?a ?i] => destruct (Z.testbit a i) eqn:?
  end;
  simpl; try congruence; try lia.

Ltac bitwise :=
  unfold add32, shl32, u8, u32, u64;
  apply Z.bits_inj'; intros ? ?; autorewrite with bits; split_bits.

(** ** Little- and big-endian byte strings *)
Fixpoint le_bytes (n : nat) (x : Z) : list Z :=
  match n with
  | O => []
  | S n => u8 x :: le_bytes n (x ≫ 8)
  end.

Fixpoint le_val (l : list Z) : Z :=
  match l with
  | [] => 0
  | b :: l => (b + 256 * le_val l)%Z
  end.

Definition be_bytes (n : nat) (x : Z) : list Z := reverse (le_bytes n x).
Definition be_val (l : list Z) : Z := le_val (reverse l).

Section Endian.
Local Open Scope Z_scope.

Lemma length_le_bytes n x : length (le_bytes n x) = n.
Proof. revert x; induction n; intros; simpl; auto. Qed.
Lemma length_be_bytes n x : length (be_bytes n x) = n.
Proof. unfold be_bytes. by rewrite length_reverse, length_le_bytes. Qed.
Lemma le_bytes_bytes n x : bytes (le_bytes n x).
Proof. revert x; induction n; intros; simpl; constructor; auto with width. Qed.
Lemma be_bytes_bytes n x : bytes (be_bytes n x).
Proof. unfold be_bytes. apply Forall_reverse, le_bytes_bytes. Qed.

Lemma le_val_nonneg l : bytes l → 0 <= le_val l.
Proof. induction 1 as [|b l [Hb _] _ IH]; simpl; lia. Qed.

Lemma le_val_bound l : bytes l → le_val l < 256 ^ Z.of_nat (length l).
Proof.
  induction 1 as [|b l [Hb Hb'] Hl IH]; [done|].
  change (le_val (b :: l)) with (b + 256 * le_val l).
  cbn [length]. rewrite Nat2Z.inj_succ, Z.pow_succ_r by lia.
  change (2 ^ 8) with 256 in Hb'. lia.
Qed.

Lemma le_val_le_bytes n x : le_val (le_bytes n x) = x `mod` 256 ^ Z.of_nat n.
Proof.
  revert x; induction n as [|n IH]; intros x; [by rewrite Z.mod_1_r|].
  cbn [le_bytes le_val]. rewrite IH, Nat2Z.inj_succ, Z.pow_succ_r by lia.
  unfold u8. change (2 ^ 8) with 256.
  rewrite Z.shiftr_div_pow2 by lia. change (2 ^ 8) with 256.
  rewrite Z.rem_mul_r by lia. lia.
Qed.

Lemma le_bytes_le_val l n : length l = n → bytes l → le_bytes n (le_val l) = l.
Proof.
  intros <-. induction 1 as [|b l [Hb Hb'] Hl IH]; [done|].
  cbn [length le_bytes le_val]. change (2 ^ 8) with 256 in Hb'.
  rewrite Z.shiftr_div_pow2 by lia. change (2 ^ 8) with 256.
  replace (b + 256 * le_val l) with (b + le_val l * 256) by lia.
  rewrite Z.div_add, Z.div_small, Z.add_0_l, IH by lia. f_equal.
  unfold u8. change (2 ^ 8) with 256.
  rewrite Z_mod_plus_full. by apply Z.mod_small.
Qed.

Lemma le_val_app l k :
  le_val (l ++ k) = le_val l + 256 ^ Z.of_nat (length l) * le_val k.
Proof.
  induction l as [|b l IH]; [simpl; lia|].
  cbn [app le_val length]. rewrite IH, Nat2Z.inj_succ, Z.pow_succ_r by lia. lia.
Qed.

Lemma be_val_be_bytes n x : be_val (be_bytes n x) = x `mod` 256 ^ Z.of_nat n.
Proof. unfold be_val, be_bytes. rewrite reverse_involutive. apply le_val_le_bytes. Qed.
Lemma be_bytes_be_val l n : length l = n → bytes l → be_bytes n (be_val l) = l.
Proof.
  intros Hn Hl. unfold be_val, be_bytes.
  rewrite le_bytes_le_val by (by rewrite ?length_reverse || by apply Forall_reverse).
  apply reverse_involutive.
Qed.
End Endian.

(** ** Writing into arrays

    [memcpy dst off src] is the array [dst] after [memcpy (dst + off, src, n)]
    with [n = length src]; every call below has [off + n <= length dst], and
    [memcpy_app] is what the proofs use. *)
Definition memcpy {A} (dst : list A) (off : nat) (src : list A) : list A :=
  list_inserts off src dst.

Section Arrays.
Context {A : Type}.
Implicit Types l k : list A.

Lemma length_memcpy l off k : length (memcpy l off k) = length l.
Proof. apply length_inserts. Qed.

Lemma memcpy_app l off k :
  off + length k ≤ length l →
  memcpy l off k = take off l ++ k ++ drop (off + length k) l.
Proof.
  intros Hle. unfold memcpy.
  rewrite <-(take_drop off l) at 1.
  replace off with (length (take off l) + 0) at 1 by (rewrite length_take; lia).
  rewrite list_inserts_app_r. f_equal.
  rewrite <-(take_drop (length k) (drop off l)), drop_drop.
  apply list_inserts_0_r. rewrite length_take, length_drop. lia.
Qed.

(** Filling an array completely overwrites it. *)
Lemma memcpy_all l k : length k = length l → memcpy l 0 k = k.
Proof.
  intros Hk. rewrite memcpy_app by lia.
  rewrite drop_ge by lia. by rewrite app_nil_r.
Qed.

Lemma take_memcpy l off k :
  off + length k ≤ length l → take (off + length k) (memcpy l off k) = take off l ++ k.
Proof.
  intros Hle. rewrite memcpy_app by done. rewrite app_assoc.
  apply take_app_length'. rewrite length_app, length_take. lia.
Qed.
End Arrays.

#[global] Hint Rewrite @length_memcpy @length_take @length_drop @length_app
  @length_replicate @length_insert @length_fmap @length_reverse
  @length_le_bytes @length_be_bytes : len.
Ltac len :=
  autorewrite with len; cbn [length]; autorewrite with len; first [lia | simpl; try lia].
