(* ===== verification/Sysendian.v ===== *)
(** * Byte-order helpers

    [src/src/crypto/yespower/sysendian.h] and the two [put_le] helpers of
    [src/contrib/korsh-miner/korsh-miner.c].  An encoder is modelled by the
    bytes it stores at [p[0]], [p[1]], ...; a decoder reads [p !!! k]. *)
From S2P Require Import Prelude.
Local Open Scope Z_scope.

(** ** [sysendian.h] *)
Definition be32dec (p : list Z) : Z :=
  add32 (add32 (add32 (p !!! 3%nat) (shl32 (p !!! 2%nat) 8))
               (shl32 (p !!! 1%nat) 16)) (shl32 (p !!! 0%nat) 24).

Definition be32enc (x : Z) : list Z :=
  [Z.land (x ≫ 24) 0xff; Z.land (x ≫ 16) 0xff; Z.land (x ≫ 8) 0xff; Z.land x 0xff].

Definition be64enc (x : Z) : list Z :=
  [Z.land (x ≫ 56) 0xff; Z.land (x ≫ 48) 0xff; Z.land (x ≫ 40) 0xff; Z.land (x ≫ 32) 0xff;
   Z.land (x ≫ 24) 0xff; Z.land (x ≫ 16) 0xff; Z.land (x ≫ 8) 0xff; Z.land x 0xff].

Definition le32dec (p : list Z) : Z :=
  add32 (add32 (add32 (p !!! 0%nat) (shl32 (p !!! 1%nat) 8))
               (shl32 (p !!! 2%nat) 16)) (shl32 (p !!! 3%nat) 24).

Definition le32enc (x : Z) : list Z :=
  [Z.land x 0xff; Z.land (x ≫ 8) 0xff; Z.land (x ≫ 16) 0xff; Z.land (x ≫ 24) 0xff].

(** ** [korsh-miner.c] *)
Definition put_le32 (v : Z) : list Z := (λ i, u8 (v ≫ (8 * Z.of_nat i))) <$> seq 0 4.
Definition put_le64 (v : Z) : list Z := (λ i, u8 (v ≫ (8 * Z.of_nat i))) <$> seq 0 8.

(** ** Relation to the reference encodings of [Prelude] *)
Lemma land_ff x : Z.land x 0xff = u8 x.
Proof. unfold u8. change 0xff with (Z.ones 8). by rewrite Z.land_ones. Qed.

Lemma le32enc_le_bytes x : le32enc x = le_bytes 4 x.
Proof. unfold le32enc. rewrite !land_ff. simpl. by rewrite !Z.shiftr_shiftr by lia. Qed.
Lemma put_le32_le_bytes x : put_le32 x = le_bytes 4 x.
Proof. cbn. rewrite !Z.shiftr_shiftr by lia. by rewrite Z.shiftr_0_r. Qed.
Lemma put_le64_le_bytes x : put_le64 x = le_bytes 8 x.
Proof. cbn. rewrite !Z.shiftr_shiftr by lia. by rewrite Z.shiftr_0_r. Qed.
Lemma be32enc_be_bytes x : be32enc x = be_bytes 4 x.
Proof. unfold be32enc. rewrite !land_ff. cbn. by rewrite !Z.shiftr_shiftr by lia. Qed.
Lemma be64enc_be_bytes x : be64enc x = be_bytes 8 x.
Proof. unfold be64enc. rewrite !land_ff. cbn. by rewrite !Z.shiftr_shiftr by lia. Qed.

Lemma list_len4 {A} (l : list A) : length l = 4%nat → ∃ a b c d, l = [a; b; c; d].
Proof. destruct l as [|a [|b [|c [|d [|]]]]]; try done. by exists a, b, c, d. Qed.

Lemma combine4 a b c d :
  is_u8 a → is_u8 b → is_u8 c → is_u8 d →
  add32 (add32 (add32 a (shl32 b 8)) (shl32 c 16)) (shl32 d 24)
  = a + 256 * (b + 256 * (c + 256 * d)).
Proof.
  unfold in_width. change (2 ^ 8) with 256. intros Ha Hb Hc Hd.
  unfold add32, shl32, u32. change (2 ^ 32) with 4294967296.
  rewrite !Z.shiftl_mul_pow2 by lia.
  change (2 ^ 8) with 256. change (2 ^ 16) with 65536. change (2 ^ 24) with 16777216.
  rewrite (Z.mod_small (b * _)), (Z.mod_small (c * _)), (Z.mod_small (d * _)) by lia.
  rewrite (Z.mod_small (a + _)) by lia.
  rewrite (Z.mod_small (a + _ + _)) by lia.
  rewrite Z.mod_small by lia. lia.
Qed.

Lemma le32dec_le_val p : length p = 4%nat → bytes p → le32dec p = le_val p.
Proof.
  intros (a & b & c & d & ->)%list_len4 Hp. rewrite !Forall_cons in Hp.
  destruct Hp as (Ha & Hb & Hc & Hd & _). unfold le32dec. simpl.
  rewrite combine4 by done. lia.
Qed.
Lemma be32dec_be_val p : length p = 4%nat → bytes p → be32dec p = be_val p.
Proof.
  intros (a & b & c & d & ->)%list_len4 Hp. rewrite !Forall_cons in Hp.
  destruct Hp as (Ha & Hb & Hc & Hd & _). unfold be32dec, be_val. cbn.
  rewrite combine4 by done. lia.
Qed.

Lemma be32dec_width p : is_u32 (be32dec p).
Proof. apply add32_width. Qed.
Lemma le32dec_width p : is_u32 (le32dec p).
Proof. apply add32_width. Qed.

(** The decoders invert the encoders on every 32-bit word, and conversely on
    every four bytes. *)
Lemma le32dec_enc x : is_u32 x → le32dec (le32enc x) = x.
Proof.
  intros Hx. rewrite le32enc_le_bytes, le32dec_le_val, le_val_le_bytes
    by (rewrite ?length_le_bytes; auto using le_bytes_bytes).
  by apply Z.mod_small.
Qed.
Lemma be32dec_enc x : is_u32 x → be32dec (be32enc x) = x.
Proof.
  intros Hx. rewrite be32enc_be_bytes, be32dec_be_val, be_val_be_bytes
    by (rewrite ?length_be_bytes; auto using be_bytes_bytes).
  by apply Z.mod_small.
Qed.
Lemma le32enc_dec p : length p = 4%nat → bytes p → le32enc (le32dec p) = p.
Proof. intros. rewrite le32enc_le_bytes, le32dec_le_val by done. by apply le_bytes_le_val. Qed.
Lemma be32enc_dec p : length p = 4%nat → bytes p → be32enc (be32dec p) = p.
Proof. intros. rewrite be32enc_be_bytes, be32dec_be_val by done. by apply be_bytes_be_val. Qed.

Lemma be32enc_bytes x : bytes (be32enc x).
Proof. rewrite be32enc_be_bytes. apply be_bytes_bytes. Qed.
Lemma le32enc_bytes x : bytes (le32enc x).
Proof. rewrite le32enc_le_bytes. apply le_bytes_bytes. Qed.
Lemma be64enc_bytes x : bytes (be64enc x).
Proof. rewrite be64enc_be_bytes. apply be_bytes_bytes. Qed.

#[export] Hint Resolve be32dec_width le32dec_width : width.
