(* ===== verification/Sha256.v ===== *)
(** * SHA-256 as implemented by the proof of work

    [src/src/crypto/yespower/sha256.c]: the block transform and the
    incremental hashing of [SHA256_CTX].  The functions take and return the
    scratch array [tmp32[72]] the way the C code passes it down; its two parts
    [W = &tmp32[0]] and [S = &tmp32[64]] are the pair [tmp32]. *)
From S2P Require Import Prelude Sysendian.

Section Macros.
Local Open Scope Z_scope.

(** ** Vectors of big-endian words *)
Fixpoint be32enc_vect (src : list Z) (len : nat) : list Z :=
  match len with
  | O => []
  | S len => be32enc (src !!! 0%nat) ++ be32enc (src !!! 1%nat) ++ be32enc_vect (drop 2 src) len
  end.

Fixpoint be32dec_vect (src : list Z) (len : nat) : list Z :=
  match len with
  | O => []
  | S len => be32dec src :: be32dec (drop 4 src) :: be32dec_vect (drop 8 src) len
  end.

(** ** Round constants and elementary functions *)
Definition Krnd : list Z := mjoin [
    [0x428a2f98; 0x71374491; 0xb5c0fbcf; 0xe9b5dba5];
    [0x3956c25b; 0x59f111f1; 0x923f82a4; 0xab1c5ed5];
    [0xd807aa98; 0x12835b01; 0x243185be; 0x550c7dc3];
    [0x72be5d74; 0x80deb1fe; 0x9bdc06a7; 0xc19bf174];
    [0xe49b69c1; 0xefbe4786; 0x0fc19dc6; 0x240ca1cc];
    [0x2de92c6f; 0x4a7484aa; 0x5cb0a9dc; 0x76f988da];
    [0x983e5152; 0xa831c66d; 0xb00327c8; 0xbf597fc7];
    [0xc6e00bf3; 0xd5a79147; 0x06ca6351; 0x14292967];
    [0x27b70a85; 0x2e1b2138; 0x4d2c6dfc; 0x53380d13];
    [0x650a7354; 0x766a0abb; 0x81c2c92e; 0x92722c85];
    [0xa2bfe8a1; 0xa81a664b; 0xc24b8b70; 0xc76c51a3];
    [0xd192e819; 0xd6990624; 0xf40e3585; 0x106aa070];
    [0x19a4c116; 0x1e376c08; 0x2748774c; 0x34b0bcb5];
    [0x391c0cb3; 0x4ed8aa4a; 0x5b9cca4f; 0x682e6ff3];
    [0x748f82ee; 0x78a5636f; 0x84c87814; 0x8cc70208];
    [0x90befffa; 0xa4506ceb; 0xbef9a3f7; 0xc67178f2]].

Definition Ch (x y z : Z) : Z := Z.lxor (Z.land x (Z.lxor y z)) z.
Definition Maj (x y z : Z) : Z := Z.lor (Z.land x (Z.lor y z)) (Z.land y z).
Definition SHR (x n : Z) : Z := x ≫ n.
Definition ROTR (x n : Z) : Z := Z.lor (x ≫ n) (shl32 x (32 - n)).
Definition S0 (x : Z) : Z := Z.lxor (Z.lxor (ROTR x 2) (ROTR x 13)) (ROTR x 22).
Definition S1 (x : Z) : Z := Z.lxor (Z.lxor (ROTR x 6) (ROTR x 11)) (ROTR x 25).
Definition s0 (x : Z) : Z := Z.lxor (Z.lxor (ROTR x 7) (ROTR x 18)) (SHR x 3).
Definition s1 (x : Z) : Z := Z.lxor (Z.lxor (ROTR x 17) (ROTR x 19)) (SHR x 10).
End Macros.

(** [RND(a,b,c,d,e,f,g,h,k)] on the working variables at the given places of [S] ([Sw] here). *)
Definition RND (Sw : list Z) (a b c d e f g h : nat) (k : Z) : list Z :=
  let Sw := <[h := add32 (Sw !!! h)
                    (add32 (add32 (S1 (Sw !!! e)) (Ch (Sw !!! e) (Sw !!! f) (Sw !!! g))) k)]> Sw in
  let Sw := <[d := add32 (Sw !!! d) (Sw !!! h)]> Sw in
  <[h := add32 (Sw !!! h) (add32 (S0 (Sw !!! a)) (Maj (Sw !!! a) (Sw !!! b) (Sw !!! c)))]> Sw.

Definition RNDr (Sw W : list Z) (i ii : nat) : list Z :=
  RND Sw ((64 - i) `mod` 8) ((65 - i) `mod` 8) ((66 - i) `mod` 8) ((67 - i) `mod` 8)
        ((68 - i) `mod` 8) ((69 - i) `mod` 8) ((70 - i) `mod` 8) ((71 - i) `mod` 8)
        (add32 (W !!! (i + ii)) (Krnd !!! (i + ii))).

Definition MSCH (W : list Z) (ii i : nat) : list Z :=
  <[i + ii + 16 :=
      add32 (add32 (add32 (s1 (W !!! (i + ii + 14))) (W !!! (i + ii + 9)))
                   (s0 (W !!! (i + ii + 1)))) (W !!! (i + ii))]> W.

(** One turn of the mixing loop: sixteen rounds, then (unless [i == 48]) the
    next sixteen words of the message schedule. *)
Definition mix16 (WS : list Z * list Z) (i : nat) : list Z * list Z :=
  let '(W, Sw) := WS in
  let Sw := foldl (λ Sw j, RNDr Sw W j i) Sw (seq 0 16) in
  if (i =? 48)%nat then (W, Sw)
  else (foldl (λ W j, MSCH W j i) W (seq 0 16), Sw).

Definition SHA256_Transform (state block : list Z) (tmp32 : list Z * list Z)
    : list Z * (list Z * list Z) :=
  let '(W, Sw) := tmp32 in
  let W := memcpy W 0 (be32dec_vect block 8) in
  let Sw := memcpy Sw 0 state in
  let '(W, Sw) := foldl mix16 (W, Sw) [0; 16; 32; 48] in
  (zip_with add32 state Sw, (W, Sw)).

Definition PAD : list Z := 0x80%Z :: replicate 63 0%Z.

Definition initial_state : list Z :=
  [0x6A09E667; 0xBB67AE85; 0x3C6EF372; 0xA54FF53A]%Z ++
  [0x510E527F; 0x9B05688C; 0x1F83D9AB; 0x5BE0CD19]%Z.

(** ** Incremental hashing *)
Record SHA256_CTX := mkSHA256_CTX {
  state : list Z;   (* uint32_t state[8] *)
  count : Z;        (* uint64_t count: bits processed *)
  buf : list Z      (* uint8_t buf[64] *)
}.

(** [SHA256_Init] leaves [ctx->buf] as it was. *)
Definition SHA256_Init (ctx : SHA256_CTX) : SHA256_CTX :=
  mkSHA256_CTX initial_state 0 (buf ctx).

(** [(ctx->count >> 3) & 0x3f]: the number of buffered bytes. *)
Definition buffered (ctx : SHA256_CTX) : nat := Z.to_nat (Z.land (count ctx ≫ 3) 0x3f).

Definition SHA256_Pad (ctx : SHA256_CTX) (tmp32 : list Z * list Z)
    : SHA256_CTX * (list Z * list Z) :=
  let r := buffered ctx in
  let '(st, bf, tmp32) :=
    if (r <? 56)%nat then (state ctx, memcpy (buf ctx) r (take (56 - r) PAD), tmp32)
    else
      let bf := memcpy (buf ctx) r (take (64 - r) PAD) in
      let '(st, tmp32) := SHA256_Transform (state ctx) bf tmp32 in
      (st, memcpy bf 0 (replicate 56 0%Z), tmp32) in
  let bf := memcpy bf 56 (be64enc (count ctx)) in
  let '(st, tmp32) := SHA256_Transform st bf tmp32 in
  (mkSHA256_CTX st (count ctx) bf, tmp32).

(** [while (len >= 64) { SHA256_Transform(...); src += 64; len -= 64; }]; one
    unit of fuel per turn, so [length src] units are enough. *)
Fixpoint update_blocks (fuel : nat) (st src : list Z) (tmp32 : list Z * list Z)
    : list Z * list Z * (list Z * list Z) :=
  match fuel with
  | O => (st, src, tmp32)
  | S fuel =>
      if (64 <=? length src)%nat then
        let '(st, tmp32) := SHA256_Transform st (take 64 src) tmp32 in
        update_blocks fuel st (drop 64 src) tmp32
      else (st, src, tmp32)
  end.

Definition _SHA256_Update (ctx : SHA256_CTX) (src : list Z) (tmp32 : list Z * list Z)
    : SHA256_CTX * (list Z * list Z) :=
  let len := length src in
  if (len =? 0)%nat then (ctx, tmp32) else
  let r := buffered ctx in
  let cnt := u64 (count ctx + u64 (Z.of_nat len ≪ 3)) in
  if (len <? 64 - r)%nat then (mkSHA256_CTX (state ctx) cnt (memcpy (buf ctx) r src), tmp32)
  else
    let bf := memcpy (buf ctx) r (take (64 - r) src) in
    let '(st, tmp32) := SHA256_Transform (state ctx) bf tmp32 in
    let '(st, src, tmp32) := update_blocks len st (drop (64 - r) src) tmp32 in
    (mkSHA256_CTX st cnt (memcpy bf 0 src), tmp32).

Definition _SHA256_Final (ctx : SHA256_CTX) (tmp32 : list Z * list Z)
    : list Z * SHA256_CTX * (list Z * list Z) :=
  let '(ctx, tmp32) := SHA256_Pad ctx tmp32 in
  (be32enc_vect (state ctx) 4, ctx, tmp32).

(** The public wrappers run on their own stack: [ctx0] and [tmp0] are its
    arbitrary contents. *)
Definition SHA256_Update (tmp0 : list Z * list Z) (ctx : SHA256_CTX) (src : list Z) : SHA256_CTX :=
  fst (_SHA256_Update ctx src tmp0).

Definition SHA256_Final (tmp0 : list Z * list Z) (ctx : SHA256_CTX) : list Z :=
  fst (fst (_SHA256_Final ctx tmp0)).

Definition SHA256_Buf (ctx0 : SHA256_CTX) (tmp0 : list Z * list Z) (src : list Z) : list Z :=
  let ctx := SHA256_Init ctx0 in
  let '(ctx, tmp32) := _SHA256_Update ctx src tmp0 in
  let '(digest, _, _) := _SHA256_Final ctx tmp32 in
  digest.
