(* ===== verification/Sha256Spec.v ===== *)
(** * SHA-256, the reference definition

    The hash of FIPS 180-4 as a function of the whole message: the message
    schedule is computed first, the eight working variables are renamed every
    round, and the padding is appended in one piece.  [Sha256Correct] proves
    that the incremental, in-place code of [Sha256] computes this function. *)
From S2P Require Import Prelude Sysendian Sha256.

(** FIPS 180-4, equations 4.2 and 4.3. *)
Definition fips_Ch (x y z : Z) : Z := Z.lxor (Z.land x y) (Z.land (Z.lnot x) z).
Definition fips_Maj (x y z : Z) : Z := Z.lxor (Z.lxor (Z.land x y) (Z.land x z)) (Z.land y z).

(** Section 6.2.2, step 1: the sixteen message words and the 48 derived ones. *)
Definition block_words (block : list Z) : list Z :=
  (λ t, be_val (take 4 (drop (4 * t) block))) <$> seq 0 16.

Definition schedule_next (W : list Z) : Z :=
  let t := length W in
  add32 (add32 (s1 (W !!! (t - 2))) (W !!! (t - 7)))
        (add32 (s0 (W !!! (t - 15))) (W !!! (t - 16))).

Fixpoint schedule_extend (n : nat) (W : list Z) : list Z :=
  match n with
  | O => W
  | S n => schedule_extend n (W ++ [schedule_next W])
  end.

Definition schedule (block : list Z) : list Z := schedule_extend 48 (block_words block).

(** Step 3: one round on the working variables [a..h]. *)
Definition fips_round (v : list Z) (k w : Z) : list Z :=
  match v with
  | [a; b; c; d; e; f; g; h] =>
      let T1 := add32 (add32 (add32 (add32 h (S1 e)) (fips_Ch e f g)) k) w in
      let T2 := add32 (S0 a) (fips_Maj a b c) in
      [add32 T1 T2; a; b; c; add32 d T1; e; f; g]
  | _ => v
  end.

Definition fips_rounds (W : list Z) (v : list Z) (ts : list nat) : list Z :=
  foldl (λ v t, fips_round v (Krnd !!! t) (W !!! t)) v ts.

(** Step 4. *)
Definition compress (H block : list Z) : list Z :=
  zip_with add32 H (fips_rounds (schedule block) H (seq 0 64)).

(** The hash state after the first [n] blocks of a message. *)
Fixpoint compress_blocks (n : nat) (H msg : list Z) : list Z :=
  match n with
  | O => H
  | S n => compress_blocks n (compress H (take 64 msg)) (drop 64 msg)
  end.

(** Section 5.1.1: a one bit, zeros up to 56 modulo 64 bytes, the bit length. *)
Definition pad_zeros (len : nat) : nat := (119 - len `mod` 64) `mod` 64.
Definition padded (msg : list Z) : list Z :=
  msg ++ 0x80%Z :: replicate (pad_zeros (length msg)) 0%Z ++
  be_bytes 8 (8 * Z.of_nat (length msg)).

Definition digest_bytes (H : list Z) : list Z := H ≫= be_bytes 4.

Definition sha256 (msg : list Z) : list Z :=
  let p := padded msg in
  digest_bytes (compress_blocks (length p / 64) initial_state p).

(** ** Facts about the reference definition *)
Lemma length_fips_round v k w : length (fips_round v k w) = length v.
Proof. by destruct v as [|?[|?[|?[|?[|?[|?[|?[|?[|]]]]]]]]]. Qed.

Lemma length_fips_rounds W v ts : length (fips_rounds W v ts) = length v.
Proof.
  unfold fips_rounds. revert v; induction ts; intros; simpl; [done|].
  rewrite IHts. apply length_fips_round.
Qed.

Lemma length_compress H block : length (compress H block) = length H.
Proof. unfold compress. rewrite length_zip_with, length_fips_rounds. lia. Qed.

Lemma length_compress_blocks n H msg : length (compress_blocks n H msg) = length H.
Proof.
  revert H msg; induction n; intros; simpl; [done|]. rewrite IHn. apply length_compress.
Qed.

Lemma fips_rounds_app W v ts ts' :
  fips_rounds W v (ts ++ ts') = fips_rounds W (fips_rounds W v ts) ts'.
Proof. apply foldl_app. Qed.

Lemma compress_blocks_app n m H l k :
  length l = 64 * n →
  compress_blocks (n + m) H (l ++ k) = compress_blocks m (compress_blocks n H l) k.
Proof.
  revert H l; induction n as [|n IH]; intros H l Hl; simpl.
  { by destruct l. }
  rewrite take_app_le by lia. rewrite drop_app_le by lia.
  apply IH. rewrite length_drop. lia.
Qed.

(** Only the bytes of complete blocks matter. *)
Lemma compress_blocks_prefix n H l k :
  64 * n ≤ length l → compress_blocks n H (l ++ k) = compress_blocks n H l.
Proof.
  revert H l; induction n as [|n IH]; intros H l Hl; [done|]. cbn [compress_blocks].
  rewrite take_app_le, drop_app_le by lia. apply IH. len.
Qed.

Lemma compress_blocks_S n H l :
  compress_blocks (S n) H l = compress (compress_blocks n H l) (take 64 (drop (64 * n) l)).
Proof.
  revert H l; induction n as [|n IH]; intros H l; [done|].
  change (compress_blocks (S (S n)) H l)
    with (compress_blocks (S n) (compress H (take 64 l)) (drop 64 l)).
  rewrite IH. cbn [compress_blocks]. rewrite drop_drop.
  by replace (64 * S n) with (64 + 64 * n) by lia.
Qed.

Lemma pad_zeros_spec len : (len + 9 + pad_zeros len) `mod` 64 = 0.
Proof.
  unfold pad_zeros. pose proof (Nat.mod_upper_bound len 64).
  rewrite Nat.Div0.add_mod_idemp_r.
  rewrite (Nat.div_mod_eq len 64) at 1.
  replace (64 * (len `div` 64) + len `mod` 64 + 9 + (119 - len `mod` 64))
    with (0 + (len `div` 64 + 2) * 64) by lia.
  by rewrite Nat.Div0.mod_add.
Qed.

Lemma length_padded msg : length (padded msg) = length msg + 9 + pad_zeros (length msg).
Proof. unfold padded. rewrite length_app. simpl. len. Qed.

Lemma length_digest_bytes H : length (digest_bytes H) = 4 * length H.
Proof. unfold digest_bytes. induction H; csimpl; len. Qed.

Lemma sha256_length msg : length (sha256 msg) = 32.
Proof.
  unfold sha256. by rewrite length_digest_bytes, length_compress_blocks.
Qed.

Lemma sha256_bytes msg : bytes (sha256 msg).
Proof.
  unfold sha256, digest_bytes.
  apply Forall_bind, Forall_true. intros x. apply be_bytes_bytes.
Qed.

(** When the last partial block leaves room for the padding, the hash is one
    compression of [final_block msg]. *)
Definition final_block (msg : list Z) : list Z :=
  drop (64 * (length msg / 64)) msg ++
  (0x80%Z :: replicate (55 - length msg `mod` 64) 0%Z) ++
  be_bytes 8 (8 * Z.of_nat (length msg)).

Lemma pad_zeros_lt len : len `mod` 64 < 56 → pad_zeros len = 55 - len `mod` 64.
Proof.
  intros Hr. unfold pad_zeros.
  replace (119 - len `mod` 64) with ((55 - len `mod` 64) + 1 * 64) by lia.
  rewrite Nat.Div0.mod_add. apply Nat.mod_small. lia.
Qed.
Lemma pad_zeros_ge len : 56 ≤ len `mod` 64 → pad_zeros len = 119 - len `mod` 64.
Proof. intros Hr. unfold pad_zeros. apply Nat.mod_small. lia. Qed.

Lemma length_final_block msg : length msg `mod` 64 < 56 → length (final_block msg) = 64.
Proof.
  intros Hr. unfold final_block. pose proof (Nat.div_mod_eq (length msg) 64). len.
Qed.

Lemma padded_final_block msg :
  length msg `mod` 64 < 56 →
  padded msg = take (64 * (length msg / 64)) msg ++ final_block msg.
Proof.
  intros Hr. unfold padded, final_block.
  rewrite app_assoc, take_drop, pad_zeros_lt by done. done.
Qed.

Lemma compress_blocks_padded_lt msg :
  length msg `mod` 64 < 56 →
  compress_blocks (length (padded msg) / 64) initial_state (padded msg)
  = compress (compress_blocks (length msg / 64) initial_state msg) (final_block msg).
Proof.
  intros Hr. pose proof (Nat.div_mod_eq (length msg) 64).
  assert (length (padded msg) / 64 = length msg / 64 + 1) as ->.
  { rewrite length_padded, pad_zeros_lt by done.
    replace (_ + 9 + _) with ((length msg / 64 + 1) * 64) by lia. by apply Nat.div_mul. }
  rewrite padded_final_block, compress_blocks_app by len. cbn [compress_blocks].
  rewrite (take_ge (final_block msg)) by (rewrite length_final_block; lia). f_equal.
  rewrite <-(compress_blocks_prefix _ _ (take _ msg) (drop (64 * (length msg / 64)) msg)) by len.
  by rewrite take_drop.
Qed.

Lemma sha256_final_block msg :
  length msg `mod` 64 < 56 →
  sha256 msg = digest_bytes
    (compress (compress_blocks (length msg / 64) initial_state msg) (final_block msg)).
Proof. intros. unfold sha256. by rewrite compress_blocks_padded_lt. Qed.

(** Known answers (FIPS 180-4 example B.1 and the empty message). *)
Example sha256_abc :
  be_val (sha256 [97; 98; 99]%Z)
  = 0xba7816bf8f01cfea414140de5dae2223b00361a396177a9cb410ff61f20015ad%Z.
Proof. vm_compute. reflexivity. Qed.
Example sha256_empty :
  be_val (sha256 [])
  = 0xe3b0c44298fc1c149afbf4c8996fb92427ae41e4649b934ca495991b7852b855%Z.
Proof. vm_compute. reflexivity. Qed.
