(* ===== verification/Sha256Correct.v ===== *)
(** * The SHA-256 code computes the reference hash

    First the block transform (rotating working array, schedule interleaved
    with the rounds), then the context invariant [hashed ctx msg] and the
    operations of [SHA256_CTX]. *)
From S2P Require Import Prelude Sysendian Sha256 Sha256Spec.

(** ** Elementary functions *)
Lemma Ch_fips x y z : Ch x y z = fips_Ch x y z.
Proof.
  unfold Ch, fips_Ch. apply Z.bits_inj'; intros i Hi.
  rewrite !Z.lxor_spec, !Z.land_spec, Z.lxor_spec, Z.lnot_spec by done.
  by destruct (Z.testbit x i), (Z.testbit y i), (Z.testbit z i).
Qed.
Lemma Maj_fips x y z : Maj x y z = fips_Maj x y z.
Proof.
  unfold Maj, fips_Maj. apply Z.bits_inj'; intros i Hi. autorewrite with bits.
  by destruct (Z.testbit x i), (Z.testbit y i), (Z.testbit z i).
Qed.

(** ** The rotating working array

    [view i S] lists the places that play the roles [a..h] in round [i]. *)
Definition view (i : nat) (Sw : list Z) : list Z :=
  (λ k, Sw !!! ((64 - i + k) `mod` 8)) <$> seq 0 8.

Lemma list_len8 {A} (l : list A) :
  length l = 8 → ∃ a b c d e f g h, l = [a; b; c; d; e; f; g; h].
Proof.
  destruct l as [|a [|b [|c [|d [|e [|f [|g [|h [|]]]]]]]]]; try done.
  by exists a, b, c, d, e, f, g, h.
Qed.

Lemma view_0 Sw : length Sw = 8 → view 0 Sw = Sw.
Proof. by intros (a&b&c&d&e&f&g&h&->)%list_len8. Qed.
Lemma view_16 Sw : length Sw = 8 → view 16 Sw = Sw.
Proof. by intros (a&b&c&d&e&f&g&h&->)%list_len8. Qed.

Lemma length_RNDr Sw W i ii : length (RNDr Sw W i ii) = length Sw.
Proof. unfold RNDr, RND. len. Qed.

(** The round on the array is the round of the standard on the view. *)
Lemma RND_view i Sw k w :
  length Sw = 8 → i < 16 →
  view (S i) (RND Sw ((64 - i) `mod` 8) ((65 - i) `mod` 8) ((66 - i) `mod` 8)
                ((67 - i) `mod` 8) ((68 - i) `mod` 8) ((69 - i) `mod` 8)
                ((70 - i) `mod` 8) ((71 - i) `mod` 8) (add32 w k))
  = fips_round (view i Sw) k w.
Proof.
  intros (a&b&c&d&e&f&g&h&->)%list_len8 Hi.
  do 16 (destruct i as [|i];
    [cbv -[add32 S0 S1 Ch Maj fips_Ch fips_Maj];
     rewrite !Ch_fips, !Maj_fips, (add32_comm w k), <-!add32_assoc; reflexivity|]).
  lia.
Qed.

Lemma rounds16 Sw W i :
  length Sw = 8 →
  foldl (λ Sw j, RNDr Sw W j i) Sw (seq 0 16) = fips_rounds W Sw (seq i 16).
Proof.
  intros HS. replace (seq i 16) with (Nat.add i <$> seq 0 16)
    by (by rewrite fmap_add_seq, Nat.add_0_r).
  cut (∀ n, n ≤ 16 →
    view n (foldl (λ Sw j, RNDr Sw W j i) Sw (seq 0 n))
    = fips_rounds W Sw (Nat.add i <$> seq 0 n)
    ∧ length (foldl (λ Sw j, RNDr Sw W j i) Sw (seq 0 n)) = 8).
  { intros H. destruct (H 16) as [<- Hl]; [lia|]. by rewrite view_16. }
  induction n as [|n IH]; intros Hn.
  { simpl. by rewrite view_0. }
  destruct IH as [IHv IHl]; [lia|].
  rewrite seq_S, foldl_app, fmap_app, fips_rounds_app. cbn [foldl fmap list_fmap].
  rewrite length_RNDr. split; [|done].
  revert IHv IHl. generalize (foldl (λ Sw j, RNDr Sw W j i) Sw (seq 0 n)). intros acc IHv IHl.
  unfold RNDr. rewrite RND_view by (done || lia).
  rewrite !Nat.add_0_l, IHv. unfold fips_rounds at 2. simpl. by rewrite (Nat.add_comm n i).
Qed.

(** ** The message schedule, computed in place *)
Lemma length_be32dec_vect src n : length (be32dec_vect src n) = 2 * n.
Proof. revert src; induction n; intros; simpl; [done|]. rewrite IHn. lia. Qed.

Lemma be32dec_take p : be32dec p = be32dec (take 4 p).
Proof. by destruct p as [|?[|?[|?[|]]]]. Qed.

Lemma be32dec_vect_block_words block :
  length block = 64 → bytes block → be32dec_vect block 8 = block_words block.
Proof.
  intros Hl Hb. unfold block_words. simpl. rewrite !drop_drop. simpl.
  rewrite !(be32dec_take (drop _ _)), (be32dec_take block).
  rewrite !be32dec_be_val; first reflexivity.
  all: first [solve [len] | by apply Forall_take, Forall_drop | by apply Forall_take].
Qed.

Lemma length_schedule_extend n W : length (schedule_extend n W) = length W + n.
Proof. revert W; induction n; intros W; simpl; [lia|]. rewrite IHn. len. Qed.

Lemma schedule_extend_prefix n W k :
  k < length W → schedule_extend n W !!! k = W !!! k.
Proof.
  revert W; induction n; intros W Hk; simpl; [done|].
  rewrite IHn by len. by rewrite lookup_total_app_l.
Qed.

Lemma schedule_extend_rec n W t :
  16 ≤ length W → length W ≤ t < length W + n →
  let R := schedule_extend n W in
  R !!! t = add32 (add32 (s1 (R !!! (t - 2))) (R !!! (t - 7)))
                  (add32 (s0 (R !!! (t - 15))) (R !!! (t - 16))).
Proof.
  revert W; induction n as [|n IH]; intros W HW Ht; [lia|]. simpl.
  destruct (decide (t = length W)) as [->|Hne].
  - rewrite !(schedule_extend_prefix n) by len.
    rewrite lookup_total_app_r, Nat.sub_diag by lia.
    rewrite !lookup_total_app_l by lia. reflexivity.
  - apply IH; len.
Qed.

(** [scheduled sp t W]: the first [t] words of the array [W] are final. *)
Definition scheduled (sp : list Z) (t : nat) (W : list Z) : Prop :=
  length W = 64 ∧ ∀ k, k < t → W !!! k = sp !!! k.

Lemma MSCH_scheduled block ii i W :
  i + ii + 16 < 64 →
  scheduled (schedule block) (i + ii + 16) W →
  scheduled (schedule block) (S (i + ii + 16)) (MSCH W ii i).
Proof.
  intros Hlt [HW Hsp]. split; [unfold MSCH; len|]. intros k Hk. unfold MSCH.
  destruct (decide (k = i + ii + 16)) as [->|Hne].
  - rewrite list_lookup_total_insert_eq by lia.
    rewrite !Hsp by lia. unfold schedule at 5.
    rewrite schedule_extend_rec by (unfold block_words; len).
    rewrite add32_assoc. repeat f_equal; lia.
  - rewrite list_lookup_total_insert_ne by lia. apply Hsp. lia.
Qed.

Lemma msch16 block i W :
  i + 32 ≤ 64 → scheduled (schedule block) (i + 16) W →
  scheduled (schedule block) (i + 32) (foldl (λ W j, MSCH W j i) W (seq 0 16)).
Proof.
  intros Hi HW.
  cut (∀ n, n ≤ 16 → scheduled (schedule block) (i + 16 + n)
                       (foldl (λ W j, MSCH W j i) W (seq 0 n))).
  { intros H. replace (i + 32) with (i + 16 + 16) by lia. by apply H. }
  induction n as [|n IH]; intros Hn; [by rewrite Nat.add_0_r|].
  rewrite seq_S, foldl_app. cbn [foldl].
  replace (i + 16 + S n) with (S (i + n + 16)) by lia.
  apply MSCH_scheduled; [lia|]. replace (i + (0 + n) + 16) with (i + 16 + n) by lia.
  apply IH. lia.
Qed.

Lemma fips_rounds_ext W W' v ts :
  (∀ t, t ∈ ts → W !!! t = W' !!! t) → fips_rounds W v ts = fips_rounds W' v ts.
Proof.
  unfold fips_rounds. revert v; induction ts as [|t ts IH]; intros v Heq; simpl; [done|].
  rewrite Heq by set_solver. apply IH. set_solver.
Qed.

(** One turn of the mixing loop. *)
Lemma mix16_spec block i W Sw :
  i + 16 ≤ 64 → length Sw = 8 → scheduled (schedule block) (i + 16) W →
  ∃ W', mix16 (W, Sw) i = (W', fips_rounds (schedule block) Sw (seq i 16))
      ∧ length W' = 64
      ∧ (i + 32 ≤ 64 → i ≠ 48 → scheduled (schedule block) (i + 32) W').
Proof.
  intros Hi HS HW. unfold mix16. rewrite rounds16 by done.
  rewrite (fips_rounds_ext W (schedule block))
    by (intros t [Ht Ht']%elem_of_seq; apply HW; lia).
  destruct (Nat.eqb_spec i 48).
  - exists W. split_and!; [done|apply HW|done].
  - eexists. split_and!; [done| |by intros; apply msch16].
    destruct HW as [HW _]. generalize (seq 0 16) as js. intros js.
    revert W HW; induction js; intros W HW; simpl; [done|].
    apply IHjs. unfold MSCH. len.
Qed.

(** ** The transform

    Whatever the scratch arrays hold, [SHA256_Transform] is the compression
    function of the standard. *)
Definition wf_tmp32 (tmp32 : list Z * list Z) : Prop :=
  length (fst tmp32) = 64 ∧ length (snd tmp32) = 8.

Lemma SHA256_Transform_spec st block tmp32 :
  length st = 8 → length block = 64 → bytes block → wf_tmp32 tmp32 →
  ∃ tmp', SHA256_Transform st block tmp32 = (compress st block, tmp') ∧ wf_tmp32 tmp'.
Proof.
  destruct tmp32 as [W Sw]. intros Hst Hbl Hb [HW HS]. simpl in HW, HS.
  unfold SHA256_Transform. rewrite (memcpy_all Sw) by lia.
  rewrite be32dec_vect_block_words by done.
  assert (scheduled (schedule block) (0 + 16) (memcpy W 0 (block_words block))) as H0.
  { split; [len|]. intros k Hk.
    rewrite memcpy_app, take_0, app_nil_l by (unfold block_words; len).
    unfold schedule. rewrite schedule_extend_prefix by (unfold block_words; len).
    by rewrite lookup_total_app_l by (unfold block_words; len). }
  cbn [foldl].
  destruct (mix16_spec block 0 _ st ltac:(lia) Hst H0) as (W1 & -> & _ & H1).
  destruct (mix16_spec block 16 W1 (fips_rounds (schedule block) st (seq 0 16)) ltac:(lia))
    as (W2 & -> & _ & H2); [by rewrite length_fips_rounds|apply H1; lia|].
  rewrite <-fips_rounds_app.
  destruct (mix16_spec block 32 W2
    (fips_rounds (schedule block) st (seq 0 16 ++ seq 16 16)) ltac:(lia))
    as (W3 & -> & _ & H3); [by rewrite length_fips_rounds|apply H2; lia|].
  rewrite <-fips_rounds_app.
  destruct (mix16_spec block 48 W3
    (fips_rounds (schedule block) st ((seq 0 16 ++ seq 16 16) ++ seq 32 16)) ltac:(lia))
    as (W4 & -> & HW4 & _); [by rewrite length_fips_rounds|apply H3; lia|].
  rewrite <-fips_rounds_app. eexists. split; [reflexivity|].
  split; [exact HW4|]. cbn [snd]. rewrite length_fips_rounds. exact Hst.
Qed.

(** ** The context invariant

    [hashed ctx msg]: the context has absorbed the bytes [msg]. *)
Record hashed (ctx : SHA256_CTX) (msg : list Z) : Prop := {
  hashed_state : state ctx = compress_blocks (length msg / 64) initial_state msg;
  hashed_count : count ctx = u64 (8 * Z.of_nat (length msg));
  hashed_buflen : length (buf ctx) = 64;
  hashed_buf : take (length msg `mod` 64) (buf ctx) = drop (64 * (length msg / 64)) msg;
  hashed_bytes : bytes msg
}.

Lemma buffered_spec ctx n :
  count ctx = u64 (8 * Z.of_nat n) → buffered ctx = n `mod` 64.
Proof.
  intros Hc. unfold buffered. rewrite Hc. unfold u64.
  change (2 ^ 64)%Z with (8 * 2 ^ 61)%Z. rewrite Zmult_mod_distr_l.
  rewrite Z.shiftr_div_pow2 by lia. change (2 ^ 3)%Z with 8%Z.
  rewrite (Z.mul_comm 8), Z.div_mul by lia.
  change 0x3f%Z with (Z.ones 6). rewrite Z.land_ones by lia.
  rewrite Z.mod_mod_divide by (by exists (2 ^ 55)%Z).
  change (2 ^ 6)%Z with (Z.of_nat 64). by rewrite <-Nat2Z.inj_mod, Nat2Z.id.
Qed.

Lemma length_hashed_state ctx msg : hashed ctx msg → length (state ctx) = 8.
Proof. intros H. rewrite (hashed_state _ _ H). apply length_compress_blocks. Qed.

Lemma SHA256_Init_hashed ctx : length (buf ctx) = 64 → hashed (SHA256_Init ctx) [].
Proof. intros. split; simpl; done || constructor. Qed.

(** The loop over complete blocks terminates with the fuel it is given and
    leaves fewer than 64 bytes. *)
Lemma update_blocks_spec fuel st src tmp32 :
  length src ≤ fuel → length st = 8 → bytes src → wf_tmp32 tmp32 →
  ∃ tmp', update_blocks fuel st src tmp32
          = (compress_blocks (length src / 64) st src,
             drop (64 * (length src / 64)) src, tmp') ∧ wf_tmp32 tmp'.
Proof.
  revert st src tmp32; induction fuel as [|fuel IH]; intros st src tmp32 Hf Hst Hb Ht.
  { assert (src = []) as -> by (destruct src; simpl in *; [done|lia]). by exists tmp32. }
  cbn [update_blocks]. destruct (Nat.leb_spec 64 (length src)) as [Hle|Hlt].
  - destruct (SHA256_Transform_spec st (take 64 src) tmp32) as (tmp1 & -> & Ht1);
      [done|len|by apply Forall_take|done|].
    destruct (IH (compress st (take 64 src)) (drop 64 src) tmp1) as (tmp2 & -> & Ht2);
      [len|by rewrite length_compress|by apply Forall_drop|done|].
    exists tmp2. split; [|done].
    assert (length src / 64 = S (length (drop 64 src) / 64)) as ->.
    { rewrite length_drop. replace (length src) with (length src - 64 + 1 * 64) at 1 by lia.
      rewrite Nat.div_add by lia. lia. }
    cbn [compress_blocks]. rewrite drop_drop.
    do 2 f_equal. f_equal. lia.
  - exists tmp32. rewrite Nat.div_small by lia. done.
Qed.

(** Splitting a length into blocks and rest. *)
Lemma div_mod_app (a b : nat) :
  let r := a `mod` 64 in
  (b < 64 - r → (a + b) / 64 = a / 64 ∧ (a + b) `mod` 64 = r + b) ∧
  (64 - r ≤ b → (a + b) / 64 = S (a / 64) + (b - (64 - r)) / 64
              ∧ (a + b) `mod` 64 = (b - (64 - r)) `mod` 64).
Proof.
  intros r. pose proof (Nat.div_mod_eq a 64) as Ha. fold r in Ha.
  assert (r < 64) by (apply Nat.mod_upper_bound; lia). split; intros Hb.
  - assert (a + b = (r + b) + a / 64 * 64) as -> by lia.
    rewrite Nat.div_add, Nat.Div0.mod_add, Nat.div_small, Nat.mod_small by lia. lia.
  - assert (a + b = (b - (64 - r)) + S (a / 64) * 64) as -> by lia.
    rewrite Nat.div_add, Nat.Div0.mod_add by lia. lia.
Qed.

Lemma update_count ctx msg (src : list Z) :
  hashed ctx msg →
  u64 (count ctx + u64 (Z.of_nat (length src) ≪ 3)) = u64 (8 * Z.of_nat (length (msg ++ src))).
Proof.
  intros H. rewrite (hashed_count _ _ H). unfold u64.
  rewrite Z.shiftl_mul_pow2, <-Zplus_mod, length_app, Nat2Z.inj_add by lia. f_equal. lia.
Qed.

(** The current block once [src] fills it. *)
Lemma fill_block ctx msg src :
  hashed ctx msg → 64 - length msg `mod` 64 ≤ length src →
  memcpy (buf ctx) (length msg `mod` 64) (take (64 - length msg `mod` 64) src)
  = drop (64 * (length msg / 64)) msg ++ take (64 - length msg `mod` 64) src.
Proof.
  intros H Hle. pose proof (Nat.mod_upper_bound (length msg) 64).
  rewrite memcpy_app by (rewrite (hashed_buflen _ _ H); len).
  rewrite (hashed_buf _ _ H), length_take, Nat.min_l by lia.
  by rewrite (drop_ge (buf ctx)), app_nil_r by (rewrite (hashed_buflen _ _ H); lia).
Qed.

Lemma _SHA256_Update_spec ctx msg src tmp32 :
  hashed ctx msg → bytes src → wf_tmp32 tmp32 →
  ∃ ctx' tmp', _SHA256_Update ctx src tmp32 = (ctx', tmp')
    ∧ hashed ctx' (msg ++ src) ∧ wf_tmp32 tmp'.
Proof.
  intros H Hb Ht. unfold _SHA256_Update.
  destruct (Nat.eqb_spec (length src) 0) as [E|_].
  { apply nil_length_inv in E as ->. exists ctx, tmp32. by rewrite app_nil_r. }
  rewrite (buffered_spec ctx (length msg)) by apply H.
  rewrite (update_count ctx msg) by done.
  pose proof (Nat.mod_upper_bound (length msg) 64) as Hr.
  pose proof (Nat.div_mod_eq (length msg) 64) as Hdm.
  destruct (div_mod_app (length msg) (length src)) as [Hsmall Hbig].
  destruct (Nat.ltb_spec (length src) (64 - length msg `mod` 64)) as [Hlt|Hge].
  - destruct Hsmall as [Hq Hm]; [done|]. eexists _, _. split; [done|]. split; [|done].
    split; cbn [state count buf]; rewrite ?length_app, ?Hq, ?Hm; rewrite ?length_app.
    + rewrite compress_blocks_prefix by lia. apply H.
    + done.
    + rewrite length_memcpy. apply H.
    + rewrite take_memcpy by (rewrite (hashed_buflen _ _ H); lia).
      rewrite (hashed_buf _ _ H), drop_app_le by lia. done.
    + apply Forall_app; split; [apply H|done].
  - destruct Hbig as [Hq Hm]; [done|].
    rewrite (fill_block ctx msg) by done.
    set (r := length msg `mod` 64) in *. set (q := length msg / 64) in *.
    destruct (SHA256_Transform_spec (state ctx)
      (drop (64 * q) msg ++ take (64 - r) src) tmp32) as (tmp1 & -> & Ht1).
    { by eapply length_hashed_state. }
    { len. }
    { apply Forall_app; split; [apply Forall_drop, H|by apply Forall_take]. }
    { done. }
    destruct (update_blocks_spec (length src)
      (compress (state ctx) (drop (64 * q) msg ++ take (64 - r) src))
      (drop (64 - r) src) tmp1) as (tmp2 & -> & Ht2).
    { len. }
    { rewrite length_compress. by eapply length_hashed_state. }
    { by apply Forall_drop. }
    { done. }
    eexists _, _. split; [done|]. split; [|done].
    assert (msg ++ src = (msg ++ take (64 - r) src) ++ drop (64 - r) src) as Esrc
      by (by rewrite <-app_assoc, take_drop).
    assert (length (msg ++ take (64 - r) src) = 64 * S q) as HA by len.
    split; cbn [state count buf]; rewrite ?length_app, ?Hq, ?Hm, ?length_drop; try done.
    + rewrite Esrc, compress_blocks_app by done.
      rewrite compress_blocks_S, drop_app_le, (take_ge (drop _ msg ++ _)) by len.
      rewrite compress_blocks_prefix by lia. by rewrite (hashed_state _ _ H).
    + len.
    + rewrite Esrc, drop_app_ge, HA by lia.
      replace (64 * (S q + _) - _) with (64 * ((length src - (64 - r)) / 64)) by lia.
      pose proof (Nat.div_mod_eq (length src - (64 - r)) 64) as Hd.
      pose proof (Nat.mod_upper_bound (length src - (64 - r)) 64) as Hd'.
      set (tail := drop _ (drop _ _)).
      assert (length tail = (length src - (64 - r)) `mod` 64) as Htail by (unfold tail; len).
      rewrite <-Htail. apply (take_memcpy _ 0). rewrite Htail. len.
    + apply Forall_app; split; [apply H|done].
Qed.

(** ** Padding and the digest *)
Lemma length_be32enc x : length (be32enc x) = 4.
Proof. done. Qed.
Lemma length_be64enc x : length (be64enc x) = 8.
Proof. done. Qed.
#[export] Hint Rewrite length_be32enc length_be64enc : len.

Lemma be64enc_u64 x : be64enc (u64 x) = be_bytes 8 x.
Proof.
  rewrite be64enc_be_bytes. unfold be_bytes, u64. f_equal.
  rewrite <-(le_bytes_le_val (le_bytes 8 (x `mod` 2 ^ 64)) 8)
    by (apply length_le_bytes || apply le_bytes_bytes).
  rewrite <-(le_bytes_le_val (le_bytes 8 x) 8)
    by (apply length_le_bytes || apply le_bytes_bytes).
  rewrite !le_val_le_bytes. change (256 ^ Z.of_nat 8)%Z with (2 ^ 64)%Z.
  by rewrite Z.mod_mod.
Qed.

Lemma be32enc_vect_digest st : length st = 8 → be32enc_vect st 4 = digest_bytes st.
Proof.
  intros (a&b&c&d&e&f&g&h&->)%list_len8. unfold digest_bytes.
  cbn [be32enc_vect drop lookup_total list_lookup_total].
  rewrite !be32enc_be_bytes. reflexivity.
Qed.

Lemma take_PAD n : 0 < n ≤ 64 → take n PAD = 0x80%Z :: replicate (n - 1) 0%Z.
Proof.
  intros Hn. unfold PAD. destruct n as [|n]; [lia|]. cbn [take].
  rewrite take_replicate. do 2 f_equal. lia.
Qed.

(** The padded message is the complete blocks of [msg] and the one or two
    blocks that [SHA256_Pad] transforms. *)
Lemma padded_split msg :
  padded msg = msg ++ (0x80%Z :: replicate (pad_zeros (length msg)) 0%Z) ++
               be_bytes 8 (8 * Z.of_nat (length msg)).
Proof. done. Qed.

Lemma bytes_PAD n : bytes (take n PAD).
Proof. apply Forall_take. repeat constructor; done. Qed.
Lemma bytes_zeros n : bytes (replicate n 0%Z).
Proof. apply Forall_replicate. done. Qed.

Lemma SHA256_Pad_spec ctx msg tmp32 :
  hashed ctx msg → wf_tmp32 tmp32 →
  ∃ ctx' tmp', SHA256_Pad ctx tmp32 = (ctx', tmp') ∧ wf_tmp32 tmp'
    ∧ length (buf ctx') = 64
    ∧ state ctx' = compress_blocks (length (padded msg) / 64) initial_state (padded msg).
Proof.
  intros H Ht. unfold SHA256_Pad. rewrite (buffered_spec ctx (length msg)) by apply H.
  rewrite (hashed_count _ _ H), be64enc_u64.
  pose proof (Nat.mod_upper_bound (length msg) 64) as Hr.
  pose proof (Nat.div_mod_eq (length msg) 64) as Hdm.
  pose proof (length_hashed_state _ _ H) as Hst.
  pose proof (hashed_buflen _ _ H) as Hbl. pose proof (hashed_buf _ _ H) as Hbuf.
  pose proof (hashed_state _ _ H) as Hstate.
  set (r := length msg `mod` 64) in *. set (q := length msg / 64) in *.
  set (L := be_bytes 8 (8 * Z.of_nat (length msg))).
  assert (length L = 8) as HL by apply length_be_bytes.
  assert (bytes L) as HLb by apply be_bytes_bytes.
  assert (bytes (drop (64 * q) msg)) as Hmb by apply Forall_drop, H.
  destruct (Nat.ltb_spec r 56) as [Hlt|Hge].
  - set (bf := memcpy (memcpy (buf ctx) r (take (56 - r) PAD)) 56 L).
    assert (bf = final_block msg) as Hbf.
    { unfold bf. rewrite (memcpy_app _ 56) by len.
      replace 56 with (r + length (take (56 - r) PAD)) at 1 by len.
      rewrite take_memcpy by len. rewrite Hbuf.
      rewrite (drop_ge (memcpy _ _ _)) by len. rewrite app_nil_r.
      rewrite take_PAD by lia. replace (56 - r - 1) with (55 - r) by lia.
      by rewrite <-!app_assoc. }
    destruct (SHA256_Transform_spec (state ctx) bf tmp32) as (tmp1 & -> & Ht1); [done| | |done|].
    { unfold bf. len. }
    { rewrite Hbf. apply Forall_app; split; [done|]. apply Forall_app; split; [|done].
      constructor; [done|apply bytes_zeros]. }
    eexists _, _. split_and!; [done|done|unfold bf; cbn [buf]; len|]. cbn [state].
    by rewrite compress_blocks_padded_lt, Hbf, Hstate.
  - assert (length (padded msg) / 64 = S (S q)) as Hn.
    { rewrite length_padded, pad_zeros_ge by done. fold r.
      replace (_ + 9 + _) with (S (S q) * 64) by lia. by apply Nat.div_mul. }
    set (P1 := drop (64 * q) msg ++ 0x80%Z :: replicate (63 - r) 0%Z).
    set (P2 := replicate 56 0%Z ++ L).
    assert (length P1 = 64) as HP1 by (unfold P1; len).
    assert (length P2 = 64) as HP2 by (unfold P2; len).
    assert (padded msg = take (64 * q) msg ++ P1 ++ P2) as Hpad.
    { rewrite padded_split, pad_zeros_ge by lia. fold r L. unfold P1, P2.
      rewrite <-!app_assoc, (app_assoc (take _ _)), take_drop. f_equal. simpl. f_equal.
      replace (119 - r) with (63 - r + 56) by lia. by rewrite replicate_add, <-app_assoc. }
    assert (memcpy (buf ctx) r (take (64 - r) PAD) = P1) as ->.
    { rewrite memcpy_app, Hbuf, take_PAD by len. rewrite (drop_ge (buf ctx)), app_nil_r by len.
      unfold P1. by replace (64 - r - 1) with (63 - r) by lia. }
    destruct (SHA256_Transform_spec (state ctx) P1 tmp32) as (tmp1 & -> & Ht1); [done|done| |done|].
    { apply Forall_app; split; [done|]. constructor; [done|apply bytes_zeros]. }
    assert (memcpy (memcpy P1 0 (replicate 56 0%Z)) 56 L = P2) as ->.
    { rewrite (memcpy_app _ 56) by len.
      replace 56 with (0 + length (replicate 56 0%Z)) at 1 by len.
      rewrite take_memcpy by len. by rewrite drop_ge, app_nil_r by len. }
    destruct (SHA256_Transform_spec (compress (state ctx) P1) P2 tmp1)
      as (tmp2 & -> & Ht2); [by rewrite length_compress|done| |done|].
    { apply Forall_app; split; [apply bytes_zeros|done]. }
    eexists _, _. split_and!; [done|done|done|]. cbn [state].
    rewrite Hn, Hpad. replace (S (S q)) with (q + 2) by lia.
    rewrite compress_blocks_app by len. cbn [compress_blocks].
    rewrite take_app_length', drop_app_length', (take_ge P2) by lia.
    rewrite Hstate. rewrite <-(take_drop (64 * q) msg) at 1.
    by rewrite compress_blocks_prefix by len.
Qed.

Lemma _SHA256_Final_spec ctx msg tmp32 :
  hashed ctx msg → wf_tmp32 tmp32 →
  ∃ ctx' tmp', _SHA256_Final ctx tmp32 = (sha256 msg, ctx', tmp') ∧ wf_tmp32 tmp'
    ∧ length (buf ctx') = 64.
Proof.
  intros H Ht. unfold _SHA256_Final.
  destruct (SHA256_Pad_spec ctx msg tmp32) as (ctx' & tmp' & -> & Ht' & Hb & Hst); [done|done|].
  exists ctx', tmp'. split_and!; [|done|done].
  rewrite be32enc_vect_digest; rewrite Hst; [done|apply length_compress_blocks].
Qed.


Lemma updates_spec chunks ctx msg :
  hashed ctx msg → Forall (λ tc, wf_tmp32 (fst tc) ∧ bytes (snd tc)) chunks →
  hashed (foldl (λ ctx tc, SHA256_Update (fst tc) ctx (snd tc)) ctx chunks)
    (msg ++ mjoin (snd <$> chunks)).
Proof.
  intros H Hall. revert ctx msg H.
  induction Hall as [|[t c] chunks [Ht Hc] _ IH]; intros ctx msg H; cbn.
  { by rewrite app_nil_r. }
  unfold SHA256_Update at 2.
  destruct (_SHA256_Update_spec ctx msg c t) as (ctx' & t' & -> & H' & _); [done..|].
  rewrite app_assoc. by apply IH.
Qed.

(** A context and a scratch array as the callers of the public functions have
    them on their stacks before the first write. *)
Definition stack_ctx : SHA256_CTX := mkSHA256_CTX (replicate 8 0%Z) 0 (replicate 64 0%Z).
Definition stack_tmp : list Z * list Z := (replicate 64 0%Z, replicate 8 0%Z).

(** C8: the transform is the FIPS 180-4 compression function, whatever the
    scratch arrays [W] and [S] hold when it is called, and it leaves arrays of
    the same sizes behind. *)
Theorem SHA256_Transform_fips st block tmp32 :
  length st = 8 → length block = 64 → bytes block → wf_tmp32 tmp32 →
  fst (SHA256_Transform st block tmp32) = compress st block ∧
  wf_tmp32 (snd (SHA256_Transform st block tmp32)).
Proof. intros. by edestruct SHA256_Transform_spec as (t & -> & ?). Qed.

Lemma SHA256_Transform_fips_witness :
  fst (SHA256_Transform initial_state (replicate 64 0x61%Z) stack_tmp)
  = compress initial_state (replicate 64 0x61%Z).
Proof.
  apply SHA256_Transform_fips; [reflexivity|reflexivity| |split; reflexivity].
  apply Forall_replicate. done.
Defined.

(** C7: incremental hashing does not depend on how the message is cut up.
    After [SHA256_Init], any sequence of [SHA256_Update] calls followed by
    [SHA256_Final] gives the FIPS 180-4 digest of the concatenated chunks, for
    every initial content of the context's buffer and of the scratch arrays
    each call finds on its stack; the length count wraps as the standard's
    64-bit length field does. *)
Theorem SHA256_incremental ctx0 chunks tmp :
  length (buf ctx0) = 64 →
  Forall (λ tc, wf_tmp32 (fst tc) ∧ bytes (snd tc)) chunks → wf_tmp32 tmp →
  SHA256_Final tmp
    (foldl (λ ctx tc, SHA256_Update (fst tc) ctx (snd tc)) (SHA256_Init ctx0) chunks)
  = sha256 (mjoin (snd <$> chunks)).
Proof.
  intros Hb Hall Ht. pose proof (updates_spec chunks _ [] (SHA256_Init_hashed _ Hb) Hall) as H.
  unfold SHA256_Final. by edestruct _SHA256_Final_spec as (c & t & -> & _ & _).
Qed.

Lemma SHA256_incremental_witness :
  SHA256_Final stack_tmp
    (SHA256_Update stack_tmp (SHA256_Update stack_tmp (SHA256_Init stack_ctx) [97]%Z) [98; 99]%Z)
  = sha256 [97; 98; 99]%Z.
Proof.
  apply (SHA256_incremental stack_ctx [(stack_tmp, [97]%Z); (stack_tmp, [98; 99]%Z)] stack_tmp).
  - reflexivity.
  - repeat constructor; simpl; lia.
  - split; reflexivity.
Defined.

(** [SHA256_Buf] is the one-chunk instance. *)
Lemma SHA256_Buf_spec ctx0 tmp0 src :
  length (buf ctx0) = 64 → bytes src → wf_tmp32 tmp0 → SHA256_Buf ctx0 tmp0 src = sha256 src.
Proof.
  intros Hb Hs Ht. unfold SHA256_Buf.
  destruct (_SHA256_Update_spec (SHA256_Init ctx0) [] src tmp0) as (c & t & -> & Hc & Ht');
    [by apply SHA256_Init_hashed|done..|].
  by destruct (_SHA256_Final_spec c src t) as (c' & t' & -> & _ & _).
Qed.
