(* ===== verification/Hmac.v ===== *)
(** * HMAC-SHA256 and PBKDF2-SHA256

    The second half of [src/src/crypto/yespower/sha256.c].  [pad], [khash],
    [ihash] and the union [u] of the C code are written before they are read
    in every function, so they are local values here; the contexts and the
    scratch array [tmp32], whose previous contents do reach later calls, are
    threaded through. *)
From S2P Require Import Prelude Sysendian Sha256.

Record HMAC_SHA256_CTX := mkHMAC_SHA256_CTX {
  ictx : SHA256_CTX;
  octx : SHA256_CTX
}.

Abbreviation tmp32_t := (list Z * list Z)%type.

(** [for (i = 0; i < Klen; i++) pad[i] ^= K[i];] *)
Definition xor_key (pad K : list Z) : list Z :=
  foldl (λ pad i, <[i := Z.lxor (pad !!! i) (K !!! i)]> pad) pad (seq 0 (length K)).

(** [if (Klen > 64) { ...; K = khash; Klen = 32; }] *)
Definition hash_long_key (ic : SHA256_CTX) (K : list Z) (tmp32 : tmp32_t)
    : list Z * SHA256_CTX * tmp32_t :=
  if (64 <? length K)%nat then
    let '(ic, tmp32) := _SHA256_Update (SHA256_Init ic) K tmp32 in
    _SHA256_Final ic tmp32
  else (K, ic, tmp32).

Definition _HMAC_SHA256_Init (ctx : HMAC_SHA256_CTX) (K : list Z) (tmp32 : tmp32_t)
    : HMAC_SHA256_CTX * tmp32_t :=
  let '(K, ic, tmp32) := hash_long_key (ictx ctx) K tmp32 in
  let ic := SHA256_Init ic in
  let '(ic, tmp32) := _SHA256_Update ic (xor_key (replicate 64 0x36%Z) K) tmp32 in
  let oc := SHA256_Init (octx ctx) in
  let '(oc, tmp32) := _SHA256_Update oc (xor_key (replicate 64 0x5c%Z) K) tmp32 in
  (mkHMAC_SHA256_CTX ic oc, tmp32).

Definition _HMAC_SHA256_Update (ctx : HMAC_SHA256_CTX) (src : list Z) (tmp32 : tmp32_t)
    : HMAC_SHA256_CTX * tmp32_t :=
  let '(ic, tmp32) := _SHA256_Update (ictx ctx) src tmp32 in
  (mkHMAC_SHA256_CTX ic (octx ctx), tmp32).

Definition _HMAC_SHA256_Final (ctx : HMAC_SHA256_CTX) (tmp32 : tmp32_t)
    : list Z * HMAC_SHA256_CTX * tmp32_t :=
  let '(ihash, ic, tmp32) := _SHA256_Final (ictx ctx) tmp32 in
  let '(oc, tmp32) := _SHA256_Update (octx ctx) ihash tmp32 in
  let '(digest, oc, tmp32) := _SHA256_Final oc tmp32 in
  (digest, mkHMAC_SHA256_CTX ic oc, tmp32).

(** The public wrappers; [tmp0] is the uninitialised stack array. *)
Definition HMAC_SHA256_Init (tmp0 : tmp32_t) (ctx : HMAC_SHA256_CTX) (K : list Z) : HMAC_SHA256_CTX :=
  fst (_HMAC_SHA256_Init ctx K tmp0).
Definition HMAC_SHA256_Update (tmp0 : tmp32_t) (ctx : HMAC_SHA256_CTX) (src : list Z) : HMAC_SHA256_CTX :=
  fst (_HMAC_SHA256_Update ctx src tmp0).
Definition HMAC_SHA256_Final (tmp0 : tmp32_t) (ctx : HMAC_SHA256_CTX) : list Z :=
  fst (fst (_HMAC_SHA256_Final ctx tmp0)).

Definition HMAC_SHA256_Buf (ctx0 : HMAC_SHA256_CTX) (tmp0 : tmp32_t) (K src : list Z) : list Z :=
  let '(ctx, tmp32) := _HMAC_SHA256_Init ctx0 K tmp0 in
  let '(ctx, tmp32) := _HMAC_SHA256_Update ctx src tmp32 in
  let '(digest, _, _) := _HMAC_SHA256_Final ctx tmp32 in
  digest.

(** ** PBKDF2 *)

(** Returns [None] where the C function returns -1. *)
Definition SHA256_Pad_Almost (ctx : SHA256_CTX) (tmp32 : tmp32_t)
    : option (SHA256_CTX * tmp32_t) :=
  let r := buffered ctx in
  if (56 <=? r)%nat then None else
  let len := be64enc (count ctx) in
  let '(ctx, tmp32) := _SHA256_Update ctx (take (56 - r) PAD) tmp32 in
  let ctx := mkSHA256_CTX (state ctx) (count ctx) (<[63 := len !!! 7]> (buf ctx)) in
  let '(ctx, tmp32) := _SHA256_Update ctx (take 7 len) tmp32 in
  Some (ctx, tmp32).

(** The loop of the fast path; [ivecp] is the offset of the block counter in
    [hctx.ictx.buf].  One unit of fuel per turn. *)
Fixpoint pbkdf2_fast_loop (fuel : nat) (hctx : HMAC_SHA256_CTX) (ivecp : nat)
    (i dkLen : nat) (out : list Z) (tmp32 : tmp32_t) : list Z :=
  match fuel with
  | O => out
  | S fuel =>
      if (i * 32 <? dkLen)%nat then
        let ibuf := memcpy (buf (ictx hctx)) ivecp (be32enc (u32 (Z.of_nat (i + 1)))) in
        let '(st, tmp32) := SHA256_Transform (state (ictx hctx)) ibuf tmp32 in
        let obuf := memcpy (buf (octx hctx)) 0 (be32enc_vect st 4) in
        let '(st, tmp32) := SHA256_Transform (state (octx hctx)) obuf tmp32 in
        let out := memcpy out (i * 32) (be32enc_vect st 4) in
        let hctx := mkHMAC_SHA256_CTX
          (mkSHA256_CTX (state (ictx hctx)) (count (ictx hctx)) ibuf)
          (mkSHA256_CTX (state (octx hctx)) (count (octx hctx)) obuf) in
        pbkdf2_fast_loop fuel hctx ivecp (S i) dkLen out tmp32
      else out
  end.

(** The fast path; [inr tmp32] is [goto generic] with the scratch array as it
    is at that point. *)
Definition pbkdf2_fast (hctx : HMAC_SHA256_CTX) (passwd salt : list Z)
    (dkLen : nat) (out : list Z) (tmp32 : tmp32_t) : list Z + tmp32_t :=
  let '(hctx, tmp32) := _HMAC_SHA256_Init hctx passwd tmp32 in
  let '(hctx, tmp32) := _HMAC_SHA256_Update hctx salt tmp32 in
  let oldcount := Z.land (count (ictx hctx)) (0x3f ≪ 3) in
  let '(hctx, tmp32) := _HMAC_SHA256_Update hctx [0; 0; 0; 0]%Z tmp32 in
  if (Z.land (count (ictx hctx)) (0x3f ≪ 3) <? oldcount)%Z then inr tmp32 else
  match SHA256_Pad_Almost (ictx hctx) tmp32 with
  | None => inr tmp32
  | Some (ic, tmp32) =>
      let ivecp := Z.to_nat (oldcount ≫ 3) in
      let oc := octx hctx in
      let oc := mkSHA256_CTX (state oc) (u64 (count oc + (32 ≪ 3))) (buf oc) in
      (* the return value of this call is ignored *)
      let '(oc, tmp32) :=
        match SHA256_Pad_Almost oc tmp32 with Some p => p | None => (oc, tmp32) end in
      inl (pbkdf2_fast_loop (S dkLen) (mkHMAC_SHA256_CTX ic oc) ivecp 0 dkLen out tmp32)
  end.

(** [for (j = 2; j <= c; j++)] of the generic path, for [c - 1] turns. *)
Fixpoint pbkdf2_iterate (n : nat) (Phctx : HMAC_SHA256_CTX) (U T : list Z) (tmp32 : tmp32_t)
    : list Z * tmp32_t :=
  match n with
  | O => (T, tmp32)
  | S n =>
      let '(hctx, tmp32) := _HMAC_SHA256_Update Phctx U tmp32 in
      let '(U, _, tmp32) := _HMAC_SHA256_Final hctx tmp32 in
      pbkdf2_iterate n Phctx U (xor_key T U) tmp32
  end.

Fixpoint pbkdf2_generic_loop (fuel : nat) (Phctx PShctx : HMAC_SHA256_CTX) (c : nat)
    (i dkLen : nat) (out : list Z) (tmp32 : tmp32_t) : list Z :=
  match fuel with
  | O => out
  | S fuel =>
      if (i * 32 <? dkLen)%nat then
        let ivec := be32enc (u32 (Z.of_nat (i + 1))) in
        let '(hctx, tmp32) := _HMAC_SHA256_Update PShctx ivec tmp32 in
        let '(T, _, tmp32) := _HMAC_SHA256_Final hctx tmp32 in
        let '(T, tmp32) :=
          if (1 <? c)%nat then pbkdf2_iterate (c - 1) Phctx T T tmp32 else (T, tmp32) in
        let clen := dkLen - i * 32 in
        let clen := if (32 <? clen)%nat then 32 else clen in
        let out := memcpy out (i * 32) (take clen T) in
        pbkdf2_generic_loop fuel Phctx PShctx c (S i) dkLen out tmp32
      else out
  end.

Definition pbkdf2_generic (Phctx : HMAC_SHA256_CTX) (passwd salt : list Z) (c : nat)
    (dkLen : nat) (out : list Z) (tmp32 : tmp32_t) : list Z :=
  let '(Phctx, tmp32) := _HMAC_SHA256_Init Phctx passwd tmp32 in
  let '(PShctx, tmp32) := _HMAC_SHA256_Update Phctx salt tmp32 in
  pbkdf2_generic_loop (S dkLen) Phctx PShctx c 0 dkLen out tmp32.

(** [PBKDF2_SHA256] writes [dkLen] bytes at the start of [out]; [None] is the
    failure of its assertion.  [hctx0], [Phctx0] and [tmp0] are uninitialised
    stack variables. *)
Definition PBKDF2_SHA256 (hctx0 Phctx0 : HMAC_SHA256_CTX) (tmp0 : tmp32_t)
    (passwd salt : list Z) (c : nat) (out : list Z) (dkLen : nat) : option (list Z) :=
  if (32 * (2 ^ 32 - 1) <? Z.of_nat dkLen)%Z then None else
  Some
    (if bool_decide (c = 1) && (dkLen `mod` 32 =? 0)%nat && (length salt `mod` 64 <=? 51)%nat then
       match pbkdf2_fast hctx0 passwd salt dkLen out tmp0 with
       | inl out => out
       | inr tmp32 => pbkdf2_generic Phctx0 passwd salt c dkLen out tmp32
       end
     else pbkdf2_generic Phctx0 passwd salt c dkLen out tmp0).
