(* ===== verification/HmacCorrect.v ===== *)
(** * HMAC-SHA256 and PBKDF2 against RFC 2104 and RFC 8018 *)
From S2P Require Import Prelude Sysendian Sha256 Sha256Spec Sha256Correct Hmac.

(** ** Reference definitions *)

(** RFC 2104: a long key is hashed, a short one is zero-extended to a block. *)
Definition hmac_key (K : list Z) : list Z := if (64 <? length K)%nat then sha256 K else K.
Definition key_block (c : Z) (K : list Z) : list Z :=
  zip_with Z.lxor (hmac_key K ++ replicate (64 - length (hmac_key K)) 0%Z) (replicate 64 c).
Definition hmac (K msg : list Z) : list Z :=
  sha256 (key_block 0x5c K ++ sha256 (key_block 0x36 K ++ msg)).

(** RFC 8018, section 5.2: [F (P, S, c, i) = U_1 xor ... xor U_c]. *)
Fixpoint pbkdf2_F (c : nat) (P U T : list Z) : list Z :=
  match c with
  | O => T
  | S c => let U := hmac P U in pbkdf2_F c P U (zip_with Z.lxor T U)
  end.
Definition pbkdf2_block (P salt : list Z) (c i : nat) : list Z :=
  let U1 := hmac P (salt ++ be_bytes 4 (Z.of_nat i)) in pbkdf2_F (c - 1) P U1 U1.
Definition pbkdf2_blocks (P salt : list Z) (c n : nat) : list Z :=
  seq 1 n ≫= pbkdf2_block P salt c.
Definition pbkdf2 (P salt : list Z) (c dkLen : nat) : list Z :=
  take dkLen (pbkdf2_blocks P salt c ((dkLen + 31) / 32)).

(** ** The HMAC context *)
Lemma xor_key_lookup n (pad K : list Z) i :
  foldl (λ pad i, <[i := Z.lxor (pad !!! i) (K !!! i)]> pad) pad (seq 0 n) !! i
  = if decide (i < n) then (λ y, Z.lxor y (K !!! i)) <$> pad !! i else pad !! i.
Proof.
  induction n as [|n IH]; [done|]. rewrite seq_S, foldl_app. cbn [foldl]. rewrite Nat.add_0_l.
  set (acc := foldl _ _ _) in *.
  destruct (decide (i = n)) as [->|Hne].
  - rewrite decide_True by lia. rewrite decide_False in IH by lia.
    destruct (pad !! n) as [y|] eqn:E.
    + rewrite list_lookup_insert_eq by (by eapply lookup_lt_Some).
      by rewrite (list_lookup_total_correct _ _ _ IH).
    + rewrite list_insert_ge by (by apply lookup_ge_None). done.
  - rewrite list_lookup_insert_ne by done. rewrite IH.
    destruct (decide (i < n)), (decide (i < S n)); done || lia.
Qed.

Lemma xor_key_spec pad K :
  length K ≤ length pad →
  xor_key pad K = zip_with Z.lxor (K ++ replicate (length pad - length K) 0%Z) pad.
Proof.
  intros Hle. apply list_eq. intros i. unfold xor_key.
  rewrite xor_key_lookup, lookup_zip_with.
  destruct (pad !! i) as [y|] eqn:E; [|by destruct (decide (i < length K)), ((K ++ _) !! i)].
  pose proof (lookup_lt_Some _ _ _ E). destruct (decide (i < length K)).
  - rewrite lookup_app_l by done.
    rewrite (list_lookup_lookup_total_lt K i) by done. simpl. by rewrite Z.lxor_comm.
  - rewrite lookup_app_r, lookup_replicate_2 by lia. done.
Qed.

Lemma hmac_key_length K : length (hmac_key K) ≤ 64.
Proof. unfold hmac_key. destruct (Nat.ltb_spec 64 (length K)); [rewrite sha256_length|]; lia. Qed.
Lemma hmac_key_bytes K : bytes K → bytes (hmac_key K).
Proof. intros. unfold hmac_key. destruct (64 <? length K)%nat; [apply sha256_bytes|done]. Qed.

Lemma length_key_block c K : length (key_block c K) = 64.
Proof.
  unfold key_block. pose proof (hmac_key_length K). rewrite length_zip_with. len.
Qed.
Lemma bytes_zip_lxor l k : bytes l → bytes k → bytes (zip_with Z.lxor l k).
Proof.
  intros Hl Hk. revert k Hk. induction Hl as [|x l Hx Hl IH]; intros [|y k] Hk; try constructor.
  - inversion Hk; subst. by apply lxor_width.
  - inversion Hk; subst. auto.
Qed.
Lemma bytes_key_block c K : is_u8 c → bytes K → bytes (key_block c K).
Proof.
  intros Hc HK. apply bytes_zip_lxor.
  - apply Forall_app; split; [by apply hmac_key_bytes|apply bytes_zeros].
  - by apply Forall_replicate.
Qed.

(** [hmac_ready ctx K msg]: the context was initialised with [K] and fed [msg]. *)
Record hmac_ready (ctx : HMAC_SHA256_CTX) (K msg : list Z) : Prop := {
  ready_inner : hashed (ictx ctx) (key_block 0x36 K ++ msg);
  ready_outer : hashed (octx ctx) (key_block 0x5c K)
}.

Definition wf_hmac (ctx : HMAC_SHA256_CTX) : Prop :=
  length (buf (ictx ctx)) = 64 ∧ length (buf (octx ctx)) = 64.

Lemma hash_long_key_spec ic K tmp32 :
  length (buf ic) = 64 → bytes K → wf_tmp32 tmp32 →
  ∃ ic' tmp', hash_long_key ic K tmp32 = (hmac_key K, ic', tmp')
    ∧ length (buf ic') = 64 ∧ wf_tmp32 tmp'.
Proof.
  intros Hi HK Ht. unfold hash_long_key, hmac_key.
  destruct (64 <? length K)%nat; [|by eauto].
  destruct (_SHA256_Update_spec (SHA256_Init ic) [] K tmp32)
    as (c1 & t1 & -> & Hc1 & Ht1); [by apply SHA256_Init_hashed|done|done|].
  destruct (_SHA256_Final_spec c1 K t1) as (c2 & t2 & -> & Ht2 & Hc2); eauto.
Qed.

Lemma _HMAC_SHA256_Init_spec ctx K tmp32 :
  wf_hmac ctx → bytes K → wf_tmp32 tmp32 →
  ∃ ctx' tmp', _HMAC_SHA256_Init ctx K tmp32 = (ctx', tmp') ∧ hmac_ready ctx' K [] ∧ wf_tmp32 tmp'.
Proof.
  intros [Hi Ho] HK Ht. unfold _HMAC_SHA256_Init.
  destruct (hash_long_key_spec (ictx ctx) K tmp32) as (ic & tmp1 & -> & Hic & Ht1); [done..|].
  rewrite !xor_key_spec by (rewrite length_replicate; apply hmac_key_length).
  rewrite !length_replicate. fold (key_block 0x36 K). fold (key_block 0x5c K).
  destruct (_SHA256_Update_spec (SHA256_Init ic) [] (key_block 0x36 K) tmp1)
    as (c1 & t1 & -> & Hc1 & Htc1); [by apply SHA256_Init_hashed|by apply bytes_key_block|done|].
  destruct (_SHA256_Update_spec (SHA256_Init (octx ctx)) [] (key_block 0x5c K) t1)
    as (c2 & t2 & -> & Hc2 & Htc2); [by apply SHA256_Init_hashed|by apply bytes_key_block|done|].
  eexists _, _. split; [done|]. split; [|done]. split; simpl; [by rewrite app_nil_r|done].
Qed.

Lemma _HMAC_SHA256_Update_spec ctx K msg src tmp32 :
  hmac_ready ctx K msg → bytes src → wf_tmp32 tmp32 →
  ∃ ctx' tmp', _HMAC_SHA256_Update ctx src tmp32 = (ctx', tmp')
    ∧ hmac_ready ctx' K (msg ++ src) ∧ wf_tmp32 tmp'.
Proof.
  intros [Hi Ho] Hs Ht. unfold _HMAC_SHA256_Update.
  destruct (_SHA256_Update_spec _ _ src tmp32 Hi) as (c1 & t1 & -> & Hc1 & Ht1); [done|done|].
  eexists _, _. split; [done|]. split; [|done]. split; simpl; [by rewrite app_assoc|done].
Qed.

Lemma _HMAC_SHA256_Final_spec ctx K msg tmp32 :
  hmac_ready ctx K msg → wf_tmp32 tmp32 →
  ∃ ctx' tmp', _HMAC_SHA256_Final ctx tmp32 = (hmac K msg, ctx', tmp') ∧ wf_tmp32 tmp'.
Proof.
  intros [Hi Ho] Ht. unfold _HMAC_SHA256_Final.
  destruct (_SHA256_Final_spec _ _ tmp32 Hi) as (c1 & t1 & -> & Ht1 & _); [done|].
  destruct (_SHA256_Update_spec _ _ (sha256 (key_block 0x36 K ++ msg)) t1 Ho)
    as (c2 & t2 & -> & Hc2 & Ht2); [apply sha256_bytes|done|].
  destruct (_SHA256_Final_spec _ _ t2 Hc2) as (c3 & t3 & -> & Ht3 & _); [done|]. eauto.
Qed.

Lemma HMAC_SHA256_Buf_spec ctx0 tmp0 K src :
  wf_hmac ctx0 → wf_tmp32 tmp0 → bytes K → bytes src →
  HMAC_SHA256_Buf ctx0 tmp0 K src = hmac K src.
Proof.
  intros Hc Ht HK Hs. unfold HMAC_SHA256_Buf.
  destruct (_HMAC_SHA256_Init_spec ctx0 K tmp0) as (c1 & t1 & -> & H1 & Ht1); [done..|].
  destruct (_HMAC_SHA256_Update_spec c1 K [] src t1) as (c2 & t2 & -> & H2 & Ht2); [done..|].
  by destruct (_HMAC_SHA256_Final_spec c2 K src t2) as (c3 & t3 & -> & Ht3).
Qed.

(** ** PBKDF2, the generic path *)
Lemma hmac_length K m : length (hmac K m) = 32.
Proof. apply sha256_length. Qed.
Lemma hmac_bytes K m : bytes (hmac K m).
Proof. apply sha256_bytes. Qed.

Lemma xor_key_same T U : length T = length U → xor_key T U = zip_with Z.lxor T U.
Proof.
  intros E. rewrite xor_key_spec by lia. rewrite E, Nat.sub_diag. simpl. rewrite app_nil_r.
  apply list_eq. intros i. rewrite !lookup_zip_with.
  destruct (U !! i), (T !! i); simpl; by rewrite 1?Z.lxor_comm.
Qed.

Lemma pbkdf2_iterate_spec n Phctx P U T tmp32 :
  hmac_ready Phctx P [] → length U = 32 → bytes U → length T = 32 → wf_tmp32 tmp32 →
  ∃ tmp', pbkdf2_iterate n Phctx U T tmp32 = (pbkdf2_F n P U T, tmp') ∧ wf_tmp32 tmp'.
Proof.
  intros HP. revert U T tmp32. induction n as [|n IH]; intros U T tmp32 HU HUb HT Ht; [by eauto|].
  cbn [pbkdf2_iterate pbkdf2_F].
  destruct (_HMAC_SHA256_Update_spec Phctx P [] U tmp32) as (c1 & t1 & -> & H1 & Ht1); [done..|].
  destruct (_HMAC_SHA256_Final_spec c1 P ([] ++ U) t1) as (c2 & t2 & -> & Ht2); [done..|].
  simpl app. rewrite xor_key_same by (rewrite hmac_length; lia).
  apply IH; rewrite ?length_zip_with, ?hmac_length; auto using hmac_bytes. lia.
Qed.

Lemma length_pbkdf2_F c P U T : length T = 32 → length (pbkdf2_F c P U T) = 32.
Proof.
  revert U T. induction c; intros U T HT; [done|]. simpl. apply IHc.
  rewrite length_zip_with, hmac_length. lia.
Qed.
Lemma length_pbkdf2_block P salt c i : length (pbkdf2_block P salt c i) = 32.
Proof. apply length_pbkdf2_F, hmac_length. Qed.
Lemma length_pbkdf2_blocks P salt c n : length (pbkdf2_blocks P salt c n) = 32 * n.
Proof.
  unfold pbkdf2_blocks. cut (∀ k, length (seq k n ≫= pbkdf2_block P salt c) = 32 * n); [done|].
  induction n as [|n IH]; intros k; [done|].
  cbn [seq]. rewrite bind_cons, length_app, IH, length_pbkdf2_block. lia.
Qed.
Lemma pbkdf2_blocks_S P salt c n :
  pbkdf2_blocks P salt c (S n) = pbkdf2_blocks P salt c n ++ pbkdf2_block P salt c (S n).
Proof. unfold pbkdf2_blocks. rewrite seq_S, bind_app. simpl. by rewrite app_nil_r. Qed.
#[local] Hint Rewrite length_pbkdf2_block length_pbkdf2_blocks : len.

(** The output array after [i] turns of either loop: the first [i] blocks, cut
    at [dkLen], and then whatever the array held. *)
Definition written (P salt : list Z) (c dkLen : nat) (out0 : list Z) (i : nat) : list Z :=
  take dkLen (pbkdf2_blocks P salt c i) ++ drop (Nat.min (i * 32) dkLen) out0.

Lemma written_step P salt c dkLen out0 i :
  i * 32 < dkLen → dkLen ≤ length out0 →
  memcpy (written P salt c dkLen out0 i) (i * 32)
    (take (if (32 <? dkLen - i * 32)%nat then 32 else dkLen - i * 32)
       (pbkdf2_block P salt c (S i)))
  = written P salt c dkLen out0 (S i).
Proof.
  intros Hi Ho. set (clen := if (32 <? dkLen - i * 32)%nat then 32 else dkLen - i * 32).
  assert (clen = Nat.min 32 (dkLen - i * 32)) as Hc.
  { unfold clen. destruct (Nat.ltb_spec 32 (dkLen - i * 32)); lia. }
  unfold written. rewrite take_ge by len. rewrite Nat.min_l by lia.
  rewrite memcpy_app by len.
  rewrite take_app_length' by len. rewrite pbkdf2_blocks_S, app_assoc. f_equal.
  - rewrite take_app_ge by len. f_equal. autorewrite with len.
    destruct (decide (32 ≤ dkLen - 32 * i)).
    + rewrite !take_ge by len. done.
    + f_equal. lia.
  - rewrite drop_app_ge by len. autorewrite with len. rewrite drop_drop. f_equal. lia.
Qed.

Lemma written_all P salt c dkLen out0 i :
  dkLen ≤ i * 32 → i * 32 < dkLen + 32 →
  written P salt c dkLen out0 i = pbkdf2 P salt c dkLen ++ drop dkLen out0.
Proof.
  intros Hlo Hhi. unfold written, pbkdf2. rewrite Nat.min_r by lia.
  replace ((dkLen + 31) / 32) with i; [done|].
  apply (Nat.div_unique _ 32 _ (dkLen + 31 - 32 * i)); lia.
Qed.

Lemma ivec_bytes i :
  (Z.of_nat (i + 1) < 2 ^ 32)%Z → be32enc (u32 (Z.of_nat (i + 1))) = be_bytes 4 (Z.of_nat (S i)).
Proof.
  intros Hi. rewrite u32_id by (unfold in_width; lia). rewrite be32enc_be_bytes.
  do 2 f_equal. lia.
Qed.

Lemma pbkdf2_generic_loop_spec fuel Phctx PShctx P salt c i dkLen out0 tmp32 :
  hmac_ready Phctx P [] → hmac_ready PShctx P salt → wf_tmp32 tmp32 →
  dkLen ≤ length out0 → (Z.of_nat dkLen <= 32 * (2 ^ 32 - 1))%Z →
  i * 32 < dkLen + 32 → dkLen < fuel + i →
  pbkdf2_generic_loop fuel Phctx PShctx c i dkLen (written P salt c dkLen out0 i) tmp32
  = pbkdf2 P salt c dkLen ++ drop dkLen out0.
Proof.
  intros HP HPS. revert i tmp32. induction fuel as [|fuel IH]; intros i tmp32 Ht Ho Hmax Hi Hf; [lia|].
  cbn [pbkdf2_generic_loop]. destruct (Nat.ltb_spec (i * 32) dkLen) as [Hlt|Hge];
    [|by apply written_all].
  rewrite ivec_bytes by lia.
  destruct (_HMAC_SHA256_Update_spec PShctx P salt (be_bytes 4 (Z.of_nat (S i))) tmp32)
    as (c1 & t1 & -> & H1 & Ht1); [done|apply be_bytes_bytes|done|].
  destruct (_HMAC_SHA256_Final_spec c1 P (salt ++ be_bytes 4 (Z.of_nat (S i))) t1)
    as (c2 & t2 & -> & Ht2); [done..|].
  assert (∃ t3, (if (1 <? c)%nat
     then pbkdf2_iterate (c - 1) Phctx (hmac P (salt ++ be_bytes 4 (Z.of_nat (S i))))
            (hmac P (salt ++ be_bytes 4 (Z.of_nat (S i)))) t2
     else (hmac P (salt ++ be_bytes 4 (Z.of_nat (S i))), t2))
     = (pbkdf2_block P salt c (S i), t3) ∧ wf_tmp32 t3) as (t3 & -> & Ht3).
  { unfold pbkdf2_block. destruct (Nat.ltb_spec 1 c).
    - apply pbkdf2_iterate_spec; auto using hmac_length, hmac_bytes.
    - replace (c - 1) with 0 by lia. by eauto. }
  rewrite written_step by done. apply IH; [done|done|done|lia|lia].
Qed.

Lemma pbkdf2_generic_spec Phctx P salt c dkLen out tmp32 :
  wf_hmac Phctx → bytes P → bytes salt → wf_tmp32 tmp32 →
  dkLen ≤ length out → (Z.of_nat dkLen <= 32 * (2 ^ 32 - 1))%Z →
  pbkdf2_generic Phctx P salt c dkLen out tmp32 = pbkdf2 P salt c dkLen ++ drop dkLen out.
Proof.
  intros Hc HP Hs Ht Ho Hmax. unfold pbkdf2_generic.
  destruct (_HMAC_SHA256_Init_spec Phctx P tmp32) as (c1 & t1 & -> & H1 & Ht1); [done..|].
  destruct (_HMAC_SHA256_Update_spec c1 P [] salt t1) as (c2 & t2 & -> & H2 & Ht2); [done..|].
  assert (out = written P salt c dkLen out 0) as E
    by (unfold written, pbkdf2_blocks; simpl; by rewrite take_nil).
  rewrite E at 1. apply pbkdf2_generic_loop_spec; auto; lia.
Qed.

(** ** PBKDF2, the single-iteration fast path *)

(** A short update only copies into the buffer. *)
Lemma _SHA256_Update_short ctx n src tmp32 :
  count ctx = u64 (8 * Z.of_nat n) → n `mod` 64 + length src < 64 → 0 < length src →
  _SHA256_Update ctx src tmp32
  = (mkSHA256_CTX (state ctx) (u64 (8 * Z.of_nat (n + length src)))
       (memcpy (buf ctx) (n `mod` 64) src), tmp32).
Proof.
  intros Hc Hlt Hpos. unfold _SHA256_Update. rewrite (buffered_spec ctx n) by done.
  destruct (Nat.eqb_spec (length src) 0); [lia|].
  destruct (Nat.ltb_spec (length src) (64 - n `mod` 64)); [|lia].
  do 2 f_equal. rewrite Hc. unfold u64.
  rewrite Z.shiftl_mul_pow2, <-Zplus_mod by lia. f_equal. lia.
Qed.

Lemma list_len1 {A} (l : list A) : length l = 1 → ∃ x, l = [x].
Proof. destruct l as [|x [|]]; try done. by exists x. Qed.

(** [SHA256_Pad_Almost] lays out the final block around whatever the buffer
    holds below position [n mod 64]. *)
Lemma SHA256_Pad_Almost_spec ctx n tmp32 :
  count ctx = u64 (8 * Z.of_nat n) → length (buf ctx) = 64 → n `mod` 64 < 56 →
  ∃ cnt, SHA256_Pad_Almost ctx tmp32
  = Some (mkSHA256_CTX (state ctx) cnt
       (take (n `mod` 64) (buf ctx) ++ (0x80%Z :: replicate (55 - n `mod` 64) 0%Z) ++
        be_bytes 8 (8 * Z.of_nat n)), tmp32).
Proof.
  intros Hc Hb Hr. unfold SHA256_Pad_Almost. rewrite (buffered_spec ctx n) by done.
  destruct (Nat.leb_spec 56 (n `mod` 64)); [lia|].
  rewrite Hc, be64enc_u64. set (L := be_bytes 8 _).
  assert (length L = 8) as HL by apply length_be_bytes.
  assert (length (take (56 - n `mod` 64) PAD) = 56 - n `mod` 64) as HPAD by len.
  rewrite (_SHA256_Update_short ctx n) by (done || lia). rewrite HPAD.
  cbn [state count buf].
  assert ((n + (56 - n `mod` 64)) `mod` 64 = 56) as E56.
  { rewrite (Nat.div_mod_eq n 64) at 1.
    replace (_ + _ + _) with (56 + n / 64 * 64) by lia. by rewrite Nat.Div0.mod_add. }
  erewrite (_SHA256_Update_short _ (n + (56 - n `mod` 64))); cbn [count state buf];
    [|done|rewrite E56; len|len].
  eexists. do 3 f_equal. rewrite E56.
  assert (take (n `mod` 64) (buf ctx) ++ take (56 - n `mod` 64) PAD
    = take 56 (memcpy (buf ctx) (n `mod` 64) (take (56 - n `mod` 64) PAD))) as E.
  { rewrite <-take_memcpy by len. f_equal. lia. }
  rewrite take_PAD in E at 1 by lia.
  replace (56 - n `mod` 64 - 1) with (55 - n `mod` 64) in E by lia.
  rewrite app_assoc, E. set (B := memcpy (buf ctx) _ _).
  assert (length B = 64) as HB by (unfold B; len).
  rewrite memcpy_app by len. rewrite take_insert by lia. f_equal.
  replace (56 + length (take 7 L)) with 63 by len.
  rewrite <-(take_drop 7 L) at 3. f_equal.
  destruct (list_len1 (drop 7 L)) as [x EL]; [len|]. rewrite EL.
  assert (L !!! 7 = x) as ->.
  { apply list_lookup_total_correct. rewrite <-(Nat.add_0_r 7), <-lookup_drop, EL. done. }
  rewrite drop_insert_ge by lia. rewrite Nat.sub_diag.
  destruct (list_len1 (drop 63 B)) as [z EB]; [len|]. by rewrite EB.
Qed.

(** The two final blocks of the fast path, with a hole for the counter and for
    the inner digest. *)
Definition inner_head (I : list Z) : list Z := drop (64 * (length I / 64)) I.
Definition inner_tail (I : list Z) : list Z :=
  (0x80%Z :: replicate (51 - length I `mod` 64) 0%Z) ++ be_bytes 8 (8 * Z.of_nat (length I + 4)).
Definition outer_tail : list Z := (0x80%Z :: replicate 23 0%Z) ++ be_bytes 8 (8 * 96).

Lemma length_inner_head I : length (inner_head I) = length I `mod` 64.
Proof. unfold inner_head. pose proof (Nat.div_mod_eq (length I) 64). len. Qed.
Lemma length_inner_tail I : length I `mod` 64 ≤ 51 → length (inner_tail I) = 60 - length I `mod` 64.
Proof. intros. unfold inner_tail. len. Qed.
Lemma length_outer_tail : length outer_tail = 32.
Proof. done. Qed.

Lemma add4_div_mod n :
  n `mod` 64 ≤ 51 → (n + 4) / 64 = n / 64 ∧ (n + 4) `mod` 64 = n `mod` 64 + 4.
Proof. intros Hn. apply div_mod_app. lia. Qed.

Lemma sha256_inner I w :
  length w = 4 → length I `mod` 64 ≤ 51 →
  sha256 (I ++ w) = digest_bytes (compress (compress_blocks (length I / 64) initial_state I)
    (inner_head I ++ w ++ inner_tail I)).
Proof.
  intros Hw Hr. destruct (add4_div_mod (length I)) as [Hq Hm]; [done|].
  pose proof (Nat.div_mod_eq (length I) 64).
  rewrite sha256_final_block by (rewrite length_app, Hw; lia). unfold final_block.
  rewrite length_app, Hw, Hq, Hm.
  rewrite compress_blocks_prefix, drop_app_le by lia.
  rewrite <-app_assoc. unfold inner_head, inner_tail.
  by replace (55 - (length I `mod` 64 + 4)) with (51 - length I `mod` 64) by lia.
Qed.

Lemma sha256_outer O h :
  length O = 64 → length h = 32 →
  sha256 (O ++ h)
  = digest_bytes (compress (compress_blocks (length O / 64) initial_state O) (h ++ outer_tail)).
Proof.
  intros HO Hh. assert (length (O ++ h) = 96) as Hl by len.
  rewrite sha256_final_block by (rewrite Hl; simpl; lia). unfold final_block. rewrite Hl.
  change (96 / 64) with 1. change (96 `mod` 64) with 32. cbn [compress_blocks].
  rewrite HO, take_app_length', drop_app_length' by lia.
  change (64 / 64) with 1. cbn [compress_blocks]. by rewrite take_ge by lia.
Qed.

Lemma bytes_tail n m : bytes ((0x80%Z :: replicate n 0%Z) ++ be_bytes 8 m).
Proof.
  apply Forall_app; split; [|apply be_bytes_bytes]. constructor; [done|apply bytes_zeros].
Qed.

Lemma pbkdf2_fast_loop_spec fuel hctx P salt I O w4 w32 i dkLen out0 tmp32 :
  I = key_block 0x36 P ++ salt → O = key_block 0x5c P →
  bytes P → bytes salt → length I `mod` 64 ≤ 51 →
  state (ictx hctx) = compress_blocks (length I / 64) initial_state I →
  buf (ictx hctx) = inner_head I ++ w4 ++ inner_tail I → length w4 = 4 →
  state (octx hctx) = compress_blocks (length O / 64) initial_state O →
  buf (octx hctx) = w32 ++ outer_tail → length w32 = 32 →
  wf_tmp32 tmp32 → dkLen `mod` 32 = 0 →
  dkLen ≤ length out0 → (Z.of_nat dkLen <= 32 * (2 ^ 32 - 1))%Z →
  i * 32 < dkLen + 32 → dkLen < fuel + i →
  pbkdf2_fast_loop fuel hctx (length I `mod` 64) i dkLen (written P salt 1 dkLen out0 i) tmp32
  = pbkdf2 P salt 1 dkLen ++ drop dkLen out0.
Proof.
  intros EI EO HP Hs Hr Hist. revert hctx Hist w4 w32 i tmp32.
  induction fuel as [|fuel IH];
    intros hctx Hist w4 w32 i tmp32 Hib Hw4 Host Hob Hw32 Ht Hmod Ho Hmax Hi Hf; [lia|].
  assert (bytes I) as HIb by (subst I; apply Forall_app; split; [by apply bytes_key_block|done]).
  assert (length O = 64) as HO by (rewrite EO; apply length_key_block).
  cbn [pbkdf2_fast_loop]. destruct (Nat.ltb_spec (i * 32) dkLen) as [Hlt|Hge];
    [|by apply written_all].
  rewrite ivec_bytes by lia. set (iv := be_bytes 4 (Z.of_nat (S i))).
  assert (length iv = 4) as Hiv by apply length_be_bytes.
  assert (memcpy (buf (ictx hctx)) (length I `mod` 64) iv
          = inner_head I ++ iv ++ inner_tail I) as ->.
  { rewrite Hib. pose proof (length_inner_head I). pose proof (length_inner_tail I Hr).
    rewrite memcpy_app by len. rewrite take_app_length' by done. do 2 f_equal.
    rewrite app_assoc. rewrite drop_app_length'; [done|len]. }
  destruct (SHA256_Transform_spec (state (ictx hctx))
    (inner_head I ++ iv ++ inner_tail I) tmp32) as (t1 & -> & Ht1).
  { rewrite Hist. apply length_compress_blocks. }
  { pose proof (length_inner_head I). pose proof (length_inner_tail I Hr). len. }
  { apply Forall_app; split; [by apply Forall_drop|].
    apply Forall_app; split; [apply be_bytes_bytes|apply bytes_tail]. }
  { done. }
  rewrite be32enc_vect_digest by (rewrite length_compress, Hist; apply length_compress_blocks).
  rewrite Hist, <-sha256_inner by done.
  assert (memcpy (buf (octx hctx)) 0 (sha256 (I ++ iv)) = sha256 (I ++ iv) ++ outer_tail) as ->.
  { rewrite Hob, memcpy_app by (rewrite sha256_length; len).
    rewrite sha256_length. simpl. rewrite drop_app_length'; done. }
  destruct (SHA256_Transform_spec (state (octx hctx))
    (sha256 (I ++ iv) ++ outer_tail) t1) as (t2 & -> & Ht2).
  { rewrite Host. apply length_compress_blocks. }
  { rewrite length_app, sha256_length. done. }
  { apply Forall_app; split; [apply sha256_bytes|apply bytes_tail]. }
  { done. }
  rewrite be32enc_vect_digest by (rewrite length_compress, Host; apply length_compress_blocks).
  rewrite Host, <-sha256_outer by (done || apply sha256_length).
  assert (sha256 (O ++ sha256 (I ++ iv)) = pbkdf2_block P salt 1 (S i)) as ->.
  { unfold pbkdf2_block, hmac. cbn [pbkdf2_F Nat.sub]. by rewrite EI, EO, <-app_assoc. }
  assert (32 ≤ dkLen - i * 32) as H32.
  { apply Nat.Div0.mod_divides in Hmod as [k ->]. lia. }
  pose proof (written_step P salt 1 dkLen out0 i Hlt Ho) as Hstep.
  replace (if (32 <? dkLen - i * 32)%nat then 32 else dkLen - i * 32) with 32 in Hstep
    by (destruct (Nat.ltb_spec 32 (dkLen - i * 32)); lia).
  rewrite take_ge in Hstep by (rewrite length_pbkdf2_block; lia). rewrite Hstep.
  eapply IH; cbn [ictx octx state buf]; try done; try apply sha256_length; lia.
Qed.

Lemma land_count ctx n :
  count ctx = u64 (8 * Z.of_nat n) →
  Z.land (count ctx) (0x3f ≪ 3) = (8 * Z.of_nat (n `mod` 64))%Z.
Proof.
  intros Hc. rewrite <-(buffered_spec ctx n Hc). unfold buffered.
  assert (0 <= Z.land (count ctx ≫ 3) 0x3f)%Z by (apply Z.land_nonneg; right; lia).
  rewrite Z2Nat.id by done. rewrite Z.mul_comm. change 8%Z with (2 ^ 3)%Z.
  rewrite <-Z.shiftl_mul_pow2 by lia. apply Z.bits_inj'. intros i Hi.
  rewrite Z.land_spec, !Z.shiftl_spec by lia. rewrite Z.land_spec.
  destruct (Z.ltb_spec i 3).
  - rewrite !(Z.testbit_neg_r _ (i - 3)) by lia. by rewrite andb_false_r.
  - rewrite Z.shiftr_spec by lia. by replace (i - 3 + 3)%Z with i by lia.
Qed.

Lemma pbkdf2_fast_spec hctx P salt dkLen out tmp32 :
  wf_hmac hctx → bytes P → bytes salt → wf_tmp32 tmp32 →
  length salt `mod` 64 ≤ 51 → dkLen `mod` 32 = 0 →
  dkLen ≤ length out → (Z.of_nat dkLen <= 32 * (2 ^ 32 - 1))%Z →
  pbkdf2_fast hctx P salt dkLen out tmp32 = inl (pbkdf2 P salt 1 dkLen ++ drop dkLen out).
Proof.
  intros Hc HP Hs Ht Hsalt Hmod Ho Hmax. unfold pbkdf2_fast.
  destruct (_HMAC_SHA256_Init_spec hctx P tmp32) as (c1 & t1 & -> & H1 & Ht1); [done..|].
  destruct (_HMAC_SHA256_Update_spec c1 P [] salt t1) as (c2 & t2 & -> & H2 & Ht2); [done..|].
  destruct H2 as [Hi Hoc]. rewrite app_nil_l in Hi.
  remember (key_block 0x36 P ++ salt) as I eqn:EI.
  remember (key_block 0x5c P) as O eqn:EO.
  assert (length O = 64) as HO by (rewrite EO; apply length_key_block).
  assert (length I `mod` 64 ≤ 51) as Hr.
  { rewrite EI, length_app, length_key_block.
    replace (64 + length salt) with (length salt + 1 * 64) by lia.
    by rewrite Nat.Div0.mod_add. }
  destruct (add4_div_mod (length I) Hr) as [Hq Hm].
  rewrite (land_count _ _ (hashed_count _ _ Hi)).
  unfold _HMAC_SHA256_Update.
  rewrite (_SHA256_Update_short _ _ _ t2 (hashed_count _ _ Hi)) by (cbn [length]; lia).
  cbn [ictx octx length].
  rewrite (land_count _ (length I + 4)) by done. rewrite Hm.
  destruct (Z.ltb_spec (8 * Z.of_nat (length I `mod` 64 + 4)) (8 * Z.of_nat (length I `mod` 64)));
    [lia|].
  edestruct (SHA256_Pad_Almost_spec
    (mkSHA256_CTX (state (ictx c2)) (u64 (8 * Z.of_nat (length I + 4)))
       (memcpy (buf (ictx c2)) (length I `mod` 64) [0; 0; 0; 0]%Z))
    (length I + 4) t2) as [cnt ->]; [done|cbn [buf]; rewrite length_memcpy; apply Hi|lia|].
  cbn [buf state]. rewrite Hm.
  edestruct (SHA256_Pad_Almost_spec
    (mkSHA256_CTX (state (octx c2)) (u64 (count (octx c2) + (32 ≪ 3))) (buf (octx c2)))
    96 t2) as [cnt' ->].
  { cbn [count]. rewrite (hashed_count _ _ Hoc), HO. done. }
  { apply Hoc. }
  { simpl. lia. }
  cbn [buf state]. f_equal.
  replace (Z.to_nat ((8 * Z.of_nat (length I `mod` 64)) ≫ 3)) with (length I `mod` 64).
  2:{ rewrite Z.shiftr_div_pow2 by lia. change (2 ^ 3)%Z with 8%Z.
      rewrite Z.mul_comm, Z.div_mul by lia. by rewrite Nat2Z.id. }
  assert (out = written P salt 1 dkLen out 0) as E
    by (unfold written, pbkdf2_blocks; simpl; by rewrite take_nil).
  rewrite E at 1.
  eapply pbkdf2_fast_loop_spec with (I := I) (O := O) (w4 := [0; 0; 0; 0]%Z)
    (w32 := take 32 (buf (octx c2))); cbn [ictx octx state buf]; auto; try lia.
  - apply Hi.
  - change (length I `mod` 64 + 4) with (length I `mod` 64 + length [0; 0; 0; 0]%Z) at 1.
    rewrite take_memcpy by (rewrite (hashed_buflen _ _ Hi); cbn [length]; lia).
    rewrite (hashed_buf _ _ Hi), <-app_assoc. unfold inner_head, inner_tail.
    by replace (55 - (length I `mod` 64 + 4)) with (51 - length I `mod` 64) by lia.
  - apply Hoc.
  - rewrite length_take, (hashed_buflen _ _ Hoc). done.
Qed.

(** The unreachable [goto generic] and the two paths together. *)
Lemma PBKDF2_SHA256_spec hctx0 Phctx0 tmp0 P salt c out dkLen :
  wf_hmac hctx0 → wf_hmac Phctx0 → wf_tmp32 tmp0 → bytes P → bytes salt →
  dkLen ≤ length out → (Z.of_nat dkLen <= 32 * (2 ^ 32 - 1))%Z →
  PBKDF2_SHA256 hctx0 Phctx0 tmp0 P salt c out dkLen
  = Some (pbkdf2 P salt c dkLen ++ drop dkLen out).
Proof.
  intros Hh Hp Ht HP Hs Ho Hmax. unfold PBKDF2_SHA256.
  destruct (Z.ltb_spec (32 * (2 ^ 32 - 1)) (Z.of_nat dkLen)); [lia|]. f_equal.
  case_bool_decide as Hc1; cbn [andb]; [subst c|by apply pbkdf2_generic_spec].
  destruct (Nat.eqb_spec (dkLen `mod` 32) 0); cbn [andb]; [|by apply pbkdf2_generic_spec].
  destruct (Nat.leb_spec (length salt `mod` 64) 51); [|by apply pbkdf2_generic_spec].
  by rewrite pbkdf2_fast_spec.
Qed.

(** ** Statements *)

Lemma hmac_updates_spec chunks ctx K msg :
  hmac_ready ctx K msg → Forall (λ tc, wf_tmp32 (fst tc) ∧ bytes (snd tc)) chunks →
  hmac_ready (foldl (λ ctx tc, HMAC_SHA256_Update (fst tc) ctx (snd tc)) ctx chunks) K
    (msg ++ mjoin (snd <$> chunks)).
Proof.
  intros H Hall. revert ctx msg H.
  induction Hall as [|[t c] chunks [Ht Hc] _ IH]; intros ctx msg H; cbn.
  { by rewrite app_nil_r. }
  unfold HMAC_SHA256_Update at 2.
  destruct (_HMAC_SHA256_Update_spec ctx K msg c t) as (ctx' & t' & -> & H' & _); [done..|].
  rewrite app_assoc. by apply IH.
Qed.

Definition stack_hctx : HMAC_SHA256_CTX := mkHMAC_SHA256_CTX stack_ctx stack_ctx.

(** C9: [HMAC_SHA256_Init], any sequence of [HMAC_SHA256_Update] calls and
    [HMAC_SHA256_Final] compute the RFC 2104 code of the concatenated chunks,
    for short and long keys and for every initial stack content. *)
Theorem HMAC_SHA256_incremental ctx0 K chunks tmpI tmpF :
  wf_hmac ctx0 → wf_tmp32 tmpI → wf_tmp32 tmpF → bytes K →
  Forall (λ tc, wf_tmp32 (fst tc) ∧ bytes (snd tc)) chunks →
  HMAC_SHA256_Final tmpF
    (foldl (λ ctx tc, HMAC_SHA256_Update (fst tc) ctx (snd tc))
       (HMAC_SHA256_Init tmpI ctx0 K) chunks)
  = hmac K (mjoin (snd <$> chunks)).
Proof.
  intros Hc HtI HtF HK Hall. unfold HMAC_SHA256_Init.
  destruct (_HMAC_SHA256_Init_spec ctx0 K tmpI) as (c & t & -> & Hr & _); [done..|].
  apply (hmac_updates_spec chunks) in Hr; [|done]. unfold HMAC_SHA256_Final.
  by edestruct _HMAC_SHA256_Final_spec as (c' & t' & -> & _).
Qed.

Lemma HMAC_SHA256_incremental_witness :
  HMAC_SHA256_Final stack_tmp
    (HMAC_SHA256_Update stack_tmp
       (HMAC_SHA256_Update stack_tmp (HMAC_SHA256_Init stack_tmp stack_hctx [1; 2]%Z) [3]%Z) [4]%Z)
  = hmac [1; 2]%Z [3; 4]%Z.
Proof.
  apply (HMAC_SHA256_incremental stack_hctx [1; 2]%Z
    [(stack_tmp, [3]%Z); (stack_tmp, [4]%Z)] stack_tmp stack_tmp);
    repeat constructor; simpl; lia.
Defined.

(** C6: [PBKDF2_SHA256] writes the RFC 8018 derived key over the first [dkLen]
    bytes of [buf] and leaves the rest of [buf] alone.  The statement covers
    the fast path ([c = 1], [dkLen] a multiple of 32, a salt that leaves room
    in its block), which pads the two hash contexts once and patches the block
    counter in place, and the generic path; on the fast path neither
    [goto generic] is taken. *)
Theorem PBKDF2_SHA256_rfc8018 hctx0 Phctx0 tmp0 P salt c out dkLen :
  wf_hmac hctx0 → wf_hmac Phctx0 → wf_tmp32 tmp0 → bytes P → bytes salt →
  dkLen ≤ length out → (Z.of_nat dkLen <= 32 * (2 ^ 32 - 1))%Z →
  PBKDF2_SHA256 hctx0 Phctx0 tmp0 P salt c out dkLen
  = Some (pbkdf2 P salt c dkLen ++ drop dkLen out) ∧
  (dkLen `mod` 32 = 0 → length salt `mod` 64 ≤ 51 →
   pbkdf2_fast hctx0 P salt dkLen out tmp0 = inl (pbkdf2 P salt 1 dkLen ++ drop dkLen out)).
Proof. intros. split; [by apply PBKDF2_SHA256_spec|intros; by apply pbkdf2_fast_spec]. Qed.

Lemma PBKDF2_SHA256_rfc8018_witness :
  PBKDF2_SHA256 stack_hctx stack_hctx stack_tmp [1; 2; 3]%Z [4; 5]%Z 1 (replicate 70 0%Z) 64
  = Some (pbkdf2 [1; 2; 3]%Z [4; 5]%Z 1 64 ++ replicate 6 0%Z).
Proof.
  apply (PBKDF2_SHA256_rfc8018 stack_hctx stack_hctx stack_tmp [1; 2; 3]%Z [4; 5]%Z 1
    (replicate 70 0%Z) 64); repeat constructor; simpl; lia.
Defined.
