(* ===== verification/Simd.v ===== *)
(** * 128-bit vectors and the block type of yespower

    [__m128i] as four 32-bit elements, lowest first, with the SSE2 (and one
    XOP) intrinsics that [yespower-opt.c] and [korsh-yp2.c] use, and the union
    [salsa20_blk_t] with its three views [w], [d] and [q] on a little-endian
    host. *)
From S2P Require Import Prelude.

Record m128i := M128 { e0 : Z; e1 : Z; e2 : Z; e3 : Z }.

Definition wf_m128i (x : m128i) : Prop := is_u32 (e0 x) ∧ is_u32 (e1 x) ∧ is_u32 (e2 x) ∧ is_u32 (e3 x).

Definition map_epi32 (f : Z → Z) (x : m128i) : m128i :=
  M128 (f (e0 x)) (f (e1 x)) (f (e2 x)) (f (e3 x)).
Definition zip_epi32 (f : Z → Z → Z) (x y : m128i) : m128i :=
  M128 (f (e0 x) (e0 y)) (f (e1 x) (e1 y)) (f (e2 x) (e2 y)) (f (e3 x) (e3 y)).

Definition _mm_add_epi32 : m128i → m128i → m128i := zip_epi32 add32.
Definition _mm_xor_si128 : m128i → m128i → m128i := zip_epi32 Z.lxor.
Definition _mm_slli_epi32 (x : m128i) (s : Z) : m128i := map_epi32 (λ e, shl32 e s) x.
Definition _mm_srli_epi32 (x : m128i) (s : Z) : m128i := map_epi32 (λ e, (e ≫ s)%Z) x.

(** [R(a,b)] of the generic code, and [_mm_roti_epi32] of XOP. *)
Definition rotl32 (x s : Z) : Z := Z.lor (shl32 x s) (x ≫ (32 - s)).
Definition _mm_roti_epi32 (x : m128i) (s : Z) : m128i := map_epi32 (λ e, rotl32 e s) x.

Definition elem (x : m128i) (i : Z) : Z :=
  match i with 0 => e0 x | 1 => e1 x | 2 => e2 x | _ => e3 x end%Z.

(** Element [k] of the result is selected by bits [2k] and [2k+1] of [imm]. *)
Definition _mm_shuffle_epi32 (x : m128i) (imm : Z) : m128i :=
  M128 (elem x (Z.land imm 3)) (elem x (Z.land (imm ≫ 2) 3))
       (elem x (Z.land (imm ≫ 4) 3)) (elem x (Z.land (imm ≫ 6) 3)).
Definition _MM_SHUFFLE (z y x w : Z) : Z := Z.lor (Z.lor (z ≪ 6) (y ≪ 4)) (Z.lor (x ≪ 2) w).

(** The two 64-bit halves. *)
Definition join64 (lo hi : Z) : Z := Z.lor lo (hi ≪ 32).
Definition lo64 (x : m128i) : Z := join64 (e0 x) (e1 x).
Definition hi64 (x : m128i) : Z := join64 (e2 x) (e3 x).
Definition of_epi64 (lo hi : Z) : m128i := M128 (u32 lo) (u32 (lo ≫ 32)) (u32 hi) (u32 (hi ≫ 32)).

Definition _mm_add_epi64 (x y : m128i) : m128i :=
  of_epi64 (u64 (lo64 x + lo64 y)%Z) (u64 (hi64 x + hi64 y)%Z).
Definition _mm_mul_epu32 (x y : m128i) : m128i := of_epi64 (e0 x * e0 y)%Z (e2 x * e2 y)%Z.
Definition _mm_srli_epi64 (x : m128i) (s : Z) : m128i := of_epi64 (lo64 x ≫ s)%Z (hi64 x ≫ s)%Z.
(** [_mm_srli_si128 (x, 4)]: the whole register shifted right by four bytes. *)
Definition _mm_srli_si128_4 (x : m128i) : m128i := M128 (e1 x) (e2 x) (e3 x) 0.
Definition _mm_cvtsi128_si32 (x : m128i) : Z := e0 x.
Definition _mm_cvtsi128_si64 (x : m128i) : Z := lo64 x.

(** ** The union [salsa20_blk_t] *)
Record salsa20_blk_t := Blk { q0 : m128i; q1 : m128i; q2 : m128i; q3 : m128i }.

Definition wf_blk (b : salsa20_blk_t) : Prop :=
  wf_m128i (q0 b) ∧ wf_m128i (q1 b) ∧ wf_m128i (q2 b) ∧ wf_m128i (q3 b).

Definition lane_w (x : m128i) : list Z := [e0 x; e1 x; e2 x; e3 x].
Definition lane_d (x : m128i) : list Z := [lo64 x; hi64 x].
(** The views [b.q], [b.w] and [b.d]. *)
Definition blk_q (b : salsa20_blk_t) : list m128i := [q0 b; q1 b; q2 b; q3 b].
Definition blk_w (b : salsa20_blk_t) : list Z :=
  lane_w (q0 b) ++ lane_w (q1 b) ++ lane_w (q2 b) ++ lane_w (q3 b).
Definition blk_d (b : salsa20_blk_t) : list Z :=
  lane_d (q0 b) ++ lane_d (q1 b) ++ lane_d (q2 b) ++ lane_d (q3 b).

(** The block whose view [w], or [d], is the given list. *)
Definition of_w (w : list Z) : salsa20_blk_t :=
  let q i := M128 (w !!! (4 * i)) (w !!! (4 * i + 1)) (w !!! (4 * i + 2)) (w !!! (4 * i + 3)) in
  Blk (q 0) (q 1) (q 2) (q 3).
Definition of_d (d : list Z) : salsa20_blk_t :=
  let q i := of_epi64 (d !!! (2 * i)) (d !!! (2 * i + 1)) in
  Blk (q 0) (q 1) (q 2) (q 3).

(** ** Well-formedness and views *)
Section Lemmas.
Local Open Scope Z_scope.

Lemma join64_sum lo hi : is_u32 lo → join64 lo hi = lo + hi * 2 ^ 32.
Proof.
  intros Hlo. unfold join64. rewrite <-Z.shiftl_mul_pow2 by lia.
  rewrite <-Z.lxor_lor, <-Z.add_nocarry_lxor; [done|..];
    apply Z.bits_inj'; intros i Hi; autorewrite with bits;
    destruct (Z.ltb_spec i 32).
  all: first [by rewrite (Z.testbit_neg_r hi) by lia; rewrite andb_false_r
             |by rewrite (in_width_testbit 32 lo) by (done || lia)].
Qed.

Lemma join64_width lo hi : is_u32 lo → is_u32 hi → is_u64 (join64 lo hi).
Proof. intros Hlo Hhi. rewrite join64_sum by done. unfold in_width in *. lia. Qed.
Lemma u32_join64 lo hi : is_u32 lo → u32 (join64 lo hi) = lo.
Proof.
  intros Hlo. rewrite join64_sum by done. unfold u32.
  rewrite Z_mod_plus_full. by apply Z.mod_small.
Qed.
Lemma join64_hi lo hi : is_u32 lo → join64 lo hi ≫ 32 = hi.
Proof.
  intros Hlo. rewrite join64_sum, Z.shiftr_div_pow2 by (done || lia).
  rewrite Z.div_add by lia. rewrite (Z.div_small lo) by done. lia.
Qed.

Lemma of_epi64_halves x : wf_m128i x → of_epi64 (lo64 x) (hi64 x) = x.
Proof.
  destruct x as [a b c d]. intros (Ha & Hb & Hc & Hd). cbn in *.
  unfold of_epi64, lo64, hi64. cbn. rewrite !u32_join64, !join64_hi by done.
  by rewrite !u32_id.
Qed.

Lemma join64_split x : is_u64 x → join64 (u32 x) (u32 (x ≫ 32)) = x.
Proof.
  intros Hx. rewrite join64_sum by auto with width.
  rewrite (u32_id (x ≫ 32)).
  - rewrite Z.shiftr_div_pow2 by lia. unfold u32.
    pose proof (Z.div_mod x (2 ^ 32)). lia.
  - rewrite Z.shiftr_div_pow2 by lia. destruct Hx. split; [by apply Z.div_pos|].
    apply Z.div_lt_upper_bound; lia.
Qed.
Lemma lo64_of_epi64 a b : is_u64 a → lo64 (of_epi64 a b) = a.
Proof. apply join64_split. Qed.
Lemma hi64_of_epi64 a b : is_u64 b → hi64 (of_epi64 a b) = b.
Proof. apply join64_split. Qed.

Lemma wf_of_epi64 a b : wf_m128i (of_epi64 a b).
Proof. unfold wf_m128i; split_and!; apply u32_width. Qed.
Lemma wf_add_epi32 x y : wf_m128i (_mm_add_epi32 x y).
Proof. unfold wf_m128i; split_and!; apply add32_width. Qed.
Lemma wf_xor_si128 x y : wf_m128i x → wf_m128i y → wf_m128i (_mm_xor_si128 x y).
Proof. intros (? & ? & ? & ?) (? & ? & ? & ?). unfold wf_m128i; split_and!; apply lxor_width; done || lia. Qed.
Lemma wf_add_epi64 x y : wf_m128i (_mm_add_epi64 x y).
Proof. apply wf_of_epi64. Qed.
Lemma lo64_width x : wf_m128i x → is_u64 (lo64 x).
Proof. intros (? & ? & ? & ?). by apply join64_width. Qed.
Lemma hi64_width x : wf_m128i x → is_u64 (hi64 x).
Proof. intros (? & ? & ? & ?). by apply join64_width. Qed.

Lemma lxor_join64 a b c d : is_u32 a → is_u32 c →
  Z.lxor (join64 a b) (join64 c d) = join64 (Z.lxor a c) (Z.lxor b d).
Proof.
  intros Ha Hc. unfold join64. apply Z.bits_inj'. intros i Hi. autorewrite with bits.
  destruct (Z.ltb_spec i 32).
  - by rewrite !(Z.testbit_neg_r _ (i - 32)) by lia; rewrite !orb_false_r.
  - by rewrite !(in_width_testbit 32 _ i) by (done || lia).
Qed.
Lemma lo64_xor x y : wf_m128i x → wf_m128i y →
  lo64 (_mm_xor_si128 x y) = Z.lxor (lo64 x) (lo64 y).
Proof. intros (?&?&?&?) (?&?&?&?). symmetry. by apply lxor_join64. Qed.
Lemma hi64_xor x y : wf_m128i x → wf_m128i y →
  hi64 (_mm_xor_si128 x y) = Z.lxor (hi64 x) (hi64 y).
Proof. intros (?&?&?&?) (?&?&?&?). symmetry. by apply lxor_join64. Qed.

Lemma elem_width x i : wf_m128i x → is_u32 (elem x i).
Proof. intros (? & ? & ? & ?). unfold elem. by repeat case_match. Qed.
Lemma wf_shuffle_epi32 x imm : wf_m128i x → wf_m128i (_mm_shuffle_epi32 x imm).
Proof. intros Hx. unfold wf_m128i; split_and!; by apply elem_width. Qed.

Lemma of_w_blk_w b : of_w (blk_w b) = b.
Proof. by destruct b as [[] [] [] []]. Qed.
Lemma of_d_blk_d b : wf_blk b → of_d (blk_d b) = b.
Proof.
  intros (H0 & H1 & H2 & H3). destruct b. unfold of_d. cbn -[of_epi64].
  by rewrite !of_epi64_halves.
Qed.
Lemma words_blk_w b : wf_blk b → words (blk_w b).
Proof.
  unfold wf_blk, wf_m128i. intros Hb. destruct_and! Hb. unfold blk_w, lane_w. cbn [app].
  by rewrite !Forall_cons, Forall_nil.
Qed.
End Lemmas.

#[export] Hint Resolve wf_of_epi64 wf_add_epi32 wf_add_epi64 wf_xor_si128 wf_shuffle_epi32 : width.

#[global] Instance m128i_eq_dec : EqDecision m128i.
Proof. solve_decision. Defined.
#[global] Instance salsa20_blk_t_eq_dec : EqDecision salsa20_blk_t.
Proof. solve_decision. Defined.
