(* ===== verification/Salsa20.v ===== *)
(** * The Salsa20 cores of yespower

    [src/src/crypto/yespower/yespower-opt.c]: the SIMD shuffling of a block,
    the vector ([__SSE2__]) and the portable Salsa20 core, and the block
    operations shared by the mixing loops.  The theorems show that shuffling
    is invertible and that the two cores compute the same block. *)
From S2P Require Import Prelude Simd.

(** ** Shuffling *)
Definition COMBINE (Bin : list Z) (in1 in2 : nat) : Z :=
  Z.lor (Bin !!! (in1 * 2)) ((Bin !!! (in2 * 2 + 1)) ≪ 32).

Definition salsa20_simd_shuffle (Bin : salsa20_blk_t) : salsa20_blk_t :=
  let w := blk_w Bin in
  of_d [COMBINE w 0 2; COMBINE w 5 7; COMBINE w 2 4; COMBINE w 7 1;
        COMBINE w 4 6; COMBINE w 1 3; COMBINE w 6 0; COMBINE w 3 5].

Definition UNCOMBINE (Bin : list Z) (in1 in2 : nat) : list Z :=
  [u32 (Bin !!! in1); u32 ((Bin !!! in2) ≫ 32)].

Definition salsa20_simd_unshuffle (Bin : salsa20_blk_t) : salsa20_blk_t :=
  let d := blk_d Bin in
  of_w (UNCOMBINE d 0 6 ++ UNCOMBINE d 5 3 ++ UNCOMBINE d 2 0 ++ UNCOMBINE d 7 5 ++
        UNCOMBINE d 4 2 ++ UNCOMBINE d 1 7 ++ UNCOMBINE d 6 4 ++ UNCOMBINE d 3 1).

(** ** The vector core

    The registers [X0 .. X3] are the four lanes of a block. *)
Definition ARX (out in1 in2 : m128i) (s : Z) : m128i :=
  let tmp := _mm_add_epi32 in1 in2 in
  let out := _mm_xor_si128 out (_mm_slli_epi32 tmp s) in
  _mm_xor_si128 out (_mm_srli_epi32 tmp (32 - s)).

(** The same macro when XOP is available. *)
Definition ARX_xop (out in1 in2 : m128i) (s : Z) : m128i :=
  _mm_xor_si128 out (_mm_roti_epi32 (_mm_add_epi32 in1 in2) s).

Definition salsa20_columns (X : salsa20_blk_t) : salsa20_blk_t :=
  let '(Blk X0 X1 X2 X3) := X in
  let X1 := ARX X1 X0 X3 7 in
  let X2 := ARX X2 X1 X0 9 in
  let X3 := ARX X3 X2 X1 13 in
  let X0 := ARX X0 X3 X2 18 in
  let X1 := _mm_shuffle_epi32 X1 0x93 in
  let X2 := _mm_shuffle_epi32 X2 0x4E in
  let X3 := _mm_shuffle_epi32 X3 0x39 in
  Blk X0 X1 X2 X3.

Definition salsa20_rows (X : salsa20_blk_t) : salsa20_blk_t :=
  let '(Blk X0 X1 X2 X3) := X in
  let X3 := ARX X3 X0 X1 7 in
  let X2 := ARX X2 X3 X0 9 in
  let X1 := ARX X1 X2 X3 13 in
  let X0 := ARX X0 X1 X2 18 in
  let X1 := _mm_shuffle_epi32 X1 0x39 in
  let X2 := _mm_shuffle_epi32 X2 0x4E in
  let X3 := _mm_shuffle_epi32 X3 0x93 in
  Blk X0 X1 X2 X3.

Definition SALSA20_2ROUNDS (X : salsa20_blk_t) : salsa20_blk_t := salsa20_rows (salsa20_columns X).

(** The value left both in [X] and in [out]. *)
Definition SALSA20_wrapper (rounds : salsa20_blk_t → salsa20_blk_t) (Zb : salsa20_blk_t) : salsa20_blk_t :=
  let X := rounds Zb in
  Blk (_mm_add_epi32 (q0 X) (q0 Zb)) (_mm_add_epi32 (q1 X) (q1 Zb))
      (_mm_add_epi32 (q2 X) (q2 Zb)) (_mm_add_epi32 (q3 X) (q3 Zb)).

Definition SALSA20_8ROUNDS (X : salsa20_blk_t) : salsa20_blk_t :=
  SALSA20_2ROUNDS (SALSA20_2ROUNDS (SALSA20_2ROUNDS (SALSA20_2ROUNDS X))).

Definition SALSA20_2 : salsa20_blk_t → salsa20_blk_t := SALSA20_wrapper SALSA20_2ROUNDS.
Definition SALSA20_8 : salsa20_blk_t → salsa20_blk_t := SALSA20_wrapper SALSA20_8ROUNDS.

(** [XOR_X(in)], and [XOR_X_2(in1, in2)] as its instance on two operands. *)
Definition XOR_X (X b : salsa20_blk_t) : salsa20_blk_t :=
  Blk (_mm_xor_si128 (q0 X) (q0 b)) (_mm_xor_si128 (q1 X) (q1 b))
      (_mm_xor_si128 (q2 X) (q2 b)) (_mm_xor_si128 (q3 X) (q3 b)).

Definition INTEGERIFY (X : salsa20_blk_t) : Z := _mm_cvtsi128_si32 (q0 X).

(** ** The portable core *)
Definition R (x : list Z) (dst a b : nat) (s : Z) : list Z :=
  <[dst := Z.lxor (x !!! dst) (rotl32 (add32 (x !!! a) (x !!! b)) s)]> x.

(** The four statements that update one column or row. *)
Definition quarter (x : list Z) (q : nat * nat * nat * nat) : list Z :=
  let '(a, b, c, d) := q in
  let x := R x b a d 7 in
  let x := R x c b a 9 in
  let x := R x d c b 13 in
  R x a d c 18.

Definition columns : list (nat * nat * nat * nat) :=
  [(0, 4, 8, 12); (5, 9, 13, 1); (10, 14, 2, 6); (15, 3, 7, 11)].
Definition rows : list (nat * nat * nat * nat) :=
  [(0, 1, 2, 3); (5, 6, 7, 4); (10, 11, 8, 9); (15, 12, 13, 14)].

Definition doubleround (x : list Z) : list Z := foldl quarter (foldl quarter x columns) rows.

(** [do ... while (--doublerounds)], which takes [n = doublerounds] turns for
    the values 1 and 4 it is called with. *)
Definition doublerounds (n : nat) (x : list Z) : list Z := Nat.iter n doubleround x.

(** The value left both in [B] and in [Bout]. *)
Definition salsa20 (B : salsa20_blk_t) (n : nat) : salsa20_blk_t :=
  let X := doublerounds n (blk_w (salsa20_simd_unshuffle B)) in
  of_w (zip_with add32 (blk_w (salsa20_simd_shuffle (of_w X))) (blk_w B)).

(** [XOR (X, X, in)] works on the 64-bit view. *)
Definition XOR (in1 in2 : salsa20_blk_t) : salsa20_blk_t :=
  of_d (zip_with Z.lxor (blk_d in1) (blk_d in2)).
Definition INTEGERIFY_generic (X : salsa20_blk_t) : Z := u32 (blk_d X !!! 0).

(** ** Layouts

    A block of sixteen words in the two vector layouts of the core: along the
    diagonals of columns and along those of rows. *)
Definition diag (x : list Z) : salsa20_blk_t :=
  let w i := x !!! i in
  Blk (M128 (w 0) (w 5) (w 10) (w 15)) (M128 (w 4) (w 9) (w 14) (w 3))
      (M128 (w 8) (w 13) (w 2) (w 7)) (M128 (w 12) (w 1) (w 6) (w 11)).
Definition rowdiag (x : list Z) : salsa20_blk_t :=
  let w i := x !!! i in
  Blk (M128 (w 0) (w 5) (w 10) (w 15)) (M128 (w 3) (w 4) (w 9) (w 14))
      (M128 (w 2) (w 7) (w 8) (w 13)) (M128 (w 1) (w 6) (w 11) (w 12)).

Lemma list_len16 {A} (l : list A) : length l = 16 →
  ∃ x0 x1 x2 x3 x4 x5 x6 x7 x8 x9 x10 x11 x12 x13 x14 x15,
    l = [x0; x1; x2; x3; x4; x5; x6; x7; x8; x9; x10; x11; x12; x13; x14; x15].
Proof. intros. do 17 (destruct l as [|? l]; try discriminate). by repeat eexists. Qed.

Lemma length_blk_w b : length (blk_w b) = 16.
Proof. done. Qed.

Lemma shuffle_diag b : wf_blk b → salsa20_simd_shuffle b = diag (blk_w b).
Proof.
  intros Hb. destruct b as [[] [] [] []]. unfold wf_blk, wf_m128i in Hb. cbn in Hb.
  destruct_and! Hb. unfold salsa20_simd_shuffle, COMBINE, of_d, diag. cbn -[of_epi64 Z.shiftl].
  unfold of_epi64.
  repeat match goal with |- context [Z.lor ?a (?b ≪ 32)%Z] => change (Z.lor a (b ≪ 32)%Z) with (join64 a b) end.
  by rewrite !u32_join64, !join64_hi, !u32_id by done.
Qed.

(** Unshuffling inverts shuffling, and conversely. *)
Lemma unshuffle_diag x : length x = 16 → words x → salsa20_simd_unshuffle (diag x) = of_w x.
Proof.
  intros (x0&x1&x2&x3&x4&x5&x6&x7&x8&x9&x10&x11&x12&x13&x14&x15&->)%list_len16 Hw.
  rewrite !Forall_cons in Hw. destruct_and! Hw.
  unfold salsa20_simd_unshuffle, UNCOMBINE, diag, blk_d, lane_d, lo64, hi64.
  cbn -[join64 u32 Z.shiftr]. by rewrite !u32_join64, !join64_hi, !u32_id by done.
Qed.

Lemma wf_of_w x : length x = 16 → words x → wf_blk (of_w x).
Proof.
  intros (x0&x1&x2&x3&x4&x5&x6&x7&x8&x9&x10&x11&x12&x13&x14&x15&->)%list_len16 Hw.
  rewrite !Forall_cons in Hw. destruct_and! Hw. by split_and!.
Qed.

Lemma blk_w_of_w x : length x = 16 → blk_w (of_w x) = x.
Proof. by intros (x0&x1&x2&x3&x4&x5&x6&x7&x8&x9&x10&x11&x12&x13&x14&x15&->)%list_len16. Qed.

Lemma diag_surj b : wf_blk b → ∃ x, length x = 16 ∧ words x ∧ b = diag x.
Proof.
  destruct b as [[a0 a5 a10 a15] [a4 a9 a14 a3] [a8 a13 a2 a7] [a12 a1 a6 a11]]. intros Hb.
  exists [a0; a1; a2; a3; a4; a5; a6; a7; a8; a9; a10; a11; a12; a13; a14; a15].
  unfold wf_blk, wf_m128i in Hb. cbn in Hb. destruct_and! Hb.
  split_and!; [done| |done]. by rewrite !Forall_cons, Forall_nil.
Qed.

(** ** The vector rounds are the portable rounds *)
Lemma arx_elem o a b s : (0 < s < 32)%Z →
  Z.lxor (Z.lxor o (shl32 (add32 a b) s)) (add32 a b ≫ (32 - s))
  = Z.lxor o (rotl32 (add32 a b) s).
Proof.
  intros Hs. rewrite Z.lxor_assoc. f_equal. unfold rotl32.
  pose proof (add32_width a b) as Ht. revert Ht. generalize (add32 a b) as t. intros t Ht.
  apply Z.lxor_lor. unfold shl32, u32. apply Z.bits_inj'. intros i Hi.
  autorewrite with bits. destruct (Z.ltb_spec i s).
  - by rewrite (Z.testbit_neg_r t) by lia; rewrite andb_false_r.
  - rewrite (in_width_testbit 32 t (i + (32 - s))) by (done || lia). by rewrite andb_false_r.
Qed.

Lemma ARX_ARX_xop out in1 in2 s : (0 < s < 32)%Z → ARX out in1 in2 s = ARX_xop out in1 in2 s.
Proof.
  intros Hs. unfold ARX, ARX_xop, _mm_xor_si128, _mm_slli_epi32, _mm_srli_epi32,
    _mm_roti_epi32, _mm_add_epi32, zip_epi32, map_epi32. cbn [e0 e1 e2 e3].
  by rewrite !arx_elem.
Qed.

Lemma columns_spec x : length x = 16 →
  salsa20_columns (diag x) = rowdiag (foldl quarter x columns).
Proof.
  intros (x0&x1&x2&x3&x4&x5&x6&x7&x8&x9&x10&x11&x12&x13&x14&x15&->)%list_len16.
  unfold salsa20_columns, diag. rewrite !ARX_ARX_xop by lia. reflexivity.
Qed.
Lemma rows_spec x : length x = 16 → salsa20_rows (rowdiag x) = diag (foldl quarter x rows).
Proof.
  intros (x0&x1&x2&x3&x4&x5&x6&x7&x8&x9&x10&x11&x12&x13&x14&x15&->)%list_len16.
  unfold salsa20_rows, rowdiag. rewrite !ARX_ARX_xop by lia. reflexivity.
Qed.

Lemma R_wf x dst a b s : (0 < s < 32)%Z → words x → length x = 16 →
  dst < 16 → words (R x dst a b s) ∧ length (R x dst a b s) = 16.
Proof.
  intros Hs Hw Hl Hd. unfold R. split; [|by rewrite length_insert].
  apply Forall_insert; [done|]. apply lxor_width; [lia| |].
  - apply Forall_lookup_total_1; [done|lia].
  - unfold rotl32. apply lor_width; [lia|apply u32_width|].
    apply shiftr_width; [lia|lia|auto with width].
Qed.

Lemma quarter_wf x q :
  words x → length x = 16 → (q.1.1.1 < 16 ∧ q.1.1.2 < 16 ∧ q.1.2 < 16 ∧ q.2 < 16) →
  words (quarter x q) ∧ length (quarter x q) = 16.
Proof.
  destruct q as [[[a b] c] d]. intros Hw Hl (Ha & Hb & Hc & Hd). cbn in *. unfold quarter.
  repeat (match goal with |- context [R ?y ?e ?f ?g ?s] =>
    match y with R _ _ _ _ _ => fail 1 | _ =>
      destruct (R_wf y e f g s ltac:(lia)) as [? ?]; [done..|]; generalize dependent (R y e f g s); intros
    end end). done.
Qed.

Lemma quarters_wf qs x :
  Forall (λ q : nat * nat * nat * nat, q.1.1.1 < 16 ∧ q.1.1.2 < 16 ∧ q.1.2 < 16 ∧ q.2 < 16) qs →
  words x → length x = 16 → words (foldl quarter x qs) ∧ length (foldl quarter x qs) = 16.
Proof.
  intros Hq. revert x. induction Hq as [|q qs Hq _ IH]; intros x Hw Hl; [done|].
  cbn [foldl]. destruct (quarter_wf x q) as [? ?]; [done..|]. by apply IH.
Qed.

Lemma doubleround_spec x : length x = 16 → words x →
  SALSA20_2ROUNDS (diag x) = diag (doubleround x) ∧
  words (doubleround x) ∧ length (doubleround x) = 16.
Proof.
  intros Hl Hw. unfold SALSA20_2ROUNDS, doubleround.
  destruct (quarters_wf columns x) as [Hw1 Hl1]; [by repeat constructor; cbn; lia|done..|].
  destruct (quarters_wf rows (foldl quarter x columns)) as [Hw2 Hl2];
    [by repeat constructor; cbn; lia|done..|].
  by rewrite columns_spec, rows_spec.
Qed.

Lemma doublerounds_spec n x : length x = 16 → words x →
  Nat.iter n SALSA20_2ROUNDS (diag x) = diag (doublerounds n x) ∧
  words (doublerounds n x) ∧ length (doublerounds n x) = 16.
Proof.
  intros Hl Hw. unfold doublerounds. induction n as [|n (IH & IHw & IHl)]; [done|].
  rewrite !Nat.iter_succ, IH. by apply doubleround_spec.
Qed.

Lemma of_w_add32 x y :
  of_w (zip_with add32 (blk_w x) (blk_w y))
  = Blk (_mm_add_epi32 (q0 x) (q0 y)) (_mm_add_epi32 (q1 x) (q1 y))
        (_mm_add_epi32 (q2 x) (q2 y)) (_mm_add_epi32 (q3 x) (q3 y)).
Proof. by destruct x as [[] [] [] []], y as [[] [] [] []]. Qed.

Lemma salsa20_vector n b : wf_blk b →
  SALSA20_wrapper (Nat.iter n SALSA20_2ROUNDS) b = salsa20 b n.
Proof.
  intros (x & Hl & Hw & ->)%diag_surj. unfold salsa20, SALSA20_wrapper.
  destruct (doublerounds_spec n x) as (-> & Hw' & Hl'); [done..|].
  rewrite unshuffle_diag, blk_w_of_w by done.
  rewrite shuffle_diag by (by apply wf_of_w). by rewrite blk_w_of_w, of_w_add32.
Qed.

Lemma SALSA20_2_generic b : wf_blk b → SALSA20_2 b = salsa20 b 1.
Proof. apply (salsa20_vector 1). Qed.
Lemma SALSA20_8_generic b : wf_blk b → SALSA20_8 b = salsa20 b 4.
Proof. apply (salsa20_vector 4). Qed.

Lemma wf_SALSA20_wrapper f b : wf_blk (SALSA20_wrapper f b).
Proof. unfold wf_blk. split_and!; apply wf_add_epi32. Qed.
Lemma wf_XOR_X x y : wf_blk x → wf_blk y → wf_blk (XOR_X x y).
Proof. intros (?&?&?&?) (?&?&?&?). unfold wf_blk. split_and!; by apply wf_xor_si128. Qed.
Lemma wf_diag x : length x = 16 → words x → wf_blk (diag x).
Proof.
  intros (x0&x1&x2&x3&x4&x5&x6&x7&x8&x9&x10&x11&x12&x13&x14&x15&->)%list_len16 Hw.
  rewrite !Forall_cons in Hw. destruct_and! Hw. by split_and!.
Qed.

(** The 64-bit exclusive or of the portable code is the vector one. *)
Lemma XOR_XOR_X x y : wf_blk x → wf_blk y → XOR x y = XOR_X x y.
Proof.
  intros (H0&H1&H2&H3) (K0&K1&K2&K3). unfold XOR, of_d, blk_d, lane_d, XOR_X. cbn -[of_epi64].
  assert (∀ a b, wf_m128i a → wf_m128i b →
    of_epi64 (Z.lxor (lo64 a) (lo64 b)) (Z.lxor (hi64 a) (hi64 b)) = _mm_xor_si128 a b) as E.
  { intros a b Ha Hb. rewrite <-lo64_xor, <-hi64_xor by done.
    apply of_epi64_halves. by apply wf_xor_si128. }
  by rewrite !E.
Qed.

Lemma INTEGERIFY_agree x : wf_blk x → INTEGERIFY_generic x = INTEGERIFY x.
Proof. intros ((H&_)&_). unfold INTEGERIFY_generic. cbn. by apply u32_join64. Qed.

(** C12: shuffling a block into the vector layout and back is the identity in
    both directions, so the conversions at the ends of [smix1] and [smix2]
    lose nothing. *)
Theorem salsa20_shuffle_roundtrip b : wf_blk b →
  salsa20_simd_unshuffle (salsa20_simd_shuffle b) = b ∧
  salsa20_simd_shuffle (salsa20_simd_unshuffle b) = b.
Proof.
  intros Hb. split.
  - rewrite shuffle_diag, unshuffle_diag by (done || by apply words_blk_w). apply of_w_blk_w.
  - destruct (diag_surj b Hb) as (x & Hl & Hw & ->).
    by rewrite unshuffle_diag, shuffle_diag, blk_w_of_w by (done || by apply wf_of_w).
Qed.

Definition sample_blk : salsa20_blk_t := of_w (Z.of_nat <$> seq 1 16).
Lemma sample_blk_wf : wf_blk sample_blk.
Proof. vm_compute. by split_and!. Qed.

Lemma salsa20_shuffle_roundtrip_witness :
  salsa20_simd_unshuffle (salsa20_simd_shuffle sample_blk) = sample_blk.
Proof. exact (proj1 (salsa20_shuffle_roundtrip sample_blk sample_blk_wf)). Defined.

(** C10: the SSE2 and XOP Salsa20 cores, working on whole vectors in the shuffled
    layout, and the portable core, working word by word after unshuffling,
    compute the same block for Salsa20/2 and for Salsa20/8, as do the two
    forms of the exclusive or and of the integerify macro; a hash therefore
    does not depend on which of the builds computed it. *)
Theorem salsa20_builds_agree b c out in1 in2 s : wf_blk b → wf_blk c → (0 < s < 32)%Z →
  SALSA20_2 b = salsa20 b 1 ∧ SALSA20_8 b = salsa20 b 4 ∧
  ARX out in1 in2 s = ARX_xop out in1 in2 s ∧
  XOR b c = XOR_X b c ∧ INTEGERIFY_generic b = INTEGERIFY b.
Proof.
  auto 6 using SALSA20_2_generic, SALSA20_8_generic, ARX_ARX_xop, XOR_XOR_X, INTEGERIFY_agree.
Qed.

Lemma salsa20_builds_agree_witness : SALSA20_8 sample_blk = salsa20 sample_blk 4.
Proof.
  exact (proj1 (proj2 (salsa20_builds_agree sample_blk sample_blk (q0 sample_blk)
    (q0 sample_blk) (q0 sample_blk) 7 sample_blk_wf sample_blk_wf ltac:(lia)))).
Defined.
