(* ===== verification/Mem.v ===== *)
(** * The scratch memory of the hash

    [yespower] works in one region of memory, cut into the arrays [B], [V],
    [XY] and [S].  The model keeps the region as a finite map from byte
    addresses to 16-byte lanes whose domain is the set of allocated, 16-byte
    aligned addresses: an access outside the region, or one that is not
    aligned, has no result.  Programs are in a small state-and-failure monad,
    and their specifications are stated with [lanes_at], [blks_at] (what an
    array holds), [allocated] and [modifies] (the frame). *)
From S2P Require Import Prelude Simd.

Abbreviation mem := (gmap Z m128i).
Definition M (A : Type) : Type := mem → option (A * mem).

#[global] Instance M_ret : MRet M := λ A a m, Some (a, m).
#[global] Instance M_bind : MBind M := λ A B k e m,
  match e m with Some (a, m') => k a m' | None => None end.

Definition load (a : Z) : M m128i := λ m,
  match m !! a with Some x => Some (x, m) | None => None end.
Definition store (a : Z) (x : m128i) : M unit := λ m,
  match m !! a with Some _ => Some (tt, <[a := x]> m) | None => None end.

(** [READ_X(in)] and [WRITE_X(out)] for the block at address [p]. *)
Definition READ_X (p : Z) : M salsa20_blk_t :=
  x0 ← load p; x1 ← load (p + 16)%Z; x2 ← load (p + 32)%Z; x3 ← load (p + 48)%Z;
  mret (Blk x0 x1 x2 x3).
Definition WRITE_X (p : Z) (X : salsa20_blk_t) : M unit :=
  store p (q0 X);; store (p + 16)%Z (q1 X);; store (p + 32)%Z (q2 X);; store (p + 48)%Z (q3 X).

(** ** Running programs *)
Lemma run_bind {A B} (e : M A) (k : A → M B) m a m' :
  e m = Some (a, m') → (e ≫= k) m = k a m'.
Proof. intros He. unfold mbind, M_bind. by rewrite He. Qed.
Lemma run_ret {A} (a : A) m : (mret a : M A) m = Some (a, m).
Proof. done. Qed.
Lemma bind_ret_r {A} (e : M A) m : (e ≫= mret) m = e m.
Proof. unfold mbind, M_bind. by destruct (e m) as [[]|]. Qed.

Lemma run_seq {A B C} (e1 : M A) (e2 : M B) (k : B → M C) m a m' :
  (e1;; e2) m = Some (a, m') → (e1;; (e2 ≫= k)) m = k a m'.
Proof.
  unfold mbind, M_bind. destruct (e1 m) as [[? m1]|]; [|done]. intros H. by rewrite H.
Qed.

(** [step H] runs the first instruction with the equation [H]. *)
Ltac step H := rewrite (run_bind _ _ _ _ _ H).

(** ** Assertions *)
Definition in_range (a n x : Z) : Prop := (a <= x < a + n)%Z.

Definition allocated (m : mem) (a n : Z) : Prop :=
  ∀ k, (0 <= k)%Z → (16 * k < n)%Z → is_Some (m !! (a + 16 * k)%Z).

Definition lanes_at (m : mem) (a : Z) (l : list m128i) : Prop :=
  ∀ k x, l !! k = Some x → m !! (a + 16 * Z.of_nat k)%Z = Some x.

Definition blk_at (m : mem) (a : Z) (b : salsa20_blk_t) : Prop := lanes_at m a (blk_q b).

Definition blks_at (m : mem) (a : Z) (bs : list salsa20_blk_t) : Prop :=
  ∀ k b, bs !! k = Some b → blk_at m (a + 64 * Z.of_nat k)%Z b.

(** Every lane holds 32-bit elements. *)
Definition mem_wf (m : mem) : Prop := map_Forall (λ _ x, wf_m128i x) m.

(** Only addresses in [P] change, nothing is deallocated, and what is written
    is well-formed. *)
Definition modifies (P : Z → Prop) (m m' : mem) : Prop :=
  (∀ x, ¬ P x → m' !! x = m !! x) ∧ (∀ x, is_Some (m !! x) → is_Some (m' !! x)) ∧
  (mem_wf m → mem_wf m').

Section Modifies.
Local Open Scope Z_scope.

Lemma modifies_refl P m : modifies P m m.
Proof. done. Qed.
Lemma modifies_trans P m1 m2 m3 : modifies P m1 m2 → modifies P m2 m3 → modifies P m1 m3.
Proof. intros (H1 & D1 & W1) (H2 & D2 & W2). split_and!; [intros; by rewrite H2, H1|auto..]. Qed.
Lemma modifies_weaken (P Q : Z → Prop) m m' :
  modifies P m m' → (∀ x, P x → Q x) → modifies Q m m'.
Proof. intros (H & D & W) HPQ. split_and!; [|done..]. intros x Hx. apply H. auto. Qed.

Lemma modifies_allocated P m m' a n : modifies P m m' → allocated m a n → allocated m' a n.
Proof. intros (_ & HD & _) Ha k Hk Hn. apply HD. by apply Ha. Qed.

Lemma modifies_lanes P m m' a l :
  modifies P m m' → lanes_at m a l →
  (∀ x, in_range a (16 * Z.of_nat (length l)) x → ¬ P x) → lanes_at m' a l.
Proof.
  intros [HF _] Hl Hd k x Hk. rewrite HF; [by apply Hl|].
  apply Hd. apply lookup_lt_Some in Hk. unfold in_range. lia.
Qed.

Lemma lanes_at_app m a l k :
  lanes_at m a (l ++ k) ↔ lanes_at m a l ∧ lanes_at m (a + 16 * Z.of_nat (length l)) k.
Proof.
  split.
  - intros H. split; intros i x Hi.
    + apply H. by apply lookup_app_l_Some.
    + specialize (H (length l + i)%nat x). rewrite Nat2Z.inj_add in H.
      replace (a + 16 * Z.of_nat (length l) + 16 * Z.of_nat i)
        with (a + 16 * (Z.of_nat (length l) + Z.of_nat i)) by lia.
      apply H. rewrite lookup_app_r by lia. by replace (length l + i - length l)%nat with i by lia.
  - intros [Hl Hk] i x [Hi|[Hge Hi]]%lookup_app_Some; [by apply Hl|].
    apply Hk in Hi. rewrite <-Hi. f_equal. lia.
Qed.
Lemma lanes_at_nil m a : lanes_at m a [].
Proof. intros k x Hk. by rewrite lookup_nil in Hk. Qed.
Lemma lanes_at_cons m a x l : lanes_at m a (x :: l) ↔ m !! a = Some x ∧ lanes_at m (a + 16) l.
Proof.
  rewrite (lanes_at_app m a [x] l). cbn [length]. replace (a + 16 * Z.of_nat 1) with (a + 16) by lia.
  split; intros [H1 H2]; (split; [|done]).
  - specialize (H1 0%nat x). rewrite Z.mul_0_r, Z.add_0_r in H1. by apply H1.
  - intros [|k] y Hk; [|by destruct k]. injection Hk as ->. by rewrite Z.mul_0_r, Z.add_0_r.
Qed.

(** An array of blocks is an array of lanes. *)
Lemma blks_at_cons m a b bs : blks_at m a (b :: bs) ↔ blk_at m a b ∧ blks_at m (a + 64) bs.
Proof.
  split.
  - intros H. split.
    + specialize (H 0%nat b eq_refl). by rewrite Z.mul_0_r, Z.add_0_r in H.
    + intros k c Hk. specialize (H (S k) c Hk).
      by replace (a + 64 + 64 * Z.of_nat k) with (a + 64 * Z.of_nat (S k)) by lia.
  - intros [Hb Hbs] [|k] c Hk.
    + injection Hk as <-. by rewrite Z.mul_0_r, Z.add_0_r.
    + replace (a + 64 * Z.of_nat (S k)) with (a + 64 + 64 * Z.of_nat k) by lia. by apply Hbs.
Qed.
Lemma blks_at_nil m a : blks_at m a [].
Proof. intros k x Hk. by rewrite lookup_nil in Hk. Qed.
Lemma blks_lanes m a bs : blks_at m a bs ↔ lanes_at m a (bs ≫= blk_q).
Proof.
  revert a. induction bs as [|b bs IH]; intros a.
  - split; intros _; [apply lanes_at_nil|apply blks_at_nil].
  - rewrite blks_at_cons, bind_cons, lanes_at_app, IH. unfold blk_at. cbn [length blk_q].
    by replace (a + 16 * Z.of_nat 4) with (a + 64) by lia.
Qed.
Lemma length_bind_blk_q bs : length (bs ≫= blk_q) = (4 * length bs)%nat.
Proof. induction bs as [|b bs IH]; [done|]. rewrite bind_cons, length_app, IH. cbn. lia. Qed.

Lemma blks_at_app m a l k :
  blks_at m a (l ++ k) ↔ blks_at m a l ∧ blks_at m (a + 64 * Z.of_nat (length l)) k.
Proof.
  rewrite !blks_lanes, bind_app, lanes_at_app, length_bind_blk_q.
  by replace (a + 16 * Z.of_nat (4 * length l)) with (a + 64 * Z.of_nat (length l)) by lia.
Qed.

Lemma modifies_blks P m m' a bs :
  modifies P m m' → blks_at m a bs →
  (∀ x, in_range a (64 * Z.of_nat (length bs)) x → ¬ P x) → blks_at m' a bs.
Proof.
  rewrite !blks_lanes. intros HM Hb Hd. eapply modifies_lanes; [done|done|].
  intros x Hx. apply Hd. rewrite length_bind_blk_q in Hx. unfold in_range in *. lia.
Qed.

Lemma modifies_blk P m m' a b :
  modifies P m m' → blk_at m a b → (∀ x, in_range a 64 x → ¬ P x) → blk_at m' a b.
Proof. intros HM Hb Hd. eapply modifies_lanes; [done|done|]. intros x Hx. by apply Hd. Qed.

Lemma allocated_sub m a n a' n' :
  allocated m a n → (16 | a' - a) → a <= a' → a' + n' <= a + n → allocated m a' n'.
Proof.
  intros HA [d Hd] Hlo Hhi k Hk Hn.
  replace (a' + 16 * k) with (a + 16 * (d + k)) by lia. apply HA; lia.
Qed.

(** ** The instructions *)
Lemma load_spec m a x : m !! a = Some x → load a m = Some (x, m).
Proof. intros H. unfold load. by rewrite H. Qed.

Lemma store_spec m a x : is_Some (m !! a) → wf_m128i x →
  store a x m = Some (tt, <[a := x]> m) ∧ modifies (eq a) m (<[a := x]> m).
Proof.
  intros [y Hy] Hx. unfold store. rewrite Hy. split; [done|].
  split_and!; [| |intros Hm; by apply map_Forall_insert_2].
  - intros z Hz. by rewrite lookup_insert_ne.
  - intros z Hz. destruct (decide (a = z)) as [->|]; [rewrite lookup_insert_eq; eauto|].
    by rewrite lookup_insert_ne.
Qed.

Lemma READ_X_spec m p b : blk_at m p b → READ_X p m = Some (b, m).
Proof.
  unfold blk_at, blk_q. rewrite !lanes_at_cons. intros (H0 & H1 & H2 & H3 & _).
  replace (p + 16 + 16) with (p + 32) in * by lia. replace (p + 32 + 16) with (p + 48) in * by lia.
  unfold READ_X. step (load_spec _ _ _ H0). step (load_spec _ _ _ H1).
  step (load_spec _ _ _ H2). step (load_spec _ _ _ H3). by destruct b.
Qed.

Lemma WRITE_X_spec m p X : allocated m p 64 → wf_blk X →
  ∃ m', WRITE_X p X m = Some (tt, m') ∧ blk_at m' p X ∧ modifies (in_range p 64) m m'.
Proof.
  intros HA (W0 & W1 & W2 & W3). unfold WRITE_X.
  assert (∀ k, 0 <= k < 4 → is_Some (m !! (p + 16 * k))) as Hs by (intros; apply HA; lia).
  pose proof (Hs 0 ltac:(lia)) as S0. pose proof (Hs 1 ltac:(lia)) as S1.
  pose proof (Hs 2 ltac:(lia)) as S2. pose proof (Hs 3 ltac:(lia)) as S3.
  replace (p + 16 * 0) with p in S0 by lia. change (16 * 1) with 16 in S1.
  change (16 * 2) with 32 in S2. change (16 * 3) with 48 in S3. clear Hs.
  destruct (store_spec m p (q0 X) S0 W0) as [E0 M0]. step E0.
  set (m0 := <[p := q0 X]> m) in *. apply M0 in S1, S2, S3.
  destruct (store_spec m0 (p + 16) (q1 X) S1 W1) as [E1 M1]. step E1.
  set (m1 := <[p + 16 := q1 X]> m0) in *. apply M1 in S2, S3.
  destruct (store_spec m1 (p + 32) (q2 X) S2 W2) as [E2 M2]. step E2.
  set (m2 := <[p + 32 := q2 X]> m1) in *. apply M2 in S3.
  destruct (store_spec m2 (p + 48) (q3 X) S3 W3) as [-> M3].
  eexists. split; [done|]. split.
  - unfold blk_at, blk_q. rewrite !lanes_at_cons.
    replace (p + 16 + 16) with (p + 32) by lia. replace (p + 32 + 16) with (p + 48) by lia.
    unfold m2, m1, m0. split_and!; [..|apply lanes_at_nil];
      repeat (rewrite lookup_insert_eq || rewrite lookup_insert_ne by lia); done.
  - assert (∀ a m m', modifies (eq a) m m' → in_range p 64 a → modifies (in_range p 64) m m')
      as W by (intros; eapply modifies_weaken; [done|]; by intros ? <-).
    unfold in_range in W. do 3 (eapply modifies_trans; [eapply W; [done|lia]|]).
    eapply W; [done|lia].
Qed.
End Modifies.

(** ** A freshly mapped region

    [fill_mem a n x]: [n] lanes from address [a], all equal to [x]. *)
Fixpoint fill_mem (a : Z) (n : nat) (x : m128i) : mem :=
  match n with
  | O => ∅
  | S n => <[a := x]> (fill_mem (a + 16) n x)
  end.

Lemma fill_mem_lookup a n x k : k < n → fill_mem a n x !! (a + 16 * Z.of_nat k)%Z = Some x.
Proof.
  revert a k. induction n as [|n IH]; intros a k Hk; [lia|]. cbn [fill_mem].
  destruct k as [|k]; [rewrite Z.add_0_r; apply lookup_insert_eq|].
  rewrite lookup_insert_ne by lia.
  replace (a + 16 * Z.of_nat (S k))%Z with (a + 16 + 16 * Z.of_nat k)%Z by lia. apply IH. lia.
Qed.

Lemma fill_mem_lanes a n x off len b : b = (a + 16 * Z.of_nat off)%Z → off + len ≤ n →
  lanes_at (fill_mem a n x) b (replicate len x).
Proof.
  intros -> Hn k y [-> Hk]%lookup_replicate.
  rewrite <-Z.add_assoc, <-Z.mul_add_distr_l, <-Nat2Z.inj_add. apply fill_mem_lookup. lia.
Qed.

Lemma fill_mem_allocated a n x : allocated (fill_mem a n x) a (16 * Z.of_nat n).
Proof.
  intros k Hk Hn. rewrite <-(Z2Nat.id k) by done. rewrite fill_mem_lookup by lia. by eexists.
Qed.
