(* ===== verification/Pwxform.v ===== *)
(** * pwxform

    The parallel wide transformation of [yespower-opt.c] on S-boxes in memory,
    in its vector and portable forms, for pass 1 (yespower 0.5) and pass 2
    (yespower 1.0, with S-box writes and rotation of the three S-boxes). *)
From S2P Require Import Prelude Simd Salsa20 Mem.

(** [_YESPOWER_OPT_C_PASS_]: the file is compiled once for each version. *)
Inductive pass := Pass1 | Pass2.
#[global] Instance pass_eq_dec : EqDecision pass.
Proof. solve_decision. Defined.

Definition PWXsimple : Z := 2.
Definition Swidth_0_5 : Z := 8.
Definition Swidth_1_0 : Z := 11.
Definition Swidth (v : pass) : Z := match v with Pass1 => Swidth_0_5 | Pass2 => Swidth_1_0 end.

Definition Swidth_to_Sbytes1 (sw : Z) : Z := (1 ≪ sw) * PWXsimple * 8.
Definition Swidth_to_Smask (sw : Z) : Z := ((1 ≪ sw) - 1) * PWXsimple * 8.
Definition Smask_to_Smask2 (mask : Z) : Z := Z.lor (mask ≪ 32) mask.
(** [Smask2], defined as [Smask2_0_5] and then as [Smask2_1_0]. *)
Definition Smask2 (v : pass) : Z := Smask_to_Smask2 (Swidth_to_Smask (Swidth v)).

Record pwxform_ctx_t := mkPwxform_ctx {
  ctx_S0 : Z; ctx_S1 : Z; ctx_S2 : Z;   (* uint8_t *S0, *S1, *S2 *)
  ctx_w : Z;                            (* size_t w *)
  ctx_Sbytes : Z                        (* uint32_t Sbytes *)
}.

(** The three definitions of [HI32]; only the even elements are used. *)
Definition HI32_avx (X : m128i) : m128i := _mm_srli_si128_4 X.
Definition HI32 (X : m128i) : m128i := _mm_shuffle_epi32 X (_MM_SHUFFLE 2 3 0 1).
Definition HI32_sse2 (X : m128i) : m128i := _mm_srli_epi64 X 32.

Definition EXTRACT64 (X : m128i) : Z := _mm_cvtsi128_si64 X.
(** The 32-bit build. *)
Definition EXTRACT64_32 (X : m128i) : Z :=
  Z.lor (_mm_cvtsi128_si32 X) (_mm_cvtsi128_si32 (HI32 X) ≪ 32).

Definition PWXFORM_SIMD (v : pass) (pS0 pS1 : Z) (X : m128i) : M m128i :=
  let x := Z.land (EXTRACT64 X) (Smask2 v) in
  let lo := u32 x in
  let hi := (x ≫ 32)%Z in
  let X := _mm_mul_epu32 (HI32 X) X in
  s0 ← load (pS0 + lo)%Z;
  let X := _mm_add_epi64 X s0 in
  s1 ← load (pS1 + hi)%Z;
  mret (_mm_xor_si128 X s1).

(** The portable form, on the two 64-bit words [x0] and [x1]; [p0] and [p1]
    point to a lane seen as two 64-bit words. *)
Definition PWXFORM_SIMD_generic (v : pass) (pS0 pS1 : Z) (x0 x1 : Z) : M (Z * Z) :=
  let x := Z.land x0 (Smask2 v) in
  p0 ← load (pS0 + u32 x)%Z;
  p1 ← load (pS1 + (x ≫ 32))%Z;
  mret (Z.lxor (u64 ((x0 ≫ 32) * u32 x0 + lo64 p0)) (lo64 p1),
        Z.lxor (u64 ((x1 ≫ 32) * u32 x1 + hi64 p0)) (hi64 p1)).

Definition PWXFORM_SIMD_WRITE (v : pass) (pS0 pS1 : Z) (X : m128i) (Sw w : Z) : M m128i :=
  X ← PWXFORM_SIMD v pS0 pS1 X;
  store (Sw + w)%Z X;;
  mret X.

Definition PWXFORM_ROUND (v : pass) (pS0 pS1 : Z) (X : salsa20_blk_t) : M salsa20_blk_t :=
  X0 ← PWXFORM_SIMD v pS0 pS1 (q0 X);
  X1 ← PWXFORM_SIMD v pS0 pS1 (q1 X);
  X2 ← PWXFORM_SIMD v pS0 pS1 (q2 X);
  X3 ← PWXFORM_SIMD v pS0 pS1 (q3 X);
  mret (Blk X0 X1 X2 X3).

Definition PWXFORM_ROUND_WRITE4 (v : pass) (pS0 pS1 w : Z) (X : salsa20_blk_t)
    : M (salsa20_blk_t * Z) :=
  X0 ← PWXFORM_SIMD_WRITE v pS0 pS1 (q0 X) pS0 w;
  X1 ← PWXFORM_SIMD_WRITE v pS0 pS1 (q1 X) pS1 w;
  let w := (w + 16)%Z in
  X2 ← PWXFORM_SIMD_WRITE v pS0 pS1 (q2 X) pS0 w;
  X3 ← PWXFORM_SIMD_WRITE v pS0 pS1 (q3 X) pS1 w;
  let w := (w + 16)%Z in
  mret (Blk X0 X1 X2 X3, w).

Definition PWXFORM_ROUND_WRITE2 (v : pass) (pS0 pS1 w : Z) (X : salsa20_blk_t)
    : M (salsa20_blk_t * Z) :=
  X0 ← PWXFORM_SIMD_WRITE v pS0 pS1 (q0 X) pS0 w;
  X1 ← PWXFORM_SIMD_WRITE v pS0 pS1 (q1 X) pS1 w;
  let w := (w + 16)%Z in
  X2 ← PWXFORM_SIMD v pS0 pS1 (q2 X);
  X3 ← PWXFORM_SIMD v pS0 pS1 (q3 X);
  mret (Blk X0 X1 X2 X3, w).

(** The macro of pass 1: six rounds, [S0] and [S1] unchanged. *)
Definition PWXFORM_pass1 (ctx : pwxform_ctx_t) (X : salsa20_blk_t) : M salsa20_blk_t :=
  let round := PWXFORM_ROUND Pass1 (ctx_S0 ctx) (ctx_S1 ctx) in
  X ← round X; X ← round X; X ← round X; X ← round X; X ← round X; round X.

(** The macro of pass 2. *)
Definition PWXFORM_pass2 (ctx : pwxform_ctx_t) (X : salsa20_blk_t) : M (salsa20_blk_t * pwxform_ctx_t) :=
  let '(mkPwxform_ctx pS0 pS1 pS2 w Sbytes) := ctx in
  '(X, w) ← PWXFORM_ROUND_WRITE4 Pass2 pS0 pS1 w X;
  '(X, w) ← PWXFORM_ROUND_WRITE2 Pass2 pS0 pS1 w X;
  '(X, w) ← PWXFORM_ROUND_WRITE2 Pass2 pS0 pS1 w X;
  let w := Z.land w (Smask2 Pass2) in
  mret (X, mkPwxform_ctx pS2 pS0 pS1 w Sbytes).

Definition PWXFORM (v : pass) (ctx : pwxform_ctx_t) (X : salsa20_blk_t)
    : M (salsa20_blk_t * pwxform_ctx_t) :=
  match v with
  | Pass1 => X ← PWXFORM_pass1 ctx X; mret (X, ctx)
  | Pass2 => PWXFORM_pass2 ctx X
  end.

(** ** Reference definition

    The transformation as the yespower paper states it, on S-boxes that are
    lists of lanes: the low and the high half of a lane's first 64-bit word
    select an entry of each S-box. *)
Definition sbox_len (v : pass) : nat := Z.to_nat (2 ^ Swidth v).
Definition sidx (v : pass) (x : Z) : nat := Z.to_nat ((x ≫ 4) `mod` 2 ^ Swidth v)%Z.

Definition pwx_lane (v : pass) (s0 s1 : list m128i) (X : m128i) : m128i :=
  let p0 := default (M128 0 0 0 0) (s0 !! sidx v (e0 X)) in
  let p1 := default (M128 0 0 0 0) (s1 !! sidx v (e1 X)) in
  of_epi64 (Z.lxor (u64 (e1 X * e0 X + lo64 p0)%Z) (lo64 p1))
           (Z.lxor (u64 (e3 X * e2 X + hi64 p0)%Z) (hi64 p1)).

(** The S-boxes of pass 2 and the write position, counted in lanes. *)
Record sboxes := mkSboxes { sb0 : list m128i; sb1 : list m128i; sb2 : list m128i; sbw : nat }.

Definition pwx_round (v : pass) (s0 s1 : list m128i) (X : salsa20_blk_t) : salsa20_blk_t :=
  Blk (pwx_lane v s0 s1 (q0 X)) (pwx_lane v s0 s1 (q1 X))
      (pwx_lane v s0 s1 (q2 X)) (pwx_lane v s0 s1 (q3 X)).

(** Lanes 0 and 1 of a writing round: each result is stored, the first in
    [s0], the second in [s1], before the next lane is computed. *)
Definition pwx_write2 (v : pass) (s0 s1 : list m128i) (w : nat) (Xa Xb : m128i)
    : list m128i * list m128i * m128i * m128i :=
  let Xa := pwx_lane v s0 s1 Xa in
  let s0 := <[w := Xa]> s0 in
  let Xb := pwx_lane v s0 s1 Xb in
  let s1 := <[w := Xb]> s1 in
  (s0, s1, Xa, Xb).

Definition pwx_round_write4 (v : pass) (s0 s1 : list m128i) (w : nat) (X : salsa20_blk_t)
    : list m128i * list m128i * salsa20_blk_t :=
  let '(s0, s1, X0, X1) := pwx_write2 v s0 s1 w (q0 X) (q1 X) in
  let '(s0, s1, X2, X3) := pwx_write2 v s0 s1 (w + 1) (q2 X) (q3 X) in
  (s0, s1, Blk X0 X1 X2 X3).

Definition pwx_round_write2 (v : pass) (s0 s1 : list m128i) (w : nat) (X : salsa20_blk_t)
    : list m128i * list m128i * salsa20_blk_t :=
  let '(s0, s1, X0, X1) := pwx_write2 v s0 s1 w (q0 X) (q1 X) in
  (s0, s1, Blk X0 X1 (pwx_lane v s0 s1 (q2 X)) (pwx_lane v s0 s1 (q3 X))).

Definition pwxform (v : pass) (sb : sboxes) (X : salsa20_blk_t) : salsa20_blk_t * sboxes :=
  match v with
  | Pass1 => (Nat.iter 6 (pwx_round Pass1 (sb0 sb) (sb1 sb)) X, sb)
  | Pass2 =>
      let '(mkSboxes s0 s1 s2 w) := sb in
      let '(s0, s1, X) := pwx_round_write4 Pass2 s0 s1 w X in
      let '(s0, s1, X) := pwx_round_write2 Pass2 s0 s1 (w + 2) X in
      let '(s0, s1, X) := pwx_round_write2 Pass2 s0 s1 (w + 3) X in
      (X, mkSboxes s2 s0 s1 ((w + 4) `mod` sbox_len Pass2))
  end.
