(* ===== verification/PwxformCorrect.v ===== *)
(** * pwxform: the code on memory implements the reference definition *)
From S2P Require Import Prelude Simd Salsa20 Mem Pwxform.

(** ** The S-box masks *)
Section Masks.
Local Open Scope Z_scope.

Lemma Swidth_pos v : 0 < Swidth v < 28.
Proof. destruct v; vm_compute; done. Qed.

Lemma Smask_ones v : Swidth_to_Smask (Swidth v) = Z.ones (Swidth v) ≪ 4.
Proof. destruct v; reflexivity. Qed.

Lemma land_Smask v x :
  Z.land x (Swidth_to_Smask (Swidth v)) = 16 * ((x ≫ 4) `mod` 2 ^ Swidth v).
Proof.
  pose proof (Swidth_pos v). rewrite Smask_ones, <-Z.land_ones by lia.
  rewrite Z.mul_comm. change 16 with (2 ^ 4). rewrite <-Z.shiftl_mul_pow2 by lia.
  apply Z.bits_inj'. intros i Hi. destruct (Z.ltb_spec i 4); autorewrite with bits.
  - by rewrite !(Z.testbit_neg_r _ (i - 4)) by lia; rewrite ?andb_false_r.
  - by replace (i - 4 + 4) with i by lia.
Qed.

Lemma join64_land a b c d : is_u32 a → is_u32 c →
  Z.land (join64 a b) (join64 c d) = join64 (Z.land a c) (Z.land b d).
Proof.
  intros Ha Hc. unfold join64. apply Z.bits_inj'. intros i Hi. autorewrite with bits.
  destruct (Z.ltb_spec i 32).
  - by rewrite !(Z.testbit_neg_r _ (i - 32)) by lia; rewrite ?orb_false_r.
  - by rewrite !(in_width_testbit 32 _ i) by (done || lia).
Qed.

Lemma sidx_bound v x : (sidx v x < sbox_len v)%nat.
Proof.
  pose proof (Swidth_pos v). unfold sidx, sbox_len.
  pose proof (Z.mod_pos_bound (x ≫ 4) (2 ^ Swidth v) ltac:(apply Z.pow_pos_nonneg; lia)). lia.
Qed.
Lemma sidx_Z v x : 16 * Z.of_nat (sidx v x) = Z.land x (Swidth_to_Smask (Swidth v)).
Proof.
  pose proof (Swidth_pos v). rewrite land_Smask. unfold sidx. rewrite Z2Nat.id; [done|].
  apply Z.mod_pos_bound, Z.pow_pos_nonneg; lia.
Qed.

(** The masked word selects one lane of each S-box. *)
Lemma masked_indices v lo hi : is_u32 lo → is_u32 hi →
  u32 (Z.land (join64 lo hi) (Smask2 v)) = 16 * Z.of_nat (sidx v lo) ∧
  Z.land (join64 lo hi) (Smask2 v) ≫ 32 = 16 * Z.of_nat (sidx v hi).
Proof.
  intros Hlo Hhi.
  assert (is_u32 (Swidth_to_Smask (Swidth v))) as Hm by (destruct v; vm_compute; done).
  replace (Smask2 v) with (join64 (Swidth_to_Smask (Swidth v)) (Swidth_to_Smask (Swidth v)))
    by (unfold Smask2, Smask_to_Smask2, join64; apply Z.lor_comm).
  rewrite join64_land, u32_join64, join64_hi by (done || by apply land_width_l).
  by rewrite !sidx_Z.
Qed.
End Masks.

(** ** One lane *)
Definition wf_sbox (v : pass) (s : list m128i) : Prop :=
  length s = sbox_len v ∧ Forall wf_m128i s.

Lemma lookup_sbox v s x : wf_sbox v s →
  ∃ p, s !! sidx v x = Some p ∧ default (M128 0 0 0 0) (s !! sidx v x) = p ∧ wf_m128i p.
Proof.
  intros [Hl Hw]. pose proof (sidx_bound v x).
  destruct (lookup_lt_is_Some_2 s (sidx v x)) as [p Hp]; [lia|].
  exists p. rewrite Hp. split_and!; [done..|]. by eapply Forall_lookup_1.
Qed.

Lemma mul_u64 a b : is_u32 a → is_u32 b → is_u64 (a * b).
Proof. unfold in_width. intros. nia. Qed.

Lemma vector_lane X p0 p1 : wf_m128i X → wf_m128i p0 → wf_m128i p1 →
  _mm_xor_si128 (_mm_add_epi64 (_mm_mul_epu32 (HI32 X) X) p0) p1
  = of_epi64 (Z.lxor (u64 (e1 X * e0 X + lo64 p0)) (lo64 p1))
             (Z.lxor (u64 (e3 X * e2 X + hi64 p0)) (hi64 p1)).
Proof.
  intros (H0 & H1 & H2 & H3) Hp0 Hp1.
  unfold _mm_mul_epu32, _mm_add_epi64.
  change (e0 (HI32 X)) with (e1 X). change (e2 (HI32 X)) with (e3 X).
  rewrite lo64_of_epi64, hi64_of_epi64 by (by apply mul_u64).
  set (a := u64 (e1 X * e0 X + lo64 p0)). set (b := u64 (e3 X * e2 X + hi64 p0)).
  assert (is_u64 a) as Ha by apply u64_width. assert (is_u64 b) as Hb by apply u64_width.
  rewrite <-(of_epi64_halves (_mm_xor_si128 (of_epi64 a b) p1)) by auto with width.
  by rewrite lo64_xor, hi64_xor, lo64_of_epi64, hi64_of_epi64 by auto with width.
Qed.

Lemma PWXFORM_SIMD_spec v m pS0 pS1 s0 s1 X :
  wf_sbox v s0 → wf_sbox v s1 → lanes_at m pS0 s0 → lanes_at m pS1 s1 → wf_m128i X →
  PWXFORM_SIMD v pS0 pS1 X m = Some (pwx_lane v s0 s1 X, m).
Proof.
  intros W0 W1 L0 L1 HX. pose proof HX as (H0 & H1 & _).
  destruct (masked_indices v (e0 X) (e1 X) H0 H1) as [Elo Ehi].
  destruct (lookup_sbox v s0 (e0 X) W0) as (p0 & Hp0 & Dp0 & Wp0).
  destruct (lookup_sbox v s1 (e1 X) W1) as (p1 & Hp1 & Dp1 & Wp1).
  unfold PWXFORM_SIMD, EXTRACT64, _mm_cvtsi128_si64, lo64. rewrite Elo, Ehi.
  step (load_spec _ _ _ (L0 _ _ Hp0)). step (load_spec _ _ _ (L1 _ _ Hp1)).
  rewrite run_ret, vector_lane by done. unfold pwx_lane. by rewrite Dp0, Dp1.
Qed.

Lemma wf_pwx_lane v s0 s1 X : wf_m128i (pwx_lane v s0 s1 X).
Proof. apply wf_of_epi64. Qed.
#[export] Hint Resolve wf_pwx_lane : width.

(** The portable form computes the same lane from its two 64-bit words. *)
Lemma PWXFORM_SIMD_generic_spec v m pS0 pS1 s0 s1 X :
  wf_sbox v s0 → wf_sbox v s1 → lanes_at m pS0 s0 → lanes_at m pS1 s1 → wf_m128i X →
  PWXFORM_SIMD_generic v pS0 pS1 (lo64 X) (hi64 X) m
  = Some ((lo64 (pwx_lane v s0 s1 X), hi64 (pwx_lane v s0 s1 X)), m).
Proof.
  intros W0 W1 L0 L1 (H0 & H1 & H2 & H3).
  destruct (masked_indices v (e0 X) (e1 X) H0 H1) as [Elo Ehi].
  destruct (lookup_sbox v s0 (e0 X) W0) as (p0 & Hp0 & Dp0 & Wp0).
  destruct (lookup_sbox v s1 (e1 X) W1) as (p1 & Hp1 & Dp1 & Wp1).
  unfold PWXFORM_SIMD_generic, pwx_lane.
  change (lo64 X) with (join64 (e0 X) (e1 X)). change (hi64 X) with (join64 (e2 X) (e3 X)).
  rewrite Elo, Ehi.
  step (load_spec _ _ _ (L0 _ _ Hp0)). step (load_spec _ _ _ (L1 _ _ Hp1)).
  rewrite run_ret, Dp0, Dp1. rewrite !join64_hi, !u32_join64 by done.
  rewrite lo64_of_epi64, hi64_of_epi64 by
    (apply lxor_width; [lia|apply u64_width|by first [apply lo64_width|apply hi64_width]]). done.
Qed.

(** The builds' variants of [HI32] and [EXTRACT64] cannot be told apart. *)
Lemma HI32_variants X : wf_m128i X →
  _mm_mul_epu32 (HI32_avx X) X = _mm_mul_epu32 (HI32 X) X ∧
  _mm_mul_epu32 (HI32_sse2 X) X = _mm_mul_epu32 (HI32 X) X ∧
  EXTRACT64_32 X = EXTRACT64 X.
Proof.
  intros (H0 & H1 & H2 & H3). split_and!; [done| |done].
  unfold _mm_mul_epu32. change (e0 (HI32 X)) with (e1 X). change (e2 (HI32 X)) with (e3 X).
  change (e0 (HI32_sse2 X)) with (u32 (lo64 X ≫ 32)).
  change (e2 (HI32_sse2 X)) with (u32 (hi64 X ≫ 32)).
  unfold lo64, hi64. by rewrite !join64_hi, !u32_id.
Qed.

(** ** The rounds *)
Lemma PWXFORM_ROUND_spec v m pS0 pS1 s0 s1 X :
  wf_sbox v s0 → wf_sbox v s1 → lanes_at m pS0 s0 → lanes_at m pS1 s1 → wf_blk X →
  PWXFORM_ROUND v pS0 pS1 X m = Some (pwx_round v s0 s1 X, m).
Proof.
  intros W0 W1 L0 L1 (H0 & H1 & H2 & H3). unfold PWXFORM_ROUND.
  step (PWXFORM_SIMD_spec v m pS0 pS1 s0 s1 (q0 X) W0 W1 L0 L1 H0).
  step (PWXFORM_SIMD_spec v m pS0 pS1 s0 s1 (q1 X) W0 W1 L0 L1 H1).
  step (PWXFORM_SIMD_spec v m pS0 pS1 s0 s1 (q2 X) W0 W1 L0 L1 H2).
  by step (PWXFORM_SIMD_spec v m pS0 pS1 s0 s1 (q3 X) W0 W1 L0 L1 H3).
Qed.

Lemma wf_pwx_round v s0 s1 X : wf_blk (pwx_round v s0 s1 X).
Proof. unfold wf_blk. split_and!; apply wf_pwx_lane. Qed.
#[export] Hint Resolve wf_pwx_round : width.

Lemma PWXFORM_pass1_spec m ctx s0 s1 X :
  wf_sbox Pass1 s0 → wf_sbox Pass1 s1 → lanes_at m (ctx_S0 ctx) s0 → lanes_at m (ctx_S1 ctx) s1 →
  wf_blk X → PWXFORM_pass1 ctx X m = Some (Nat.iter 6 (pwx_round Pass1 s0 s1) X, m).
Proof.
  intros W0 W1 L0 L1 HX. unfold PWXFORM_pass1.
  pose proof (λ X, PWXFORM_ROUND_spec Pass1 m _ _ s0 s1 X W0 W1 L0 L1) as HR.
  pose proof (λ X, HR _ (wf_pwx_round Pass1 s0 s1 X)) as HR'.
  step (HR X HX). do 4 erewrite run_bind by apply HR'. apply HR'.
Qed.

(** ** Writing rounds *)
Definition sbox_bytes (v : pass) : Z := 16 * Z.of_nat (sbox_len v).
Definition apart (v : pass) (a b : Z) : Prop :=
  (a + sbox_bytes v <= b ∨ b + sbox_bytes v <= a)%Z.

Record two_at (v : pass) (m : mem) (p0 p1 : Z) (s0 s1 : list m128i) : Prop := {
  two_wf0 : wf_sbox v s0;
  two_wf1 : wf_sbox v s1;
  two_lanes0 : lanes_at m p0 s0;
  two_lanes1 : lanes_at m p1 s1
}.

Definition in_boxes (v : pass) (p0 p1 x : Z) : Prop :=
  in_range p0 (sbox_bytes v) x ∨ in_range p1 (sbox_bytes v) x.

Lemma store_lane v m a s w X :
  wf_sbox v s → lanes_at m a s → wf_m128i X → w < sbox_len v →
  ∃ m', store (a + 16 * Z.of_nat w) X m = Some (tt, m') ∧
    wf_sbox v (<[w := X]> s) ∧ lanes_at m' a (<[w := X]> s) ∧
    modifies (in_range a (sbox_bytes v)) m m'.
Proof.
  intros [Hl Hw] L HX Hlt. destruct (lookup_lt_is_Some_2 s w) as [y Hy]; [lia|].
  pose proof (L _ _ Hy) as Hm.
  destruct (store_spec m (a + 16 * Z.of_nat w) X) as [-> HM]; [by eexists|done|].
  eexists. split_and!; [done|split; [by rewrite length_insert|by apply Forall_insert]| |].
  - intros k x [(-> & -> & _)|[Hne Hk]]%list_lookup_insert_Some; [by rewrite lookup_insert_eq|].
    rewrite lookup_insert_ne by lia. by apply L.
  - eapply modifies_weaken; [done|]. intros x <-. unfold in_range, sbox_bytes. lia.
Qed.

Lemma lanes_apart v m m' p p' s :
  wf_sbox v s → apart v p p' → lanes_at m p s →
  modifies (in_range p' (sbox_bytes v)) m m' → lanes_at m' p s.
Proof.
  intros [Hl _] Hap L HM. eapply modifies_lanes; [done|done|].
  intros x. unfold in_range, apart, sbox_bytes in *. rewrite Hl. lia.
Qed.

Lemma write2_spec v m p0 p1 s0 s1 w Xa Xb {A} (k : m128i → m128i → M A) s0' s1' Xa' Xb' :
  two_at v m p0 p1 s0 s1 → apart v p0 p1 → w < sbox_len v → wf_m128i Xa → wf_m128i Xb →
  pwx_write2 v s0 s1 w Xa Xb = (s0', s1', Xa', Xb') →
  ∃ m', (Xa ← PWXFORM_SIMD_WRITE v p0 p1 Xa p0 (16 * Z.of_nat w);
         Xb ← PWXFORM_SIMD_WRITE v p0 p1 Xb p1 (16 * Z.of_nat w); k Xa Xb) m = k Xa' Xb' m' ∧
    two_at v m' p0 p1 s0' s1' ∧ wf_m128i Xa' ∧ wf_m128i Xb' ∧ modifies (in_boxes v p0 p1) m m'.
Proof.
  intros [W0 W1 L0 L1] Hap Hw HXa HXb E. unfold pwx_write2 in E. simplify_eq.
  set (Ya := pwx_lane v s0 s1 Xa).
  destruct (store_lane v m p0 s0 w Ya) as (m1 & E1 & W0' & L0' & M1); [done|done|apply wf_pwx_lane|done|].
  pose proof (lanes_apart v m m1 p1 p0 s1 W1 ltac:(unfold apart in *; lia) L1 M1) as L1'.
  assert (PWXFORM_SIMD_WRITE v p0 p1 Xa p0 (16 * Z.of_nat w) m = Some (Ya, m1)) as EA.
  { unfold PWXFORM_SIMD_WRITE. step (PWXFORM_SIMD_spec v m p0 p1 s0 s1 Xa W0 W1 L0 L1 HXa).
    by step E1. }
  set (s0n := <[w := Ya]> s0) in *. set (Yb := pwx_lane v s0n s1 Xb).
  destruct (store_lane v m1 p1 s1 w Yb) as (m2 & E2 & W1'' & L1'' & M2); [done|done|apply wf_pwx_lane|done|].
  pose proof (lanes_apart v m1 m2 p0 p1 s0n W0' Hap L0' M2) as L0''.
  assert (PWXFORM_SIMD_WRITE v p0 p1 Xb p1 (16 * Z.of_nat w) m1 = Some (Yb, m2)) as EB.
  { unfold PWXFORM_SIMD_WRITE. step (PWXFORM_SIMD_spec v m1 p0 p1 s0n s1 Xb W0' W1 L0' L1' HXb).
    by step E2. }
  exists m2. step EA. step EB. split_and!; [done|by split|apply wf_pwx_lane..|].
  eapply modifies_trans; (eapply modifies_weaken; [done|]); intros x Hx; [by left|by right].
Qed.

Lemma round_write4_spec v m p0 p1 s0 s1 w X s0' s1' X' :
  two_at v m p0 p1 s0 s1 → apart v p0 p1 → w + 1 < sbox_len v → wf_blk X →
  pwx_round_write4 v s0 s1 w X = (s0', s1', X') →
  ∃ m', PWXFORM_ROUND_WRITE4 v p0 p1 (16 * Z.of_nat w) X m
      = Some ((X', 16 * Z.of_nat (w + 2))%Z, m') ∧
    two_at v m' p0 p1 s0' s1' ∧ wf_blk X' ∧ modifies (in_boxes v p0 p1) m m'.
Proof.
  intros H2 Hap Hw (H0 & H1 & H2' & H3) E. unfold pwx_round_write4 in E.
  destruct (pwx_write2 v s0 s1 w _ _) as [[[s0a s1a] X0] X1] eqn:Ea.
  destruct (pwx_write2 v s0a s1a (w + 1) _ _) as [[[s0b s1b] X2] X3] eqn:Eb. simplify_eq.
  unfold PWXFORM_ROUND_WRITE4.
  edestruct write2_spec as (m1 & -> & T1 & W0 & W1 & M1); [exact H2|done|lia|done|done|exact Ea|].
  replace (16 * Z.of_nat w + 16)%Z with (16 * Z.of_nat (w + 1))%Z by lia.
  edestruct write2_spec as (m2 & -> & T2 & W2 & W3 & M2); [exact T1|done|lia|done|done|exact Eb|].
  replace (16 * Z.of_nat (w + 1) + 16)%Z with (16 * Z.of_nat (w + 2))%Z by lia.
  exists m2. split_and!; [done|done|done..|]. by eapply modifies_trans.
Qed.

Lemma round_write2_spec v m p0 p1 s0 s1 w X s0' s1' X' :
  two_at v m p0 p1 s0 s1 → apart v p0 p1 → w < sbox_len v → wf_blk X →
  pwx_round_write2 v s0 s1 w X = (s0', s1', X') →
  ∃ m', PWXFORM_ROUND_WRITE2 v p0 p1 (16 * Z.of_nat w) X m
      = Some ((X', 16 * Z.of_nat (w + 1))%Z, m') ∧
    two_at v m' p0 p1 s0' s1' ∧ wf_blk X' ∧ modifies (in_boxes v p0 p1) m m'.
Proof.
  intros H2 Hap Hw (H0 & H1 & H2' & H3) E. unfold pwx_round_write2 in E.
  destruct (pwx_write2 v s0 s1 w _ _) as [[[s0a s1a] X0] X1] eqn:Ea. simplify_eq.
  unfold PWXFORM_ROUND_WRITE2.
  edestruct write2_spec as (m1 & -> & [T0 T1 L0 L1] & W0 & W1 & M1);
    [exact H2|done|lia|done|done|exact Ea|].
  replace (16 * Z.of_nat w + 16)%Z with (16 * Z.of_nat (w + 1))%Z by lia.
  step (PWXFORM_SIMD_spec v m1 p0 p1 _ _ (q2 X) T0 T1 L0 L1 H2').
  step (PWXFORM_SIMD_spec v m1 p0 p1 _ _ (q3 X) T0 T1 L0 L1 H3).
  exists m1. split_and!; [done|done|unfold wf_blk; cbn [q0 q1 q2 q3]; auto with width|done].
Qed.

(** ** The whole transformation

    [sboxes_at v base m ctx sb]: the S-boxes of [ctx] hold [sb], lie apart from
    each other in the array [S] that starts at [base], and the write position
    leaves room for the four lanes a transformation writes. *)
Definition S_total (v : pass) : Z := (match v with Pass1 => 2 | Pass2 => 3 end * sbox_bytes v)%Z.
Definition inside (v : pass) (base p : Z) : Prop :=
  (base <= p ∧ p + sbox_bytes v <= base + S_total v)%Z.

Record sboxes_at (v : pass) (base : Z) (m : mem) (ctx : pwxform_ctx_t) (sb : sboxes) : Prop := {
  sa_two : two_at v m (ctx_S0 ctx) (ctx_S1 ctx) (sb0 sb) (sb1 sb);
  sa_apart : apart v (ctx_S0 ctx) (ctx_S1 ctx);
  sa_inside : inside v base (ctx_S0 ctx) ∧ inside v base (ctx_S1 ctx);
  sa_pass2 : v = Pass2 →
    wf_sbox v (sb2 sb) ∧ lanes_at m (ctx_S2 ctx) (sb2 sb) ∧
    apart v (ctx_S0 ctx) (ctx_S2 ctx) ∧ apart v (ctx_S1 ctx) (ctx_S2 ctx) ∧
    inside v base (ctx_S2 ctx) ∧
    ctx_w ctx = (16 * Z.of_nat (sbw sb))%Z ∧ sbw sb `mod` 4 = 0 ∧ sbw sb < sbox_len v
}.

Lemma sbox_len_pass2 : sbox_len Pass2 = 2048.
Proof. reflexivity. Qed.

Lemma wrap_w w : w ≤ 2048 →
  Z.land (16 * Z.of_nat w) (Smask2 Pass2) = (16 * Z.of_nat (w `mod` 2048))%Z.
Proof.
  intros Hw. assert (is_u32 (16 * Z.of_nat w)) as Hx by (unfold in_width; lia).
  destruct (masked_indices Pass2 (16 * Z.of_nat w) 0 Hx) as [E _]; [done|].
  assert (join64 (16 * Z.of_nat w) 0 = 16 * Z.of_nat w)%Z as EJ
    by (unfold join64; rewrite Z.shiftl_0_l; apply Z.lor_0_r). rewrite EJ in E.
  rewrite u32_id in E by (apply land_width_l; [lia|done]). rewrite E. unfold sidx.
  rewrite (Z.mul_comm 16 (Z.of_nat w)), Z.shiftr_div_pow2 by lia. change (2 ^ 4)%Z with 16%Z.
  rewrite Z.div_mul by lia. change (2 ^ Swidth Pass2)%Z with (Z.of_nat 2048).
  by rewrite <-Nat2Z.inj_mod, !Nat2Z.id.
Qed.

Lemma sb_step (w : nat) : w `mod` 4 = 0 → w < 2048 →
  w + 4 ≤ 2048 ∧ ((w + 4) `mod` 2048) `mod` 4 = 0 ∧ (w + 4) `mod` 2048 < 2048.
Proof.
  intros [k ->]%Nat.Div0.mod_divides Hw. split; [lia|]. split.
  - replace (4 * k + 4) with (4 * (k + 1)) by lia. change 2048 with (4 * 512).
    rewrite Nat.Div0.mul_mod_distr_l, Nat.mul_comm. apply Nat.Div0.mod_mul.
  - by apply Nat.mod_upper_bound.
Qed.

Lemma in_boxes_S v base p0 p1 x :
  inside v base p0 → inside v base p1 → in_boxes v p0 p1 x → in_range base (S_total v) x.
Proof. unfold inside, in_boxes, in_range. lia. Qed.

Lemma PWXFORM_pass2_spec base m ctx sb X :
  sboxes_at Pass2 base m ctx sb → wf_blk X →
  ∃ m' ctx', PWXFORM_pass2 ctx X m = Some ((pwxform Pass2 sb X).1, ctx', m') ∧
    sboxes_at Pass2 base m' ctx' (pwxform Pass2 sb X).2 ∧ wf_blk (pwxform Pass2 sb X).1 ∧
    ctx_Sbytes ctx' = ctx_Sbytes ctx ∧ modifies (in_range base (S_total Pass2)) m m'.
Proof.
  intros [T Hap [In0 In1] HP] HX. destruct (HP eq_refl) as (W2 & L2 & A02 & A12 & In2 & Ew & Wm & Wl).
  destruct ctx as [p0 p1 p2 w Sb], sb as [s0 s1 s2 wn]. cbn [ctx_S0 ctx_S1 ctx_S2 ctx_w sb0 sb1 sb2 sbw] in *.
  subst w. rewrite sbox_len_pass2 in *. destruct (sb_step wn Wm Wl) as (Hw4 & Hm & Hl).
  unfold PWXFORM_pass2, pwxform.
  destruct (pwx_round_write4 Pass2 s0 s1 wn X) as [[s0a s1a] Xa] eqn:Ea.
  destruct (round_write4_spec Pass2 m p0 p1 s0 s1 wn X s0a s1a Xa T Hap) as (m1 & E1 & T1 & Wa & M1);
    [rewrite sbox_len_pass2; lia|done..|]. step E1.
  destruct (pwx_round_write2 Pass2 s0a s1a (wn + 2) Xa) as [[s0b s1b] Xb] eqn:Eb.
  destruct (round_write2_spec Pass2 m1 p0 p1 s0a s1a (wn + 2) Xa s0b s1b Xb T1 Hap)
    as (m2 & E2 & T2 & Wb & M2); [rewrite sbox_len_pass2; lia|done..|]. step E2.
  replace (wn + 2 + 1) with (wn + 3) by lia.
  destruct (pwx_round_write2 Pass2 s0b s1b (wn + 3) Xb) as [[s0c s1c] Xc] eqn:Ec.
  destruct (round_write2_spec Pass2 m2 p0 p1 s0b s1b (wn + 3) Xb s0c s1c Xc T2 Hap)
    as (m3 & E3 & [V0 V1 L0 L1] & Wc & M3); [rewrite sbox_len_pass2; lia|done..|]. step E3.
  replace (wn + 3 + 1) with (wn + 4) by lia. rewrite wrap_w by done.
  assert (modifies (in_boxes Pass2 p0 p1) m m3) as M by (do 2 (eapply modifies_trans; [done|]); done).
  eexists m3, _. cbn [fst snd]. split; [reflexivity|]. split_and!; [|done|done|].
  - assert (lanes_at m3 p2 s2) as L2'.
    { eapply modifies_lanes; [exact M|done|]. destruct W2 as [-> _].
      intros x. unfold in_boxes, in_range, apart, sbox_bytes in *. lia. }
    split; cbn [ctx_S0 ctx_S1 ctx_S2 ctx_w sb0 sb1 sb2 sbw]; rewrite ?sbox_len_pass2;
      [by split|unfold apart in *; lia|done|].
    intros _. split_and!; try done; unfold apart in *; lia.
  - eapply modifies_weaken; [exact M|]. intros x. by apply in_boxes_S.
Qed.

Lemma PWXFORM_spec v base m ctx sb X :
  sboxes_at v base m ctx sb → wf_blk X →
  ∃ m' ctx', PWXFORM v ctx X m = Some ((pwxform v sb X).1, ctx', m') ∧
    sboxes_at v base m' ctx' (pwxform v sb X).2 ∧ wf_blk (pwxform v sb X).1 ∧
    ctx_Sbytes ctx' = ctx_Sbytes ctx ∧ modifies (in_range base (S_total v)) m m'.
Proof.
  intros H HX. destruct v; [|by apply PWXFORM_pass2_spec].
  exists m, ctx. destruct (sa_two _ _ _ _ _ H) as [W0 W1 L0 L1]. unfold PWXFORM, pwxform.
  step (PWXFORM_pass1_spec m ctx _ _ X W0 W1 L0 L1 HX).
  split_and!; [done|done|apply wf_pwx_round|done|apply modifies_refl].
Qed.

(** ** Statements *)

(** C5: [PWXFORM], on any memory that holds the S-boxes, never reads or writes
    outside them and returns exactly the block and the S-boxes of the
    reference transformation, for both versions; in version 1.0 the
    three S-boxes, rotated through the pointers [S0], [S1] and [S2], stay
    disjoint and the write position stays a multiple of four lanes inside
    them.  Everything outside the array [S] is unchanged. *)
Theorem PWXFORM_correct v base m ctx sb X :
  sboxes_at v base m ctx sb → wf_blk X →
  ∃ m' ctx', PWXFORM v ctx X m = Some ((pwxform v sb X).1, ctx', m') ∧
    sboxes_at v base m' ctx' (pwxform v sb X).2 ∧ wf_blk (pwxform v sb X).1 ∧
    modifies (in_range base (S_total v)) m m'.
Proof.
  intros H HX. destruct (PWXFORM_spec v base m ctx sb X H HX) as (m' & c' & E & S' & W & _ & M').
  by exists m', c'.
Qed.

Definition sample_lane : m128i := M128 1 2 3 4.
Definition sample_ctx : pwxform_ctx_t := mkPwxform_ctx 0 32768 65536 0 98304.
Definition sample_sboxes : sboxes :=
  mkSboxes (replicate 2048 sample_lane) (replicate 2048 sample_lane) (replicate 2048 sample_lane) 0.

Lemma wf_sbox_replicate v n x : n = sbox_len v → wf_m128i x → wf_sbox v (replicate n x).
Proof. intros -> Hx. split; [apply length_replicate|by apply Forall_replicate]. Qed.

Lemma sample_sboxes_at : sboxes_at Pass2 0 (fill_mem 0 (3 * 2048) sample_lane) sample_ctx sample_sboxes.
Proof.
  assert (wf_m128i sample_lane) as W by done.
  assert (wf_sbox Pass2 (replicate 2048 sample_lane)) as WS by (by apply wf_sbox_replicate).
  assert (sbox_bytes Pass2 = 32768%Z) as SB by reflexivity.
  split; cbn [ctx_S0 ctx_S1 ctx_S2 ctx_w sb0 sb1 sb2 sbw sample_ctx sample_sboxes];
    unfold apart, inside, S_total; rewrite ?SB.
  - split; [done|done|apply (fill_mem_lanes _ _ _ 0)|apply (fill_mem_lanes _ _ _ 2048)]; lia.
  - lia.
  - lia.
  - intros _. split_and!; try done; try lia.
    + apply (fill_mem_lanes _ _ _ 4096); lia.
    + rewrite sbox_len_pass2. lia.
Qed.

Lemma PWXFORM_correct_witness :
  ∃ m' ctx', PWXFORM Pass2 sample_ctx sample_blk (fill_mem 0 (3 * 2048) sample_lane)
    = Some ((pwxform Pass2 sample_sboxes sample_blk).1, ctx', m').
Proof.
  destruct (PWXFORM_correct Pass2 0 (fill_mem 0 (3 * 2048) sample_lane) sample_ctx sample_sboxes
    sample_blk sample_sboxes_at sample_blk_wf) as (m' & c' & E & _).
  exists m', c'. exact E.
Defined.

(** C11: the vector form of one pwxform lane and the portable form, which
    works on the two 64-bit words of the lane, read the same S-box entries and
    compute the same lane, and the variants of [HI32] and [EXTRACT64] chosen
    by the preprocessor are interchangeable. *)
Theorem PWXFORM_builds_agree v m pS0 pS1 s0 s1 X :
  wf_sbox v s0 → wf_sbox v s1 → lanes_at m pS0 s0 → lanes_at m pS1 s1 → wf_m128i X →
  (∃ Y, PWXFORM_SIMD v pS0 pS1 X m = Some (Y, m) ∧
     PWXFORM_SIMD_generic v pS0 pS1 (lo64 X) (hi64 X) m = Some ((lo64 Y, hi64 Y), m)) ∧
  _mm_mul_epu32 (HI32_avx X) X = _mm_mul_epu32 (HI32 X) X ∧
  _mm_mul_epu32 (HI32_sse2 X) X = _mm_mul_epu32 (HI32 X) X ∧
  EXTRACT64_32 X = EXTRACT64 X.
Proof.
  intros. split; [|by apply HI32_variants].
  exists (pwx_lane v s0 s1 X). split; [by apply PWXFORM_SIMD_spec|by apply PWXFORM_SIMD_generic_spec].
Qed.

Lemma PWXFORM_builds_agree_witness :
  _mm_mul_epu32 (HI32_avx sample_lane) sample_lane = _mm_mul_epu32 (HI32 sample_lane) sample_lane.
Proof.
  destruct sample_sboxes_at as [[W0 W1 L0 L1] _ _ _].
  destruct (PWXFORM_builds_agree Pass2 (fill_mem 0 (3 * 2048) sample_lane) 0 32768 _ _ sample_lane
    W0 W1 L0 L1 ltac:(done)) as (_ & E & _). exact E.
Defined.
