(* ===== verification/Blockmix.v ===== *)
(** * Block mixing

    [blockmix], [blockmix_xor] and [blockmix_xor_save] of [yespower-opt.c], on
    memory, and the reference BlockMix of the yespower paper on lists of
    blocks.  A [salsa20_blk_t *] is the byte address of its first block, so
    [&p[i]] is [p + 64 * i].  [r] counts 128-byte units, [ctx = None] is the
    null pointer of the S-box initialisation. *)
From S2P Require Import Prelude Simd Salsa20 Mem Pwxform.

Definition SALSA20 (v : pass) : salsa20_blk_t → salsa20_blk_t :=
  match v with Pass1 => SALSA20_8 | Pass2 => SALSA20_2 end.

Definition blk (p i : Z) : Z := (p + 64 * i)%Z.

(** A loop that runs out of fuel has no result. *)
Definition no_fuel {A} : M A := λ _, None.

(** [SALSA20(out)]: the core applied to [X], left in [X] and written to [out]. *)
Definition SALSA20_to (v : pass) (X : salsa20_blk_t) (out : Z) : M salsa20_blk_t :=
  let X := SALSA20 v X in WRITE_X out X;; mret X.

(** [XOR_X(in)] with [in] in memory. *)
Definition XOR_X_mem (X : salsa20_blk_t) (p : Z) : M salsa20_blk_t :=
  b ← READ_X p; mret (XOR_X X b).
(** [XOR_X_2(in1, in2)]. *)
Definition XOR_X_2 (p1 p2 : Z) : M salsa20_blk_t :=
  b1 ← READ_X p1; b2 ← READ_X p2; mret (XOR_X b1 b2).

(** [XOR_X_WRITE_XOR_Y_2(out, in)]. *)
Definition XOR_X_WRITE_XOR_Y_2 (X : salsa20_blk_t) (out inp : Z) : M salsa20_blk_t :=
  o ← READ_X out; b ← READ_X inp;
  let Y := XOR_X o b in
  WRITE_X out Y;;
  mret (XOR_X X Y).

Definition SALSA20_XOR_MEM (v : pass) (X : salsa20_blk_t) (inp out : Z) : M salsa20_blk_t :=
  X ← XOR_X_mem X inp; SALSA20_to v X out.

Definition blockmix_salsa (v : pass) (Bin Bout : Z) : M unit :=
  X ← READ_X (blk Bin 1);
  X ← SALSA20_XOR_MEM v X (blk Bin 0) (blk Bout 0);
  X ← SALSA20_XOR_MEM v X (blk Bin 1) (blk Bout 1);
  mret tt.

Definition blockmix_salsa_xor (v : pass) (Bin1 Bin2 Bout : Z) : M Z :=
  X ← XOR_X_2 (blk Bin1 1) (blk Bin2 1);
  X ← XOR_X_mem X (blk Bin1 0);
  X ← SALSA20_XOR_MEM v X (blk Bin2 0) (blk Bout 0);
  X ← XOR_X_mem X (blk Bin1 1);
  X ← SALSA20_XOR_MEM v X (blk Bin2 1) (blk Bout 1);
  mret (INTEGERIFY X).

(** The [do ... while (1)] loop of [blockmix]; returns [X], the context and
    the value of [i] at the [break]. *)
Fixpoint blockmix_loop (fuel : nat) (v : pass) (Bin Bout i r : Z) (X : salsa20_blk_t)
    (ctx : pwxform_ctx_t) : M (salsa20_blk_t * pwxform_ctx_t * Z) :=
  match fuel with
  | O => no_fuel
  | S fuel =>
      X ← XOR_X_mem X (blk Bin i);
      '(X, ctx) ← PWXFORM v ctx X;
      if (r <=? i)%Z then mret (X, ctx, i) else
      WRITE_X (blk Bout i) X;;
      blockmix_loop fuel v Bin Bout (i + 1) r X ctx
  end.

Definition blockmix (v : pass) (Bin Bout r : Z) (ctx : option pwxform_ctx_t)
    : M (option pwxform_ctx_t) :=
  match ctx with
  | None => blockmix_salsa v Bin Bout;; mret None
  | Some ctx =>
      let r := (r * 2 - 1)%Z in
      X ← READ_X (blk Bin r);
      '(X, ctx, i) ← blockmix_loop (S (Z.to_nat r)) v Bin Bout 0 r X ctx;
      SALSA20_to v X (blk Bout i);;
      mret (Some ctx)
  end.

Fixpoint blockmix_xor_loop (fuel : nat) (v : pass) (Bin1 Bin2 Bout i r : Z) (X : salsa20_blk_t)
    (ctx : pwxform_ctx_t) : M (salsa20_blk_t * pwxform_ctx_t * Z) :=
  match fuel with
  | O => no_fuel
  | S fuel =>
      X ← XOR_X_mem X (blk Bin1 i);
      X ← XOR_X_mem X (blk Bin2 i);
      '(X, ctx) ← PWXFORM v ctx X;
      WRITE_X (blk Bout i) X;;
      X ← XOR_X_mem X (blk Bin1 (i + 1));
      X ← XOR_X_mem X (blk Bin2 (i + 1));
      '(X, ctx) ← PWXFORM v ctx X;
      if (r <=? i)%Z then mret (X, ctx, i) else
      WRITE_X (blk Bout (i + 1)) X;;
      blockmix_xor_loop fuel v Bin1 Bin2 Bout (i + 2) r X ctx
  end.

Definition blockmix_xor (v : pass) (Bin1 Bin2 Bout r : Z) (ctx : option pwxform_ctx_t)
    : M (Z * option pwxform_ctx_t) :=
  match ctx with
  | None => j ← blockmix_salsa_xor v Bin1 Bin2 Bout; mret (j, None)
  | Some ctx =>
      let r := (r * 2 - 1)%Z in
      X ← XOR_X_2 (blk Bin1 r) (blk Bin2 r);
      let r := (r - 1)%Z in
      '(X, ctx, i) ← blockmix_xor_loop (S (Z.to_nat r)) v Bin1 Bin2 Bout 0 r X ctx;
      let i := (i + 1)%Z in
      X ← SALSA20_to v X (blk Bout i);
      mret (INTEGERIFY X, Some ctx)
  end.

Fixpoint blockmix_xor_save_loop (fuel : nat) (v : pass) (Bin1out Bin2 i r : Z) (X : salsa20_blk_t)
    (ctx : pwxform_ctx_t) : M (salsa20_blk_t * pwxform_ctx_t * Z) :=
  match fuel with
  | O => no_fuel
  | S fuel =>
      X ← XOR_X_WRITE_XOR_Y_2 X (blk Bin2 i) (blk Bin1out i);
      '(X, ctx) ← PWXFORM v ctx X;
      WRITE_X (blk Bin1out i) X;;
      X ← XOR_X_WRITE_XOR_Y_2 X (blk Bin2 (i + 1)) (blk Bin1out (i + 1));
      '(X, ctx) ← PWXFORM v ctx X;
      if (r <=? i)%Z then mret (X, ctx, i) else
      WRITE_X (blk Bin1out (i + 1)) X;;
      blockmix_xor_save_loop fuel v Bin1out Bin2 (i + 2) r X ctx
  end.

Definition blockmix_xor_save (v : pass) (Bin1out Bin2 r : Z) (ctx : pwxform_ctx_t)
    : M (Z * pwxform_ctx_t) :=
  let r := (r * 2 - 1)%Z in
  X ← XOR_X_2 (blk Bin1out r) (blk Bin2 r);
  let r := (r - 1)%Z in
  '(X, ctx, i) ← blockmix_xor_save_loop (S (Z.to_nat r)) v Bin1out Bin2 0 r X ctx;
  let i := (i + 1)%Z in
  X ← SALSA20_to v X (blk Bin1out i);
  mret (INTEGERIFY X, ctx).

Definition integerify (B r : Z) : M Z :=
  b ← READ_X (blk B (2 * r - 1)); mret (u32 (blk_d b !!! 0)).

(** ** Reference definition *)
Abbreviation row := (list salsa20_blk_t).
Definition blk0 : salsa20_blk_t := of_w (replicate 16 0%Z).

(** [X] is mixed with each block in turn; the list of the successive [X]. *)
Fixpoint chain (v : pass) (sb : sboxes) (X : salsa20_blk_t) (bs : row) : row * sboxes :=
  match bs with
  | [] => ([], sb)
  | b :: bs =>
      let '(X, sb) := pwxform v sb (XOR_X X b) in
      let '(ys, sb) := chain v sb X bs in
      (X :: ys, sb)
  end.

Definition last_blk (bs : row) : salsa20_blk_t := default blk0 (last bs).

(** BlockMix_pwxform, and BlockMix_salsa20 for the two-block rows of the
    S-box initialisation. *)
Definition blockmix_pwx_ref (v : pass) (sb : sboxes) (B : row) : row * sboxes :=
  let '(ys, sb) := chain v sb (last_blk B) B in
  (take (length B - 1) ys ++ [SALSA20 v (last_blk ys)], sb).

Definition blockmix_salsa_ref (v : pass) (B : row) : row :=
  let Y0 := SALSA20 v (XOR_X (last_blk B) (default blk0 (B !! 0))) in
  let Y1 := SALSA20 v (XOR_X Y0 (default blk0 (B !! 1))) in
  [Y0; Y1].

Definition blockmix_ref (v : pass) (sb : option sboxes) (B : row) : row * option sboxes :=
  match sb with
  | None => (blockmix_salsa_ref v B, None)
  | Some sb => let '(B, sb) := blockmix_pwx_ref v sb B in (B, Some sb)
  end.

Definition xor_rows : row → row → row := zip_with XOR_X.
Definition integerify_ref (B : row) : Z := INTEGERIFY (last_blk B).
