(* ===== verification/BlockmixCorrect.v ===== *)
(** * Block mixing: the code on memory implements the reference BlockMix *)
From S2P Require Import Prelude Simd Salsa20 Mem Pwxform PwxformCorrect Blockmix.

Definition disj (a n b k : Z) : Prop := (n <= 0 ∨ k <= 0 ∨ a + n <= b ∨ b + k <= a)%Z.
(** [writes sn base a n]: the bytes a mixing step may change, its output array
    of [n] bytes at [a] and the S-boxes, [sn] bytes at [base]. *)
Definition writes (sn base a n x : Z) : Prop := in_range a n x ∨ in_range base sn x.
Abbreviation clear sn base a n := (disj a n base sn).

(** Goals about address ranges. *)
Ltac range :=
  intros; unfold writes, disj, in_range, blk in *; try lia.

Lemma S_total_pos v : (0 < S_total v)%Z.
Proof. destruct v; vm_compute; done. Qed.

Lemma XOR_X_assoc X a b : XOR_X (XOR_X X a) b = XOR_X X (XOR_X a b).
Proof.
  unfold XOR_X, _mm_xor_si128, zip_epi32. cbn. by rewrite !Z.lxor_assoc.
Qed.
Lemma XOR_X_comm a b : XOR_X a b = XOR_X b a.
Proof.
  unfold XOR_X, _mm_xor_si128, zip_epi32. f_equal; f_equal; apply Z.lxor_comm.
Qed.
#[export] Hint Resolve wf_XOR_X : width.

Lemma wf_SALSA20 v b : wf_blk (SALSA20 v b).
Proof. destruct v; apply wf_SALSA20_wrapper. Qed.
#[export] Hint Resolve wf_SALSA20 : width.

Lemma wf_blk0 : wf_blk blk0.
Proof. vm_compute. by split_and!. Qed.
Lemma wf_last_blk bs : Forall wf_blk bs → wf_blk (last_blk bs).
Proof.
  intros Hb. unfold last_blk. destruct (last bs) as [b|] eqn:E; [|apply wf_blk0].
  cbn. rewrite last_lookup in E. by eapply Forall_lookup_1.
Qed.

Lemma length_chain v sb X bs : length (chain v sb X bs).1 = length bs.
Proof.
  revert sb X. induction bs as [|b bs IH]; intros sb X; [done|]. cbn [chain].
  destruct (pwxform v sb (XOR_X X b)) as [Y sb']. specialize (IH sb' Y).
  destruct (chain v sb' Y bs). cbn in *. lia.
Qed.

(** ** Straight-line pieces *)
Lemma XOR_X_mem_spec m X p b : blk_at m p b → XOR_X_mem X p m = Some (XOR_X X b, m).
Proof. intros Hb. unfold XOR_X_mem. by step (READ_X_spec _ _ _ Hb). Qed.
Lemma XOR_X_2_spec m p1 p2 b1 b2 :
  blk_at m p1 b1 → blk_at m p2 b2 → XOR_X_2 p1 p2 m = Some (XOR_X b1 b2, m).
Proof.
  intros H1 H2. unfold XOR_X_2. step (READ_X_spec _ _ _ H1). by step (READ_X_spec _ _ _ H2).
Qed.
Lemma SALSA20_to_spec v m X p : allocated m p 64 →
  ∃ m', SALSA20_to v X p m = Some (SALSA20 v X, m') ∧ blk_at m' p (SALSA20 v X) ∧
    modifies (in_range p 64) m m'.
Proof.
  intros HA. unfold SALSA20_to.
  destruct (WRITE_X_spec m p (SALSA20 v X) HA (wf_SALSA20 v X)) as (m' & E & Hb & HM). step E. by exists m'.
Qed.

Lemma XOR_X_WRITE_XOR_Y_2_spec m X out inp o b :
  blk_at m out o → blk_at m inp b → allocated m out 64 → wf_blk o → wf_blk b →
  ∃ m', XOR_X_WRITE_XOR_Y_2 X out inp m = Some (XOR_X X (XOR_X o b), m') ∧
    blk_at m' out (XOR_X o b) ∧ modifies (in_range out 64) m m'.
Proof.
  intros Ho Hb HA Wo Wb. unfold XOR_X_WRITE_XOR_Y_2.
  step (READ_X_spec _ _ _ Ho). step (READ_X_spec _ _ _ Hb).
  destruct (WRITE_X_spec m out (XOR_X o b) HA (wf_XOR_X _ _ Wo Wb)) as (m' & E & Hb' & HM). step E. by exists m'.
Qed.

Lemma blk_at_allocated m p b : blk_at m p b → allocated m p 64.
Proof.
  intros Hb k Hk Hn. destruct (lookup_lt_is_Some_2 (blk_q b) (Z.to_nat k)) as [x Hx]; [cbn; lia|].
  apply Hb in Hx. rewrite Z2Nat.id in Hx by lia. by eexists.
Qed.
Lemma blks_at_lookup m p bs k b : blks_at m p bs → bs !! k = Some b → blk_at m (blk p (Z.of_nat k)) b.
Proof. intros H Hk. by apply H. Qed.

Lemma sboxes_frame v base P m m' ctx sb :
  sboxes_at v base m ctx sb → modifies P m m' →
  (∀ x, in_range base (S_total v) x → ¬ P x) → sboxes_at v base m' ctx sb.
Proof.
  intros [[W0 W1 L0 L1] Hap [I0 I1] HP] HM Hd.
  assert (∀ p s, wf_sbox v s → inside v base p → lanes_at m p s → lanes_at m' p s) as HL.
  { intros p s [Hl _] Hi L. eapply modifies_lanes; [done|done|]. intros x Hx. apply Hd.
    unfold inside, in_range, sbox_bytes in *. rewrite Hl in Hx. lia. }
  split; [split; auto|done|done|]. intros Hv. destruct (HP Hv) as (W2 & L2 & A & B & I2 & R).
  split_and!; auto; apply R.
Qed.

(** ** One mixing step *)
Section Steps.
Context (v : pass) (base : Z).

Lemma blockmix_loop_spec Bin Bout r rem fuel i X ctx sb m :
  rem ≠ [] → length rem ≤ fuel → r = (i + Z.of_nat (length rem) - 1)%Z →
  sboxes_at v base m ctx sb → wf_blk X → Forall wf_blk rem →
  blks_at m (blk Bin i) rem → allocated m (blk Bout i) (64 * Z.of_nat (length rem)) →
  disj (blk Bin i) (64 * Z.of_nat (length rem)) (blk Bout i) (64 * Z.of_nat (length rem)) →
  clear (S_total v) base (blk Bin i) (64 * Z.of_nat (length rem)) →
  clear (S_total v) base (blk Bout i) (64 * Z.of_nat (length rem)) →
  ∃ m' ctx', blockmix_loop fuel v Bin Bout i r X ctx m
      = Some (last_blk (chain v sb X rem).1, ctx', r, m') ∧
    sboxes_at v base m' ctx' (chain v sb X rem).2 ∧
    blks_at m' (blk Bout i) (take (length rem - 1) (chain v sb X rem).1) ∧
    Forall wf_blk (chain v sb X rem).1 ∧ ctx_Sbytes ctx' = ctx_Sbytes ctx ∧
    modifies (writes (S_total v) base (blk Bout i) (64 * Z.of_nat (length rem))) m m'.
Proof.
  revert fuel i X ctx sb m. induction rem as [|b rem IH]; [done|].
  intros fuel i X ctx sb m _ Hf Hr Hs HX Hwf Hin Hout Hd Hc1 Hc2. destruct fuel as [|fuel]; [cbn in Hf; lia|].
  apply Forall_cons in Hwf as [Hb Hwf]. apply blks_at_cons in Hin as [Hb0 Hin].
  cbn [blockmix_loop]. step (XOR_X_mem_spec m X _ _ Hb0).
  destruct (PWXFORM_spec v base m ctx sb (XOR_X X b)) as (m1 & c1 & E1 & S1 & W1 & B1 & M1);
    [done|auto with width|]. step E1.
  cbn [chain]. destruct (pwxform v sb (XOR_X X b)) as [Y sb1]. cbn [fst snd] in *.
  destruct rem as [|b' rem].
  { cbn [length chain fst snd]. rewrite (proj2 (Z.leb_le _ _)) by (cbn [length] in Hr; lia).
    exists m1, c1. split_and!; [|done|apply blks_at_nil|by constructor|done|].
    - by replace r with i by (cbn [length] in Hr; lia).
    - eapply modifies_weaken; [done|]. range. }
  rewrite (proj2 (Z.leb_gt _ _)) by (cbn [length] in Hr; lia).
  destruct (WRITE_X_spec m1 (blk Bout i) Y) as (m2 & E2 & Hb2 & M2).
  { eapply modifies_allocated; [done|]. eapply allocated_sub; [done|exists 0%Z; range|range|].
    cbn [length]. range. }
  { done. }
  step E2. set (rem' := b' :: rem) in *.
  assert (blk Bin (i + 1) = blk Bin i + 64)%Z as EI by range.
  assert (blk Bout (i + 1) = blk Bout i + 64)%Z as EO by range.
  cbn [length] in *. set (n := length rem') in *. assert (0 < n) as Hn by (subst n; cbn; lia).
  destruct (IH fuel (i + 1)%Z Y c1 sb1 m2) as (m' & c' & E & S' & HB & HW & HSb & HM).
  - done.
  - lia.
  - lia.
  - eapply sboxes_frame; [done|done|]. range.
  - done.
  - done.
  - rewrite EI. eapply modifies_blks; [exact M2| |range].
    eapply modifies_blks; [exact M1|done|range].
  - rewrite EO. eapply modifies_allocated; [exact M2|]. eapply modifies_allocated; [exact M1|].
    eapply allocated_sub; [done|exists 4%Z; range|range|range].
  - rewrite EI, EO. range.
  - rewrite EI. range.
  - rewrite EO. range.
  - exists m', c'. pose proof (length_chain v sb1 Y rem') as HL. fold n in HL.
    destruct (chain v sb1 Y rem') as [ys sb2]. cbn [fst snd] in *.
    split_and!; [|done| |by constructor|congruence|].
    + rewrite E. destruct ys; [cbn in HL; lia|done].
    + replace (S n - 1) with (S (n - 1)) by lia. cbn [take]. apply blks_at_cons. split; [|by rewrite <-EO].
      eapply modifies_blk; [exact HM|done|]. rewrite EO. range.
    + eapply modifies_trans; [eapply modifies_weaken; [exact M1|range]|].
      eapply modifies_trans; [eapply modifies_weaken; [exact M2|range]|].
      eapply modifies_weaken; [exact HM|]. rewrite EO. range.
Qed.
(** The two inputs of [blockmix_xor] at block [i], then [PWXFORM]. *)
Lemma xor_step m p1 p2 b1 b2 ctx sb X Y sb' :
  blk_at m p1 b1 → blk_at m p2 b2 → wf_blk X → wf_blk b1 → wf_blk b2 →
  sboxes_at v base m ctx sb → pwxform v sb (XOR_X X (XOR_X b1 b2)) = (Y, sb') →
  ∃ m' ctx', 
    (∀ A (k : salsa20_blk_t * pwxform_ctx_t → M A),
      (X ← XOR_X_mem X p1; X ← XOR_X_mem X p2; PWXFORM v ctx X ≫= k) m = k (Y, ctx') m') ∧
    sboxes_at v base m' ctx' sb' ∧ wf_blk Y ∧ ctx_Sbytes ctx' = ctx_Sbytes ctx ∧
    modifies (in_range base (S_total v)) m m'.
Proof.
  intros H1 H2 HX W1 W2 Hs E. destruct (PWXFORM_spec v base m ctx sb (XOR_X X (XOR_X b1 b2))) as (m1 & c1 & E1 & S1 & R);
    [done|auto with width|]. rewrite E in *. exists m1, c1. split; [|done]. intros A k.
  step (XOR_X_mem_spec m X _ _ H1). step (XOR_X_mem_spec m (XOR_X X b1) _ _ H2).
  rewrite XOR_X_assoc. by step E1.
Qed.

(** The same for [blockmix_xor_save], which also stores the sum. *)
Lemma xor_save_step m p1 p2 b1 b2 ctx sb X Y sb' :
  blk_at m p1 b1 → blk_at m p2 b2 → wf_blk X → wf_blk b1 → wf_blk b2 →
  clear (S_total v) base p2 64 →
  sboxes_at v base m ctx sb → pwxform v sb (XOR_X X (XOR_X b1 b2)) = (Y, sb') →
  ∃ m' ctx', 
    (∀ A (k : salsa20_blk_t * pwxform_ctx_t → M A),
      (X ← XOR_X_WRITE_XOR_Y_2 X p2 p1; PWXFORM v ctx X ≫= k) m = k (Y, ctx') m') ∧
    sboxes_at v base m' ctx' sb' ∧ blk_at m' p2 (XOR_X b1 b2) ∧ wf_blk Y ∧
    ctx_Sbytes ctx' = ctx_Sbytes ctx ∧ modifies (writes (S_total v) base p2 64) m m'.
Proof.
  intros H1 H2 HX W1 W2 Hc Hs E. pose proof (S_total_pos v).
  destruct (XOR_X_WRITE_XOR_Y_2_spec m X p2 p1 b2 b1) as (m0 & E0 & Hb0 & M0);
    [done|done|by eapply blk_at_allocated|done|done|]. rewrite (XOR_X_comm b2 b1) in *.
  destruct (PWXFORM_spec v base m0 ctx sb (XOR_X X (XOR_X b1 b2))) as (m1 & c1 & E1 & S1 & WY & HB & M1);
    [eapply sboxes_frame; [done|done|range]|auto with width|]. rewrite E in *.
  exists m1, c1. split_and!; [intros A k; step E0; by step E1|done| |done|done|].
  - eapply modifies_blk; [done|done|range].
  - eapply modifies_trans; (eapply modifies_weaken; [done|range]).
Qed.

(** Rows of an even number of blocks are taken apart two blocks at a time. *)
Lemma even_row k (l : row) : 0 < k → length l = 2 * k →
  ∃ a b l', l = a :: b :: l' ∧ length l' = 2 * (k - 1).
Proof. intros Hk Hl. destruct l as [|a [|b l]]; cbn in Hl; [lia..|]. exists a, b, l. split; [done|lia]. Qed.

Lemma blk_next p i : (blk p (i + 1) = blk p i + 64)%Z.
Proof. range. Qed.
Lemma blk_next2 p i : (blk p (i + 2) = blk p i + 64 + 64)%Z.
Proof. range. Qed.

Lemma blockmix_xor_loop_spec Bin1 Bin2 Bout r k rem1 rem2 fuel i X ctx sb m :
  let n := (128 * Z.of_nat k)%Z in
  0 < k → length rem1 = 2 * k → length rem2 = 2 * k → k ≤ fuel → r = (i + 2 * Z.of_nat k - 2)%Z →
  sboxes_at v base m ctx sb → wf_blk X → Forall wf_blk rem1 → Forall wf_blk rem2 →
  blks_at m (blk Bin1 i) rem1 → blks_at m (blk Bin2 i) rem2 → allocated m (blk Bout i) n →
  disj (blk Bin1 i) n (blk Bout i) n → disj (blk Bin2 i) n (blk Bout i) n →
  clear (S_total v) base (blk Bin1 i) n → clear (S_total v) base (blk Bin2 i) n →
  clear (S_total v) base (blk Bout i) n →
  let c := chain v sb X (xor_rows rem1 rem2) in
  ∃ m' ctx', blockmix_xor_loop fuel v Bin1 Bin2 Bout i r X ctx m = Some (last_blk c.1, ctx', r, m') ∧
    sboxes_at v base m' ctx' c.2 ∧ blks_at m' (blk Bout i) (take (2 * k - 1) c.1) ∧
    Forall wf_blk c.1 ∧ ctx_Sbytes ctx' = ctx_Sbytes ctx ∧
    modifies (writes (S_total v) base (blk Bout i) n) m m'.
Proof.
  revert rem1 rem2 fuel i X ctx sb m. induction k as [|k IH]; [intros; lia|].
  intros rem1 rem2 fuel i X ctx sb m n _ Hl1 Hl2 Hf Hr Hs HX Hw1 Hw2 H1 H2 Ho D1 D2 C1 C2 C3 c.
  destruct fuel as [|fuel]; [lia|].
  destruct (even_row (S k) rem1) as (a1 & b1 & t1 & -> & Ht1); [lia|done|].
  destruct (even_row (S k) rem2) as (a2 & b2 & t2 & -> & Ht2); [lia|done|].
  rewrite !Forall_cons in Hw1, Hw2. destruct Hw1 as (Wa1 & Wb1 & Wt1), Hw2 as (Wa2 & Wb2 & Wt2).
  rewrite !blks_at_cons in H1, H2. destruct H1 as (Ha1 & Hb1 & Htl1), H2 as (Ha2 & Hb2 & Htl2).
  subst c. cbn [blockmix_xor_loop xor_rows zip_with chain]. fold (xor_rows t1 t2).
  rewrite !blk_next.
  destruct (pwxform v sb (XOR_X X (XOR_X a1 a2))) as [Y sb1] eqn:EY.
  destruct (xor_step m (blk Bin1 i) (blk Bin2 i) a1 a2 ctx sb X Y sb1)
    as (m1 & c1 & E1 & S1 & WY & B1 & M1); [done..|]. rewrite E1. clear E1.
  destruct (WRITE_X_spec m1 (blk Bout i) Y) as (m2 & E2 & Hb2' & M2).
  { eapply modifies_allocated; [done|]. eapply allocated_sub; [exact Ho|exists 0%Z; range|range|range]. }
  { done. }
  step E2.
  destruct (pwxform v sb1 (XOR_X Y (XOR_X b1 b2))) as [Y' sb2] eqn:EY'.
  destruct (xor_step m2 (blk Bin1 i + 64) (blk Bin2 i + 64) b1 b2 c1 sb1 Y Y' sb2)
    as (m3 & c3 & E3 & S3 & WY' & B3 & M3).
  { eapply modifies_blk; [exact M2| |range]. eapply modifies_blk; [exact M1|done|range]. }
  { eapply modifies_blk; [exact M2| |range]. eapply modifies_blk; [exact M1|done|range]. }
  { done. } { done. } { done. }
  { eapply sboxes_frame; [done|exact M2|range]. }
  { done. }
  rewrite E3. clear E3.
  assert (modifies (writes (S_total v) base (blk Bout i) n) m m3) as M13.
  { eapply modifies_trans; [eapply modifies_weaken; [exact M1|range]|].
    eapply modifies_trans; [eapply modifies_weaken; [exact M2|range]|].
    eapply modifies_weaken; [exact M3|range]. }
  assert (blk_at m3 (blk Bout i) Y) as HbY by (eapply modifies_blk; [exact M3|done|range]).
  destruct (decide (k = 0)) as [->|Hk].
  { rewrite (proj2 (Z.leb_le _ _)) by lia. exists m3, c3.
    destruct t1; [|cbn in Ht1; lia]. cbn [xor_rows zip_with chain fst snd length].
    split_and!; [|done| |auto|congruence|done].
    - by replace r with i by lia.
    - apply blks_at_cons. split; [done|apply blks_at_nil]. }
  rewrite (proj2 (Z.leb_gt _ _)) by lia.
  destruct (WRITE_X_spec m3 (blk Bout i + 64)%Z Y') as (m4 & E4 & Hb4 & M4).
  { eapply modifies_allocated; [exact M13|]. eapply allocated_sub; [exact Ho|exists 4%Z; range|range|range]. }
  { done. }
  step E4.
  assert (modifies (writes (S_total v) base (blk Bout i) n) m m4) as M14.
  { eapply modifies_trans; [exact M13|]. eapply modifies_weaken; [exact M4|range]. }
  destruct (IH t1 t2 fuel (i + 2)%Z Y' c3 sb2 m4) as (m' & c' & E & S' & HB & HW & HSb & HM);
    rewrite ?blk_next2.
  1-5: lia. 2-4: done.
  { eapply sboxes_frame; [done|exact M4|range]. }
  { eapply modifies_blks; [exact M14|done|]. rewrite Ht1. range. }
  { eapply modifies_blks; [exact M14|done|]. rewrite Ht2. range. }
  { eapply modifies_allocated; [exact M14|]. eapply allocated_sub; [exact Ho|exists 8%Z; range|range|range]. }
  1-5: range.
  pose proof (length_chain v sb2 Y' (xor_rows t1 t2)) as HL.
  unfold xor_rows in HL at 2. rewrite length_zip_with, Ht1, Ht2 in HL.
  destruct (chain v sb2 Y' (xor_rows t1 t2)) as [ys sb3]. cbn [fst snd] in *.
  exists m', c'. split_and!; [|done| |auto|congruence|].
  - rewrite E. destruct ys; [cbn in HL; lia|done].
  - replace (2 * S k - 1) with (S (S (2 * k - 1))) by lia. cbn [take]. rewrite !blks_at_cons.
    rewrite blk_next2 in HB, HM. split_and!; [..|done].
    + eapply modifies_blk; [exact HM| |range]. eapply modifies_blk; [exact M4|done|range].
    + eapply modifies_blk; [exact HM|done|range].
  - eapply modifies_trans; [exact M14|]. eapply modifies_weaken; [exact HM|]. rewrite blk_next2. range.
Qed.

(** The bytes [blockmix_xor_save] may change. *)
Definition writes2 (sn bs a b n x : Z) : Prop := in_range a n x ∨ in_range b n x ∨ in_range bs sn x.

Lemma blockmix_xor_save_loop_spec Bin1 Bin2 r k rem1 rem2 fuel i X ctx sb m :
  let n := (128 * Z.of_nat k)%Z in
  0 < k → length rem1 = 2 * k → length rem2 = 2 * k → k ≤ fuel → r = (i + 2 * Z.of_nat k - 2)%Z →
  sboxes_at v base m ctx sb → wf_blk X → Forall wf_blk rem1 → Forall wf_blk rem2 →
  blks_at m (blk Bin1 i) rem1 → blks_at m (blk Bin2 i) rem2 →
  disj (blk Bin1 i) n (blk Bin2 i) n →
  clear (S_total v) base (blk Bin1 i) n → clear (S_total v) base (blk Bin2 i) n →
  let c := chain v sb X (xor_rows rem1 rem2) in
  ∃ m' ctx', blockmix_xor_save_loop fuel v Bin1 Bin2 i r X ctx m = Some (last_blk c.1, ctx', r, m') ∧
    sboxes_at v base m' ctx' c.2 ∧ blks_at m' (blk Bin1 i) (take (2 * k - 1) c.1) ∧
    blks_at m' (blk Bin2 i) (xor_rows rem1 rem2) ∧
    Forall wf_blk c.1 ∧ ctx_Sbytes ctx' = ctx_Sbytes ctx ∧
    modifies (writes2 (S_total v) base (blk Bin1 i) (blk Bin2 i) n) m m'.
Proof.
  revert rem1 rem2 fuel i X ctx sb m. induction k as [|k IH]; [intros; lia|].
  intros rem1 rem2 fuel i X ctx sb m n _ Hl1 Hl2 Hf Hr Hs HX Hw1 Hw2 H1 H2 D12 C1 C2 c.
  pose proof (S_total_pos v) as HS. destruct fuel as [|fuel]; [lia|].
  destruct (even_row (S k) rem1) as (a1 & b1 & t1 & -> & Ht1); [lia|done|].
  destruct (even_row (S k) rem2) as (a2 & b2 & t2 & -> & Ht2); [lia|done|].
  rewrite !Forall_cons in Hw1, Hw2. destruct Hw1 as (Wa1 & Wb1 & Wt1), Hw2 as (Wa2 & Wb2 & Wt2).
  rewrite !blks_at_cons in H1, H2. destruct H1 as (Ha1 & Hb1 & Htl1), H2 as (Ha2 & Hb2 & Htl2).
  subst c. cbn [blockmix_xor_save_loop xor_rows zip_with chain]. fold (xor_rows t1 t2).
  rewrite !blk_next.
  destruct (pwxform v sb (XOR_X X (XOR_X a1 a2))) as [Y sb1] eqn:EY.
  destruct (xor_save_step m (blk Bin1 i) (blk Bin2 i) a1 a2 ctx sb X Y sb1)
    as (m1 & c1 & E1 & S1 & P1 & WY & B1 & M1); [done..|range|done|done|]. rewrite E1. clear E1.
  destruct (WRITE_X_spec m1 (blk Bin1 i) Y) as (m2 & E2 & Hb2' & M2).
  { eapply modifies_allocated; [done|]. by eapply blk_at_allocated. }
  { done. }
  step E2.
  destruct (pwxform v sb1 (XOR_X Y (XOR_X b1 b2))) as [Y' sb2] eqn:EY'.
  destruct (xor_save_step m2 (blk Bin1 i + 64) (blk Bin2 i + 64) b1 b2 c1 sb1 Y Y' sb2)
    as (m3 & c3 & E3 & S3 & P3 & WY' & B3 & M3).
  { eapply modifies_blk; [exact M2| |range]. eapply modifies_blk; [exact M1|done|range]. }
  { eapply modifies_blk; [exact M2| |range]. eapply modifies_blk; [exact M1|done|range]. }
  { done. } { done. } { done. } { range. }
  { eapply sboxes_frame; [done|exact M2|range]. }
  { done. }
  rewrite E3. clear E3. unfold writes2.
  assert (modifies (writes2 (S_total v) base (blk Bin1 i) (blk Bin2 i) n) m m3) as M13.
  { unfold writes2. eapply modifies_trans; [eapply modifies_weaken; [exact M1|range]|].
    eapply modifies_trans; [eapply modifies_weaken; [exact M2|range]|].
    eapply modifies_weaken; [exact M3|range]. }
  assert (blk_at m3 (blk Bin1 i) Y) as HbY by (eapply modifies_blk; [exact M3|done|range]).
  assert (blk_at m3 (blk Bin2 i) (XOR_X a1 a2)) as HbX
    by (eapply modifies_blk; [exact M3| |range]; eapply modifies_blk; [exact M2|done|range]).
  destruct (decide (k = 0)) as [->|Hk].
  { rewrite (proj2 (Z.leb_le _ _)) by lia. exists m3, c3.
    destruct t1; [|cbn in Ht1; lia]. cbn [xor_rows zip_with chain fst snd length].
    split_and!; [|done| | |auto|congruence|done].
    - by replace r with i by lia.
    - apply blks_at_cons. split; [done|apply blks_at_nil].
    - rewrite !blks_at_cons. split_and!; [done|done|apply blks_at_nil]. }
  rewrite (proj2 (Z.leb_gt _ _)) by lia.
  destruct (WRITE_X_spec m3 (blk Bin1 i + 64)%Z Y') as (m4 & E4 & Hb4 & M4).
  { eapply modifies_allocated; [exact M13|]. by eapply blk_at_allocated. }
  { done. }
  step E4.
  assert (modifies (writes2 (S_total v) base (blk Bin1 i) (blk Bin2 i) n) m m4) as M14.
  { eapply modifies_trans; [exact M13|]. eapply modifies_weaken; [exact M4|]. unfold writes2. range. }
  assert (modifies (writes2 (S_total v) base (blk Bin1 i) (blk Bin2 i) 128) m m4) as M14'.
  { unfold writes2. eapply modifies_trans; [eapply modifies_weaken; [exact M1|range]|].
    eapply modifies_trans; [eapply modifies_weaken; [exact M2|range]|].
    eapply modifies_trans; [eapply modifies_weaken; [exact M3|range]|].
    eapply modifies_weaken; [exact M4|range]. }
  destruct (IH t1 t2 fuel (i + 2)%Z Y' c3 sb2 m4) as (m' & c' & E & S' & HB & HB2 & HW & HSb & HM);
    rewrite ?blk_next2.
  1-5: lia. 2-4: done.
  { eapply sboxes_frame; [done|exact M4|range]. }
  { eapply modifies_blks; [exact M14'|done|]. rewrite Ht1. unfold writes2. range. }
  { eapply modifies_blks; [exact M14'|done|]. rewrite Ht2. unfold writes2. range. }
  1-3: range.
  pose proof (length_chain v sb2 Y' (xor_rows t1 t2)) as HL.
  unfold xor_rows in HL at 2. rewrite length_zip_with, Ht1, Ht2 in HL.
  destruct (chain v sb2 Y' (xor_rows t1 t2)) as [ys sb3]. cbn [fst snd] in *.
  rewrite !blk_next2 in *. unfold writes2 in *.
  exists m', c'. split_and!; [|done| | |auto|congruence|].
  - rewrite E. destruct ys; [cbn in HL; lia|done].
  - replace (2 * S k - 1) with (S (S (2 * k - 1))) by lia. cbn [take]. rewrite !blks_at_cons.
    split_and!; [..|done].
    + eapply modifies_blk; [exact HM| |range]. eapply modifies_blk; [exact M4|done|range].
    + eapply modifies_blk; [exact HM|done|range].
  - rewrite !blks_at_cons. split_and!; [..|done];
      (eapply modifies_blk; [exact HM| |range]; eapply modifies_blk; [exact M4|done|range]).
  - eapply modifies_trans; [exact M14|]. eapply modifies_weaken; [exact HM|range].
Qed.
End Steps.

(** ** The three functions *)
Definition octx_at (v : pass) (base : Z) (m : mem) (ctx : option pwxform_ctx_t)
    (sb : option sboxes) : Prop :=
  match ctx, sb with
  | None, None => True
  | Some ctx, Some sb => sboxes_at v base m ctx sb
  | _, _ => False
  end.
Definition box_bytes (v : pass) (sb : option sboxes) : Z :=
  match sb with None => 0 | Some _ => S_total v end.

(** A row of [2 r] blocks; without S-boxes only [r = 1] is used. *)
Definition wf_row (r : nat) (B : row) : Prop := length B = 2 * r ∧ Forall wf_blk B.
Definition row_ok (r : nat) (sb : option sboxes) : Prop := 0 < r ∧ (sb = None → r = 1).

Lemma box_bytes_ref v sb B : box_bytes v (blockmix_ref v sb B).2 = box_bytes v sb.
Proof. unfold blockmix_ref. destruct sb as [sb|]; [|done]. by destruct (blockmix_pwx_ref v sb B). Qed.
Lemma row_ok_ref v r sb B : row_ok r sb → row_ok r (blockmix_ref v sb B).2.
Proof.
  intros [Hr Hn]. split; [done|]. destruct sb as [sb|]; [|by auto]. cbn.
  by destruct (blockmix_pwx_ref v sb B).
Qed.

Lemma last_blk_lookup bs k : length bs = S k → bs !! k = Some (last_blk bs).
Proof.
  intros Hl. unfold last_blk. rewrite last_lookup, Hl. cbn.
  destruct (lookup_lt_is_Some_2 bs k) as [x Hx]; [lia|]. by rewrite Hx.
Qed.

Lemma length_xor_rows a b : length a = length b → length (xor_rows a b) = length a.
Proof. intros. unfold xor_rows. rewrite length_zip_with. lia. Qed.
Lemma last_xor_rows a b k : length a = S k → length b = S k →
  last_blk (xor_rows a b) = XOR_X (last_blk a) (last_blk b).
Proof.
  intros Ha Hb. unfold last_blk at 1, xor_rows. rewrite last_lookup, length_zip_with, Ha, Hb, Nat.min_id.
  cbn [Nat.pred]. rewrite lookup_zip_with, (last_blk_lookup a k), (last_blk_lookup b k) by done. done.
Qed.
Lemma wf_xor_rows r a b : wf_row r a → wf_row r b → wf_row r (xor_rows a b).
Proof.
  intros [La Wa] [Lb Wb]. split; [rewrite length_xor_rows; lia|]. clear La Lb. revert b Wb.
  induction Wa as [|x a Hx _ IH]; intros b Wb; [constructor|].
  destruct Wb as [|y b Hy Wb]; [constructor|]. constructor; [by apply wf_XOR_X|by apply IH].
Qed.

(** The end of a mixing function: the last [X] goes through Salsa20 into the
    last block of the output. *)
Lemma finish_spec v m Bout r n ys : n = (128 * Z.of_nat r)%Z → 0 < r → length ys = 2 * r →
  allocated m Bout n → blks_at m Bout (take (2 * r - 1) ys) →
  ∃ m', SALSA20_to v (last_blk ys) (blk Bout (2 * Z.of_nat r - 1)) m
      = Some (SALSA20 v (last_blk ys), m') ∧
    blks_at m' Bout (take (2 * r - 1) ys ++ [SALSA20 v (last_blk ys)]) ∧
    modifies (in_range (blk Bout (2 * Z.of_nat r - 1)) 64) m m'.
Proof.
  intros -> Hr Hl HA HB.
  destruct (SALSA20_to_spec v m (last_blk ys) (blk Bout (2 * Z.of_nat r - 1))) as (m' & E & Hb & HM).
  { eapply allocated_sub; [done|exists (4 * (2 * Z.of_nat r - 1))%Z; range|range|range]. }
  exists m'. split_and!; [done| |done]. apply blks_at_app.
  assert (Z.of_nat (length (take (2 * r - 1) ys)) = 2 * Z.of_nat r - 1)%Z as EL
    by (rewrite length_take; lia).
  split.
  - eapply modifies_blks; [done|done|]. rewrite EL. range.
  - rewrite EL. apply blks_at_cons. split; [done|apply blks_at_nil].
Qed.

Lemma wf_finish v r ys : 0 < r → length ys = 2 * r → Forall wf_blk ys →
  wf_row r (take (2 * r - 1) ys ++ [SALSA20 v (last_blk ys)]).
Proof.
  intros Hr Hl Hw. split; [rewrite length_app, length_take; cbn; lia|].
  apply Forall_app. split; [by apply Forall_take|]. constructor; [apply wf_SALSA20|done].
Qed.

Lemma row2 B : wf_row 1 B → ∃ b0 b1, B = [b0; b1] ∧ wf_blk b0 ∧ wf_blk b1.
Proof.
  intros [Hl Hw]. destruct B as [|b0 [|b1 [|]]]; cbn in Hl; try lia.
  rewrite !Forall_cons in Hw. destruct Hw as (? & ? & _). by exists b0, b1.
Qed.

(** Two Salsa20 steps, the common part of the two functions without S-boxes. *)
Lemma salsa_store v m Bout X k : k = 0%Z ∨ k = 1%Z → allocated m Bout 128 →
  ∃ m', SALSA20_to v X (blk Bout k) m = Some (SALSA20 v X, m') ∧
    blk_at m' (blk Bout k) (SALSA20 v X) ∧ modifies (in_range (blk Bout k) 64) m m'.
Proof.
  intros Hk HA. apply SALSA20_to_spec. eapply allocated_sub; [done|exists (4 * k)%Z; range|range|range].
Qed.

Lemma blockmix_salsa_spec v m Bin Bout b0 b1 :
  blks_at m Bin [b0; b1] → allocated m Bout 128 → disj Bin 128 Bout 128 →
  ∃ m', blockmix_salsa v Bin Bout m = Some (tt, m') ∧
    blks_at m' Bout (blockmix_salsa_ref v [b0; b1]) ∧ modifies (in_range Bout 128) m m'.
Proof.
  intros HB HA HD. rewrite !blks_at_cons in HB. destruct HB as (H0 & H1 & _).
  assert (blk Bin 0 = Bin) as E0 by range. assert (blk Bin 1 = Bin + 64)%Z as E1 by range.
  unfold blockmix_salsa, SALSA20_XOR_MEM. rewrite E0, E1. step (READ_X_spec _ _ _ H1).
  unfold blockmix_salsa_ref. cbn [last_blk last default lookup list_lookup].
  set (Y0 := SALSA20 v (XOR_X b1 b0)).
  destruct (salsa_store v m Bout (XOR_X b1 b0) 0) as (m1 & EA & Hb1 & M1); [by left|done|].
  assert ((X ← XOR_X_mem b1 Bin; SALSA20_to v X (blk Bout 0)) m = Some (Y0, m1)) as EA'
    by (by step (XOR_X_mem_spec m b1 _ _ H0)). step EA'.
  destruct (salsa_store v m1 Bout (XOR_X Y0 b1) 1) as (m2 & EB & Hb2 & M2);
    [by right|by eapply modifies_allocated|].
  assert ((X ← XOR_X_mem Y0 (Bin + 64); SALSA20_to v X (blk Bout 1)) m1
    = Some (SALSA20 v (XOR_X Y0 b1), m2)) as EB'.
  { step (XOR_X_mem_spec m1 Y0 (Bin + 64) b1 ltac:(eapply modifies_blk; [done|done|range])). done. }
  step EB'. exists m2. replace (blk Bout 0) with Bout in * by range.
  replace (blk Bout 1) with (Bout + 64)%Z in * by range.
  split_and!; [done| |].
  - rewrite !blks_at_cons. split_and!; [|done|apply blks_at_nil].
    eapply modifies_blk; [exact M2|done|range].
  - eapply modifies_trans; (eapply modifies_weaken; [done|range]).
Qed.

(** [blockmix_salsa_xor] is [blockmix_salsa] on the exclusive or of its inputs. *)
Lemma blockmix_salsa_xor_spec v m Bin1 Bin2 Bout a0 a1 c0 c1 :
  blks_at m Bin1 [a0; a1] → blks_at m Bin2 [c0; c1] → allocated m Bout 128 →
  disj Bin1 128 Bout 128 → disj Bin2 128 Bout 128 →
  let B := blockmix_salsa_ref v (xor_rows [a0; a1] [c0; c1]) in
  ∃ m', blockmix_salsa_xor v Bin1 Bin2 Bout m = Some (integerify_ref B, m') ∧
    blks_at m' Bout B ∧ modifies (in_range Bout 128) m m'.
Proof.
  intros H1 H2 HA D1 D2 B. rewrite !blks_at_cons in H1, H2.
  destruct H1 as (Ha0 & Ha1 & _), H2 as (Hc0 & Hc1 & _).
  unfold blockmix_salsa_xor, SALSA20_XOR_MEM.
  replace (blk Bin1 0) with Bin1 by range. replace (blk Bin2 0) with Bin2 by range.
  replace (blk Bin1 1) with (Bin1 + 64)%Z by range. replace (blk Bin2 1) with (Bin2 + 64)%Z by range.
  step (XOR_X_2_spec m _ _ _ _ Ha1 Hc1). step (XOR_X_mem_spec m (XOR_X a1 c1) _ _ Ha0).
  set (Y0 := SALSA20 v (XOR_X (XOR_X a1 c1) (XOR_X a0 c0))).
  destruct (salsa_store v m Bout (XOR_X (XOR_X a1 c1) (XOR_X a0 c0)) 0)
    as (m1 & EA & Hb1 & M1); [by left|done|].
  assert ((X ← XOR_X_mem (XOR_X (XOR_X a1 c1) a0) Bin2; SALSA20_to v X (blk Bout 0)) m = Some (Y0, m1))
    as EA' by (step (XOR_X_mem_spec m (XOR_X (XOR_X a1 c1) a0) _ _ Hc0); by rewrite XOR_X_assoc).
  step EA'.
  step (XOR_X_mem_spec m1 Y0 (Bin1 + 64) a1 ltac:(eapply modifies_blk; [done|done|range])).
  destruct (salsa_store v m1 Bout (XOR_X Y0 (XOR_X a1 c1)) 1) as (m2 & EB & Hb2 & M2);
    [by right|by eapply modifies_allocated|].
  assert ((X ← XOR_X_mem (XOR_X Y0 a1) (Bin2 + 64); SALSA20_to v X (blk Bout 1)) m1
    = Some (SALSA20 v (XOR_X Y0 (XOR_X a1 c1)), m2)) as EB'.
  { step (XOR_X_mem_spec m1 (XOR_X Y0 a1) (Bin2 + 64) c1 ltac:(eapply modifies_blk; [done|done|range])).
    by rewrite XOR_X_assoc. }
  step EB'. exists m2. replace (blk Bout 0) with Bout in * by range.
  replace (blk Bout 1) with (Bout + 64)%Z in * by range.
  split_and!; [done| |].
  - unfold B, blockmix_salsa_ref. rewrite !blks_at_cons. split_and!; [|done|apply blks_at_nil].
    eapply modifies_blk; [exact M2|done|range].
  - eapply modifies_trans; (eapply modifies_weaken; [done|range]).
Qed.

Lemma wf_blockmix_salsa_ref v B : wf_row 1 (blockmix_salsa_ref v B).
Proof. split; [done|]. unfold blockmix_salsa_ref. rewrite !Forall_cons. auto with width. Qed.

Lemma blockmix_spec v base m Bin Bout r ctx sb B :
  let n := (128 * Z.of_nat r)%Z in let out := blockmix_ref v sb B in
  row_ok r sb → wf_row r B → octx_at v base m ctx sb → blks_at m Bin B → allocated m Bout n →
  disj Bin n Bout n → clear (box_bytes v sb) base Bin n → clear (box_bytes v sb) base Bout n →
  ∃ m' ctx', blockmix v Bin Bout (Z.of_nat r) ctx m = Some (ctx', m') ∧
    octx_at v base m' ctx' out.2 ∧ blks_at m' Bout out.1 ∧ wf_row r out.1 ∧
    modifies (writes (box_bytes v sb) base Bout n) m m'.
Proof.
  intros n out [Hr Hnone] [HL HW] Hctx HB HA HD C1 C2. subst out.
  destruct ctx as [ctx|], sb as [sb|]; try done; cbn [blockmix blockmix_ref box_bytes octx_at] in *.
  - assert (blk_at m (blk Bin (Z.of_nat r * 2 - 1)) (last_blk B)) as HX.
    { replace (Z.of_nat r * 2 - 1)%Z with (Z.of_nat (2 * r - 1)) by lia.
      eapply blks_at_lookup; [done|]. apply last_blk_lookup. lia. }
    step (READ_X_spec _ _ _ HX). replace Bin with (blk Bin 0) in HB, HD, C1 by range.
    assert (blk Bout 0 = Bout) as EO by range.
    destruct (blockmix_loop_spec v base Bin Bout (Z.of_nat r * 2 - 1) B
      (S (Z.to_nat (Z.of_nat r * 2 - 1))) 0 (last_blk B) ctx sb m)
      as (m1 & c1 & E1 & S1 & P1 & W1 & _ & M1);
      rewrite ?EO, ?HL; try done; try lia; try (by apply wf_last_blk); try (range; lia).
    { by destruct B; [cbn in HL; lia|]. }
    { by replace (64 * Z.of_nat (2 * r))%Z with n by lia. }
    step E1. unfold blockmix_pwx_ref. pose proof (length_chain v sb (last_blk B) B) as HLC.
    destruct (chain v sb (last_blk B) B) as [ys sb1]. cbn [fst snd] in *. rewrite HL in *.
    rewrite EO in *. replace (Z.of_nat r * 2 - 1)%Z with (2 * Z.of_nat r - 1)%Z by lia.
    destruct (finish_spec v m1 Bout r n ys) as (m2 & E2 & P2 & M2);
      [done|done|done|by eapply modifies_allocated|done|]. step E2.
    exists m2, (Some c1). split_and!; [done| |done|by apply wf_finish|].
    + eapply sboxes_frame; [done|done|range].
    + eapply modifies_trans; [eapply modifies_weaken; [exact M1|range]|].
      eapply modifies_weaken; [exact M2|range].
  - specialize (Hnone eq_refl). subst r. change n with 128%Z in *. destruct (row2 B) as (b0 & b1 & -> & _ & _); [by split|].
    destruct (blockmix_salsa_spec v m Bin Bout b0 b1) as (m1 & E1 & P1 & M1); [done..|].
    exists m1, None. split_and!; [by step E1|done|done|apply wf_blockmix_salsa_ref|].
    eapply modifies_weaken; [exact M1|range].
Qed.

Lemma integerify_finish v ys l : integerify_ref (l ++ [SALSA20 v (last_blk ys)]) = INTEGERIFY (SALSA20 v (last_blk ys)).
Proof. unfold integerify_ref, last_blk at 1. by rewrite last_snoc. Qed.

Lemma xor_last m p1 p2 r B1 B2 : 0 < r → length B1 = 2 * r → length B2 = 2 * r →
  blks_at m p1 B1 → blks_at m p2 B2 →
  XOR_X_2 (blk p1 (Z.of_nat r * 2 - 1)) (blk p2 (Z.of_nat r * 2 - 1)) m
  = Some (last_blk (xor_rows B1 B2), m).
Proof.
  intros Hr L1 L2 H1 H2. replace (Z.of_nat r * 2 - 1)%Z with (Z.of_nat (2 * r - 1)) by lia.
  rewrite (last_xor_rows B1 B2 (2 * r - 1)) by lia.
  apply XOR_X_2_spec; (eapply blks_at_lookup; [done|]; apply last_blk_lookup; lia).
Qed.

Lemma blockmix_xor_spec v base m Bin1 Bin2 Bout r ctx sb B1 B2 :
  let n := (128 * Z.of_nat r)%Z in let out := blockmix_ref v sb (xor_rows B1 B2) in
  row_ok r sb → wf_row r B1 → wf_row r B2 → octx_at v base m ctx sb →
  blks_at m Bin1 B1 → blks_at m Bin2 B2 → allocated m Bout n →
  disj Bin1 n Bout n → disj Bin2 n Bout n → clear (box_bytes v sb) base Bin1 n →
  clear (box_bytes v sb) base Bin2 n → clear (box_bytes v sb) base Bout n →
  ∃ m' ctx', blockmix_xor v Bin1 Bin2 Bout (Z.of_nat r) ctx m
      = Some (integerify_ref out.1, ctx', m') ∧
    octx_at v base m' ctx' out.2 ∧ blks_at m' Bout out.1 ∧ wf_row r out.1 ∧
    modifies (writes (box_bytes v sb) base Bout n) m m'.
Proof.
  intros n out [Hr Hnone] W1 W2 Hctx H1 H2 HA D1 D2 C1 C2 C3. subst out.
  pose proof W1 as [HL1 HW1]. pose proof W2 as [HL2 HW2].
  destruct ctx as [ctx|], sb as [sb|]; try done; cbn [blockmix_xor blockmix_ref box_bytes octx_at] in *.
  - step (xor_last m Bin1 Bin2 r B1 B2 Hr HL1 HL2 H1 H2).
    destruct (wf_xor_rows r B1 B2 W1 W2) as [HL HW]. set (X := last_blk (xor_rows B1 B2)).
    assert (blk Bin1 0 = Bin1) as EI1 by range. assert (blk Bin2 0 = Bin2) as EI2 by range.
    assert (blk Bout 0 = Bout) as EO by range.
    destruct (blockmix_xor_loop_spec v base Bin1 Bin2 Bout (Z.of_nat r * 2 - 1 - 1) r B1 B2
      (S (Z.to_nat (Z.of_nat r * 2 - 1 - 1))) 0 X ctx sb m) as (m1 & c1 & E1 & S1 & P1 & Wy & _ & M1);
      rewrite ?EI1, ?EI2, ?EO; try done; try lia; [by apply wf_last_blk|].
    step E1. unfold blockmix_pwx_ref. fold X. pose proof (length_chain v sb X (xor_rows B1 B2)) as HLC.
    rewrite HL in *. destruct (chain v sb X (xor_rows B1 B2)) as [ys sb1]. cbn [fst snd] in *.
    rewrite EO in *. replace (Z.of_nat r * 2 - 1 - 1 + 1)%Z with (2 * Z.of_nat r - 1)%Z by lia.
    destruct (finish_spec v m1 Bout r n ys) as (m2 & E2 & P2 & M2);
      [done|done|done|by eapply modifies_allocated|done|]. step E2.
    exists m2, (Some c1). rewrite integerify_finish. split_and!; [done| |done|by apply wf_finish|].
    + eapply sboxes_frame; [done|done|range].
    + eapply modifies_trans; [eapply modifies_weaken; [exact M1|range]|].
      eapply modifies_weaken; [exact M2|range].
  - specialize (Hnone eq_refl). subst r. change n with 128%Z in *.
    destruct (row2 B1) as (a0 & a1 & -> & _ & _); [done|].
    destruct (row2 B2) as (c0 & c1 & -> & _ & _); [done|].
    destruct (blockmix_salsa_xor_spec v m Bin1 Bin2 Bout a0 a1 c0 c1) as (m1 & E1 & P1 & M1); [done..|].
    exists m1, None. split_and!; [by step E1|done|done|apply wf_blockmix_salsa_ref|].
    eapply modifies_weaken; [exact M1|range].
Qed.

Lemma blks_at_allocated m p bs n : blks_at m p bs → n = (64 * Z.of_nat (length bs))%Z → allocated m p n.
Proof.
  intros Hb -> k Hk Hn. apply blks_lanes in Hb.
  destruct (lookup_lt_is_Some_2 (bs ≫= blk_q) (Z.to_nat k)) as [x Hx];
    [rewrite length_bind_blk_q; lia|].
  apply Hb in Hx. rewrite Z2Nat.id in Hx by done. by eexists.
Qed.

Lemma blockmix_xor_save_spec v base m Bin1 Bin2 r ctx sb B1 B2 :
  let n := (128 * Z.of_nat r)%Z in let out := blockmix_pwx_ref v sb (xor_rows B1 B2) in
  0 < r → wf_row r B1 → wf_row r B2 → sboxes_at v base m ctx sb →
  blks_at m Bin1 B1 → blks_at m Bin2 B2 → disj Bin1 n Bin2 n →
  clear (S_total v) base Bin1 n → clear (S_total v) base Bin2 n →
  ∃ m' ctx', blockmix_xor_save v Bin1 Bin2 (Z.of_nat r) ctx m
      = Some (integerify_ref out.1, ctx', m') ∧
    sboxes_at v base m' ctx' out.2 ∧ blks_at m' Bin1 out.1 ∧ blks_at m' Bin2 (xor_rows B1 B2) ∧
    wf_row r out.1 ∧ modifies (writes2 (S_total v) base Bin1 Bin2 n) m m'.
Proof.
  intros n out Hr W1 W2 Hctx H1 H2 D C1 C2. subst out. pose proof (S_total_pos v) as HS.
  pose proof W1 as [HL1 HW1]. pose proof W2 as [HL2 HW2]. unfold blockmix_xor_save.
  step (xor_last m Bin1 Bin2 r B1 B2 Hr HL1 HL2 H1 H2).
  destruct (wf_xor_rows r B1 B2 W1 W2) as [HL HW]. set (X := last_blk (xor_rows B1 B2)).
  assert (blk Bin1 0 = Bin1) as EI1 by range. assert (blk Bin2 0 = Bin2) as EI2 by range.
  destruct (blockmix_xor_save_loop_spec v base Bin1 Bin2 (Z.of_nat r * 2 - 1 - 1) r B1 B2
    (S (Z.to_nat (Z.of_nat r * 2 - 1 - 1))) 0 X ctx sb m)
    as (m1 & c1 & E1 & S1 & P1 & P2 & Wy & _ & M1);
    rewrite ?EI1, ?EI2; try done; try lia; [by apply wf_last_blk|].
  step E1. unfold blockmix_pwx_ref. fold X. pose proof (length_chain v sb X (xor_rows B1 B2)) as HLC.
  rewrite HL in *. destruct (chain v sb X (xor_rows B1 B2)) as [ys sb1]. cbn [fst snd] in *.
  rewrite EI1, EI2 in *. replace (Z.of_nat r * 2 - 1 - 1 + 1)%Z with (2 * Z.of_nat r - 1)%Z by lia.
  destruct (finish_spec v m1 Bin1 r n ys) as (m2 & E2 & P3 & M2); [done|done|done| |done|].
  { eapply modifies_allocated; [exact M1|]. eapply blks_at_allocated; [exact H1|lia]. }
  step E2. exists m2, c1. rewrite integerify_finish. unfold writes2 in *.
  split_and!; [done| |done| |by apply wf_finish|].
  - eapply sboxes_frame; [done|exact M2|range].
  - eapply modifies_blks; [exact M2|done|]. rewrite HL. range.
  - eapply modifies_trans; [exact M1|]. eapply modifies_weaken; [exact M2|range].
Qed.

Lemma integerify_spec m p r B : 0 < r → wf_row r B → blks_at m p B →
  integerify p (Z.of_nat r) m = Some (integerify_ref B, m).
Proof.
  intros Hr [HL HW] HB. unfold integerify.
  assert (blk_at m (blk p (2 * Z.of_nat r - 1)) (last_blk B)) as HX.
  { replace (2 * Z.of_nat r - 1)%Z with (Z.of_nat (2 * r - 1)) by lia.
    eapply blks_at_lookup; [done|]. apply last_blk_lookup. lia. }
  step (READ_X_spec _ _ _ HX). rewrite run_ret. do 2 f_equal.
  by apply INTEGERIFY_agree, wf_last_blk.
Qed.
