(* ===== verification/Smix.v ===== *)
(** * SMix

    [smix1], [smix2] and [smix] of [yespower-opt.c] on memory, for both passes,
    and the reference SMix of the yespower paper on lists of rows. *)
From S2P Require Import Prelude Sysendian Simd Salsa20 Mem Pwxform Blockmix.

(** ** Loading and storing rows

    A [uint32_t] in memory is four bytes on a little-endian host. *)
Definition host_bytes (w : Z) : list Z := le_bytes 4 w.
Definition host_word (l : list Z) : Z := le_val l.

(** [tmp->w[k] = le32dec(&src->w[k])] for the sixteen [k], then the shuffle. *)
Definition load_blk (src tmp dst : Z) : M unit :=
  b ← READ_X src;
  WRITE_X tmp (of_w ((λ w, le32dec (host_bytes w)) <$> blk_w b));;
  t ← READ_X tmp;
  WRITE_X dst (salsa20_simd_shuffle t).

(** [le32enc(&tmp->w[k], src->w[k])] for the sixteen [k], then the unshuffle. *)
Definition store_blk (src tmp dst : Z) : M unit :=
  b ← READ_X src;
  WRITE_X tmp (of_w ((λ w, host_word (le32enc w)) <$> blk_w b));;
  t ← READ_X tmp;
  WRITE_X dst (salsa20_simd_unshuffle t).

(** [for (i = i; i < n; i++) body], with [k] turns left. *)
Fixpoint for_loop (k : nat) (i : Z) (body : Z → M unit) : M unit :=
  match k with
  | O => mret tt
  | S k => body i;; for_loop k (i + 1) body
  end.

Definition load_blks (n : nat) (B tmp X : Z) : M unit :=
  for_loop n 0 (λ i, load_blk (blk B i) tmp (blk X i)).
Definition store_blks (n : nat) (X tmp B : Z) : M unit :=
  for_loop n 0 (λ i, store_blk (blk X i) tmp (blk B i)).

(** ** The first loop *)

(** [for (i = 1; i < r; i++) blockmix(&X[(i - 1) * 2], &X[i * 2], 1, ctx);] *)
Fixpoint smix1_expand (k : nat) (v : pass) (X i : Z) (ctx : option pwxform_ctx_t)
    : M (option pwxform_ctx_t) :=
  match k with
  | O => mret ctx
  | S k =>
      ctx ← blockmix v (blk X ((i - 1) * 2)) (blk X (i * 2)) 1 ctx;
      smix1_expand k v X (i + 1) ctx
  end.

(** [for (i = i; i < m; i += 2)]. *)
Fixpoint smix1_inner (fuel : nat) (v : pass) (V s r n m i X j : Z) (ctx : option pwxform_ctx_t)
    : M (Z * Z * option pwxform_ctx_t) :=
  match fuel with
  | O => no_fuel
  | S fuel =>
      if (i <? m)%Z then
        let Y := blk X s in
        let j := u32 (Z.land j (n - 1) + (i - 1)) in
        let V_j := blk V (j * s) in
        '(j, ctx) ← blockmix_xor v X V_j Y r ctx;
        let j := u32 (Z.land j (n - 1) + i) in
        let V_j := blk V (j * s) in
        let X := blk Y s in
        '(j, ctx) ← blockmix_xor v Y V_j X r ctx;
        smix1_inner fuel v V s r n m (i + 2) X j ctx
      else mret (X, j, ctx)
  end.

(** [for (n = n; n < N; n <<= 1)]; returns the final [n] as well. *)
Fixpoint smix1_outer (fuel : nat) (v : pass) (V s r N n X j : Z) (ctx : option pwxform_ctx_t)
    : M (Z * Z * Z * option pwxform_ctx_t) :=
  match fuel with
  | O => no_fuel
  | S fuel =>
      if (n <? N)%Z then
        let m := if (n <? N `div` 2)%Z then n else (N - 1 - n)%Z in
        '(X, j, ctx) ← smix1_inner (S (Z.to_nat m)) v V s r n m 1 X j ctx;
        smix1_outer fuel v V s r N (u32 (n ≪ 1)) X j ctx
      else mret (n, X, j, ctx)
  end.

(** Thirty-two doublings of a 32-bit [n] are enough. *)
Definition smix1 (v : pass) (B r N V XY : Z) (ctx : option pwxform_ctx_t)
    : M (option pwxform_ctx_t) :=
  let s := (2 * r)%Z in
  let X := V in
  let Y := blk V s in
  load_blks (Z.to_nat (match v with Pass1 => 2 * r | Pass2 => 2 end)) B Y X;;
  ctx ← match v with
        | Pass1 => mret ctx
        | Pass2 => smix1_expand (Z.to_nat (r - 1)) v X 1 ctx
        end;
  ctx ← blockmix v X Y r ctx;
  let X := blk Y s in
  ctx ← blockmix v Y X r ctx;
  j ← integerify X r;
  '(n, X, j, ctx) ← smix1_outer 33 v V s r N 2 X j ctx;
  let n := (n ≫ 1)%Z in
  let j := u32 (Z.land j (n - 1) + (N - 2 - n)) in
  let V_j := blk V (j * s) in
  let Y := blk X s in
  '(j, ctx) ← blockmix_xor v X V_j Y r ctx;
  let j := u32 (Z.land j (n - 1) + (N - 1 - n)) in
  let V_j := blk V (j * s) in
  '(_, ctx) ← blockmix_xor v Y V_j XY r ctx;
  store_blks (Z.to_nat (2 * r)) XY (blk XY s) B;;
  mret ctx.

(** ** The second loop *)

(** [do { ... } while (Nloop -= 2);] with saving. *)
Fixpoint smix2_save_loop (fuel : nat) (v : pass) (X V s r N j Nloop : Z) (ctx : pwxform_ctx_t)
    : M pwxform_ctx_t :=
  match fuel with
  | O => no_fuel
  | S fuel =>
      let V_j := blk V (j * s) in
      '(j, ctx) ← blockmix_xor_save v X V_j r ctx;
      let j := Z.land j (N - 1) in
      let V_j := blk V (j * s) in
      '(j, ctx) ← blockmix_xor_save v X V_j r ctx;
      let j := Z.land j (N - 1) in
      let Nloop := u32 (Nloop - 2) in
      if (Nloop =? 0)%Z then mret ctx
      else smix2_save_loop fuel v X V s r N j Nloop ctx
  end.

(** The loop of pass 1 for [Nloop <= 2], which does not write to [V]. *)
Fixpoint smix2_read_loop (fuel : nat) (v : pass) (X Y V s r N j Nloop : Z) (ctx : option pwxform_ctx_t)
    : M (option pwxform_ctx_t) :=
  match fuel with
  | O => no_fuel
  | S fuel =>
      let V_j := blk V (j * s) in
      '(j, ctx) ← blockmix_xor v X V_j Y r ctx;
      let j := Z.land j (N - 1) in
      let V_j := blk V (j * s) in
      '(j, ctx) ← blockmix_xor v Y V_j X r ctx;
      let j := Z.land j (N - 1) in
      let Nloop := u32 (Nloop - 2) in
      if (Nloop =? 0)%Z then mret ctx
      else smix2_read_loop fuel v X Y V s r N j Nloop ctx
  end.

Definition smix2 (v : pass) (B r N Nloop V XY : Z) (ctx : pwxform_ctx_t) : M pwxform_ctx_t :=
  let s := (2 * r)%Z in
  let X := XY in
  let Y := blk XY s in
  load_blks (Z.to_nat (2 * r)) B Y X;;
  j ← integerify X r;
  let j := Z.land j (N - 1) in
  ctx ← (if bool_decide (v = Pass2) || (2 <? Nloop)%Z
         then smix2_save_loop (Z.to_nat Nloop) v X V s r N j Nloop ctx
         else c ← smix2_read_loop (Z.to_nat Nloop) v X Y V s r N j Nloop (Some ctx);
              mret (default ctx c));
  store_blks (Z.to_nat (2 * r)) X Y B;;
  mret ctx.

(** ** [smix] *)
Definition Nloop_up (N : Z) : Z := Z.land (u32 ((N + 2) `div` 3 + 1)) (u32 (-2)).
Definition Nloop_down (N : Z) : Z := Z.land ((N + 2) `div` 3) (u32 (-2)).

Definition smix (v : pass) (B r N V XY : Z) (ctx : pwxform_ctx_t) : M pwxform_ctx_t :=
  let Nloop_all := Nloop_up N in
  let Nloop_rw := match v with Pass1 => Nloop_down N | Pass2 => Nloop_up N end in
  smix1 v B 1 (ctx_Sbytes ctx `div` 128) (ctx_S0 ctx) XY None;;
  c ← smix1 v B r N V XY (Some ctx);
  let ctx := default ctx c in
  ctx ← smix2 v B r N Nloop_rw V XY ctx;
  match v with
  | Pass1 => if (Nloop_rw <? Nloop_all)%Z then smix2 v B r N 2 V XY ctx else mret ctx
  | Pass2 => mret ctx
  end.

(** ** Reference definition *)

(** Rows in the vector layout from the blocks of [B], and back. *)
Definition shuffle_row (B : row) : row := salsa20_simd_shuffle <$> B.
Definition unshuffle_row (X : row) : row := salsa20_simd_unshuffle <$> X.

(** Wrap: an index below [i], from the [floor(log2 i)] low bits of [x]. *)
Definition wrap (x : Z) (i : nat) : nat :=
  let n := (2 ^ Z.log2 (Z.of_nat i))%Z in Z.to_nat (x `mod` n + (Z.of_nat i - n)).

Record fill := mkFill { f_V : list row; f_X : row; f_sb : option sboxes }.

(** [V_i <- X; if i > 1 then X <- X xor V_j; X <- BlockMix X]. *)
Definition fill_step (v : pass) (st : fill) : fill :=
  let '(mkFill V X sb) := st in
  let i := length V in
  let Xin := if (1 <? i)%nat then xor_rows X (V !!! wrap (integerify_ref X) i) else X in
  let '(X', sb) := blockmix_ref v sb Xin in
  mkFill (V ++ [X]) X' sb.

(** The first row: all of [B] in version 0.5; in version 1.0 two blocks of [B],
    expanded to [r] pairs by mixing. *)
Fixpoint expand (k : nat) (v : pass) (last_pair X : row) (sb : option sboxes) : row * option sboxes :=
  match k with
  | O => (X, sb)
  | S k => let '(p, sb) := blockmix_ref v sb last_pair in expand k v p (X ++ p) sb
  end.

Definition first_row (v : pass) (r : nat) (B : row) (sb : option sboxes) : row * option sboxes :=
  match v with
  | Pass1 => (shuffle_row B, sb)
  | Pass2 => let p := shuffle_row (take 2 B) in expand (r - 1) v p p sb
  end.

Definition smix1_ref (v : pass) (r N : nat) (B : row) (sb : option sboxes) : row * list row * option sboxes :=
  let '(X, sb) := first_row v r B sb in
  let '(mkFill V X sb) := Nat.iter N (fill_step v) (mkFill [] X sb) in
  (unshuffle_row X, V, sb).

Record walk := mkWalk { w_V : list row; w_X : row; w_sb : sboxes }.

(** [j <- Integerify X mod N; X <- X xor V_j; V_j <- X (if [rw]); X <- BlockMix X]. *)
Definition walk_step (v : pass) (rw : bool) (N : nat) (st : walk) : walk :=
  let '(mkWalk V X sb) := st in
  let j := Z.to_nat (integerify_ref X `mod` Z.of_nat N) in
  let Xin := xor_rows X (V !!! j) in
  let '(X', sb) := blockmix_pwx_ref v sb Xin in
  mkWalk (if rw then <[j := Xin]> V else V) X' sb.

Definition smix2_ref (v : pass) (rw : bool) (N Nloop : nat) (B : row) (V : list row) (sb : sboxes)
    : row * list row * sboxes :=
  let '(mkWalk V X sb) := Nat.iter Nloop (walk_step v rw N) (mkWalk V (shuffle_row B) sb) in
  (unshuffle_row X, V, sb).

(** The S-boxes from the rows of their initialisation. *)
Definition S_count (v : pass) : nat := match v with Pass1 => 2 | Pass2 => 3 end.
Definition S_rows (v : pass) : nat := S_count v * sbox_len v / 8.
Definition boxes_of (v : pass) (rows : list row) : sboxes :=
  let l := mjoin rows ≫= blk_q in
  let L := sbox_len v in
  mkSboxes (take L l) (take L (drop L l)) (take L (drop (2 * L) l)) 0.

(** A third of [N], rounded up, then to an even number. *)
Definition third (N : nat) : nat := (N + 2) / 3.
Definition walk_rw (v : pass) (N : nat) : nat :=
  2 * match v with Pass1 => third N / 2 | Pass2 => (third N + 1) / 2 end.
Definition walk_all (N : nat) : nat := 2 * ((third N + 1) / 2).

Definition smix_ref (v : pass) (r N : nat) (B : row) : row :=
  let '(B2, SV, _) := smix1_ref v 1 (S_rows v) (take 2 B) None in
  let B := B2 ++ drop 2 B in
  let '(B, V, sb) := smix1_ref v r N B (Some (boxes_of v SV)) in
  match sb with
  | None => B
  | Some sb =>
      let '(B, V, sb) := smix2_ref v true N (walk_rw v N) B V sb in
      match v with
      | Pass1 => if (walk_rw v N <? walk_all N)%nat then (smix2_ref v false N 2 B V sb).1.1 else B
      | Pass2 => B
      end
  end.
