(* ===== verification/SmixCorrect.v ===== *)
(** * SMix: the code on memory implements the reference SMix *)
From S2P Require Import Prelude Sysendian Simd Salsa20 Mem Pwxform PwxformCorrect Blockmix BlockmixCorrect Smix.

(** ** Loading and storing rows *)
Lemma dec_host_bytes w : is_u32 w → le32dec (host_bytes w) = w.
Proof.
  intros Hw. unfold host_bytes.
  rewrite le32dec_le_val, le_val_le_bytes by (rewrite ?length_le_bytes; auto using le_bytes_bytes).
  by apply Z.mod_small.
Qed.
Lemma host_word_enc w : is_u32 w → host_word (le32enc w) = w.
Proof.
  intros Hw. unfold host_word. rewrite le32enc_le_bytes, le_val_le_bytes. by apply Z.mod_small.
Qed.

Lemma fmap_words_id f ws : words ws → (∀ w, is_u32 w → f w = w) → f <$> ws = ws.
Proof. intros Hw Hf. induction Hw as [|w ws H _ IH]; [done|]. cbn. by rewrite IH, Hf. Qed.

(** A block goes through the temporary block [tmp]. *)
Lemma convert_spec m src tmp dst b (f g : salsa20_blk_t → salsa20_blk_t) :
  blk_at m src b → allocated m tmp 64 → allocated m dst 64 → wf_blk (f b) → wf_blk (g (f b)) →
  ∃ m', (b ← READ_X src; WRITE_X tmp (f b);; t ← READ_X tmp; WRITE_X dst (g t)) m = Some (tt, m') ∧
    blk_at m' dst (g (f b)) ∧ modifies (λ x, in_range tmp 64 x ∨ in_range dst 64 x) m m'.
Proof.
  intros Hb Ht Hd Wf Wg. step (READ_X_spec _ _ _ Hb).
  destruct (WRITE_X_spec m tmp (f b) Ht Wf) as (m1 & E1 & H1 & M1). step E1. step (READ_X_spec _ _ _ H1).
  destruct (WRITE_X_spec m1 dst (g (f b))) as (m2 & -> & H2 & M2); [by eapply modifies_allocated|done|].
  exists m2. split_and!; [done|done|].
  eapply modifies_trans; (eapply modifies_weaken; [done|range]).
Qed.

Lemma wf_shuffle b : wf_blk b → wf_blk (salsa20_simd_shuffle b).
Proof. intros Hb. rewrite shuffle_diag by done. apply wf_diag; [done|by apply words_blk_w]. Qed.
Lemma wf_unshuffle b : wf_blk b → wf_blk (salsa20_simd_unshuffle b).
Proof.
  intros (x & Hl & Hw & ->)%diag_surj. rewrite unshuffle_diag by done. by apply wf_of_w.
Qed.

Lemma load_blk_spec m src tmp dst b :
  wf_blk b → blk_at m src b → allocated m tmp 64 → allocated m dst 64 →
  ∃ m', load_blk src tmp dst m = Some (tt, m') ∧ blk_at m' dst (salsa20_simd_shuffle b) ∧
    modifies (λ x, in_range tmp 64 x ∨ in_range dst 64 x) m m'.
Proof.
  intros Hw Hb Ht Hd.
  destruct (convert_spec m src tmp dst b (λ b, of_w ((λ w, le32dec (host_bytes w)) <$> blk_w b))
    salsa20_simd_shuffle Hb Ht Hd) as (m' & E & H & HM);
    rewrite ?fmap_words_id, ?of_w_blk_w by auto using words_blk_w, dec_host_bytes;
    [done|by apply wf_shuffle|].
  rewrite fmap_words_id, of_w_blk_w in H by auto using words_blk_w, dec_host_bytes. by exists m'.
Qed.
Lemma store_blk_spec m src tmp dst b :
  wf_blk b → blk_at m src b → allocated m tmp 64 → allocated m dst 64 →
  ∃ m', store_blk src tmp dst m = Some (tt, m') ∧ blk_at m' dst (salsa20_simd_unshuffle b) ∧
    modifies (λ x, in_range tmp 64 x ∨ in_range dst 64 x) m m'.
Proof.
  intros Hw Hb Ht Hd.
  destruct (convert_spec m src tmp dst b (λ b, of_w ((λ w, host_word (le32enc w)) <$> blk_w b))
    salsa20_simd_unshuffle Hb Ht Hd) as (m' & E & H & HM);
    rewrite ?fmap_words_id, ?of_w_blk_w by auto using words_blk_w, host_word_enc;
    [done|by apply wf_unshuffle|].
  rewrite fmap_words_id, of_w_blk_w in H by auto using words_blk_w, host_word_enc. by exists m'.
Qed.

(** The loop over the blocks of a row, for either direction. *)
Lemma convert_row_spec (body : Z → M unit) (g : salsa20_blk_t → salsa20_blk_t) src tmp dst :
  (∀ m i b, wf_blk b → blk_at m (blk src i) b → allocated m tmp 64 → allocated m (blk dst i) 64 →
    ∃ m', body i m = Some (tt, m') ∧ blk_at m' (blk dst i) (g b) ∧
      modifies (λ x, in_range tmp 64 x ∨ in_range (blk dst i) 64 x) m m') →
  ∀ bs i m, Forall wf_blk bs → blks_at m (blk src i) bs → allocated m tmp 64 →
  let n := (64 * Z.of_nat (length bs))%Z in
  allocated m (blk dst i) n → disj (blk src i) n tmp 64 → disj (blk src i) n (blk dst i) n →
  disj (blk dst i) n tmp 64 →
  ∃ m', for_loop (length bs) i body m = Some (tt, m') ∧ blks_at m' (blk dst i) (g <$> bs) ∧
    modifies (λ x, in_range tmp 64 x ∨ in_range (blk dst i) n x) m m'.
Proof.
  intros Hbody bs. induction bs as [|b bs IH]; intros i m Hw HB Ht n Hd D1 D2 D3.
  { exists m. split_and!; [done|apply blks_at_nil|done]. }
  apply Forall_cons in Hw as [Wb Hw]. apply blks_at_cons in HB as [Hb HB].
  cbn [length for_loop] in *.
  destruct (Hbody m i b) as (m1 & E1 & P1 & M1); [done..| |].
  { eapply allocated_sub; [done|exists 0%Z; range|range|range]. }
  step E1. destruct (IH (i + 1)%Z m1) as (m2 & -> & P2 & M2); rewrite ?blk_next; try done.
  - eapply modifies_blks; [done|done|range].
  - by eapply modifies_allocated.
  - eapply modifies_allocated; [done|]. eapply allocated_sub; [done|exists 4%Z; range|range|range].
  - range.
  - range.
  - range.
  - rewrite blk_next in P2, M2. exists m2. split_and!; [done| |].
    + apply blks_at_cons. split; [|done]. eapply modifies_blk; [done|done|range].
    + eapply modifies_trans; (eapply modifies_weaken; [done|range]).
Qed.

Lemma blk_0 p : blk p 0 = p.
Proof. range. Qed.

Lemma load_blks_spec m src tmp dst bs :
  let n := (64 * Z.of_nat (length bs))%Z in
  Forall wf_blk bs → blks_at m src bs → allocated m tmp 64 → allocated m dst n →
  disj src n tmp 64 → disj src n dst n → disj dst n tmp 64 →
  ∃ m', load_blks (length bs) src tmp dst m = Some (tt, m') ∧ blks_at m' dst (shuffle_row bs) ∧
    modifies (λ x, in_range tmp 64 x ∨ in_range dst n x) m m'.
Proof.
  intros n Hw HB Ht Hd D1 D2 D3.
  destruct (convert_row_spec (λ i, load_blk (blk src i) tmp (blk dst i)) salsa20_simd_shuffle src tmp dst)
    with (bs := bs) (i := 0%Z) (m := m) as (m' & E & P & HM); rewrite ?blk_0 in *; try done.
  { intros. by apply load_blk_spec. }
  by exists m'.
Qed.
Lemma store_blks_spec m src tmp dst bs :
  let n := (64 * Z.of_nat (length bs))%Z in
  Forall wf_blk bs → blks_at m src bs → allocated m tmp 64 → allocated m dst n →
  disj src n tmp 64 → disj src n dst n → disj dst n tmp 64 →
  ∃ m', store_blks (length bs) src tmp dst m = Some (tt, m') ∧ blks_at m' dst (unshuffle_row bs) ∧
    modifies (λ x, in_range tmp 64 x ∨ in_range dst n x) m m'.
Proof.
  intros n Hw HB Ht Hd D1 D2 D3.
  destruct (convert_row_spec (λ i, store_blk (blk src i) tmp (blk dst i)) salsa20_simd_unshuffle src tmp dst)
    with (bs := bs) (i := 0%Z) (m := m) as (m' & E & P & HM); rewrite ?blk_0 in *; try done.
  { intros. by apply store_blk_spec. }
  by exists m'.
Qed.

Lemma wf_shuffle_row r B : wf_row r B → wf_row r (shuffle_row B).
Proof.
  intros [HL HW]. unfold shuffle_row. split; [by rewrite length_fmap|].
  apply Forall_fmap. eapply Forall_impl; [done|]. intros b. apply wf_shuffle.
Qed.
Lemma wf_unshuffle_row r B : wf_row r B → wf_row r (unshuffle_row B).
Proof.
  intros [HL HW]. unfold unshuffle_row. split; [by rewrite length_fmap|].
  apply Forall_fmap. eapply Forall_impl; [done|]. intros b. apply wf_unshuffle.
Qed.

(** ** Wrap *)
Lemma wrap_spec x (i : nat) n p : n = (2 ^ p)%Z → (0 <= p)%Z → (n <= Z.of_nat i < 2 * n)%Z →
  Z.of_nat (wrap x i) = (Z.land x (n - 1) + (Z.of_nat i - n))%Z.
Proof.
  intros -> Hp Hi. unfold wrap.
  assert (Z.log2 (Z.of_nat i) = p) as ->.
  { apply Z.log2_unique; [lia|]. rewrite Z.pow_succ_r by lia. lia. }
  replace (2 ^ p - 1)%Z with (Z.ones p) by (rewrite Z.ones_equiv; lia).
  rewrite Z.land_ones by done. rewrite Z2Nat.id; [done|].
  pose proof (Z.mod_pos_bound x (2 ^ p) ltac:(lia)). lia.
Qed.
Lemma wrap_lt x i : 0 < i → wrap x i < i.
Proof.
  intros Hi. pose proof (Z.log2_spec (Z.of_nat i) ltac:(lia)) as Hl.
  rewrite Z.pow_succ_r in Hl by apply Z.log2_nonneg.
  pose proof (wrap_spec x i _ (Z.log2 (Z.of_nat i)) eq_refl (Z.log2_nonneg _) ltac:(lia)) as E.
  set (n := (2 ^ Z.log2 (Z.of_nat i))%Z) in *.
  assert (Z.land x (n - 1) < n)%Z; [|lia].
  replace (n - 1)%Z with (Z.ones (Z.log2 (Z.of_nat i))) by (rewrite Z.ones_equiv; unfold n; lia).
  rewrite Z.land_ones by apply Z.log2_nonneg.
  apply Z.mod_pos_bound. lia.
Qed.

(** ** Filling [V]

    [V] holds [N] rows of [rs] bytes. *)
Section Fill.
Context (v : pass) (base V XY : Z) (r N : nat) (bb : Z).

Definition rs : Z := (128 * Z.of_nat r)%Z.
Definition rowp (k : nat) : Z := (V + rs * Z.of_nat k)%Z.
Definition V_size : Z := (rs * Z.of_nat N)%Z.

Definition rows_at (m : mem) (rows : list row) : Prop :=
  ∀ k R, rows !! k = Some R → blks_at m (rowp k) R.

Hypothesis Hr : 0 < r.
Hypothesis HS : clear bb base V V_size.
Hypothesis HSXY : clear bb base XY (rs + 64).
Hypothesis HVXY : disj V V_size XY (rs + 64).

Lemma rs_pos : (0 < rs)%Z.
Proof using All. unfold rs. lia. Qed.
Lemma rowp_bounds k : k < N → (V <= rowp k ∧ rowp k + rs <= V + V_size)%Z.
Proof using All. unfold rowp, V_size. pose proof rs_pos. nia. Qed.
Lemma rowp_lt j k : j < k → (rowp j + rs <= rowp k)%Z.
Proof using All. unfold rowp. pose proof rs_pos. nia. Qed.
Lemma rowp_disj j k : j ≠ k → disj (rowp j) rs (rowp k) rs.
Proof using All.
  intros Hne. destruct (decide (j < k)) as [Hl|Hl].
  - pose proof (rowp_lt j k Hl). range.
  - pose proof (rowp_lt k j ltac:(lia)). range.
Qed.
Lemma rowp_clear k : k < N → clear bb base (rowp k) rs.
Proof using All. intros Hk. pose proof (rowp_bounds k Hk). pose proof rs_pos. range. Qed.
Lemma rowp_XY k : k < N → disj (rowp k) rs XY rs.
Proof using All. intros Hk. pose proof (rowp_bounds k Hk). pose proof rs_pos. range. Qed.
Lemma allocated_rowp m k : allocated m V V_size → k < N → allocated m (rowp k) rs.
Proof using All.
  intros HA Hk. pose proof (rowp_bounds k Hk). pose proof rs_pos.
  eapply allocated_sub; [exact HA|exists (8 * Z.of_nat r * Z.of_nat k)%Z; unfold rowp, rs; lia|range|range].
Qed.
Lemma rowp_code j : blk V (Z.of_nat j * (2 * Z.of_nat r)) = rowp j.
Proof using All. unfold blk, rowp, rs. lia. Qed.
Lemma rowp_next k : blk (rowp k) (2 * Z.of_nat r) = rowp (S k).
Proof using All. unfold blk, rowp, rs. lia. Qed.

(** The rows other than the ones written stay. *)
Lemma rows_frame P m m' rows :
  rows_at m rows → modifies P m m' → Forall (wf_row r) rows →
  (∀ k x, k < length rows → in_range (rowp k) rs x → ¬ P x) → rows_at m' rows.
Proof using All.
  intros HR HM HW Hd k R Hk. eapply modifies_blks; [done|by apply HR|].
  intros x Hx. apply lookup_lt_Some in Hk as Hlt. apply (Hd k); [done|].
  eapply Forall_lookup_1 in HW as [HL _]; [|done]. rewrite HL in Hx. unfold rs. range.
Qed.

Lemma rows_at_nil m : rows_at m [].
Proof using All. intros k R Hk. by rewrite lookup_nil in Hk. Qed.
Lemma rows_at_snoc m rows R :
  rows_at m rows → blks_at m (rowp (length rows)) R → rows_at m (rows ++ [R]).
Proof using All.
  intros HR HB k R' [Hk|[Hge Hk]]%lookup_app_Some; [by apply HR|].
  destruct (k - length rows) as [|n] eqn:E; [|by destruct n]. injection Hk as <-.
  by replace k with (length rows) by lia.
Qed.

(** The state after [k] steps: the rows so far and the current row, which
    lives in row [k] of [V]. *)
Record filled (m : mem) (ctx : option pwxform_ctx_t) (k : nat) (st : fill) : Prop := {
  fl_len : length (f_V st) = k;
  fl_rows : rows_at m (f_V st);
  fl_wf : Forall (wf_row r) (f_V st);
  fl_wfX : wf_row r (f_X st);
  fl_ctx : octx_at v base m ctx (f_sb st);
  fl_ok : row_ok r (f_sb st);
  fl_bb : box_bytes v (f_sb st) = bb;
  fl_V : allocated m V V_size;
  fl_XY : allocated m XY (rs + 64)
}.

Definition cur_at (m : mem) (p : Z) (st : fill) : Prop := blks_at m p (f_X st).

Lemma wf_blockmix_ref_ok B sb : row_ok r sb → box_bytes v sb = bb →
  row_ok r (blockmix_ref v sb B).2 ∧ box_bytes v (blockmix_ref v sb B).2 = bb.
Proof using All. intros Ho <-. split; [by apply row_ok_ref|apply box_bytes_ref]. Qed.

(** What a step leaves behind, whichever mixing function made it. *)
Lemma filled_step m m' ctx ctx' k st Yp R :
  filled m ctx k st → cur_at m (rowp k) st → k < N →
  (Yp = rowp (S k) ∧ S k < N ∨ Yp = XY) →
  fill_step v st = mkFill (f_V st ++ [f_X st]) (blockmix_ref v (f_sb st) R).1 (blockmix_ref v (f_sb st) R).2 →
  octx_at v base m' ctx' (blockmix_ref v (f_sb st) R).2 →
  blks_at m' Yp (blockmix_ref v (f_sb st) R).1 → wf_row r (blockmix_ref v (f_sb st) R).1 →
  modifies (writes bb base Yp rs) m m' →
  filled m' ctx' (S k) (fill_step v st) ∧ cur_at m' Yp (fill_step v st).
Proof using All.
  intros [HL HR HW HX Hc Ho Hb HV HXY] Hcur Hk HY E Hc' HB HWB HM. rewrite E.
  destruct (wf_blockmix_ref_ok R (f_sb st) Ho Hb) as [Ho' Hb']. pose proof rs_pos.
  split; [|done]. split; cbn [f_V f_X f_sb]; try done.
  - rewrite length_app, HL. cbn. lia.
  - eapply rows_frame; [|exact HM|apply Forall_app; split; [done|by constructor]|].
    + apply rows_at_snoc; [done|by rewrite HL].
    + intros j x Hj Hx. rewrite length_app, HL in Hj. cbn in Hj.
      pose proof (rowp_clear j ltac:(lia)) as C. pose proof (rowp_XY j ltac:(lia)) as D.
      destruct HY as [[-> HSk]| ->]; [pose proof (rowp_lt j (S k) ltac:(lia))|]; range.
  - apply Forall_app. split; [done|by constructor].
  - by eapply modifies_allocated.
  - by eapply modifies_allocated.
Qed.

(** Steps [i > 1] with [blockmix_xor]. *)
Lemma xor_fill_step m ctx k st Yp :
  filled m ctx k st → cur_at m (rowp k) st → 2 ≤ k → k < N →
  (Yp = rowp (S k) ∧ S k < N ∨ Yp = XY) →
  let j := wrap (integerify_ref (f_X st)) k in
  ∃ m' ctx', blockmix_xor v (rowp k) (rowp j) Yp (Z.of_nat r) ctx m
      = Some (integerify_ref (f_X (fill_step v st)), ctx', m') ∧
    filled m' ctx' (S k) (fill_step v st) ∧ cur_at m' Yp (fill_step v st) ∧
    modifies (writes bb base Yp rs) m m'.
Proof using All.
  intros HF Hcur Hk2 HkN HY j. pose proof HF as [HL HR HW HX Hc Ho Hb HV HXY].
  pose proof (wrap_lt (integerify_ref (f_X st)) k ltac:(lia)) as Hj. fold j in Hj.
  destruct (lookup_lt_is_Some_2 (f_V st) j) as [Rj HRj]; [lia|].
  assert (fill_step v st = mkFill (f_V st ++ [f_X st])
    (blockmix_ref v (f_sb st) (xor_rows (f_X st) Rj)).1 (blockmix_ref v (f_sb st) (xor_rows (f_X st) Rj)).2) as E.
  { destruct st as [fV fX fsb]. cbn [f_V f_X f_sb] in *. unfold fill_step. rewrite HL.
    rewrite (proj2 (Nat.ltb_lt 1 k)) by lia. rewrite (list_lookup_total_correct _ _ _ HRj).
    by destruct (blockmix_ref v fsb (xor_rows fX Rj)). }
  pose proof rs_pos. pose proof (rowp_clear k HkN) as Ck. pose proof (rowp_clear j ltac:(lia)) as Cj.
  destruct (blockmix_xor_spec v base m (rowp k) (rowp j) Yp r ctx (f_sb st) (f_X st) Rj)
    as (m' & c' & EX & Hc' & HB & HWB & HM); fold rs; rewrite ?Hb; try done.
  - by eapply Forall_lookup_1.
  - by apply HR.
  - destruct HY as [[-> HSk]| ->]; [by apply allocated_rowp|].
    eapply allocated_sub; [exact HXY|by exists 0%Z; lia|lia|lia].
  - destruct HY as [[-> HSk]| ->]; [apply rowp_disj; lia|by apply rowp_XY].
  - destruct HY as [[-> HSk]| ->]; [apply rowp_disj; lia|apply rowp_XY; lia].
  - destruct HY as [[-> HSk]| ->]; [by apply rowp_clear|range].
  - fold rs in HM. rewrite Hb in HM. exists m', c'. rewrite EX.
    destruct (filled_step m m' ctx c' k st Yp (xor_rows (f_X st) Rj)) as [HF' Hcur']; try done.
    split_and!; [by rewrite E|done|done|done].
Qed.

(** Steps 0 and 1 with [blockmix]. *)
Lemma plain_fill_step m ctx k st :
  filled m ctx k st → cur_at m (rowp k) st → k < 2 → S k < N →
  ∃ m' ctx', blockmix v (rowp k) (rowp (S k)) (Z.of_nat r) ctx m = Some (ctx', m') ∧
    filled m' ctx' (S k) (fill_step v st) ∧ cur_at m' (rowp (S k)) (fill_step v st) ∧
    modifies (writes bb base (rowp (S k)) rs) m m'.
Proof using All.
  intros HF Hcur Hk2 HkN. pose proof HF as [HL HR HW HX Hc Ho Hb HV HXY].
  assert (fill_step v st = mkFill (f_V st ++ [f_X st])
    (blockmix_ref v (f_sb st) (f_X st)).1 (blockmix_ref v (f_sb st) (f_X st)).2) as E.
  { destruct st as [fV fX fsb]. cbn [f_V f_X f_sb] in *. unfold fill_step. rewrite HL.
    rewrite (proj2 (Nat.ltb_ge 1 k)) by lia. by destruct (blockmix_ref v fsb fX). }
  destruct (blockmix_spec v base m (rowp k) (rowp (S k)) r ctx (f_sb st) (f_X st))
    as (m' & c' & EX & Hc' & HB & HWB & HM); fold rs; rewrite ?Hb; try done.
  - by apply allocated_rowp.
  - apply rowp_disj. lia.
  - apply rowp_clear. lia.
  - by apply rowp_clear.
  - fold rs in HM. rewrite Hb in HM. exists m', c'. rewrite EX.
    destruct (filled_step m m' ctx c' k st (rowp (S k)) (f_X st)) as [HF' Hcur']; try done; [lia|by left].
Qed.

(** The inner loop runs [2 t] steps; all its rows have an index between [n]
    and [2 n], where wrapping is masking with [n - 1]. *)
Lemma masked_row x n p k i : n = (2 ^ p)%Z → (0 <= p)%Z → (n <= Z.of_nat k < 2 * n)%Z →
  (2 * n <= 2 ^ 32)%Z → i = (Z.of_nat k - n)%Z →
  blk V (u32 (Z.land x (n - 1) + i) * (2 * Z.of_nat r)) = rowp (wrap x k).
Proof using All.
  intros Hn Hp Hk Hmax ->. pose proof (wrap_spec x k n p Hn Hp Hk) as E.
  pose proof (wrap_lt x k ltac:(lia)). rewrite <-E, u32_id by (unfold in_width; lia). apply rowp_code.
Qed.

Definition fill_frame : mem → mem → Prop := modifies (writes bb base V V_size).
Lemma fill_frame_row k m m' : k < N → modifies (writes bb base (rowp k) rs) m m' → fill_frame m m'.
Proof using All.
  intros Hk HM. eapply modifies_weaken; [exact HM|]. pose proof (rowp_bounds k Hk). range.
Qed.

Lemma inner_spec n p mm t : n = (2 ^ p)%Z → (0 <= p)%Z → (2 * n <= 2 ^ 32)%Z →
  ∀ fuel i k m ctx st, t < fuel → (1 <= i)%Z → Z.of_nat k = (n + i - 1)%Z →
  (i + 2 * Z.of_nat t - 2 < mm <= i + 2 * Z.of_nat t)%Z → 2 ≤ k →
  (Z.of_nat k + 2 * Z.of_nat t <= 2 * n)%Z → k + 2 * t + 2 ≤ N →
  filled m ctx k st → cur_at m (rowp k) st →
  let st' := Nat.iter (2 * t) (fill_step v) st in
  ∃ m' ctx', smix1_inner fuel v V (2 * Z.of_nat r) (Z.of_nat r) n mm i (rowp k)
      (integerify_ref (f_X st)) ctx m
      = Some ((rowp (k + 2 * t), integerify_ref (f_X st'), ctx'), m') ∧
    filled m' ctx' (k + 2 * t) st' ∧ cur_at m' (rowp (k + 2 * t)) st' ∧ fill_frame m m'.
Proof using All.
  intros Hn Hp Hmax. induction t as [|t IH]; intros fuel i k m ctx st Hf Hi Hk Hmm Hk2 Hlim HN HF Hc.
  { destruct fuel as [|fuel]; [lia|]. cbn [smix1_inner]. rewrite (proj2 (Z.ltb_ge _ _)) by lia.
    exists m, ctx. rewrite Nat.mul_0_r, Nat.add_0_r. split_and!; [done..|apply modifies_refl]. }
  destruct fuel as [|fuel]; [lia|]. cbn [smix1_inner]. rewrite (proj2 (Z.ltb_lt _ _)) by lia.
  rewrite (masked_row _ n p k) by (done || lia). rewrite rowp_next.
  destruct (xor_fill_step m ctx k st (rowp (S k))) as (m1 & c1 & E1 & HF1 & Hc1 & M1);
    [done|done|lia|lia|left; split; [done|lia]|]. step E1.
  rewrite (masked_row _ n p (S k)) by (done || lia). rewrite rowp_next.
  destruct (xor_fill_step m1 c1 (S k) (fill_step v st) (rowp (S (S k)))) as (m2 & c2 & E2 & HF2 & Hc2 & M2);
    [done|done|lia|lia|left; split; [done|lia]|]. step E2.
  destruct (IH fuel (i + 2)%Z (S (S k)) m2 c2 (fill_step v (fill_step v st)))
    as (m' & c' & E & HF' & Hc' & M'); [lia..|done|done|].
  exists m', c'. replace (k + 2 * S t) with (S (S k) + 2 * t) by lia.
  replace (2 * S t) with (S (S (2 * t))) by lia. rewrite !Nat.iter_succ_r.
  split_and!; [done|done|done|].
  eapply modifies_trans; [eapply (fill_frame_row (S k)); [lia|done]|].
  eapply modifies_trans; [eapply (fill_frame_row (S (S k))); [lia|done]|done].
Qed.

(** The nested loops take the state from row [n] to row [N - 2]. *)
Lemma outer_spec h : N = 2 * h → (Z.of_nat N <= 2 ^ 31)%Z →
  ∀ fuel q m ctx st, let n := (2 ^ Z.of_nat q)%Z in
  1 ≤ q → (n < Z.of_nat N)%Z → (Z.of_nat N <= 2 ^ (Z.of_nat q + Z.of_nat fuel - 1))%Z →
  filled m ctx (Z.to_nat n) st → cur_at m (rowp (Z.to_nat n)) st →
  let st' := Nat.iter (N - 2 - Z.to_nat n) (fill_step v) st in
  ∃ m' ctx' q', smix1_outer fuel v V (2 * Z.of_nat r) (Z.of_nat r) (Z.of_nat N) n (rowp (Z.to_nat n))
      (integerify_ref (f_X st)) ctx m
      = Some ((2 * 2 ^ Z.of_nat q', rowp (N - 2), integerify_ref (f_X st'), ctx')%Z, m') ∧
    1 ≤ q' ∧ (2 ^ Z.of_nat q' < Z.of_nat N <= 2 * 2 ^ Z.of_nat q')%Z ∧
    filled m' ctx' (N - 2) st' ∧ cur_at m' (rowp (N - 2)) st' ∧ fill_frame m m'.
Proof using All.
  intros Hh Hmax. induction fuel as [|fuel IH]; intros q m ctx st n Hq HnN Hfuel HF Hc st'; subst st'.
  { exfalso. assert (2 ^ (Z.of_nat q + Z.of_nat 0 - 1) <= n)%Z; [|lia].
    apply Z.pow_le_mono_r; lia. }
  assert (∃ n', n = (2 * Z.of_nat n')%Z ∧ 1 ≤ n') as (n' & Hn' & Hn1).
  { exists (Z.to_nat (2 ^ (Z.of_nat q - 1))). unfold n.
    replace (Z.of_nat q) with (Z.succ (Z.of_nat q - 1)) at 1 by lia. rewrite Z.pow_succ_r by lia.
    assert (0 < 2 ^ (Z.of_nat q - 1))%Z by (apply Z.pow_pos_nonneg; lia). lia. }
  assert (2 ^ Z.of_nat (S q) = 2 * n)%Z as E2n by (unfold n; rewrite <-Z.pow_succ_r by lia; f_equal; lia).
  assert (fuel ≠ 0) as Hfuel'.
  { intros ->. replace (Z.of_nat q + Z.of_nat 1 - 1)%Z with (Z.of_nat q) in Hfuel by lia. unfold n in *. lia. }
  cbn [smix1_outer]. rewrite (proj2 (Z.ltb_lt _ _)) by lia.
  assert (u32 (n ≪ 1) = 2 * n)%Z as Eshl.
  { rewrite Z.shiftl_mul_pow2 by lia. change (2 ^ 1)%Z with 2%Z. rewrite u32_id; [lia|].
    unfold in_width. lia. }
  rewrite Eshl. assert (Z.of_nat N `div` 2 = Z.of_nat h)%Z as Ehalf.
  { rewrite Hh, Nat2Z.inj_mul, Z.mul_comm. apply Z.div_mul. lia. }
  rewrite Ehalf. destruct (Z.ltb_spec n (Z.of_nat h)) as [Hlt|Hge].
  - destruct (inner_spec n (Z.of_nat q) n n' eq_refl ltac:(lia) ltac:(lia)
      (S (Z.to_nat n)) 1 (Z.to_nat n) m ctx st) as (m1 & c1 & E1 & HF1 & Hc1 & M1); [lia..|done|done|].
    step E1. replace (Z.to_nat n + 2 * n') with (Z.to_nat (2 * n)) in * by lia.
    destruct (IH (S q) m1 c1 (Nat.iter (2 * n') (fill_step v) st)) as (m2 & c2 & q' & E2 & R1 & R2 & R3 & R4 & R5);
      rewrite ?E2n; [lia|lia| |done|done|].
    { replace (Z.of_nat (S q) + Z.of_nat fuel - 1)%Z with (Z.of_nat q + Z.of_nat (S fuel) - 1)%Z by lia. done. }
    rewrite E2n in *. rewrite <-Nat.iter_add in *.
    replace (N - 2 - Z.to_nat (2 * n) + 2 * n') with (N - 2 - Z.to_nat n) in * by lia.
    exists m2, c2, q'. split_and!; try done; try apply R2. by eapply modifies_trans.
  - destruct (inner_spec n (Z.of_nat q) (Z.of_nat N - 1 - n) (h - n' - 1) eq_refl ltac:(lia) ltac:(lia)
      (S (Z.to_nat (Z.of_nat N - 1 - n))) 1 (Z.to_nat n) m ctx st) as (m1 & c1 & E1 & HF1 & Hc1 & M1);
      [lia..|done|done|].
    step E1. replace (Z.to_nat n + 2 * (h - n' - 1)) with (N - 2) in * by lia.
    replace (2 * (h - n' - 1)) with (N - 2 - Z.to_nat n) in * by lia.
    destruct fuel as [|fuel]; [done|]. cbn [smix1_outer]. rewrite (proj2 (Z.ltb_ge _ _)) by lia.
    exists m1, c1, q. fold n. split_and!; try done; lia.
Qed.

(** Expanding the first pair of blocks to a row. *)
Lemma expand_spec k : ∀ i m ctx sb p X0,
  1 ≤ i → i + k ≤ r → length X0 = 2 * i → Forall wf_blk X0 → wf_row 1 p →
  blks_at m V X0 → blks_at m (blk V ((Z.of_nat i - 1) * 2)) p → allocated m V rs → 1 ≤ N →
  octx_at v base m ctx sb → row_ok r sb → box_bytes v sb = bb →
  let out := expand k v p X0 sb in
  ∃ m' ctx', smix1_expand k v V (Z.of_nat i) ctx m = Some (ctx', m') ∧
    blks_at m' V out.1 ∧ length out.1 = 2 * (i + k) ∧ Forall wf_blk out.1 ∧
    octx_at v base m' ctx' out.2 ∧ row_ok r out.2 ∧ box_bytes v out.2 = bb ∧
    modifies (writes bb base V rs) m m'.
Proof using All.
  induction k as [|k IH]; intros i m ctx sb p X0 Hi Hik HL HW Hp HX Hpair HA HN1 Hc Ho Hb.
  { exists m, ctx. cbn [expand fst snd]. rewrite Nat.add_0_r. split_and!; try done. }
  cbn [smix1_expand expand].
  assert (rowp 0 = V) as E0 by (unfold rowp; lia).
  pose proof (rowp_clear 0 ltac:(lia)) as C0. rewrite E0 in C0. unfold rs in C0, HA.
  destruct (blockmix_spec v base m (blk V ((Z.of_nat i - 1) * 2)) (blk V (Z.of_nat i * 2)) 1 ctx sb p)
    as (m1 & c1 & E1 & Hc1 & HB1 & HW1 & M1); rewrite ?Hb; try done.
  - destruct Ho. split; [lia|done].
  - eapply allocated_sub; [exact HA|exists (8 * Z.of_nat i)%Z; range|range|range].
  - range.
  - range.
  - range.
  - rewrite Hb in M1. change (Z.of_nat 1) with 1%Z in E1. step E1.
    pose proof (row_ok_ref v r sb p Ho) as Ho'. pose proof (box_bytes_ref v sb p) as Hb'. rewrite Hb in Hb'.
    destruct (blockmix_ref v sb p) as [p' sb'] eqn:Ep. cbn [fst snd] in *. destruct HW1 as [HL1 HW1].
    destruct (IH (S i) m1 c1 sb' p' (X0 ++ p')) as (m2 & c2 & E2 & R1 & R2 & R3 & R4 & R5 & R6 & M2);
      try done; try lia.
    + rewrite length_app, HL, HL1. lia.
    + by apply Forall_app.
    + apply blks_at_app. split.
      * eapply modifies_blks; [exact M1|done|]. rewrite HL. range.
      * replace (V + 64 * Z.of_nat (length X0))%Z with (blk V (Z.of_nat i * 2)) by (rewrite HL; range). done.
    + by replace ((Z.of_nat (S i) - 1) * 2)%Z with (Z.of_nat i * 2)%Z by lia.
    + eapply modifies_allocated; [exact M1|done].
    + replace (Z.of_nat i + 1)%Z with (Z.of_nat (S i)) by lia. exists m2, c2.
      split_and!; try done; [by rewrite R2; lia|].
      eapply modifies_trans; [|exact M2]. eapply modifies_weaken; [exact M1|]. unfold rs. range.
Qed.

Context (B : Z).
Hypothesis HBV : disj B rs V V_size.
Hypothesis HBXY : disj B rs XY (rs + 64).
Hypothesis HBS : clear bb base B rs.

Definition smix_writes (x : Z) : Prop :=
  in_range B rs x ∨ in_range V V_size x ∨ in_range XY (rs + 64) x ∨ in_range base bb x.

Lemma first_row_spec m ctx sb Bs :
  2 ≤ N → wf_row r Bs → blks_at m B Bs → allocated m V V_size → allocated m XY (rs + 64) →
  octx_at v base m ctx sb → row_ok r sb → box_bytes v sb = bb →
  let out := first_row v r Bs sb in let st := mkFill [] out.1 out.2 in
  ∃ m' ctx', (load_blks (Z.to_nat (match v with Pass1 => 2 * Z.of_nat r | Pass2 => 2 end)) B (rowp 1) V;;
      match v with
      | Pass1 => mret ctx
      | Pass2 => smix1_expand (Z.to_nat (Z.of_nat r - 1)) v V 1 ctx
      end) m = Some (ctx', m') ∧
    filled m' ctx' 0 st ∧ cur_at m' (rowp 0) st ∧ fill_frame m m'.
Proof using All.
  intros HN2 [HL HW] HB HV HXY Hc Ho Hb. pose proof rs_pos as Hrs.
  pose proof (rowp_bounds 0 ltac:(lia)) as B0. pose proof (rowp_bounds 1 ltac:(lia)) as B1.
  pose proof (rowp_lt 0 1 ltac:(lia)) as L01. assert (rowp 0 = V) as E0 by (unfold rowp; lia).
  rewrite E0 in *. assert (64 <= rs)%Z as Hrs64 by (unfold rs; lia).
  assert (allocated m (rowp 1) 64) as A1.
  { eapply allocated_sub; [exact (allocated_rowp m 1 HV ltac:(lia))|by exists 0%Z; lia|lia|lia]. }
  set (Bl := match v with Pass1 => Bs | Pass2 => take 2 Bs end).
  assert (Z.to_nat (match v with Pass1 => 2 * Z.of_nat r | Pass2 => 2 end) = length Bl) as ->.
  { unfold Bl. destruct v; [lia|]. rewrite length_take, HL. lia. }
  assert (length Bl ≤ 2 * r) as HLB by (unfold Bl; destruct v; [lia|rewrite length_take; lia]).
  destruct (load_blks_spec m B (rowp 1) V Bl) as (m1 & E1 & P1 & M1).
  { unfold Bl. destruct v; [done|by apply Forall_take]. }
  { unfold Bl. destruct v; [done|]. rewrite <-(take_drop 2 Bs) in HB. by apply blks_at_app in HB as [? _]. }
  { done. }
  { eapply allocated_sub; [exact HV|by exists 0%Z; lia|lia|]. unfold rs in *. lia. }
  { unfold rs in *. range. } { unfold rs in *. range. } { unfold rs in *. range. }
  step E1.
  assert (fill_frame m m1) as F1 by (eapply modifies_weaken; [exact M1|]; unfold rs in *; range).
  assert (octx_at v base m1 ctx sb) as Hc1.
  { unfold octx_at in *. destruct ctx, sb; try done. eapply sboxes_frame; [exact Hc|exact M1|].
    cbn [box_bytes] in Hb. rewrite Hb. intros x Hx. unfold rs in *. range. }
  assert (allocated m1 V V_size) as HV1 by (by eapply modifies_allocated).
  assert (allocated m1 XY (rs + 64)) as HXY1 by (by eapply modifies_allocated).
  unfold first_row. destruct v eqn:Ev.
  - exists m1, ctx. split_and!; [done| |done|done]. 
    split; cbn [f_V f_X f_sb fst snd]; try done; try apply rows_at_nil; try by constructor.
    all: rewrite ?Ev; first [done|by apply wf_shuffle_row].
  - destruct (wf_shuffle_row 1 (take 2 Bs)) as [HLs HWs].
    { split; [rewrite length_take; lia|by apply Forall_take]. }
    rewrite <-Ev in *.
    destruct (expand_spec (r - 1) 1 m1 ctx sb (shuffle_row (take 2 Bs)) (shuffle_row (take 2 Bs)))
      as (m2 & c2 & E2 & R1 & R2 & R3 & R4 & R5 & R6 & M2); try done; try lia.
    { change ((Z.of_nat 1 - 1) * 2)%Z with 0%Z. by rewrite blk_0. }
    { eapply allocated_sub; [exact HV1|by exists 0%Z; lia|lia|lia]. }
    replace (Z.to_nat (Z.of_nat r - 1)) with (r - 1) by lia. change 1%Z with (Z.of_nat 1). rewrite E2.
    exists m2, c2. split_and!; [done| |done|].
    + split; cbn [f_V f_X f_sb]; try done; try apply rows_at_nil; try by constructor.
      * split; [rewrite R2; lia|done].
      * by eapply modifies_allocated.
      * by eapply modifies_allocated.
    + eapply modifies_trans; [exact F1|]. eapply modifies_weaken; [exact M2|range].
Qed.

(** The end of the first loop: the steps of rows [N - 2] and [N - 1]. *)
Lemma last_steps q m ctx st : let n := (2 ^ Z.of_nat q)%Z in
  4 ≤ N → (Z.of_nat N <= 2 ^ 31)%Z → 1 ≤ q → (n < Z.of_nat N <= 2 * n)%Z → Nat.Even N →
  filled m ctx (N - 2) st → cur_at m (rowp (N - 2)) st →
  let st1 := fill_step v st in let st2 := fill_step v st1 in
  let row x i := blk V (u32 (Z.land x (n - 1) + i) * (2 * Z.of_nat r)) in
  let Y := blk (rowp (N - 2)) (2 * Z.of_nat r) in
  ∃ m1 ctx1 m' ctx',
    blockmix_xor v (rowp (N - 2)) (row (integerify_ref (f_X st)) (Z.of_nat N - 2 - n)%Z) Y (Z.of_nat r) ctx m
      = Some (integerify_ref (f_X st1), ctx1, m1) ∧
    blockmix_xor v Y (row (integerify_ref (f_X st1)) (Z.of_nat N - 1 - n)%Z) XY (Z.of_nat r) ctx1 m1
      = Some (integerify_ref (f_X st2), ctx', m') ∧
    filled m' ctx' N st2 ∧ cur_at m' XY st2 ∧ modifies smix_writes m m'.
Proof using All.
  intros n HN4 Hmax Hq Hn [h Hh] HF Hc st1 st2 row Y. unfold row, Y.
  assert (∃ n', n = 2 * Z.of_nat n')%Z as [n' Hn'].
  { exists (Z.to_nat (2 ^ (Z.of_nat q - 1))). unfold n.
    replace (Z.of_nat q) with (Z.succ (Z.of_nat q - 1)) at 1 by lia. rewrite Z.pow_succ_r by lia.
    assert (0 < 2 ^ (Z.of_nat q - 1))%Z by (apply Z.pow_pos_nonneg; lia). lia. }
  assert (2 * n <= 2 ^ 32)%Z as H32 by lia.
  rewrite (masked_row _ n (Z.of_nat q) (N - 2)) by (done || lia). rewrite rowp_next.
  replace (S (N - 2)) with (N - 1) by lia.
  destruct (xor_fill_step m ctx (N - 2) st (rowp (N - 1))) as (m1 & c1 & E1 & HF1 & Hc1 & M1);
    [done|done|lia|lia|left; split; [f_equal; lia|lia]|].
  replace (S (N - 2)) with (N - 1) in HF1 by lia.
  rewrite (masked_row _ n (Z.of_nat q) (N - 1)) by (done || lia).
  destruct (xor_fill_step m1 c1 (N - 1) (fill_step v st) XY) as (m2 & c2 & E2 & HF2 & Hc2 & M2);
    [done|done|lia|lia|by right|].
  replace (S (N - 1)) with N in HF2 by lia. exists m1, c1, m2, c2. split_and!; [done..|].
  pose proof (rowp_bounds (N - 1) ltac:(lia)). unfold smix_writes.
  eapply modifies_trans; [eapply modifies_weaken; [exact M1|range]|].
  eapply modifies_weaken; [exact M2|]. range.
Qed.

(** What the first loop leaves: the new [B], the rows of [V], the S-boxes. *)
Record smix1_post (m m' : mem) (ctx' : option pwxform_ctx_t)
    (out : row * list row * option sboxes) : Prop := {
  s1_B : blks_at m' B out.1.1;
  s1_wfB : wf_row r out.1.1;
  s1_V : rows_at m' out.1.2;
  s1_lenV : length out.1.2 = N;
  s1_wfV : Forall (wf_row r) out.1.2;
  s1_ctx : octx_at v base m' ctx' out.2;
  s1_bb : box_bytes v out.2 = bb;
  s1_mod : modifies smix_writes m m'
}.

Lemma octx_frame P m m' ctx sb :
  octx_at v base m ctx sb → box_bytes v sb = bb → modifies P m m' →
  (∀ x, in_range base bb x → ¬ P x) → octx_at v base m' ctx sb.
Proof using All.
  intros Hc Hb HM Hd. destruct ctx, sb; try done. cbn in *.
  eapply sboxes_frame; [done|done|]. by rewrite Hb.
Qed.

(** Storing the row at [XY] back into [B]. *)
Lemma store_B_spec m ctx st :
  filled m ctx N st → cur_at m XY st → allocated m B rs →
  ∃ m', store_blks (Z.to_nat (2 * Z.of_nat r)) XY (blk XY (2 * Z.of_nat r)) B m = Some (tt, m') ∧
    smix1_post m m' ctx (unshuffle_row (f_X st), f_V st, f_sb st).
Proof using All.
  intros [HL HR HW HX Hc Ho Hb HV HXY] Hcur HB. pose proof rs_pos. pose proof HX as [HLX HWX].
  assert (blk XY (2 * Z.of_nat r) = XY + rs)%Z as -> by (unfold rs; range).
  destruct (store_blks_spec m XY (XY + rs) B (f_X st)) as (m' & E & P & M1);
    rewrite ?HLX; try done;
    replace (64 * Z.of_nat (2 * r))%Z with rs in * by (unfold rs; lia); try done; try range.
  { eapply allocated_sub; [exact HXY|exists (8 * Z.of_nat r)%Z; unfold rs; lia|lia|lia]. }
  rewrite HLX in *. replace (64 * Z.of_nat (2 * r))%Z with rs in * by (unfold rs; lia).
  replace (Z.to_nat (2 * Z.of_nat r)) with (2 * r) by lia. exists m'. split; [done|].
  split; cbn [fst snd]; try done.
  - by apply wf_unshuffle_row.
  - eapply rows_frame; [exact HR|exact M1|done|]. intros k x Hk Hx.
    pose proof (rowp_bounds k ltac:(lia)). range.
  - eapply octx_frame; [exact Hc|done|exact M1|]. range.
  - eapply modifies_weaken; [exact M1|]. unfold smix_writes. range.
Qed.

Lemma smix1_spec m ctx sb Bs :
  4 ≤ N → Nat.Even N → (Z.of_nat N <= 2 ^ 31)%Z → wf_row r Bs → blks_at m B Bs →
  allocated m V V_size → allocated m XY (rs + 64) →
  octx_at v base m ctx sb → row_ok r sb → box_bytes v sb = bb →
  ∃ m' ctx', smix1 v B (Z.of_nat r) (Z.of_nat N) V XY ctx m = Some (ctx', m') ∧
    smix1_post m m' ctx' (smix1_ref v r N Bs sb).
Proof using All.
  intros HN4 Heven Hmax HBs HB HV HXY Hc Ho Hb. unfold smix1.
  assert (rowp 0 = V) as E0 by (unfold rowp; lia).
  assert (blk V (2 * Z.of_nat r) = rowp 1) as E1 by (unfold rowp, blk, rs; lia).
  rewrite E1, rowp_next.
  destruct (first_row_spec m ctx sb Bs) as (m0 & c0 & R0 & F0 & C0 & M0); try done; [lia|].
  rewrite (run_seq _ _ _ _ _ _ R0). unfold smix1_ref.
  destruct (first_row v r Bs sb) as [X0 sb0]. cbn [fst snd] in *.
  set (st0 := mkFill [] X0 sb0) in *.
  destruct (plain_fill_step m0 c0 0 st0) as (m1 & c1 & R1 & F1 & C1 & M1); [done|done|lia|lia|].
  rewrite E0 in R1. step R1.
  destruct (plain_fill_step m1 c1 1 (fill_step v st0)) as (m2 & c2 & R2 & F2 & C2 & M2);
    [done|done|lia|lia|]. step R2.
  set (st2 := fill_step v (fill_step v st0)) in *.
  step (integerify_spec m2 (rowp 2) r (f_X st2) Hr (fl_wfX _ _ _ _ F2) C2).
  pose proof Heven as [h Hh].
  destruct (outer_spec h Hh Hmax 33 1 m2 c2 st2) as (m3 & c3 & q & R3 & Hq & Hqn & F3 & C3 & M3);
    [lia|change (2 ^ Z.of_nat 1)%Z with 2%Z; lia| |done|done|].
  { change (Z.of_nat 1 + Z.of_nat 33 - 1)%Z with 33%Z. lia. }
  change (2 ^ Z.of_nat 1)%Z with 2%Z in *. change (Z.to_nat 2) with 2 in *. step R3.
  set (st3 := Nat.iter (N - 2 - 2) (fill_step v) st2) in *.
  assert ((2 * 2 ^ Z.of_nat q) ≫ 1 = 2 ^ Z.of_nat q)%Z as ->.
  { rewrite Z.shiftr_div_pow2 by lia. change (2 ^ 1)%Z with 2%Z. rewrite Z.mul_comm. by apply Z.div_mul. }
  destruct (last_steps q m3 c3 st3) as (m4 & c4 & m5 & c5 & R4 & R5 & F5 & C5 & M5); [done..|].
  step R4. step R5.
  assert (fill_frame m m3) as F03.
  { eapply modifies_trans; [exact M0|].
    eapply modifies_trans; [eapply (fill_frame_row 1); [lia|done]|].
    eapply modifies_trans; [eapply (fill_frame_row 2); [lia|done]|done]. }
  destruct (store_B_spec m5 c5 (fill_step v (fill_step v st3))) as (m6 & R6 & [P1 P2 P3 P4 P5 P6 P7 P8]);
    [done|done| |].
  { eapply modifies_allocated; [exact M5|]. eapply modifies_allocated; [exact F03|].
    destruct HBs as [HLB _]. eapply blks_at_allocated; [exact HB|]. rewrite HLB. unfold rs. lia. }
  step R6. exists m6, c5. split; [done|].
  assert (Nat.iter N (fill_step v) st0 = fill_step v (fill_step v st3)) as ->.
  { unfold st3, st2. rewrite <-!Nat.iter_succ, <-!Nat.iter_succ_r. f_equal. lia. }
  destruct (fill_step v (fill_step v st3)) as [Vf Xf sbf]. split; try done.
  eapply modifies_trans; [|exact P8]. eapply modifies_trans; [|exact M5].
  eapply modifies_weaken; [exact F03|]. unfold smix_writes. range.
Qed.
End Fill.

(** ** The second loop *)
Section Walk.
Context (v : pass) (base B V XY : Z) (r N p : nat).

Local Abbreviation rs := (rs r).
Local Abbreviation rowp := (rowp V r).
Local Abbreviation V_size := (V_size r N).
Local Abbreviation rows_at := (rows_at V r).
Local Abbreviation Sn := (S_total v).
(** The bytes of [XY] in use: [128 r + 64] for the loop that saves, [256 r] for
    the one that does not. *)
Context (xyn : Z).

Hypothesis Hr : 0 < r.
Hypothesis HN : N = 2 ^ p.
Hypothesis Hxyn : (rs + 64 <= xyn)%Z.
Hypothesis HS : clear Sn base V V_size.
Hypothesis HSXY : clear Sn base XY xyn.
Hypothesis HVXY : disj V V_size XY xyn.
Hypothesis HBV : disj B rs V V_size.
Hypothesis HBXY : disj B rs XY xyn.
Hypothesis HBS : clear Sn base B rs.

(** The state of the walk, with the current row at [Xp]. *)
Record walking (m : mem) (ctx : pwxform_ctx_t) (Xp : Z) (st : walk) : Prop := {
  wk_len : length (w_V st) = N;
  wk_rows : rows_at m (w_V st);
  wk_wf : Forall (wf_row r) (w_V st);
  wk_wfX : wf_row r (w_X st);
  wk_X : blks_at m Xp (w_X st);
  wk_ctx : sboxes_at v base m ctx (w_sb st);
  wk_XY : allocated m XY xyn
}.

Definition walk_frame : mem → mem → Prop :=
  modifies (λ x, in_range V V_size x ∨ in_range XY xyn x ∨ in_range base Sn x).

Lemma row_bounds k : k < N → (V <= rowp k ∧ rowp k + rs <= V + V_size)%Z.
Proof using All. intros Hk. unfold SmixCorrect.rowp, SmixCorrect.V_size, SmixCorrect.rs. nia. Qed.
Lemma row_apart j k : j ≠ k → disj (rowp j) rs (rowp k) rs.
Proof using All. intros Hk. unfold disj, SmixCorrect.rowp, SmixCorrect.rs. nia. Qed.

Lemma land_N j : Z.land j (Z.of_nat N - 1) = (j `mod` Z.of_nat N)%Z.
Proof using All.
  rewrite HN, Nat2Z.inj_pow. change (Z.of_nat 2) with 2%Z.
  replace (2 ^ Z.of_nat p - 1)%Z with (Z.ones (Z.of_nat p)) by (rewrite Z.ones_equiv; lia).
  apply Z.land_ones. lia.
Qed.
Lemma N_pos : 0 < N.
Proof using All. rewrite HN. pose proof (Nat.pow_nonzero 2 p). lia. Qed.

Lemma masked_walk j :
  blk V (Z.land j (Z.of_nat N - 1) * (2 * Z.of_nat r)) = rowp (Z.to_nat (j `mod` Z.of_nat N)) ∧
  Z.to_nat (j `mod` Z.of_nat N) < N.
Proof using All.
  pose proof N_pos. pose proof (Z.mod_pos_bound j (Z.of_nat N) ltac:(lia)).
  rewrite land_N. split; [|lia]. unfold blk, SmixCorrect.rowp, SmixCorrect.rs. lia.
Qed.

(** A row of [V] is replaced by the sum, the others stay. *)
Lemma rows_update P m m' rows j R :
  rows_at m rows → modifies P m m' → Forall (wf_row r) rows → length rows = N →
  (∀ x, in_range V V_size x → P x → in_range (rowp j) rs x) →
  blks_at m' (rowp j) R → rows_at m' (<[j := R]> rows).
Proof using All.
  intros HR HM HW HL HP HB k R' [(-> & -> & _)|[Hne Hk]]%list_lookup_insert_Some; [done|].
  apply lookup_lt_Some in Hk as Hlt. eapply modifies_blks; [exact HM|by apply HR|].
  eapply Forall_lookup_1 in HW as [HLR _]; [|done]. rewrite HLR. intros x Hx HPx.
  pose proof (row_bounds k ltac:(lia)). pose proof (row_apart j k Hne).
  assert (in_range (rowp k) rs x) as Hx' by (unfold SmixCorrect.rs; clear HP; range).
  assert (in_range (rowp j) rs x) by (apply HP; [clear HP; range|done]). clear HP. range.
Qed.

Lemma walk_step_eq rw st j : j = Z.to_nat (integerify_ref (w_X st) `mod` Z.of_nat N) →
  ∀ R, w_V st !! j = Some R →
  walk_step v rw N st
  = mkWalk (if rw then <[j := xor_rows (w_X st) R]> (w_V st) else w_V st)
      (blockmix_pwx_ref v (w_sb st) (xor_rows (w_X st) R)).1
      (blockmix_pwx_ref v (w_sb st) (xor_rows (w_X st) R)).2.
Proof using.
  intros -> R HR. destruct st as [wV wX wsb]. cbn [w_V w_X w_sb] in *. unfold walk_step.
  rewrite (list_lookup_total_correct _ _ _ HR). by destruct (blockmix_pwx_ref v wsb (xor_rows wX R)).
Qed.

Lemma save_step m ctx st : walking m ctx XY st →
  let st' := walk_step v true N st in
  let j := Z.land (integerify_ref (w_X st)) (Z.of_nat N - 1) in
  ∃ m' ctx', blockmix_xor_save v XY (blk V (j * (2 * Z.of_nat r))) (Z.of_nat r) ctx m
      = Some (integerify_ref (w_X st'), ctx', m') ∧
    walking m' ctx' XY st' ∧ walk_frame m m'.
Proof using All.
  intros [HL HR HW HX HXat Hc HXY] st' j. unfold j, st'.
  destruct (masked_walk (integerify_ref (w_X st))) as [-> Hj].
  set (jn := Z.to_nat (integerify_ref (w_X st) `mod` Z.of_nat N)) in *.
  destruct (lookup_lt_is_Some_2 (w_V st) jn) as [Rj HRj]; [lia|].
  rewrite (walk_step_eq true st jn eq_refl Rj HRj).
  assert (wf_row r Rj) as WRj by (by eapply Forall_lookup_1).
  assert (0 < rs)%Z as Hrs by (unfold SmixCorrect.rs; lia). pose proof (S_total_pos v).
  pose proof (row_bounds jn Hj) as Bj.
  destruct (blockmix_xor_save_spec v base m XY (rowp jn) r ctx (w_sb st) (w_X st) Rj)
    as (m' & c' & E & HS' & HB1 & HB2 & HWo & HM); fold rs; try done; try range.
  { by apply HR. }
  fold rs in HM. cbn [w_X]. exists m', c'. split_and!; [done| |].
  - split; cbn [w_V w_X w_sb]; try done.
    + by rewrite length_insert.
    + eapply rows_update; [exact HR|exact HM|done|done| |done]. unfold writes2. range.
    + apply Forall_insert; [done|]. by apply wf_xor_rows.
    + by eapply modifies_allocated.
  - eapply modifies_weaken; [exact HM|]. unfold writes2. range.
Qed.

Lemma save_loop_spec t : ∀ fuel m ctx st, 0 < t → t ≤ fuel → (2 * Z.of_nat t < 2 ^ 32)%Z →
  walking m ctx XY st →
  let st' := Nat.iter (2 * t) (walk_step v true N) st in
  ∃ m' ctx', smix2_save_loop fuel v XY V (2 * Z.of_nat r) (Z.of_nat r) (Z.of_nat N)
      (Z.land (integerify_ref (w_X st)) (Z.of_nat N - 1)) (2 * Z.of_nat t) ctx m = Some (ctx', m') ∧
    walking m' ctx' XY st' ∧ walk_frame m m'.
Proof using All.
  induction t as [|t IH]; [lia|]. intros fuel m ctx st _ Hf Hmax HWk. destruct fuel as [|fuel]; [lia|].
  cbn [smix2_save_loop].
  destruct (save_step m ctx st HWk) as (m1 & c1 & E1 & W1 & F1). step E1.
  destruct (save_step m1 c1 _ W1) as (m2 & c2 & E2 & W2 & F2). step E2.
  replace (u32 (2 * Z.of_nat (S t) - 2)) with (2 * Z.of_nat t)%Z
    by (rewrite u32_id by (unfold in_width; lia); lia).
  replace (2 * S t) with (S (S (2 * t))) by lia. rewrite !Nat.iter_succ_r.
  destruct (decide (t = 0)) as [->|Ht].
  { exists m2, c2. split_and!; [done|done|by eapply modifies_trans]. }
  rewrite (proj2 (Z.eqb_neq _ _)) by lia.
  destruct (IH fuel m2 c2 _ ltac:(lia) ltac:(lia) ltac:(lia) W2) as (m' & c' & E & W' & F').
  exists m', c'. split_and!; [done|done|].
  eapply modifies_trans; [exact F1|]. by eapply modifies_trans.
Qed.

(** The loop that does not save works between the two halves of [XY]. *)
Lemma read_step m ctx Xp Yp st : (2 * rs <= xyn)%Z →
  (Xp = XY ∧ Yp = XY + rs ∨ Xp = XY + rs ∧ Yp = XY)%Z → walking m ctx Xp st →
  let st' := walk_step v false N st in
  let j := Z.land (integerify_ref (w_X st)) (Z.of_nat N - 1) in
  ∃ m' ctx', blockmix_xor v Xp (blk V (j * (2 * Z.of_nat r))) Yp (Z.of_nat r) (Some ctx) m
      = Some (integerify_ref (w_X st'), Some ctx', m') ∧
    walking m' ctx' Yp st' ∧ walk_frame m m'.
Proof using All.
  intros H2 HXp [HL HR HW HX HXat Hc HXY] st' j. unfold j, st'.
  destruct (masked_walk (integerify_ref (w_X st))) as [-> Hj].
  set (jn := Z.to_nat (integerify_ref (w_X st) `mod` Z.of_nat N)) in *.
  destruct (lookup_lt_is_Some_2 (w_V st) jn) as [Rj HRj]; [lia|].
  rewrite (walk_step_eq false st jn eq_refl Rj HRj).
  assert (wf_row r Rj) as WRj by (by eapply Forall_lookup_1).
  assert (0 < rs)%Z as Hrs by (unfold SmixCorrect.rs; lia). pose proof (S_total_pos v).
  pose proof (row_bounds jn Hj) as Bj.
  destruct (blockmix_xor_spec v base m Xp (rowp jn) Yp r (Some ctx) (Some (w_sb st)) (w_X st) Rj)
    as (m' & c' & E & HS' & HB & HWo & HM); fold rs; cbn [box_bytes]; try done;
    try solve [destruct HXp as [[-> ->]|[-> ->]]; range].
  { by apply HR. }
  { eapply allocated_sub; [exact HXY| |destruct HXp as [[-> ->]|[-> ->]]; lia..].
    destruct HXp as [[-> ->]|[-> ->]]; [exists (8 * Z.of_nat r)%Z|exists 0%Z]; unfold SmixCorrect.rs; lia. }
  fold rs in HM. cbn [box_bytes blockmix_ref] in *.
  destruct (blockmix_pwx_ref v (w_sb st) (xor_rows (w_X st) Rj)) as [X' sb']. cbn [fst snd w_X] in *.
  destruct c' as [c'|]; [|done]. exists m', c'. split_and!; [done| |].
  - split; cbn [w_V w_X w_sb]; try done; [|by eapply modifies_allocated].
    intros k R Hk. eapply modifies_blks; [exact HM|by apply HR|].
    apply lookup_lt_Some in Hk as Hlt. pose proof (row_bounds k ltac:(lia)).
    eapply Forall_lookup_1 in HW as [HLR _]; [|done]. rewrite HLR.
    replace (64 * Z.of_nat (2 * r))%Z with rs by (unfold SmixCorrect.rs; lia).
    destruct HXp as [[-> ->]|[-> ->]]; range.
  - eapply modifies_weaken; [exact HM|]. destruct HXp as [[-> ->]|[-> ->]]; range.
Qed.

Record smix2_post (m m' : mem) (ctx' : pwxform_ctx_t) (out : row * list row * sboxes) : Prop := {
  s2_B : blks_at m' B out.1.1;
  s2_wfB : wf_row r out.1.1;
  s2_V : rows_at m' out.1.2;
  s2_lenV : length out.1.2 = N;
  s2_wfV : Forall (wf_row r) out.1.2;
  s2_ctx : sboxes_at v base m' ctx' out.2;
  s2_mod : modifies (λ x, in_range B rs x ∨ in_range V V_size x ∨ in_range XY xyn x
                          ∨ in_range base Sn x) m m'
}.

Lemma load_walk m ctx Bs Vs sb :
  wf_row r Bs → blks_at m B Bs → rows_at m Vs → length Vs = N → Forall (wf_row r) Vs →
  sboxes_at v base m ctx sb → allocated m XY xyn →
  ∃ m', load_blks (Z.to_nat (2 * Z.of_nat r)) B (blk XY (2 * Z.of_nat r)) XY m = Some (tt, m') ∧
    walking m' ctx XY (mkWalk Vs (shuffle_row Bs) sb) ∧ walk_frame m m'.
Proof using All.
  intros [HLB HWB] HB HR HL HW Hc HXY. assert (64 <= rs)%Z as Hrs by (unfold SmixCorrect.rs; lia).
  assert (blk XY (2 * Z.of_nat r) = XY + rs)%Z as -> by (unfold SmixCorrect.rs; range).
  assert (64 * Z.of_nat (2 * r) = rs)%Z as Ers by (unfold SmixCorrect.rs; lia).
  destruct (load_blks_spec m B (XY + rs) XY Bs) as (m' & E & P & HM); rewrite ?HLB, ?Ers; try done; try range.
  { eapply allocated_sub; [exact HXY|exists (8 * Z.of_nat r)%Z; unfold SmixCorrect.rs; lia|lia|lia]. }
  { eapply allocated_sub; [exact HXY|by exists 0%Z; lia|lia|lia]. }
  rewrite HLB in E, HM. rewrite Ers in HM. replace (Z.to_nat (2 * Z.of_nat r)) with (2 * r) by lia.
  exists m'. split_and!; [done| |].
  - split; cbn [w_V w_X w_sb]; try done.
    + intros k R Hk. eapply modifies_blks; [exact HM|by apply HR|].
      apply lookup_lt_Some in Hk as Hlt. pose proof (row_bounds k ltac:(lia)).
      eapply Forall_lookup_1 in HW as [HLR _]; [|done]. rewrite HLR, Ers. range.
    + by apply wf_shuffle_row.
    + eapply sboxes_frame; [exact Hc|exact HM|range].
    + by eapply modifies_allocated.
  - eapply modifies_weaken; [exact HM|range].
Qed.

Lemma store_walk m ctx st : walking m ctx XY st → allocated m B rs →
  ∃ m', store_blks (Z.to_nat (2 * Z.of_nat r)) XY (blk XY (2 * Z.of_nat r)) B m = Some (tt, m') ∧
    smix2_post m m' ctx (unshuffle_row (w_X st), w_V st, w_sb st).
Proof using All.
  intros [HL HR HW HX HXat Hc HXY] HB. pose proof HX as [HLX HWX].
  assert (64 <= rs)%Z as Hrs by (unfold SmixCorrect.rs; lia).
  assert (blk XY (2 * Z.of_nat r) = XY + rs)%Z as -> by (unfold SmixCorrect.rs; range).
  assert (64 * Z.of_nat (2 * r) = rs)%Z as Ers by (unfold SmixCorrect.rs; lia).
  destruct (store_blks_spec m XY (XY + rs) B (w_X st)) as (m' & E & P & HM);
    rewrite ?HLX, ?Ers; try done; try range.
  { eapply allocated_sub; [exact HXY|exists (8 * Z.of_nat r)%Z; unfold SmixCorrect.rs; lia|lia|lia]. }
  rewrite HLX in E, HM. rewrite Ers in HM. replace (Z.to_nat (2 * Z.of_nat r)) with (2 * r) by lia.
  exists m'. split; [done|]. split; cbn [fst snd]; try done.
  - by apply wf_unshuffle_row.
  - intros k R Hk. eapply modifies_blks; [exact HM|by apply HR|].
    apply lookup_lt_Some in Hk as Hlt. pose proof (row_bounds k ltac:(lia)).
    eapply Forall_lookup_1 in HW as [HLR _]; [|done]. rewrite HLR, Ers. range.
  - eapply sboxes_frame; [exact Hc|exact HM|range].
  - eapply modifies_weaken; [exact HM|range].
Qed.

(** Both loops: [Nloop] is even and positive; without saving it is 2. *)
Lemma smix2_spec m ctx Bs Vs sb t (rw := bool_decide (v = Pass2) || (2 <? 2 * Z.of_nat t)%Z) :
  0 < t → (2 * Z.of_nat t < 2 ^ 32)%Z → (rw = false → t = 1 ∧ (2 * rs <= xyn)%Z) →
  wf_row r Bs → blks_at m B Bs → rows_at m Vs → length Vs = N → Forall (wf_row r) Vs →
  sboxes_at v base m ctx sb → allocated m XY xyn →
  ∃ m' ctx', smix2 v B (Z.of_nat r) (Z.of_nat N) (2 * Z.of_nat t) V XY ctx m = Some (ctx', m') ∧
    smix2_post m m' ctx' (smix2_ref v rw N (2 * t) Bs Vs sb).
Proof using All.
  intros Ht Hmax Hrw HBs HB HR HL HW Hc HXY. unfold smix2, smix2_ref. fold rw.
  destruct (load_walk m ctx Bs Vs sb) as (m1 & E1 & W1 & F1); [done..|]. step E1.
  set (st := mkWalk Vs (shuffle_row Bs) sb) in *.
  step (integerify_spec m1 XY r (w_X st) Hr (wk_wfX _ _ _ _ W1) (wk_X _ _ _ _ W1)).
  assert (∃ m2 c2, (if rw then smix2_save_loop (Z.to_nat (2 * Z.of_nat t)) v XY V (2 * Z.of_nat r)
      (Z.of_nat r) (Z.of_nat N) (Z.land (integerify_ref (w_X st)) (Z.of_nat N - 1)) (2 * Z.of_nat t) ctx
    else c ← smix2_read_loop (Z.to_nat (2 * Z.of_nat t)) v XY (blk XY (2 * Z.of_nat r)) V (2 * Z.of_nat r)
      (Z.of_nat r) (Z.of_nat N) (Z.land (integerify_ref (w_X st)) (Z.of_nat N - 1)) (2 * Z.of_nat t) (Some ctx);
      mret (default ctx c)) m1 = Some (c2, m2) ∧
    walking m2 c2 XY (Nat.iter (2 * t) (walk_step v rw N) st) ∧ walk_frame m1 m2)
    as (m2 & c2 & E2 & W2 & F2).
  { destruct rw eqn:Erw.
    - by apply save_loop_spec; [lia|lia|lia|].
    - destruct (Hrw eq_refl) as [-> Hxy]. change (Z.to_nat (2 * Z.of_nat 1)) with 2. cbn [smix2_read_loop].
      replace (blk XY (2 * Z.of_nat r)) with (XY + rs)%Z by (unfold SmixCorrect.rs; range).
      destruct (read_step m1 ctx XY (XY + rs) st Hxy ltac:(left; done) W1) as (m2 & c2 & E2 & W2 & F2).
      destruct (read_step m2 c2 (XY + rs) XY _ Hxy ltac:(right; done) W2) as (m3 & c3 & E3 & W3 & F3).
      exists m3, c3. cbn [Nat.iter Nat.mul Nat.add]. split_and!; [|done|by eapply modifies_trans].
      rewrite (run_bind _ _ _ (Some c3) m3); [done|]. step E2. by step E3. }
  step E2. destruct (store_walk m2 c2 _ W2) as (m3 & E3 & [P1 P2 P3 P4 P5 P6 P7]).
  { eapply modifies_allocated; [exact F2|]. eapply modifies_allocated; [exact F1|].
    destruct HBs as [HLB _]. eapply blks_at_allocated; [exact HB|]. rewrite HLB. unfold SmixCorrect.rs. lia. }
  step E3. exists m3, c2. split; [done|].
  destruct (Nat.iter (2 * t) (walk_step v rw N) st) as [Vf Xf sbf]. split; try done.
  eapply modifies_trans; [eapply modifies_weaken; [exact F1|by auto]|].
  eapply modifies_trans; [eapply modifies_weaken; [exact F2|by auto]|done].
Qed.
End Walk.
