(* ===== verification/SmixMain.v ===== *)
(** * The whole of [smix] *)
From S2P Require Import Prelude Sysendian Simd Salsa20 Mem Pwxform PwxformCorrect Blockmix BlockmixCorrect Smix.
From S2P Require Import SmixCorrect.

(** ** Loop counts *)
Lemma land_even x : is_u32 x → Z.land x (u32 (-2)) = (2 * (x `div` 2))%Z.
Proof.
  intros Hx. replace (2 * (x `div` 2))%Z with ((x ≫ 1) ≪ 1)%Z
    by (rewrite Z.shiftl_mul_pow2, Z.shiftr_div_pow2 by lia; apply Z.mul_comm).
  apply Z.bits_inj'. intros i Hi. rewrite Z.land_spec, Z.shiftl_spec by lia.
  assert (Z.testbit (u32 (-2)) i = (1 <=? i)%Z && (i <? 32)%Z) as ->.
  { unfold u32. rewrite Z.testbit_mod_pow2 by lia.
    replace (-2)%Z with (Z.lnot 1) by done. rewrite Z.lnot_spec by lia.
    destruct (decide (i = 0)%Z) as [->|Hne]; [done|].
    change 1%Z with (2 ^ 0)%Z at 1. rewrite Z.pow2_bits_false by lia.
    rewrite (proj2 (Z.leb_le 1 i)) by lia. by rewrite andb_comm. }
  destruct (Z.leb_spec 1 i).
  - rewrite Z.shiftr_spec by lia. replace (i - 1 + 1)%Z with i by lia.
    destruct (Z.ltb_spec i 32); [by rewrite andb_true_r|].
    by rewrite (in_width_testbit 32 x i) by (done || lia).
  - rewrite (Z.testbit_neg_r _ (i - 1)) by lia. by rewrite andb_false_r.
Qed.

Lemma third_Z N : ((Z.of_nat N + 2) `div` 3 = Z.of_nat (third N))%Z.
Proof. unfold third. by rewrite Nat2Z.inj_div, Nat2Z.inj_add. Qed.

Lemma Nloop_up_spec N : (Z.of_nat N < 2 ^ 31)%Z → Nloop_up (Z.of_nat N) = Z.of_nat (walk_all N).
Proof.
  intros HN. unfold Nloop_up, walk_all. rewrite third_Z.
  assert (third N ≤ N + 2) by (apply Nat.Div0.div_le_upper_bound; lia).
  rewrite u32_id by (unfold in_width; lia). rewrite land_even by (unfold in_width; lia).
  rewrite Nat2Z.inj_mul, Nat2Z.inj_div, Nat2Z.inj_add. done.
Qed.
Lemma Nloop_down_spec N : (Z.of_nat N < 2 ^ 31)%Z →
  Nloop_down (Z.of_nat N) = Z.of_nat (walk_rw Pass1 N).
Proof.
  intros HN. unfold Nloop_down, walk_rw. rewrite third_Z.
  assert (third N ≤ N + 2) by (apply Nat.Div0.div_le_upper_bound; lia).
  rewrite land_even by (unfold in_width; lia). by rewrite Nat2Z.inj_mul, Nat2Z.inj_div.
Qed.

(** ** The S-boxes in memory *)
Lemma rows_blks m V r rows :
  Forall (wf_row r) rows → rows_at V r m rows → blks_at m V (mjoin rows).
Proof.
  intros HW. revert V. induction HW as [|R rows [HL HWR] _ IH]; intros V HR; [apply blks_at_nil|].
  cbn [mjoin list_join]. apply blks_at_app. split.
  - specialize (HR 0 R eq_refl). unfold rowp in HR. by rewrite Z.mul_0_r, Z.add_0_r in HR.
  - apply IH. intros k R' Hk. specialize (HR (S k) R' Hk).
    replace (rowp (V + 64 * Z.of_nat (length R)) r k) with (rowp V r (S k)); [done|].
    unfold rowp, rs. rewrite HL. lia.
Qed.

Lemma wf_lanes rows r : Forall (wf_row r) rows → Forall wf_m128i (mjoin rows ≫= blk_q).
Proof.
  intros HW. apply Forall_bind. 
  assert (Forall wf_blk (mjoin rows)) as HF.
  { apply Forall_join. eapply Forall_impl; [exact HW|]. by intros R [_ ?]. }
  eapply Forall_impl; [exact HF|]. intros b (H0 & H1 & H2 & H3).
  change (Forall wf_m128i [q0 b; q1 b; q2 b; q3 b]).
  by rewrite !Forall_cons, Forall_nil.
Qed.
Lemma length_lanes rows r : Forall (wf_row r) rows →
  length (mjoin rows ≫= blk_q) = 8 * r * length rows.
Proof.
  intros HW. rewrite length_bind_blk_q.
  assert (length (mjoin rows) = 2 * r * length rows) as ->; [|lia].
  induction HW as [|R rows [HL _] _ IH]; [cbn; lia|].
  change (mjoin (R :: rows)) with (R ++ mjoin rows). cbn [length].
  rewrite length_app, IH, HL. lia.
Qed.

(** [ctx] as [yespower] sets it up over an array [S] at [base]. *)
Record ctx_init (v : pass) (base : Z) (ctx : pwxform_ctx_t) : Prop := {
  ci_S0 : ctx_S0 ctx = base;
  ci_S1 : ctx_S1 ctx = (base + sbox_bytes v)%Z;
  ci_S2 : v = Pass2 → ctx_S2 ctx = (base + 2 * sbox_bytes v)%Z ∧ ctx_w ctx = 0%Z;
  ci_Sbytes : ctx_Sbytes ctx = S_total v
}.

Lemma boxes_of_at v base m ctx rows :
  ctx_init v base ctx → length rows = S_rows v → Forall (wf_row 1) rows → rows_at base 1 m rows →
  sboxes_at v base m ctx (boxes_of v rows).
Proof.
  intros [E0 E1 E2 _] HL HW HR. apply rows_blks in HR; [|done]. apply blks_lanes in HR.
  pose proof (length_lanes rows 1 HW) as HLl. pose proof (wf_lanes rows 1 HW) as HWl.
  unfold boxes_of. set (l := mjoin rows ≫= blk_q) in *.
  assert (length l = S_count v * sbox_len v) as HLn by (rewrite HLl, HL; destruct v; reflexivity).
  assert (∀ k, k < S_count v → wf_sbox v (take (sbox_len v) (drop (k * sbox_len v) l)) ∧
    lanes_at m (base + Z.of_nat k * sbox_bytes v) (take (sbox_len v) (drop (k * sbox_len v) l))) as HB.
  { intros k Hk. split.
    - split; [rewrite length_take, length_drop, HLn; nia|]. by apply Forall_take, Forall_drop.
    - rewrite <-(take_drop (k * sbox_len v) l) in HR. apply lanes_at_app in HR as [_ HR].
      rewrite length_take, Nat.min_l in HR by (rewrite HLn; nia).
      rewrite <-(take_drop (sbox_len v) (drop (k * sbox_len v) l)) in HR.
      apply lanes_at_app in HR as [HR _]. unfold sbox_bytes.
      by replace (base + Z.of_nat k * (16 * Z.of_nat (sbox_len v)))%Z
        with (base + 16 * Z.of_nat (k * sbox_len v))%Z by lia. }
  assert (0 < S_count v ∧ 1 < S_count v) as [Hc0 Hc1] by (destruct v; cbn; lia).
  destruct (HB 0 Hc0) as [W0 L0], (HB 1 Hc1) as [W1 L1].
  rewrite Nat.mul_0_l, drop_0 in W0, L0. rewrite Nat.mul_1_l in W1, L1.
  assert (0 < sbox_bytes v)%Z by (destruct v; done).
  split; cbn [sb0 sb1 sb2 sbw]; rewrite E0, E1.
  - split; [done|done| |]; [by rewrite Z.mul_0_l, Z.add_0_r in L0|].
    by replace (base + Z.of_nat 1 * sbox_bytes v)%Z with (base + sbox_bytes v)%Z in L1 by lia.
  - unfold apart. lia.
  - unfold inside, S_total. destruct v; cbv beta iota; lia.
  - intros ->. destruct (E2 eq_refl) as [-> ->]. destruct (HB 2 ltac:(cbn; lia)) as [W2 L2].
    unfold apart, inside, S_total. cbv beta iota. split_and!; try done; try lia.
    rewrite sbox_len_pass2. lia.
Qed.

(** ** [smix] *)
Definition XY_need (v : pass) (r : nat) : Z :=
  match v with Pass1 => 2 * rs r | Pass2 => rs r + 64 end.

(** The four arrays do not overlap. *)
Record layout (v : pass) (r N : nat) (B V XY base : Z) : Prop := {
  ly_BV : disj B (rs r) V (V_size r N);
  ly_BXY : disj B (rs r) XY (XY_need v r);
  ly_BS : disj B (rs r) base (S_total v);
  ly_VXY : disj V (V_size r N) XY (XY_need v r);
  ly_VS : disj V (V_size r N) base (S_total v);
  ly_XYS : disj XY (XY_need v r) base (S_total v)
}.

Definition region_writes (v : pass) (r N : nat) (B V XY base x : Z) : Prop :=
  in_range B (rs r) x ∨ in_range V (V_size r N) x ∨ in_range XY (XY_need v r) x ∨
  in_range base (S_total v) x.

Section Smix.
Context (v : pass) (r N p : nat) (B V XY base : Z).
Hypothesis Hr : 0 < r.
Hypothesis HN : N = 2 ^ p.
Hypothesis Hp : 8 ≤ p ≤ 30.
Hypothesis HL : layout v r N B V XY base.

Local Abbreviation writes_ok := (modifies (region_writes v r N B V XY base)).

Lemma N_bounds : 256 ≤ N ∧ (Z.of_nat N < 2 ^ 31)%Z ∧ Nat.Even N.
Proof using All.
  rewrite HN. split_and!.
  - change 256 with (2 ^ 8). apply Nat.pow_le_mono_r; lia.
  - rewrite Nat2Z.inj_pow. change (Z.of_nat 2) with 2%Z. apply Z.pow_lt_mono_r; lia.
  - exists (2 ^ (p - 1)). rewrite <-Nat.pow_succ_r'. f_equal. lia.
Qed.
Lemma XY_need_ge : (rs r + 64 <= XY_need v r)%Z.
Proof using All. unfold XY_need, rs. destruct v; lia. Qed.

Lemma S_rows_size : (V_size 1 (S_rows v) = S_total v ∧ S_total v `div` 128 = Z.of_nat (S_rows v))%Z.
Proof using All. destruct v; split; reflexivity. Qed.

(** The S-box initialisation replaces the first two blocks of [B]. *)
Lemma init_boxes m ctx Bs :
  ctx_init v base ctx → wf_row r Bs → blks_at m B Bs →
  allocated m XY (XY_need v r) → allocated m base (S_total v) →
  let out := smix1_ref v 1 (S_rows v) (take 2 Bs) None in
  let Bs' := out.1.1 ++ drop 2 Bs in
  ∃ m' c', smix1 v B 1 (ctx_Sbytes ctx `div` 128) (ctx_S0 ctx) XY None m = Some (c', m') ∧
    blks_at m' B Bs' ∧ wf_row r Bs' ∧ sboxes_at v base m' ctx (boxes_of v out.1.2) ∧ writes_ok m m'.
Proof using All.
  intros Hc [HLB HWB] HB HXY HS out Bs'. destruct HL as [BV BXY BS VXY VS XYS].
  pose proof XY_need_ge as HX. destruct S_rows_size as [ES ER].
  assert (rs 1 <= rs r)%Z as Hrs by (unfold rs; lia). assert (rs 1 = 128)%Z as Ers1 by done.
  pose proof (ci_S0 _ _ _ Hc) as ->. rewrite (ci_Sbytes _ _ _ Hc), ER. change 1%Z with (Z.of_nat 1).
  pose proof HB as HB0. rewrite <-(take_drop 2 Bs) in HB0. apply blks_at_app in HB0 as [HB2 HBd].
  assert (length (take 2 Bs) = 2) as HL2 by (rewrite length_take; lia). rewrite HL2 in HBd.
  destruct (smix1_spec v 0 base XY 1 (S_rows v) 0) with (B := B) (m := m) (ctx := @None pwxform_ctx_t)
    (sb := @None sboxes) (Bs := take 2 Bs) as (m' & c' & E & [P1 P2 P3 P4 P5 P6 P7 P8]);
    rewrite ?ES, ?Ers1; try done; try lia; try (rewrite Ers1 in *; range; lia).
  { apply Nat.leb_le. by destruct v. }
  { by destruct v; [exists 32|exists 384]. }
  { destruct v; done. }
  { split; [lia|by apply Forall_take]. }
  { eapply allocated_sub; [exact HXY|by exists 0%Z; lia|lia|lia]. }
  { split; [lia|done]. }
  fold out in P1, P2, P3, P4, P5.
  assert (writes_ok m m') as HM.
  { eapply modifies_weaken; [exact P8|]. unfold smix_writes, region_writes. rewrite ES, Ers1. range. }
  exists m', c'. pose proof P2 as [HLo HWo]. split_and!; [done| | | |done].
  - apply blks_at_app. split; [done|]. rewrite HLo.
    eapply modifies_blks; [exact P8|exact HBd|]. rewrite length_drop, HLB.
    unfold smix_writes. rewrite ES, Ers1. unfold rs in *. range.
  - unfold Bs'. split; [rewrite length_app, length_drop; lia|]. apply Forall_app. split; [done|by apply Forall_drop].
  - by apply boxes_of_at.
Qed.

(** The walk with saving, as both passes start it. *)
Lemma third_bounds : 86 ≤ third N ∧ third N ≤ N.
Proof using All.
  destruct N_bounds as (H & _ & _). unfold third. split.
  - change 86 with (258 / 3). apply Nat.Div0.div_le_mono. lia.
  - apply Nat.Div0.div_le_upper_bound. lia.
Qed.
Lemma walk_rw_half : ∃ t, walk_rw v N = 2 * t ∧ 43 ≤ t ∧ t ≤ N.
Proof using All.
  destruct third_bounds as [H1 H2]. unfold walk_rw. eexists. split; [reflexivity|].
  destruct v; split; try (apply Nat.Div0.div_le_upper_bound; lia);
    change 43 with (86 / 2); apply Nat.Div0.div_le_mono; lia.
Qed.
Lemma Nloop_rw_spec :
  match v with Pass1 => Nloop_down (Z.of_nat N) | Pass2 => Nloop_up (Z.of_nat N) end
  = Z.of_nat (walk_rw v N).
Proof using All.
  destruct N_bounds as (_ & Hmax & _). destruct v; [by apply Nloop_down_spec|by apply Nloop_up_spec].
Qed.

Lemma smix_spec m ctx Bs :
  ctx_init v base ctx → wf_row r Bs → blks_at m B Bs →
  allocated m V (V_size r N) → allocated m XY (XY_need v r) → allocated m base (S_total v) →
  ∃ m' c', smix v B (Z.of_nat r) (Z.of_nat N) V XY ctx m = Some (c', m') ∧
    blks_at m' B (smix_ref v r N Bs) ∧ wf_row r (smix_ref v r N Bs) ∧ writes_ok m m'.
Proof using All.
  intros Hc HWB HB HV HXY HS. destruct (init_boxes m ctx Bs) as (m1 & c1 & E1 & B1 & W1 & S1 & M1); [done..|].
  unfold smix, smix_ref. step E1.
  destruct (smix1_ref v 1 (S_rows v) (take 2 Bs) None) as [[B2 SV] osb]. cbn [fst snd] in *.
  set (Bs1 := B2 ++ drop 2 Bs) in *. set (sb1 := boxes_of v SV) in *.
  destruct HL as [BV BXY BS VXY VS XYS]. destruct N_bounds as (HN4 & Hmax & Heven).
  pose proof XY_need_ge as HX. pose proof (S_total_pos v) as HSp.
  destruct (smix1_spec v base V XY r N (S_total v)) with (B := B) (m := m1) (ctx := Some ctx)
    (sb := Some sb1) (Bs := Bs1) as (m2 & c2 & E2 & [P1 P2 P3 P4 P5 P6 P7 P8]);
    try done; try lia; try (range; lia).
  { by eapply modifies_allocated. }
  { eapply modifies_allocated; [exact M1|]. eapply allocated_sub; [exact HXY|by exists 0%Z; lia|lia|lia]. }
  step E2. destruct (smix1_ref v r N Bs1 (Some sb1)) as [[B3 Vs] osb2]. cbn [fst snd] in *.
  destruct osb2 as [sb2|]; [|cbn in P7; lia]. destruct c2 as [c2|]; [|done]. cbn [default] in *.
  assert (writes_ok m m2) as M2.
  { eapply modifies_trans; [exact M1|]. eapply modifies_weaken; [exact P8|].
    unfold smix_writes, region_writes. range. }
  rewrite Nloop_rw_spec. destruct walk_rw_half as (t & Et & Ht & HtN).
  assert (∀ m c u Bx Vx sbx, 0 < u → u ≤ N →
    (bool_decide (v = Pass2) || (2 <? 2 * Z.of_nat u)%Z = false → u = 1 ∧ v = Pass1) →
    wf_row r Bx → blks_at m B Bx → rows_at V r m Vx → length Vx = N → Forall (wf_row r) Vx →
    sboxes_at v base m c sbx → allocated m XY (XY_need v r) →
    ∃ m' c', smix2 v B (Z.of_nat r) (Z.of_nat N) (Z.of_nat (2 * u)) V XY c m = Some (c', m') ∧
      smix2_post v base B V XY r N (XY_need v r) m m' c'
        (smix2_ref v (bool_decide (v = Pass2) || (2 <? 2 * Z.of_nat u)%Z) N (2 * u) Bx Vx sbx)) as W.
  { intros. rewrite Nat2Z.inj_mul. eapply smix2_spec with (p := p); try done; try lia.
    intros Hf. destruct (H1 Hf) as [-> ->]. done. }
  rewrite Et. destruct (W m2 c2 t B3 Vs sb2) as (m3 & c3 & E3 & [Q1 Q2 Q3 Q4 Q5 Q6 Q7]); try done; try lia.
  { by eapply modifies_allocated. }
  rewrite (proj2 (Z.ltb_lt 2 (2 * Z.of_nat t))), orb_true_r in Q1, Q2, Q3, Q4, Q5, Q6 by lia.
  step E3. destruct (smix2_ref v true N (2 * t) B3 Vs sb2) as [[B4 V4] sb4]. cbn [fst snd] in *.
  assert (writes_ok m m3) as M3.
  { eapply modifies_trans; [exact M2|]. eapply modifies_weaken; [exact Q7|].
    unfold region_writes. auto. }
  destruct v eqn:Ev; [|by exists m3, c3]. rewrite Nloop_up_spec by done.
  destruct (Nat.ltb_spec (2 * t) (walk_all N)) as [Hlt|Hge].
  - rewrite (proj2 (Z.ltb_lt _ _)) by lia. rewrite <-Ev in *.
    destruct (W m3 c3 1 B4 V4 sb4) as (m4 & c4 & E4 & [R1 R2 R3 R4 R5 R6 R7]); try done; try lia.
    { by eapply modifies_allocated. }
    assert (bool_decide (v = Pass2) || (2 <? 2 * Z.of_nat 1)%Z = false) as Ef by (by rewrite Ev).
    rewrite Ef in *. change (Z.of_nat (2 * 1)) with 2%Z in E4. change (2 * 1) with 2 in *.
    exists m4, c4. split_and!; [done|done|done|].
    eapply modifies_trans; [exact M3|]. eapply modifies_weaken; [exact R7|]. unfold region_writes. auto.
  - rewrite (proj2 (Z.ltb_ge _ _)) by lia. by exists m3, c3.
Qed.
End Smix.

(** ** Statements *)

(** C4: [smix], for both versions, on any memory in which the four arrays are
    allocated and apart: it terminates, never accesses memory outside them, and
    leaves in [B] exactly the reference SMix of the blocks it found there.  The
    reference fills [V] one row at a time with wrapped indices and then walks
    over it; the code's doubling loops, its in-place rows, the S-box
    initialisation through the same routine and the saving and non-saving
    second loops are all covered. *)
Theorem smix_correct v r N p B V XY base m ctx Bs :
  0 < r → N = 2 ^ p → 8 ≤ p ≤ 30 → layout v r N B V XY base →
  ctx_init v base ctx → wf_row r Bs → blks_at m B Bs →
  allocated m V (V_size r N) → allocated m XY (XY_need v r) → allocated m base (S_total v) →
  ∃ m' c', smix v B (Z.of_nat r) (Z.of_nat N) V XY ctx m = Some (c', m') ∧
    blks_at m' B (smix_ref v r N Bs) ∧ modifies (region_writes v r N B V XY base) m m'.
Proof.
  intros Hr HN Hp HL Hc HW HB HV HX HS.
  destruct (smix_spec v r N p B V XY base Hr HN Hp HL m ctx Bs) as (m' & c' & E & P & _ & HM); eauto.
Qed.

(** A region for [N = 256], [r = 8], with [B] at address 0. *)
Definition sample_region : mem := fill_mem 0 (Z.to_nat 22660) sample_lane.
Definition sample_row : row := replicate 16 (Blk sample_lane sample_lane sample_lane sample_lane).

Lemma sample_row_at : blks_at sample_region 0 sample_row.
Proof.
  apply blks_lanes. assert (sample_row ≫= blk_q = replicate 64 sample_lane) as -> by reflexivity.
  assert (64 ≤ Z.to_nat 22660) as Hn by lia. unfold sample_region. revert Hn.
  generalize (Z.to_nat 22660) as n. intros n Hn. apply (fill_mem_lanes _ n _ 0); lia.
Qed.
Lemma sample_row_wf : wf_row 8 sample_row.
Proof. split; [reflexivity|]. apply Forall_replicate. unfold wf_blk. by split_and!. Qed.
Lemma sample_allocated a n : (16 | a)%Z → (0 <= a)%Z → (a + n <= 362560)%Z → allocated sample_region a n.
Proof.
  intros [k ->] Ha Hn. eapply allocated_sub; [apply fill_mem_allocated|exists k; lia|lia|].
  rewrite Z2Nat.id; lia.
Qed.

Lemma smix_correct_witness :
  ∃ m' c', smix Pass2 0 8 256 1024 263168 (mkPwxform_ctx 264256 297024 329792 0 98304) sample_region
      = Some (c', m') ∧ blks_at m' 0 (smix_ref Pass2 8 256 sample_row).
Proof.
  destruct (smix_correct Pass2 8 256 8 0 1024 263168 264256 sample_region
    (mkPwxform_ctx 264256 297024 329792 0 98304) sample_row)
    as (m' & c' & E & P & _); [lia|reflexivity|lia| |by split|exact sample_row_wf|exact sample_row_at| | | |].
  - split; cbv [disj rs V_size XY_need]; change (S_total Pass2) with 98304%Z; lia.
  - apply sample_allocated; [by exists 64%Z|lia|cbv [V_size rs]; lia].
  - apply sample_allocated; [by exists 16448%Z|lia|cbv [XY_need rs]; lia].
  - apply sample_allocated; [by exists 16516%Z|lia|]. change (S_total Pass2) with 98304%Z. lia.
  - exists m', c'. split; [exact E|exact P].
Defined.
