(* ===== verification/Yespower.v ===== *)
(** * yespower

    [yespower-platform.c] (the region of memory), the function [yespower] and
    its thread-local wrapper from [yespower-opt.c], and [yespower_hash] from
    [yespower.c].  The operating system is a parameter: [mmap] and [munmap]
    with their documented behaviour, the class [Platform].  The contents of a
    region are kept with it, and calls keep whatever earlier calls left there. *)
From S2P Require Import Prelude Sysendian Sha256 Hmac Simd Mem Pwxform Blockmix Smix.

(** ** Memory of the platform *)
Class Platform := {
  os : Type;
  (** [mmap (NULL, size, ..., flags, -1, 0)]: the address and the contents of a
      new mapping, or [None] for [MAP_FAILED]; the flag is [MAP_HUGETLB]. *)
  mmap : os → Z → bool → option (Z * mem) * os;
  (** [munmap (base, size)]: [true] when it returns 0. *)
  munmap : os → Z → Z → bool * os
}.

(** A mapping starts on a page and covers the size asked for. *)
Class PlatformLaws (P : Platform) : Prop := {
  mmap_page : ∀ s size huge a m s', mmap s size huge = (Some (a, m), s') → (4096 | a)%Z ∧ (0 < a)%Z;
  mmap_covers : ∀ s size huge a m s', mmap s size huge = (Some (a, m), s') → allocated m a size;
  mmap_bytes : ∀ s size huge a m s', mmap s size huge = (Some (a, m), s') → mem_wf m
}.

Record yespower_region_t := mkRegion {
  rg_base : option Z; rg_aligned : option Z;   (* void *base, *aligned; None is NULL *)
  rg_base_size : Z; rg_aligned_size : Z;       (* size_t *)
  rg_mem : mem                                 (* what the mapping holds *)
}.
Abbreviation yespower_local_t := yespower_region_t.

Definition HUGEPAGE_THRESHOLD : Z := 12 * 1024 * 1024.
Definition HUGEPAGE_SIZE : Z := 2 * 1024 * 1024.

Definition init_region : yespower_region_t := mkRegion None None 0 0 ∅.

Section Region.
Context `{P : Platform}.

(** The Linux x86-64 build ([MAP_ANON], [MAP_HUGETLB]). *)
Definition alloc_region (size : Z) (s : os) : option Z * yespower_region_t * os :=
  let hugepage_mask := (HUGEPAGE_SIZE - 1)%Z in
  let huge := (HUGEPAGE_THRESHOLD <=? size)%Z && (size <=? u64 (size + hugepage_mask))%Z in
  let new_size := if huge then Z.land (u64 (size + hugepage_mask)) (Z.lnot hugepage_mask) else size in
  let '(r1, s) := mmap s new_size huge in
  let '(base, base_size, s) :=
    match r1 with
    | Some am => (Some am, new_size, s)
    | None => if huge then let '(r2, s) := mmap s size false in (r2, size, s) else (None, size, s)
    end in
  match base with
  | Some (a, m) => (Some a, mkRegion (Some a) (Some a) base_size size m, s)
  | None => (None, mkRegion None None 0 0 ∅, s)
  end.

(** [Some region] for return value 0; on failure the region is unchanged. *)
Definition free_region (region : yespower_region_t) (s : os) : option yespower_region_t * os :=
  match rg_base region with
  | Some b =>
      let '(ok, s) := munmap s b (rg_base_size region) in
      if ok then (Some init_region, s) else (None, s)
  | None => (Some init_region, s)
  end.
End Region.

(** ** Bytes of a region *)
Definition lane_of_bytes (l : list Z) : m128i :=
  let w i := host_word (take 4 (drop (4 * i) l)) in M128 (w 0) (w 1) (w 2) (w 3).
Definition bytes_of_lane (x : m128i) : list Z := lane_w x ≫= host_bytes.

(** [n] lanes of bytes, from and to the address [a]. *)
Fixpoint load_bytes (n : nat) (a : Z) : M (list Z) :=
  match n with
  | O => mret []
  | S n => x ← load a; l ← load_bytes n (a + 16); mret (bytes_of_lane x ++ l)
  end.
Fixpoint store_bytes (n : nat) (a : Z) (l : list Z) : M unit :=
  match n with
  | O => mret tt
  | S n => store a (lane_of_bytes (take 16 l));; store_bytes n (a + 16) (drop 16 l)
  end.

(** ** Parameters *)
Definition YESPOWER_0_5 : Z := 5.
Definition YESPOWER_1_0 : Z := 10.

Record yespower_params_t := mkParams {
  version : Z; pN : Z; pr : Z;
  pers : option (list Z);   (* const uint8_t *pers *)
  perslen : Z
}.

Definition params_ok (params : yespower_params_t) : bool :=
  negb ((negb (version params =? YESPOWER_0_5)%Z && negb (version params =? YESPOWER_1_0)%Z)
        || (pN params <? 256)%Z || (512 * 1024 <? pN params)%Z
        || (pr params <? 8)%Z || (32 <? pr params)%Z
        || negb (Z.land (pN params) (pN params - 1) =? 0)%Z
        || (match pers params with None => true | Some _ => false end && negb (perslen params =? 0)%Z)).

(** The bytes [pers[0 .. perslen - 1]]. *)
Definition pers_bytes (params : yespower_params_t) : option (list Z) :=
  take (Z.to_nat (perslen params)) <$> pers params.

(** Sizes of the four arrays. *)
Definition pass_of (params : yespower_params_t) : pass :=
  if (version params =? YESPOWER_0_5)%Z then Pass1 else Pass2.
Definition B_size (params : yespower_params_t) : Z := 128 * pr params.
Definition V_bytes (params : yespower_params_t) : Z := B_size params * pN params.
Definition XY_size (params : yespower_params_t) : Z :=
  match pass_of params with Pass1 => B_size params * 2 | Pass2 => B_size params + 64 end.
Definition ctx_bytes (params : yespower_params_t) : Z :=
  match pass_of params with
  | Pass1 => 2 * Swidth_to_Sbytes1 Swidth_0_5
  | Pass2 => 3 * Swidth_to_Sbytes1 Swidth_1_0
  end.
Definition need (params : yespower_params_t) : Z :=
  u64 (B_size params + V_bytes params + XY_size params + ctx_bytes params).

(** What the hash functions find on their stacks, per call. *)
Record stack := mkStack { st_ctx : SHA256_CTX; st_hctx : HMAC_SHA256_CTX;
                          st_Phctx : HMAC_SHA256_CTX; st_tmp : tmp32_t }.

(** A failing assertion in a callee has no result. *)
Definition lift {A} (o : option A) : M A := λ m, match o with Some a => Some (a, m) | None => None end.

(** The computation of [yespower] once memory is available at [B]. *)
Definition yespower_body (stk : nat → stack) (B : Z) (src : list Z) (params : yespower_params_t)
    : M (list Z) :=
  let V := (B + B_size params)%Z in
  let XY := (V + V_bytes params)%Z in
  let Sp := (XY + XY_size params)%Z in
  let pbkdf2 i P salt out n :=
    lift (PBKDF2_SHA256 (st_hctx (stk i)) (st_Phctx (stk i)) (st_tmp (stk i)) P salt 1 out n) in
  let sha256 := SHA256_Buf (st_ctx (stk 0)) (st_tmp (stk 0)) src in
  match pass_of params with
  | Pass1 =>
      let S1 := (Sp + Swidth_to_Sbytes1 Swidth_0_5)%Z in
      let lanes := Z.to_nat (B_size params `div` 16) in
      old ← load_bytes lanes B;
      b ← pbkdf2 1 sha256 src old (Z.to_nat (B_size params));
      store_bytes lanes B b;;
      let sha256 := take 32 b in
      smix Pass1 B (pr params) (pN params) V XY (mkPwxform_ctx Sp S1 0 0 (ctx_bytes params));;
      b ← load_bytes lanes B;
      dst ← pbkdf2 2 sha256 b (replicate 32 0%Z) 32;
      match pers_bytes params with
      | Some p =>
          let sha256 := HMAC_SHA256_Buf (st_hctx (stk 3)) (st_tmp (stk 3)) dst p in
          mret (SHA256_Buf (st_ctx (stk 4)) (st_tmp (stk 4)) sha256)
      | None => mret dst
      end
  | Pass2 =>
      let S1 := (Sp + Swidth_to_Sbytes1 Swidth_1_0)%Z in
      let S2 := (Sp + 2 * Swidth_to_Sbytes1 Swidth_1_0)%Z in
      let salt := default [] (pers_bytes params) in
      old ← load_bytes 8 B;
      b ← pbkdf2 1 sha256 salt old 128;
      store_bytes 8 B b;;
      let sha256 := take 32 b in
      smix Pass2 B (pr params) (pN params) V XY (mkPwxform_ctx Sp S1 S2 0 (ctx_bytes params));;
      k ← load_bytes 4 (B + B_size params - 64)%Z;
      mret (HMAC_SHA256_Buf (st_hctx (stk 2)) (st_tmp (stk 2)) k sha256)
  end.

Section Hash.
Context `{P : Platform}.

(** [None]: an access outside the region.  Otherwise the return value ([None]
    for -1, [Some dst] for 0), the local region and the system after the call. *)
Definition yespower (stk : nat → stack) (local : yespower_local_t) (s : os)
    (src : list Z) (params : yespower_params_t)
    : option (option (list Z) * yespower_local_t * os) :=
  if negb (params_ok params) then Some (None, local, s) else
  let run local s :=
    match rg_aligned local with
    | None => None
    | Some B =>
        match yespower_body stk B src params (rg_mem local) with
        | None => None
        | Some (dst, m) =>
            Some (Some dst, mkRegion (rg_base local) (rg_aligned local) (rg_base_size local)
                              (rg_aligned_size local) m, s)
        end
    end in
  if (rg_aligned_size local <? need params)%Z then
    match free_region local s with
    | (None, s) => Some (None, local, s)
    | (Some local, s) =>
        match alloc_region (need params) s with
        | (None, local, s) => Some (None, local, s)
        | (Some _, local, s) => run local s
        end
    end
  else run local s.

(** Thread-local state of [yespower_tls]: [initialized] and [local]. *)
Record tls := mkTls { initialized : bool; tl_local : yespower_local_t }.

Definition yespower_init_local : yespower_local_t := init_region.
Definition yespower_free_local (local : yespower_local_t) (s : os) : option yespower_local_t * os :=
  free_region local s.

Definition yespower_tls (stk : nat → stack) (t : tls) (s : os) (src : list Z)
    (params : yespower_params_t) : option (option (list Z) * tls * os) :=
  let local := if initialized t then tl_local t else yespower_init_local in
  match yespower stk local s src params with
  | None => None
  | Some (ret, local, s) => Some (ret, mkTls true local, s)
  end.

Definition korsh_yespower_0_5 : yespower_params_t :=
  mkParams YESPOWER_0_5 4096 32
    (Some [0x57; 0x61; 0x76; 0x69; 0x42; 0x61; 0x6e; 0x61; 0x6e; 0x61]%Z) 10.
Definition korsh_yespower_1_0 : yespower_params_t := mkParams YESPOWER_1_0 256 8 None 0.

(** [input] is the 80-byte block header. *)
Definition yespower_hash (stk : nat → stack) (t : tls) (s : os) (input : list Z)
    : option (option (list Z) * tls * os) :=
  let time := le32dec (drop 68 input) in
  if (1546539305 <? time)%Z
  then yespower_tls stk t s (take 80 input) korsh_yespower_1_0
  else yespower_tls stk t s (take 80 input) korsh_yespower_0_5.
End Hash.
