(* ===== verification/YespowerCorrect.v ===== *)
(** * yespower: correctness, memory safety and independence of stale memory *)
From S2P Require Import Prelude Sysendian Sha256 Sha256Spec Sha256Correct Hmac HmacCorrect Simd Salsa20 Mem.
From S2P Require Import Pwxform PwxformCorrect Blockmix BlockmixCorrect Smix SmixCorrect SmixMain Yespower.

(** ** Reference definition *)

(** The [n] lanes, and the blocks, of a byte string, and back. *)
Fixpoint lanes_of_bytes (n : nat) (l : list Z) : list m128i :=
  match n with
  | O => []
  | S n => lane_of_bytes (take 16 l) :: lanes_of_bytes n (drop 16 l)
  end.
Fixpoint row_of_lanes (k : nat) (l : list m128i) : row :=
  match k, l with
  | S k, a :: b :: c :: d :: l => Blk a b c d :: row_of_lanes k l
  | _, _ => []
  end.
Definition row_of_bytes (k : nat) (l : list Z) : row := row_of_lanes k (lanes_of_bytes (4 * k) l).
Definition bytes_of_lanes (l : list m128i) : list Z := l ≫= bytes_of_lane.
Definition bytes_of_row (B : row) : list Z := bytes_of_lanes (B ≫= blk_q).

(** yespower 0.5 and 1.0 of the message [src]. *)
Definition yespower_ref (params : yespower_params_t) (src : list Z) : list Z :=
  let h := sha256 src in
  let r := Z.to_nat (pr params) in
  let N := Z.to_nat (pN params) in
  match pass_of params with
  | Pass1 =>
      let b := pbkdf2 h src 1 (128 * r) in
      let B := smix_ref Pass1 r N (row_of_bytes (2 * r) b) in
      let dst := pbkdf2 (take 32 b) (bytes_of_row B) 1 32 in
      match pers_bytes params with Some p => sha256 (hmac dst p) | None => dst end
  | Pass2 =>
      let b := pbkdf2 h (default [] (pers_bytes params)) 1 128 in
      let B := smix_ref Pass2 r N (row_of_bytes 2 b) in
      hmac (bytes_of_lanes (blk_q (last_blk B))) (take 32 b)
  end.

(** ** Bytes and lanes *)
Lemma length_lanes_of_bytes n l : length (lanes_of_bytes n l) = n.
Proof. revert l. induction n; intros; cbn; auto. Qed.

Lemma bytes_drop n l : bytes l → bytes (drop n l).
Proof. apply Forall_drop. Qed.
Lemma bytes_take n l : bytes l → bytes (take n l).
Proof. apply Forall_take. Qed.

Lemma host_word_width l : bytes l → is_u32 (host_word (take 4 l)).
Proof.
  intros Hb. pose proof (bytes_take 4 l Hb) as Ht. unfold host_word. split; [by apply le_val_nonneg|].
  eapply Z.lt_le_trans; [by apply le_val_bound|]. rewrite length_take.
  change (2 ^ 32)%Z with (256 ^ 4)%Z. apply Z.pow_le_mono_r; lia.
Qed.
Lemma wf_lane_of_bytes l : bytes l → wf_m128i (lane_of_bytes l).
Proof. intros Hb. unfold lane_of_bytes, wf_m128i. cbn [e0 e1 e2 e3]. split_and!; by apply host_word_width, bytes_drop. Qed.
Lemma wf_lanes_of_bytes n l : bytes l → Forall wf_m128i (lanes_of_bytes n l).
Proof.
  revert l. induction n as [|n IH]; intros l Hb; [constructor|]. cbn. constructor.
  - by apply wf_lane_of_bytes, bytes_take.
  - by apply IH, bytes_drop.
Qed.

Lemma bytes_bytes_of_lanes l : bytes (bytes_of_lanes l).
Proof.
  unfold bytes_of_lanes. apply Forall_bind, Forall_forall. intros x _. unfold bytes_of_lane.
  apply Forall_bind, Forall_forall. intros w _. apply le_bytes_bytes.
Qed.

Lemma row_of_lanes_q k l : length l = 4 * k → row_of_lanes k l ≫= blk_q = l.
Proof.
  revert l. induction k as [|k IH]; intros l Hl; [by destruct l|].
  do 4 (destruct l as [|? l]; [cbn in Hl; lia|]). cbn [row_of_lanes]. rewrite bind_cons, IH; [done|].
  cbn in Hl. lia.
Qed.
Lemma wf_row_of_lanes k l r : k = 2 * r → length l = 4 * k → Forall wf_m128i l → wf_row r (row_of_lanes k l).
Proof.
  intros -> Hl Hw. assert (length (row_of_lanes (2 * r) l) = 2 * r ∧ Forall wf_blk (row_of_lanes (2 * r) l)); [|done].
  revert Hl Hw. generalize (2 * r) as k. clear r. intros k. revert l.
  induction k as [|k IH]; intros l Hl Hw; [done|].
  do 4 (destruct l as [|? l]; [cbn in Hl; lia|]). rewrite !Forall_cons in Hw. destruct_and! Hw.
  cbn [row_of_lanes length]. destruct (IH l) as [-> ?]; [cbn in Hl; lia|done|]. by split; [|constructor].
Qed.

Lemma load_bytes_spec m a L : lanes_at m a L →
  load_bytes (length L) a m = Some (bytes_of_lanes L, m).
Proof.
  revert a. induction L as [|x L IH]; intros a HL; [done|]. apply lanes_at_cons in HL as [Hx HL].
  cbn [load_bytes length]. step (load_spec _ _ _ Hx). by step (IH _ HL).
Qed.

Lemma store_bytes_spec n : ∀ m a l, allocated m a (16 * Z.of_nat n) → bytes l →
  ∃ m', store_bytes n a l m = Some (tt, m') ∧ lanes_at m' a (lanes_of_bytes n l) ∧
    modifies (in_range a (16 * Z.of_nat n)) m m'.
Proof.
  induction n as [|n IH]; intros m a l HA Hb.
  { exists m. split_and!; [done|apply lanes_at_nil|done]. }
  cbn [store_bytes lanes_of_bytes].
  destruct (store_spec m a (lane_of_bytes (take 16 l))) as [E1 M1].
  { specialize (HA 0%Z). rewrite Z.mul_0_r, Z.add_0_r in HA. apply HA; lia. }
  { by apply wf_lane_of_bytes, bytes_take. }
  step E1. destruct (IH (<[a:=lane_of_bytes (take 16 l)]> m) (a + 16)%Z (drop 16 l)) as (m' & -> & HL & M2).
  { eapply modifies_allocated; [exact M1|]. eapply allocated_sub; [exact HA|exists 1%Z; lia|lia|lia]. }
  { by apply bytes_drop. }
  exists m'. split_and!; [done| |].
  - apply lanes_at_cons. split; [|done]. destruct M2 as [HF _].
    rewrite HF by range. apply lookup_insert_eq.
  - eapply modifies_trans; [eapply modifies_weaken; [exact M1|]|eapply modifies_weaken; [exact M2|range]].
    intros x <-. range.
Qed.

(** Allocated memory holds some lanes. *)
Lemma allocated_lanes m n : ∀ a, mem_wf m → allocated m a (16 * Z.of_nat n) →
  ∃ L, length L = n ∧ Forall wf_m128i L ∧ lanes_at m a L.
Proof.
  induction n as [|n IH]; intros a Hw HA.
  { exists []. split_and!; [done|constructor|apply lanes_at_nil]. }
  destruct (HA 0%Z) as [x Hx]; [lia..|]. rewrite Z.mul_0_r, Z.add_0_r in Hx.
  destruct (IH (a + 16)%Z) as (L & HL & HW & Hat); [done| |].
  { eapply allocated_sub; [exact HA|exists 1%Z; lia|lia|lia]. }
  exists (x :: L). split_and!; [cbn; lia|constructor; [by eapply Hw|done]|]. by apply lanes_at_cons.
Qed.
Lemma allocated_row m r a : mem_wf m → allocated m a (rs r) →
  ∃ Bs, wf_row r Bs ∧ blks_at m a Bs.
Proof.
  intros Hw HA. destruct (allocated_lanes m (8 * r) a) as (L & HL & HWL & Hat); [done| |].
  { by replace (16 * Z.of_nat (8 * r))%Z with (rs r) by (unfold rs; lia). }
  exists (row_of_lanes (2 * r) L). split; [apply wf_row_of_lanes; [done|lia|done]|].
  apply blks_lanes. by rewrite row_of_lanes_q by lia.
Qed.

(** In version 1.0 only the first two blocks of [B] matter. *)
Lemma fill_salsa v n st : f_sb st = None → 0 < n →
  length (f_X (Nat.iter n (fill_step v) st)) = 2 ∧ f_sb (Nat.iter n (fill_step v) st) = None.
Proof.
  intros Hs. destruct n as [|n]; [lia|]. intros _.
  assert (∀ st, f_sb st = None → length (f_X (fill_step v st)) = 2 ∧ f_sb (fill_step v st) = None) as H1.
  { intros [V X sb] [= ->]. done. }
  induction n as [|n [_ IH]]; [by apply H1|]. rewrite Nat.iter_succ. by apply H1.
Qed.

Lemma smix_ref_pass2_ext r N B B' : take 2 B = take 2 B' → smix_ref Pass2 r N B = smix_ref Pass2 r N B'.
Proof.
  intros E. unfold smix_ref. rewrite E.
  destruct (smix1_ref Pass2 1 (S_rows Pass2) (take 2 B') None) as [[B2 SV] osb] eqn:E1.
  assert (length B2 = 2) as HB2.
  { assert (0 < S_rows Pass2) as Hn by (by apply Nat.ltb_lt). revert E1 Hn.
    generalize (S_rows Pass2) as n. intros n E1 Hn. unfold smix1_ref in E1.
    cbn [first_row expand Nat.sub] in E1.
    pose proof (fill_salsa Pass2 n (mkFill [] (shuffle_row (take 2 (take 2 B'))) None) eq_refl Hn) as [HL _].
    destruct (Nat.iter n (fill_step Pass2) _) as [V' X' sb']. injection E1 as <- _ _.
    unfold unshuffle_row. by rewrite length_fmap. }
  assert (∀ k sb, smix1_ref Pass2 r N (B2 ++ k) sb = smix1_ref Pass2 r N B2 sb) as Ek.
  { intros k sb. unfold smix1_ref, first_row. by rewrite take_app_length', (take_ge B2) by lia. }
  by rewrite !Ek.
Qed.

(** ** The region *)
Section Sizes.
Context (params : yespower_params_t).
Hypothesis Hok : params_ok params = true.
Local Abbreviation v := (pass_of params).
Local Abbreviation r := (Z.to_nat (pr params)).
Local Abbreviation N := (Z.to_nat (pN params)).

Lemma params_bounds :
  (256 <= pN params <= 512 * 1024)%Z ∧ (8 <= pr params <= 32)%Z ∧ Z.land (pN params) (pN params - 1) = 0%Z.
Proof using All.
  revert Hok. unfold params_ok. rewrite negb_true_iff, !orb_false_iff.
  intros (((((( _ & H1) & H2) & H3) & H4) & H5) & _).
  apply negb_false_iff in H5. lia.
Qed.

(** A positive number with [N & (N - 1) = 0] is a power of two. *)
Lemma pow2_land n : (0 < n)%Z → Z.land n (n - 1) = 0%Z → n = (2 ^ Z.log2 n)%Z.
Proof using.
  intros Hn Hl. pose proof (Z.log2_spec n Hn) as [H1 H2]. pose proof (Z.log2_nonneg n).
  destruct (Z.eq_dec n (2 ^ Z.log2 n)%Z) as [|Hne]; [done|exfalso].
  assert (Z.testbit (Z.land n (n - 1)) (Z.log2 n) = true) as Hb.
  { rewrite Z.land_spec, Z.bit_log2 by done. cbn [andb].
    replace (Z.log2 n) with (Z.log2 (n - 1)); [apply Z.bit_log2; lia|].
    apply Z.log2_unique; lia. }
  by rewrite Hl, Z.testbit_0_l in Hb.
Qed.

Lemma N_pow2 : ∃ p, N = 2 ^ p ∧ 8 ≤ p ≤ 30.
Proof using All.
  destruct params_bounds as (H1 & _ & H3). exists (Z.to_nat (Z.log2 (pN params))).
  pose proof (pow2_land (pN params) ltac:(lia) H3) as E. pose proof (Z.log2_nonneg (pN params)).
  assert (Z.log2 256 <= Z.log2 (pN params))%Z by (apply Z.log2_le_mono; lia).
  assert (Z.log2 (pN params) <= Z.log2 (512 * 1024))%Z by (apply Z.log2_le_mono; lia).
  change (Z.log2 256) with 8%Z in *. change (Z.log2 (512 * 1024)) with 19%Z in *.
  split; [|lia]. rewrite E at 1. apply Nat2Z.inj. rewrite Nat2Z.inj_pow, !Z2Nat.id by lia. done.
Qed.

Lemma size_eqs : B_size params = rs r ∧ V_bytes params = V_size r N ∧
  XY_size params = XY_need v r ∧ ctx_bytes params = S_total v.
Proof using All.
  destruct params_bounds as (H1 & H2 & _).
  assert (B_size params = rs r) as E by (unfold B_size, rs; lia).
  split_and!; [done|unfold V_bytes, V_size; rewrite E; lia| |].
  - unfold XY_size, XY_need. rewrite E. destruct v; lia.
  - unfold ctx_bytes. by destruct v.
Qed.

Lemma need_eq : need params = (rs r + V_size r N + XY_need v r + S_total v)%Z ∧ (need params < 2 ^ 32)%Z.
Proof using All.
  destruct params_bounds as (H1 & H2 & _). destruct size_eqs as (EB & EV & EX & EC).
  assert (0 < rs r <= 4096)%Z by (unfold rs; lia).
  assert (0 < V_size r N <= 4096 * (512 * 1024))%Z by (unfold V_size; nia).
  assert (0 < XY_need v r <= 2 * 4096)%Z by (unfold XY_need; destruct v; lia).
  assert (0 < S_total v <= 98304)%Z by (destruct v; vm_compute; split; congruence).
  unfold need. rewrite EB, EV, EX, EC, u64_id by (unfold in_width; lia). lia.
Qed.

Lemma layout_ok B : layout v r N B (B + B_size params) (B + B_size params + V_bytes params)
  (B + B_size params + V_bytes params + XY_size params).
Proof using All.
  destruct size_eqs as (-> & -> & -> & _). destruct params_bounds as (H1 & H2 & _).
  assert (0 < rs r)%Z by (unfold rs; lia). assert (0 < V_size r N)%Z by (unfold V_size; nia).
  assert (0 < XY_need v r)%Z by (unfold XY_need; destruct v; lia). pose proof (S_total_pos v).
  split; range.
Qed.
End Sizes.

(** ** The computation *)
Lemma pbkdf2_F_bytes c P U T : bytes U → bytes T → bytes (pbkdf2_F c P U T).
Proof.
  revert U T. induction c as [|c IH]; intros U T HU HT; [done|]. cbn [pbkdf2_F].
  apply IH; [apply hmac_bytes|]. apply bytes_zip_lxor; [done|apply hmac_bytes].
Qed.
Lemma pbkdf2_bytes P salt c n : bytes (pbkdf2 P salt c n).
Proof.
  unfold pbkdf2, pbkdf2_blocks. apply Forall_take, Forall_bind, Forall_forall. intros i _.
  apply pbkdf2_F_bytes; apply hmac_bytes.
Qed.
Lemma length_pbkdf2 P salt c n : length (pbkdf2 P salt c n) = n.
Proof.
  unfold pbkdf2. rewrite length_take, length_pbkdf2_blocks.
  pose proof (Nat.div_mod_eq (n + 31) 32). pose proof (Nat.mod_upper_bound (n + 31) 32). lia.
Qed.
Lemma length_bytes_of_lanes L : length (bytes_of_lanes L) = 16 * length L.
Proof.
  induction L as [|x L IH]; [done|]. unfold bytes_of_lanes in *. rewrite bind_cons, length_app, IH.
  cbn [length]. assert (length (bytes_of_lane x) = 16) by reflexivity. lia.
Qed.

Record wf_stack (st : stack) : Prop := {
  ws_ctx : length (buf (st_ctx st)) = 64;
  ws_hctx : wf_hmac (st_hctx st);
  ws_Phctx : wf_hmac (st_Phctx st);
  ws_tmp : wf_tmp32 (st_tmp st)
}.

(** [PBKDF2_SHA256] into a buffer of exactly [n] bytes. *)
Lemma pbkdf2_call st P salt old n m : wf_stack st → bytes P → bytes salt →
  length old = n → (Z.of_nat n <= 2 ^ 32)%Z →
  lift (PBKDF2_SHA256 (st_hctx st) (st_Phctx st) (st_tmp st) P salt 1 old n) m
  = Some (pbkdf2 P salt 1 n, m).
Proof.
  intros [W1 W2 W3 W4] HP Hs Hl Hn. unfold lift.
  rewrite PBKDF2_SHA256_spec by (done || lia). by rewrite drop_ge, app_nil_r by lia.
Qed.

Section Body.
Context (stk : nat → stack) (src : list Z) (params : yespower_params_t).
Hypothesis Hstk : ∀ i, wf_stack (stk i).
Hypothesis Hsrc : bytes src.
Hypothesis Hpers : ∀ p, pers params = Some p → bytes p.
Hypothesis Hok : params_ok params = true.
Local Abbreviation v := (pass_of params).
Local Abbreviation r := (Z.to_nat (pr params)).
Local Abbreviation N := (Z.to_nat (pN params)).

Lemma pers_bytes_bytes p : pers_bytes params = Some p → bytes p.
Proof using All.
  unfold pers_bytes. destruct (pers params) as [q|] eqn:E; [|done]. intros [= <-].
  by apply Forall_take, Hpers.
Qed.

(** The four arrays are inside the region. *)
Lemma arrays_allocated B m : allocated m B (need params) →
  let V := (B + B_size params)%Z in let XY := (V + V_bytes params)%Z in
  let Sp := (XY + XY_size params)%Z in
  allocated m B (rs r) ∧ allocated m V (V_size r N) ∧ allocated m XY (XY_need v r) ∧
  allocated m Sp (S_total v) ∧
  (∀ x, region_writes v r N B V XY Sp x → in_range B (need params) x).
Proof using All.
  intros HA V XY Sp. destruct (need_eq params Hok) as [EN _]. destruct (size_eqs params Hok) as (EB & EV & EX & _).
  destruct (params_bounds params Hok) as (H1 & H2 & _). subst V XY Sp. rewrite EB, EV, EX.
  assert (0 < rs r)%Z by (unfold rs; lia). assert (0 < V_size r N)%Z by (unfold V_size; nia).
  assert (0 < XY_need v r)%Z by (unfold XY_need; destruct v; lia). pose proof (S_total_pos v).
  assert (16 | rs r)%Z as D1 by (exists (8 * Z.of_nat r)%Z; unfold rs; lia).
  assert (16 | V_size r N)%Z as D2 by (apply Z.divide_mul_l; done).
  assert (16 | XY_need v r)%Z as D3.
  { unfold XY_need. destruct v; [by apply Z.divide_mul_r|apply Z.divide_add_r; [done|by exists 4%Z]]. }
  split_and!; [eapply allocated_sub; [exact HA|..|lia]..|unfold region_writes; range]; try lia.
  - by exists 0%Z; lia.
  - by replace (B + rs r - B)%Z with (rs r) by lia.
  - replace (B + rs r + V_size r N - B)%Z with (rs r + V_size r N)%Z by lia. by apply Z.divide_add_r.
  - replace (B + rs r + V_size r N + XY_need v r - B)%Z with (rs r + V_size r N + XY_need v r)%Z by lia.
    apply Z.divide_add_r; [by apply Z.divide_add_r|done].
Qed.

(** Filling the start of [B] with derived bytes and mixing. *)
Lemma mix_region B m n b ctx k :
  allocated m B (need params) → mem_wf m → k = 2 * n → 0 < n ≤ r → bytes b →
  ctx_init v (B + B_size params + V_bytes params + XY_size params) ctx →
  (v = Pass1 → n = r) → (v = Pass2 → n = 1) →
  ∃ m' c' m1, store_bytes (4 * k) B b m = Some (tt, m1) ∧
    smix v B (pr params) (pN params) (B + B_size params) (B + B_size params + V_bytes params) ctx m1
      = Some (c', m') ∧
    blks_at m' B (smix_ref v r N (row_of_bytes k b)) ∧ wf_row r (smix_ref v r N (row_of_bytes k b)) ∧
    modifies (in_range B (need params)) m m'.
Proof using All.
  intros HA Hm Hk Hn Hb Hc H1 H2. destruct (arrays_allocated B m HA) as (AB & AV & AX & AS & HW).
  destruct (params_bounds params Hok) as (HN & Hr & _).
  destruct (store_bytes_spec (4 * k) m B b) as (m1 & E1 & L1 & M1); [|done|].
  { eapply allocated_sub; [exact AB|by exists 0%Z; lia|lia|]. unfold rs. lia. }
  assert (mem_wf m1) as Hm1 by (by apply M1).
  destruct (allocated_row m1 r B Hm1) as (Bs & [HLs HWs] & HBs); [by eapply modifies_allocated|].
  assert (length (lanes_of_bytes (4 * k) b) = 4 * k) as HL4 by apply length_lanes_of_bytes.
  assert (blks_at m1 B (row_of_bytes k b)) as HBk.
  { apply blks_lanes. unfold row_of_bytes. by rewrite row_of_lanes_q. }
  assert (wf_row n (row_of_bytes k b)) as [HLk HWk]
    by (apply wf_row_of_lanes; [done|done|by apply wf_lanes_of_bytes]).
  set (Bs' := row_of_bytes k b ++ drop k Bs).
  assert (blks_at m1 B Bs') as HB'.
  { apply blks_at_app. split; [done|]. rewrite HLk. rewrite <-(take_drop k Bs) in HBs.
    apply blks_at_app in HBs as [_ HBs]. rewrite length_take, Nat.min_l in HBs by lia. by subst k. }
  assert (wf_row r Bs') as HWr.
  { split; [unfold Bs'; rewrite length_app, length_drop; lia|].
    apply Forall_app. split; [done|by apply Forall_drop]. }
  destruct (N_pow2 params Hok) as (p & HNp & Hp).
  destruct (smix_spec v r N p B (B + B_size params) (B + B_size params + V_bytes params)
    (B + B_size params + V_bytes params + XY_size params)) with (m := m1) (ctx := ctx) (Bs := Bs')
    as (m2 & c2 & E2 & P2 & W2 & M2); try done; try lia; try (by eapply modifies_allocated).
  { by apply layout_ok. }
  rewrite !Z2Nat.id in E2 by lia.
  assert (smix_ref v r N Bs' = smix_ref v r N (row_of_bytes k b)) as <-.
  { destruct (decide (v = Pass1)) as [E|E].
    - specialize (H1 E). unfold Bs'. rewrite (drop_ge Bs), app_nil_r by lia. done.
    - assert (v = Pass2) as E' by (by destruct v). rewrite E'. apply smix_ref_pass2_ext.
      specialize (H2 E'). unfold Bs'. rewrite take_app_length', (take_ge (row_of_bytes k b)) by lia. done. }
  exists m2, c2, m1. split_and!; try done.
  eapply modifies_trans; [|eapply modifies_weaken; [exact M2|done]].
  eapply modifies_weaken; [exact M1|]. intros x Hx. apply HW. left. unfold rs. range.
Qed.

Lemma bytes_of_last_row m B Bs : wf_row r Bs → blks_at m B Bs →
  load_bytes 4 (B + B_size params - 64) m = Some (bytes_of_lanes (blk_q (last_blk Bs)), m).
Proof using All.
  intros [HL HW] HB. destruct (params_bounds params Hok) as (_ & Hr & _).
  destruct (size_eqs params Hok) as (EB & _).
  change 4 with (length (blk_q (last_blk Bs))). apply load_bytes_spec.
  replace (B + B_size params - 64)%Z with (B + 64 * Z.of_nat (2 * r - 1))%Z
    by (rewrite EB; unfold rs; lia).
  apply HB. apply last_blk_lookup. lia.
Qed.

Lemma yespower_body_spec B m : allocated m B (need params) → mem_wf m →
  ∃ m', yespower_body stk B src params m = Some (yespower_ref params src, m') ∧
    modifies (in_range B (need params)) m m'.
Proof using All.
  intros HA Hm. destruct (params_bounds params Hok) as (HN & Hr & _).
  destruct (arrays_allocated B m HA) as (AB & _). destruct (size_eqs params Hok) as (EB & _ & _ & EC).
  assert (bytes (sha256 src)) as Hsha by apply sha256_bytes.
  unfold yespower_body, yespower_ref. rewrite SHA256_Buf_spec by (done || apply Hstk).
  destruct v eqn:Ev.
  - replace (Z.to_nat (B_size params `div` 16)) with (8 * r).
    2:{ rewrite EB. unfold rs. replace (128 * Z.of_nat r)%Z with (Z.of_nat (8 * r) * 16)%Z by lia.
        rewrite Z.div_mul by lia. lia. }
    replace (Z.to_nat (B_size params)) with (128 * r) by (rewrite EB; unfold rs; lia).
    destruct (allocated_lanes m (8 * r) B) as (L & HL & HWL & Hat); [done| |].
    { by replace (16 * Z.of_nat (8 * r))%Z with (rs r) by (unfold rs; lia). }
    pose proof (load_bytes_spec m B L Hat) as EL. rewrite HL in EL. step EL.
    erewrite run_bind by (apply pbkdf2_call; [done|done|done|rewrite length_bytes_of_lanes; lia|lia]).
    set (b := pbkdf2 (sha256 src) src 1 (128 * r)).
    destruct (mix_region B m r b
      (mkPwxform_ctx (B + B_size params + V_bytes params + XY_size params)
        (B + B_size params + V_bytes params + XY_size params + Swidth_to_Sbytes1 Swidth_0_5) 0 0
        (ctx_bytes params)) (2 * r)) as (m2 & c2 & m1 & E1 & E2 & P2 & W2 & M2);
      rewrite ?Ev; try done; try lia; [apply pbkdf2_bytes|].
    rewrite Ev in *. replace (4 * (2 * r)) with (8 * r) in E1 by lia. step E1. step E2.
    apply blks_lanes in P2. pose proof (load_bytes_spec _ _ _ P2) as EL2.
    rewrite length_bind_blk_q in EL2. destruct W2 as [HLo HWo]. rewrite HLo in EL2.
    replace (4 * (2 * r)) with (8 * r) in EL2 by lia. step EL2.
    erewrite run_bind by (apply pbkdf2_call; [done|apply Forall_take, pbkdf2_bytes
      |apply bytes_bytes_of_lanes|done|lia]).
    exists m2. split; [|exact M2]. unfold bytes_of_row.
    destruct (pers_bytes params) as [p|] eqn:Ep; [|reflexivity].
    rewrite HMAC_SHA256_Buf_spec by (apply Hstk || apply pbkdf2_bytes || by eapply pers_bytes_bytes).
    rewrite SHA256_Buf_spec by (apply Hstk || apply hmac_bytes). reflexivity.
  - destruct (allocated_lanes m 8 B) as (L & HL & HWL & Hat); [done| |].
    { eapply allocated_sub; [exact AB|by exists 0%Z; lia|lia|unfold rs; lia]. }
    pose proof (load_bytes_spec m B L Hat) as EL. rewrite HL in EL. step EL.
    assert (bytes (default [] (pers_bytes params))) as Hsalt.
    { destruct (pers_bytes params) as [p|] eqn:Ep; [by eapply pers_bytes_bytes|constructor]. }
    erewrite run_bind by (apply pbkdf2_call; [done|done|done|rewrite length_bytes_of_lanes; lia|lia]).
    set (b := pbkdf2 (sha256 src) (default [] (pers_bytes params)) 1 128).
    destruct (mix_region B m 1 b
      (mkPwxform_ctx (B + B_size params + V_bytes params + XY_size params)
        (B + B_size params + V_bytes params + XY_size params + Swidth_to_Sbytes1 Swidth_1_0)
        (B + B_size params + V_bytes params + XY_size params + 2 * Swidth_to_Sbytes1 Swidth_1_0) 0
        (ctx_bytes params)) 2) as (m2 & c2 & m1 & E1 & E2 & P2 & W2 & M2);
      rewrite ?Ev; try done; try lia; [apply pbkdf2_bytes|].
    rewrite Ev in *. change (4 * 2) with 8 in E1. step E1. step E2.
    step (bytes_of_last_row m2 B _ W2 P2). exists m2. split; [|exact M2].
    rewrite run_ret, HMAC_SHA256_Buf_spec; [reflexivity|apply Hstk|apply Hstk|apply bytes_bytes_of_lanes|].
    apply Forall_take, pbkdf2_bytes.
Qed.
End Body.

(** ** The region over a sequence of calls *)
Definition wf_local (local : yespower_local_t) : Prop :=
  match rg_aligned local with
  | None => rg_aligned_size local = 0%Z
  | Some a => (64 | a)%Z ∧ allocated (rg_mem local) a (rg_aligned_size local) ∧ mem_wf (rg_mem local)
  end.

Lemma wf_init_region : wf_local init_region.
Proof. done. Qed.

Lemma allocated_le m a n n' : allocated m a n → (n' <= n)%Z → allocated m a n'.
Proof. intros HA Hn k Hk Hlt. apply HA; lia. Qed.

(** The size handed to [mmap] covers the request. *)
Lemma huge_round size : (0 <= size < 2 ^ 64)%Z →
  let mask := (HUGEPAGE_SIZE - 1)%Z in (size <=? u64 (size + mask))%Z = true →
  let new := Z.land (u64 (size + mask)) (Z.lnot mask) in
  (size <= new < size + HUGEPAGE_SIZE)%Z ∧ (HUGEPAGE_SIZE | new)%Z.
Proof.
  intros Hs mask Hle new. apply Z.leb_le in Hle.
  assert (HUGEPAGE_SIZE = 2 ^ 21)%Z as EH by done.
  assert (u64 (size + mask) = size + mask)%Z as Eu.
  { destruct (Z.lt_ge_cases (size + mask) (2 ^ 64)) as [|Hge]; [apply u64_id; unfold in_width, mask in *; lia|].
    exfalso. unfold u64 in Hle. rewrite <-(Z_mod_plus_full _ (-1)) in Hle.
    rewrite Z.mod_small in Hle by (unfold mask in *; lia). unfold mask in *. lia. }
  unfold new. rewrite Eu. clear Hle Eu.
  assert (Z.land (size + mask) (Z.lnot mask) = ((size + mask) `div` 2 ^ 21) * 2 ^ 21)%Z as ->.
  { rewrite <-Z.shiftr_div_pow2, <-Z.shiftl_mul_pow2 by lia. change mask with (Z.ones 21).
    rewrite <-Z.ldiff_land. by apply Z.ldiff_ones_r. }
  pose proof (Z.div_mod (size + mask) (2 ^ 21)). pose proof (Z.mod_pos_bound (size + mask) (2 ^ 21)).
  unfold mask in *. rewrite EH in *. split; [lia|]. by exists ((size + (2 ^ 21 - 1)) `div` 2 ^ 21)%Z.
Qed.

Section Platform.
Context {P : Platform} {PL : PlatformLaws P}.

Lemma alloc_region_spec size s ret reg s' : (0 < size < 2 ^ 64)%Z →
  alloc_region size s = (ret, reg, s') →
  wf_local reg ∧ rg_aligned reg = ret ∧ rg_base reg = ret ∧
  match ret with
  | Some a => rg_aligned_size reg = size ∧ (size <= rg_base_size reg)%Z
  | None => reg = init_region
  end.
Proof using PL.
  intros Hs. unfold alloc_region.
  set (huge := (HUGEPAGE_THRESHOLD <=? size)%Z && (size <=? u64 (size + (HUGEPAGE_SIZE - 1)))%Z).
  set (ns := if huge then _ else _).
  assert (size <= ns)%Z as Hns.
  { unfold ns. destruct huge eqn:E; [|done]. apply andb_true_iff in E as [_ E].
    destruct (huge_round size ltac:(lia) E) as [? _]. lia. }
  assert (∀ sz h (a : Z) m s0 s1, mmap s0 sz h = (Some (a, m), s1) → (size <= sz)%Z →
    wf_local (mkRegion (Some a) (Some a) sz size m)) as HW.
  { intros sz h a m s0 s1 E Hle. split_and!; cbn.
    - destruct (mmap_page _ _ _ _ _ _ E) as [[k ->] _]. exists (k * 64)%Z. lia.
    - eapply allocated_le; [by eapply mmap_covers|done].
    - by eapply mmap_bytes. }
  destruct (mmap s ns huge) as [[[a m]|] s1] eqn:E1.
  - intros [= <- <- <-]. split_and!; cbn; try done. by eapply (HW ns).
  - destruct huge.
    + destruct (mmap s1 size false) as [[[a m]|] s2] eqn:E2; intros [= <- <- <-]; split_and!; cbn; try done.
      by eapply (HW size).
    + intros [= <- <- <-]. by split_and!.
Qed.

(** What [yespower] returns: the parameters must be valid, and memory must be
    there already or be obtained. *)
Definition yespower_ret (local : yespower_local_t) (s : os) (src : list Z)
    (params : yespower_params_t) : option (list Z) :=
  if negb (params_ok params) then None else
  if (rg_aligned_size local <? need params)%Z then
    match free_region local s with
    | (None, _) => None
    | (Some _, s) =>
        match alloc_region (need params) s with
        | (None, _, _) => None
        | (Some _, _, _) => Some (yespower_ref params src)
        end
    end
  else Some (yespower_ref params src).

Lemma yespower_spec stk local s src params :
  (∀ i, wf_stack (stk i)) → bytes src → (∀ p, pers params = Some p → bytes p) → wf_local local →
  ∃ local' s', yespower stk local s src params
      = Some (yespower_ret local s src params, local', s') ∧ wf_local local'.
Proof using PL.
  intros Hstk Hsrc Hpers Hl. unfold yespower, yespower_ret.
  destruct (params_ok params) eqn:Hok; cbn [negb]; [|by eauto].
  destruct (need_eq params Hok) as [EN HNlt]. pose proof (S_total_pos (pass_of params)).
  assert (0 < need params)%Z as HNpos.
  { rewrite EN. destruct (params_bounds params Hok) as (H1 & H2 & _).
    unfold rs, V_size, XY_need, rs. destruct (pass_of params); nia. }
  assert (∀ loc (s0 : os), wf_local loc → (need params <= rg_aligned_size loc)%Z →
    ∃ (local' : yespower_local_t) (s' : os), match rg_aligned loc with
      | None => None
      | Some B =>
          match yespower_body stk B src params (rg_mem loc) with
          | None => None
          | Some (dst, m) => Some (Some dst, mkRegion (rg_base loc) (rg_aligned loc) (rg_base_size loc)
                              (rg_aligned_size loc) m, s0)
          end
      end = Some (Some (yespower_ref params src), local', s') ∧ wf_local local') as Hrun.
  { intros loc s0 Hw Hsz. unfold wf_local in Hw. destruct (rg_aligned loc) as [B|] eqn:EB; [|lia].
    destruct Hw as (HD & HA & Hm).
    destruct (yespower_body_spec stk src params Hstk Hsrc Hpers Hok B (rg_mem loc)) as (m' & -> & HM);
      [by eapply allocated_le|done|]. eexists _, _. split; [reflexivity|].
    unfold wf_local. cbn. split_and!; [done|by eapply modifies_allocated|by apply HM]. }
  destruct (Z.ltb_spec (rg_aligned_size local) (need params)) as [Hlt|Hge]; [|by apply Hrun].
  destruct (free_region local s) as [[loc|] s1]; [|by eauto].
  destruct (alloc_region (need params) s1) as [[ret reg] s2] eqn:EA.
  destruct (alloc_region_spec (need params) _ _ _ _ ltac:(lia) EA) as (HW & Ea & _ & Hsz).
  destruct ret as [a|]; [|by eauto]. apply Hrun; [done|]. destruct Hsz as [-> _]. lia.
Qed.
End Platform.

(** ** Statements *)

(** A platform for the witnesses: every mapping succeeds at the same page. *)
#[global] Instance sample_platform : Platform := {|
  os := unit;
  mmap _ size _ := (Some (4096%Z, fill_mem 4096 (Z.to_nat (size `div` 16 + 1)) sample_lane), tt);
  munmap _ _ _ := (true, tt)
|}.
#[global] Instance sample_platform_laws : PlatformLaws sample_platform.
Proof.
  split; cbn; intros s size huge a m s' [= <- <- <-].
  - split; [by exists 1%Z|lia].
  - intros k Hk Hlt. assert (k <= size `div` 16)%Z by (apply Z.div_le_lower_bound; lia).
    apply fill_mem_allocated; lia.
  - assert (∀ n b, mem_wf (fill_mem b n sample_lane)) as H; [|apply H].
    intros n. induction n as [|n IH]; intros b; [apply map_Forall_empty|]. apply map_Forall_insert_2; [done|apply IH].
Qed.
Definition sample_stack : nat → stack := λ _, mkStack stack_ctx stack_hctx stack_hctx stack_tmp.
Lemma sample_stack_wf i : wf_stack (sample_stack i).
Proof. by repeat split. Qed.

(** C2: [yespower] on a well-formed local region never accesses memory outside
    it, and its return value is exactly this: -1 when the parameters are
    invalid or when no region of the needed size can be freed and mapped, and
    otherwise 0 with the yespower hash of [src] in [dst].  The hash is the
    reference one whatever the region and the stack frames held before, so
    reusing a region (even one from a larger computation, or with another
    version's leftovers) cannot change a result; the region is well-formed
    again afterwards, on every path. *)
Theorem yespower_correct {P : Platform} {PL : PlatformLaws P} stk local s src params :
  (∀ i, wf_stack (stk i)) → bytes src → (∀ p, pers params = Some p → bytes p) → wf_local local →
  ∃ local' s', yespower stk local s src params
      = Some (yespower_ret local s src params, local', s') ∧ wf_local local'.
Proof. apply yespower_spec. Qed.

Lemma yespower_correct_witness :
  ∃ local' s', yespower (P:=sample_platform) sample_stack init_region tt (replicate 80 0%Z) korsh_yespower_1_0
      = Some (yespower_ret (P:=sample_platform) init_region tt (replicate 80 0%Z) korsh_yespower_1_0, local', s').
Proof.
  destruct (yespower_correct (P:=sample_platform) sample_stack init_region tt (replicate 80 0%Z) korsh_yespower_1_0
    sample_stack_wf) as (l & s' & E & _).
  - by apply Forall_replicate.
  - intros p Hp. discriminate Hp.
  - exact wf_init_region.
  - exists l, s'. exact E.
Defined.

(** The consensus hash of a header, as a function of the header alone. *)
Definition pow_params (header : list Z) : yespower_params_t :=
  if (1546539305 <? le32dec (drop 68 header))%Z then korsh_yespower_1_0 else korsh_yespower_0_5.
Definition pow_hash (header : list Z) : list Z := yespower_ref (pow_params header) (take 80 header).

Definition wf_tls (t : tls) : Prop := initialized t = true → wf_local (tl_local t).

Lemma yespower_tls_spec {P : Platform} {PL : PlatformLaws P} stk t s src params :
  (∀ i, wf_stack (stk i)) → bytes src → (∀ p, pers params = Some p → bytes p) → wf_tls t →
  let local := if initialized t then tl_local t else init_region in
  ∃ t' s', yespower_tls stk t s src params = Some (yespower_ret local s src params, t', s') ∧ wf_tls t'.
Proof.
  intros Hstk Hsrc Hpers Ht local. unfold yespower_tls. fold local.
  assert (wf_local local) as Hl by (unfold local; destruct (initialized t) eqn:E; [by apply Ht|done]).
  destruct (yespower_spec stk local s src params Hstk Hsrc Hpers Hl) as (l & s' & E & Hw).
  change yespower_init_local with init_region. fold local. rewrite E. exists (mkTls true l), s'. split; [done|]. by intros _.
Qed.

Lemma params_pers_bytes header p : pers (pow_params header) = Some p → bytes p.
Proof.
  unfold pow_params. destruct (_ <? _)%Z; cbn; [done|]. intros [= <-].
  repeat (apply Forall_cons; split; [done|]). constructor.
Qed.

Lemma yespower_ret_pow local {P : Platform} (s : os) header : 
  yespower_ret local s (take 80 header) (pow_params header) = None ∨
  yespower_ret local s (take 80 header) (pow_params header) = Some (pow_hash header).
Proof.
  unfold yespower_ret, pow_hash. destruct (negb _); [by left|]. destruct (_ <? _)%Z; [|by right].
  destruct (free_region local s) as [[loc|] s1]; [|by left].
  destruct (alloc_region _ s1) as [[[a|] reg] s2]; [by right|by left].
Qed.

(** A system on which memory is neither exhausted nor refused. *)
Definition memory_available {P : Platform} : Prop :=
  (∀ s size huge, is_Some (mmap s size huge).1) ∧ (∀ s b n, (munmap s b n).1 = true).

Lemma free_region_available {P : Platform} local (s : os) : memory_available →
  ∃ l s', free_region local s = (Some l, s').
Proof.
  intros [_ Hunmap]. unfold free_region. destruct (rg_base local) as [b|]; [|by eauto].
  specialize (Hunmap s b (rg_base_size local)). destruct (munmap s b _) as [ok s1]. cbn in Hunmap.
  subst ok. by eauto.
Qed.
Lemma alloc_region_available {P : Platform} size (s : os) : memory_available →
  ∃ a reg s', alloc_region size s = (Some a, reg, s').
Proof.
  intros [Hmap _]. unfold alloc_region. destruct (mmap s _ _) as [r1 s2] eqn:E1.
  pose proof (Hmap s) as H1. setoid_rewrite (surjective_pairing (mmap _ _ _)) in E1.
  injection E1 as E1 _. destruct r1 as [[a m]|]; [by eauto|].
  exfalso. revert E1. apply not_eq_None_Some, H1.
Qed.

Lemma yespower_ret_available local {P : Platform} (s : os) header : memory_available →
  yespower_ret local s (take 80 header) (pow_params header) = Some (pow_hash header).
Proof.
  intros Hm. unfold yespower_ret, pow_hash.
  assert (params_ok (pow_params header) = true) as -> by (unfold pow_params; by destruct (_ <? _)%Z).
  cbn [negb]. destruct (_ <? _)%Z; [|reflexivity].
  destruct (free_region_available local s Hm) as (l & s1 & ->).
  by destruct (alloc_region_available (need (pow_params header)) s1 Hm) as (a & reg & s2 & ->).
Qed.

(** The hashes a thread computes for a list of headers, one call after the
    other on its thread-local region. *)
Fixpoint hash_all {P : Platform} (stk : nat → nat → stack) (i : nat) (t : tls) (s : os)
    (headers : list (list Z)) : option (list (option (list Z))) :=
  match headers with
  | [] => Some []
  | h :: hs =>
      match yespower_hash (stk i) t s h with
      | None => None
      | Some (ret, t, s) => match hash_all stk (S i) t s hs with
                            | None => None
                            | Some rets => Some (ret :: rets)
                            end
      end
  end.

(** C1: the proof-of-work hash is a function of the 80 header bytes.  In a
    thread that hashes any sequence of headers, of either version and in any
    order, every call returns -1 (no memory) or the hash [pow_hash] of its own
    header: neither the stale contents of the thread-local region, nor its
    size, nor the stack, nor the calls before it matter, and no call reads or
    writes outside the region.  Where memory is available, every call returns
    the hash. *)
Theorem yespower_hash_deterministic {P : Platform} {PL : PlatformLaws P} stk i t s headers :
  (∀ i j, wf_stack (stk i j)) → Forall bytes headers → wf_tls t →
  ∃ rets, hash_all stk i t s headers = Some rets ∧
    Forall2 (λ h ret, ret = None ∨ ret = Some (pow_hash h)) headers rets ∧
    (memory_available → rets = (λ h, Some (pow_hash h)) <$> headers).
Proof.
  intros Hstk Hh. revert i t s. induction Hh as [|h hs Hb _ IH]; intros i t s Ht; [by eexists|].
  cbn [hash_all]. set (local := if initialized t then tl_local t else init_region).
  destruct (yespower_tls_spec (stk i) t s (take 80 h) (pow_params h)) as (t' & s' & E & Ht');
    [done|by apply Forall_take|apply params_pers_bytes|done|]. fold local in E.
  assert (yespower_hash (stk i) t s h = Some (yespower_ret local s (take 80 h) (pow_params h), t', s')) as ->.
  { unfold yespower_hash. rewrite <-E. unfold pow_params. by destruct (_ <? _)%Z. }
  destruct (IH (S i) t' s' Ht') as (rets & -> & HF & HA). eexists. split_and!; [reflexivity| |].
  - constructor; [|exact HF]. destruct (yespower_ret_pow local s h) as [->| ->]; auto.
  - intros Hm. rewrite (yespower_ret_available local s h Hm), (HA Hm). reflexivity.
Qed.

Lemma sample_memory_available : memory_available (P:=sample_platform).
Proof. split; [intros s size huge; by eexists|done]. Qed.

Lemma yespower_hash_deterministic_witness :
  hash_all (P:=sample_platform) (λ _, sample_stack) 0 (mkTls false init_region) tt [replicate 80 0%Z; replicate 80 255%Z]
    = Some [Some (pow_hash (replicate 80 0%Z)); Some (pow_hash (replicate 80 255%Z))].
Proof.
  destruct (yespower_hash_deterministic (P:=sample_platform) (λ _, sample_stack) 0 (mkTls false init_region) tt
    [replicate 80 0%Z; replicate 80 255%Z]) as (rets & E & _ & HA).
  - intros _ j. exact (sample_stack_wf j).
  - apply Forall_cons_2; [by apply Forall_replicate|]. apply Forall_cons_2; [by apply Forall_replicate|constructor].
  - discriminate.
  - rewrite E, (HA sample_memory_available). reflexivity.
Defined.

(** Which requests are tried with huge pages, and the size of the mapping. *)
Definition try_huge (size : Z) : Prop := (HUGEPAGE_THRESHOLD <= size < 2 ^ 64 - (HUGEPAGE_SIZE - 1))%Z.
#[global] Instance try_huge_dec size : Decision (try_huge size).
Proof. unfold try_huge. apply _. Defined.
Definition mapping_size (huge : bool) (size : Z) : Z :=
  if huge then (HUGEPAGE_SIZE * ((size + (HUGEPAGE_SIZE - 1)) `div` HUGEPAGE_SIZE))%Z else size.

Lemma try_huge_test size : (0 < size < 2 ^ 64)%Z →
  (HUGEPAGE_THRESHOLD <=? size)%Z && (size <=? u64 (size + (HUGEPAGE_SIZE - 1)))%Z = true ↔ try_huge size.
Proof.
  intros Hs. unfold try_huge. change (HUGEPAGE_SIZE - 1)%Z with 2097151%Z.
  rewrite andb_true_iff, !Z.leb_le. split; intros [H1 H2]; (split; [done|]).
  - destruct (Z.lt_ge_cases size (2 ^ 64 - 2097151)) as [|Hge]; [done|].
    replace (size + 2097151)%Z with (size + 2097151 - 2 ^ 64 + 1 * 2 ^ 64)%Z in H2 by lia.
    unfold u64 in H2. rewrite Z.mod_add, Z.mod_small in H2 by lia. lia.
  - rewrite u64_id by (unfold in_width; lia). lia.
Qed.
Lemma huge_bounds size : (0 < size < 2 ^ 64)%Z → try_huge size →
  (HUGEPAGE_SIZE | mapping_size true size)%Z ∧ (size <= mapping_size true size < size + HUGEPAGE_SIZE)%Z ∧ (mapping_size true size < 2 ^ 64)%Z.
Proof.
  unfold try_huge, mapping_size. change HUGEPAGE_SIZE with 2097152%Z. intros Hs Hh.
  pose proof (Z.div_mod (size + (2097152 - 1)) 2097152 ltac:(lia)). pose proof (Z.mod_pos_bound (size + (2097152 - 1)) 2097152 ltac:(lia)).
  split; [apply Z.divide_factor_l|]. lia.
Qed.
Lemma huge_size size : (0 < size < 2 ^ 64)%Z → try_huge size →
  Z.land (u64 (size + (HUGEPAGE_SIZE - 1))) (Z.lnot (HUGEPAGE_SIZE - 1)) = mapping_size true size.
Proof.
  unfold try_huge, mapping_size. intros Hs Hh. assert (HUGEPAGE_SIZE = 2097152)%Z by done. rewrite u64_id by (unfold in_width; lia).
  change (HUGEPAGE_SIZE - 1)%Z with (Z.ones 21). rewrite <- Z.ldiff_land, Z.ldiff_ones_r by lia.
  rewrite Z.shiftl_mul_pow2, Z.shiftr_div_pow2 by lia. change HUGEPAGE_SIZE with (2 ^ 21)%Z. lia.
Qed.

(** C13: [alloc_region] gives a region that starts on a 64-byte boundary and
    covers the request.  Its base is what [mmap] returned, its recorded size is
    exactly the size [mmap] was asked for, so that [munmap] gets the size of
    the mapping back: for a huge-page mapping the request rounded up to a
    multiple of the huge page size (without wrapping around), for an ordinary
    one the request itself.  A request of at least the threshold is first tried
    with huge pages and falls back to an ordinary mapping only when that is
    refused; when no mapping can be had the region is the empty one. *)
Theorem alloc_region_correct {P : Platform} {PL : PlatformLaws P} size s ret reg s' :
  (0 < size < 2 ^ 64)%Z → alloc_region size s = (ret, reg, s') →
  wf_local reg ∧ rg_aligned reg = ret ∧ rg_base reg = ret ∧
  ∃ huge s0, (mmap s0 (mapping_size huge size) huge).2 = s' ∧
    (if huge : bool then s0 = s ∧ try_huge size
     else if decide (try_huge size) then mmap s (mapping_size true size) true = (None, s0) else s0 = s) ∧
    match ret with
    | Some a => mmap s0 (rg_base_size reg) huge = (Some (a, rg_mem reg), s') ∧ rg_aligned_size reg = size ∧
        rg_base_size reg = mapping_size huge size ∧ (size <= rg_base_size reg < 2 ^ 64)%Z ∧
        (huge = true → (HUGEPAGE_SIZE | rg_base_size reg)%Z ∧ (rg_base_size reg < size + HUGEPAGE_SIZE)%Z)
    | None => reg = init_region ∧ huge = false ∧ mmap s0 size false = (None, s')
    end.
Proof.
  intros Hs E. destruct (alloc_region_spec size s ret reg s' Hs E) as (H1 & H2 & H3 & _). split; [done|]. split; [done|]. split; [done|].
  clear H1 H2 H3. revert E. unfold alloc_region. pose proof (try_huge_test size Hs) as Ht.
  destruct ((HUGEPAGE_THRESHOLD <=? size)%Z && _) eqn:Eh.
  - pose proof (proj1 Ht eq_refl) as Hh. rewrite (huge_size size Hs Hh). destruct (huge_bounds size Hs Hh) as (Hd&[Hr1 Hr2]&Hw).
    destruct (mmap s _ true) as [[[b m]|] s1] eqn:Em.
    { intros [= <- <- <-]. exists true, s. cbn [rg_base_size rg_mem rg_aligned_size]. rewrite Em. split_and!; auto; done. }
    destruct (mmap s1 size false) as [[[b m]|] s2] eqn:Em2; intros [= <- <- <-]; exists false, s1;
      cbn [rg_base_size rg_mem rg_aligned_size mapping_size]; rewrite Em2, decide_True by done; split_and!; auto; lia || done.
  - assert (¬ try_huge size) as Hh by (intros Hh; apply Ht in Hh; discriminate).
    destruct (mmap s size false) as [[[b m]|] s1] eqn:Em; intros [= <- <- <-]; exists false, s;
      cbn [rg_base_size rg_mem rg_aligned_size mapping_size]; rewrite Em, decide_False by done; split_and!; auto; lia || done.
Qed.

Lemma alloc_region_correct_witness :
  ∃ reg, alloc_region (P:=sample_platform) 16777217 tt = (Some 4096%Z, reg, tt) ∧ wf_local reg.
Proof.
  eexists. split; [reflexivity|].
  exact (proj1 (alloc_region_correct (P:=sample_platform) 16777217 tt (Some 4096%Z) _ tt ltac:(lia) eq_refl)).
Defined.
