(* ===== verification/Yp2.v ===== *)
(** * The two-way kernel of the miner

    [src/contrib/korsh-miner/korsh-yp2.c] computes two hashes at once, weaving
    the instructions of two instances A and B together.  The instances work in
    two different mappings, so a program runs on a pair of memories; [onA] and
    [onB] are the instructions of either instance, in the order of the code. *)
From S2P Require Import Prelude Sysendian Sha256 Hmac Simd Salsa20 Mem Pwxform Blockmix Smix.
From S2P Require Import Yespower.

Definition mem2 : Type := mem * mem.
Definition M2 (A : Type) : Type := mem2 → option (A * mem2).
#[global] Instance M2_ret : MRet M2 := λ A a mm, Some (a, mm).
#[global] Instance M2_bind : MBind M2 := λ A B k e mm,
  match e mm with Some (a, mm') => k a mm' | None => None end.

Definition onA {A} (e : M A) : M2 A := λ mm,
  match e mm.1 with Some (a, m) => Some (a, (m, mm.2)) | None => None end.
Definition onB {A} (e : M A) : M2 A := λ mm,
  match e mm.2 with Some (a, m) => Some (a, (mm.1, m)) | None => None end.

Definition KYP_N : Z := 256.
Definition KYP_R : Z := 8.
Definition KYP_PERS_TIME_THRESHOLD : Z := 1546539305.

(** One lane, with the mask [M = Smask2_1_0]. *)
Definition KX_LANE (X : m128i) (S0 S1 : Z) : M m128i :=
  let x_ := Z.land (_mm_cvtsi128_si64 X) (Smask2 Pass2) in
  let h_ := _mm_shuffle_epi32 X (_MM_SHUFFLE 2 3 0 1) in
  let X := _mm_mul_epu32 h_ X in
  s0 ← load (S0 + u32 x_)%Z;
  let X := _mm_add_epi64 X s0 in
  s1 ← load (S1 + (x_ ≫ 32))%Z;
  mret (_mm_xor_si128 X s1).
Definition KX_LANE_W (X : m128i) (S0 S1 Sw w : Z) : M m128i :=
  X ← KX_LANE X S0 S1; store (Sw + w)%Z X;; mret X.

(** The registers of one instance: [X0 .. X3], [S0], [S1] and [w]. *)
Definition KX_ROUND_WRITE4 (XA : salsa20_blk_t) (A_S0 A_S1 A_w : Z) (XB : salsa20_blk_t)
    (B_S0 B_S1 B_w : Z) : M2 ((salsa20_blk_t * Z) * (salsa20_blk_t * Z)) :=
  XA0 ← onA (KX_LANE_W (q0 XA) A_S0 A_S1 A_S0 A_w);
  XB0 ← onB (KX_LANE_W (q0 XB) B_S0 B_S1 B_S0 B_w);
  XA1 ← onA (KX_LANE_W (q1 XA) A_S0 A_S1 A_S1 A_w);
  XB1 ← onB (KX_LANE_W (q1 XB) B_S0 B_S1 B_S1 B_w);
  let A_w := (A_w + 16)%Z in
  let B_w := (B_w + 16)%Z in
  XA2 ← onA (KX_LANE_W (q2 XA) A_S0 A_S1 A_S0 A_w);
  XB2 ← onB (KX_LANE_W (q2 XB) B_S0 B_S1 B_S0 B_w);
  XA3 ← onA (KX_LANE_W (q3 XA) A_S0 A_S1 A_S1 A_w);
  XB3 ← onB (KX_LANE_W (q3 XB) B_S0 B_S1 B_S1 B_w);
  mret ((Blk XA0 XA1 XA2 XA3, A_w + 16)%Z, (Blk XB0 XB1 XB2 XB3, B_w + 16)%Z).

Definition KX_ROUND_WRITE2 (XA : salsa20_blk_t) (A_S0 A_S1 A_w : Z) (XB : salsa20_blk_t)
    (B_S0 B_S1 B_w : Z) : M2 ((salsa20_blk_t * Z) * (salsa20_blk_t * Z)) :=
  XA0 ← onA (KX_LANE_W (q0 XA) A_S0 A_S1 A_S0 A_w);
  XB0 ← onB (KX_LANE_W (q0 XB) B_S0 B_S1 B_S0 B_w);
  XA1 ← onA (KX_LANE_W (q1 XA) A_S0 A_S1 A_S1 A_w);
  XB1 ← onB (KX_LANE_W (q1 XB) B_S0 B_S1 B_S1 B_w);
  let A_w := (A_w + 16)%Z in
  let B_w := (B_w + 16)%Z in
  XA2 ← onA (KX_LANE (q2 XA) A_S0 A_S1);
  XB2 ← onB (KX_LANE (q2 XB) B_S0 B_S1);
  XA3 ← onA (KX_LANE (q3 XA) A_S0 A_S1);
  XB3 ← onB (KX_LANE (q3 XB) B_S0 B_S1);
  mret ((Blk XA0 XA1 XA2 XA3, A_w), (Blk XB0 XB1 XB2 XB3, B_w)).

(** The registers as [KX_DECL] takes them from the contexts and [KX_SAVE]
    puts them back. *)
Definition KX_PWXFORM2 (XA : salsa20_blk_t) (cA : pwxform_ctx_t) (XB : salsa20_blk_t) (cB : pwxform_ctx_t)
    : M2 ((salsa20_blk_t * pwxform_ctx_t) * (salsa20_blk_t * pwxform_ctx_t)) :=
  let '(mkPwxform_ctx A_S0 A_S1 A_S2 A_w A_Sbytes) := cA in
  let '(mkPwxform_ctx B_S0 B_S1 B_S2 B_w B_Sbytes) := cB in
  '((XA, A_w), (XB, B_w)) ← KX_ROUND_WRITE4 XA A_S0 A_S1 A_w XB B_S0 B_S1 B_w;
  '((XA, A_w), (XB, B_w)) ← KX_ROUND_WRITE2 XA A_S0 A_S1 A_w XB B_S0 B_S1 B_w;
  '((XA, A_w), (XB, B_w)) ← KX_ROUND_WRITE2 XA A_S0 A_S1 A_w XB B_S0 B_S1 B_w;
  let A_w := Z.land A_w (Smask2 Pass2) in
  let B_w := Z.land B_w (Smask2 Pass2) in
  mret ((XA, mkPwxform_ctx A_S2 A_S0 A_S1 A_w A_Sbytes), (XB, mkPwxform_ctx B_S2 B_S0 B_S1 B_w B_Sbytes)).

(** [KX_FINISH(P, out, jvar)]. *)
Definition KX_FINISH (X : salsa20_blk_t) (out : Z) : M Z :=
  let X := SALSA20_2 X in WRITE_X out X;; mret (INTEGERIFY X).

(** The macros that move a block between registers and memory are those of the
    node under other names. *)
Definition KX_READ (inp : Z) : M salsa20_blk_t := READ_X inp.
Definition KX_WRITE (out : Z) (X : salsa20_blk_t) : M unit := WRITE_X out X.
Definition KX_XOR (X : salsa20_blk_t) (inp : Z) : M salsa20_blk_t := XOR_X_mem X inp.
Definition KX_XOR2 (in1 in2 : Z) : M salsa20_blk_t := XOR_X_2 in1 in2.
Definition KX_XOR_WRITE_XOR (X : salsa20_blk_t) (out inp : Z) : M salsa20_blk_t :=
  XOR_X_WRITE_XOR_Y_2 X out inp.

(** ** Block mixing *)
Fixpoint kx_blockmix_loop (fuel : nat) (AI AO BI BO i r : Z) (XA : salsa20_blk_t) (cA : pwxform_ctx_t)
    (XB : salsa20_blk_t) (cB : pwxform_ctx_t)
    : M2 ((salsa20_blk_t * pwxform_ctx_t * Z) * (salsa20_blk_t * pwxform_ctx_t * Z)) :=
  match fuel with
  | O => λ _, None
  | S fuel =>
      XA ← onA (KX_XOR XA (blk AI i));
      XB ← onB (KX_XOR XB (blk BI i));
      '((XA, cA), (XB, cB)) ← KX_PWXFORM2 XA cA XB cB;
      if (r <=? i)%Z then mret ((XA, cA, i), (XB, cB, i)) else
      onA (KX_WRITE (blk AO i) XA);;
      onB (KX_WRITE (blk BO i) XB);;
      kx_blockmix_loop fuel AI AO BI BO (i + 1) r XA cA XB cB
  end.

Definition kx_blockmix (AI AO : Z) (cA : pwxform_ctx_t) (BI BO : Z) (cB : pwxform_ctx_t) (r : Z)
    : M2 (pwxform_ctx_t * pwxform_ctx_t) :=
  let r := (r * 2 - 1)%Z in
  XA ← onA (KX_READ (blk AI r));
  XB ← onB (KX_READ (blk BI r));
  '((XA, cA, i), (XB, cB, _)) ← kx_blockmix_loop (S (Z.to_nat r)) AI AO BI BO 0 r XA cA XB cB;
  onA (KX_FINISH XA (blk AO i));;
  onB (KX_FINISH XB (blk BO i));;
  mret (cA, cB).

Fixpoint kx_blockmix_xor_loop (fuel : nat) (A1 A2 AO B1 B2 BO i r : Z) (XA : salsa20_blk_t)
    (cA : pwxform_ctx_t) (XB : salsa20_blk_t) (cB : pwxform_ctx_t)
    : M2 ((salsa20_blk_t * pwxform_ctx_t * Z) * (salsa20_blk_t * pwxform_ctx_t * Z)) :=
  match fuel with
  | O => λ _, None
  | S fuel =>
      XA ← onA (KX_XOR XA (blk A1 i)); XA ← onA (KX_XOR XA (blk A2 i));
      XB ← onB (KX_XOR XB (blk B1 i)); XB ← onB (KX_XOR XB (blk B2 i));
      '((XA, cA), (XB, cB)) ← KX_PWXFORM2 XA cA XB cB;
      onA (KX_WRITE (blk AO i) XA);;
      onB (KX_WRITE (blk BO i) XB);;
      XA ← onA (KX_XOR XA (blk A1 (i + 1))); XA ← onA (KX_XOR XA (blk A2 (i + 1)));
      XB ← onB (KX_XOR XB (blk B1 (i + 1))); XB ← onB (KX_XOR XB (blk B2 (i + 1)));
      '((XA, cA), (XB, cB)) ← KX_PWXFORM2 XA cA XB cB;
      if (r <=? i)%Z then mret ((XA, cA, i), (XB, cB, i)) else
      onA (KX_WRITE (blk AO (i + 1)) XA);;
      onB (KX_WRITE (blk BO (i + 1)) XB);;
      kx_blockmix_xor_loop fuel A1 A2 AO B1 B2 BO (i + 2) r XA cA XB cB
  end.

Definition kx_blockmix_xor (A1 A2 AO : Z) (cA : pwxform_ctx_t) (B1 B2 BO : Z) (cB : pwxform_ctx_t) (r : Z)
    : M2 ((Z * pwxform_ctx_t) * (Z * pwxform_ctx_t)) :=
  let r := (r * 2 - 1)%Z in
  XA ← onA (KX_XOR2 (blk A1 r) (blk A2 r));
  XB ← onB (KX_XOR2 (blk B1 r) (blk B2 r));
  let r := (r - 1)%Z in
  '((XA, cA, i), (XB, cB, _)) ← kx_blockmix_xor_loop (S (Z.to_nat r)) A1 A2 AO B1 B2 BO 0 r XA cA XB cB;
  let i := (i + 1)%Z in
  jA ← onA (KX_FINISH XA (blk AO i));
  jB ← onB (KX_FINISH XB (blk BO i));
  mret ((jA, cA), (jB, cB)).

Fixpoint kx_blockmix_xor_save_loop (fuel : nat) (A1o A2 B1o B2 i r : Z) (XA : salsa20_blk_t)
    (cA : pwxform_ctx_t) (XB : salsa20_blk_t) (cB : pwxform_ctx_t)
    : M2 ((salsa20_blk_t * pwxform_ctx_t * Z) * (salsa20_blk_t * pwxform_ctx_t * Z)) :=
  match fuel with
  | O => λ _, None
  | S fuel =>
      XA ← onA (KX_XOR_WRITE_XOR XA (blk A2 i) (blk A1o i));
      XB ← onB (KX_XOR_WRITE_XOR XB (blk B2 i) (blk B1o i));
      '((XA, cA), (XB, cB)) ← KX_PWXFORM2 XA cA XB cB;
      onA (KX_WRITE (blk A1o i) XA);;
      onB (KX_WRITE (blk B1o i) XB);;
      XA ← onA (KX_XOR_WRITE_XOR XA (blk A2 (i + 1)) (blk A1o (i + 1)));
      XB ← onB (KX_XOR_WRITE_XOR XB (blk B2 (i + 1)) (blk B1o (i + 1)));
      '((XA, cA), (XB, cB)) ← KX_PWXFORM2 XA cA XB cB;
      if (r <=? i)%Z then mret ((XA, cA, i), (XB, cB, i)) else
      onA (KX_WRITE (blk A1o (i + 1)) XA);;
      onB (KX_WRITE (blk B1o (i + 1)) XB);;
      kx_blockmix_xor_save_loop fuel A1o A2 B1o B2 (i + 2) r XA cA XB cB
  end.

Definition kx_blockmix_xor_save (A1o A2 : Z) (cA : pwxform_ctx_t) (B1o B2 : Z) (cB : pwxform_ctx_t) (r : Z)
    : M2 ((Z * pwxform_ctx_t) * (Z * pwxform_ctx_t)) :=
  let r := (r * 2 - 1)%Z in
  XA ← onA (KX_XOR2 (blk A1o r) (blk A2 r));
  XB ← onB (KX_XOR2 (blk B1o r) (blk B2 r));
  let r := (r - 1)%Z in
  '((XA, cA, i), (XB, cB, _)) ← kx_blockmix_xor_save_loop (S (Z.to_nat r)) A1o A2 B1o B2 0 r XA cA XB cB;
  let i := (i + 1)%Z in
  jA ← onA (KX_FINISH XA (blk A1o i));
  jB ← onB (KX_FINISH XB (blk B1o i));
  mret ((jA, cA), (jB, cB)).

(** ** SMix *)
Definition kx_load (B tmp dst : Z) : M unit := load_blk B tmp dst.
Definition kx_store (src tmp B : Z) : M unit := store_blk src tmp B.

Fixpoint for_loop2 (k : nat) (i : Z) (bodyA bodyB : Z → M unit) : M2 unit :=
  match k with
  | O => mret tt
  | S k => onA (bodyA i);; onB (bodyB i);; for_loop2 k (i + 1) bodyA bodyB
  end.

Fixpoint kx_smix1_expand (k : nat) (XA XB i : Z) (cA cB : pwxform_ctx_t)
    : M2 (pwxform_ctx_t * pwxform_ctx_t) :=
  match k with
  | O => mret (cA, cB)
  | S k =>
      '(cA, cB) ← kx_blockmix (blk XA ((i - 1) * 2)) (blk XA (i * 2)) cA
                    (blk XB ((i - 1) * 2)) (blk XB (i * 2)) cB 1;
      kx_smix1_expand k XA XB (i + 1) cA cB
  end.

Fixpoint kx_smix1_inner (fuel : nat) (VA VB s r n m i XA XB jA jB : Z) (cA cB : pwxform_ctx_t)
    : M2 ((Z * Z * pwxform_ctx_t) * (Z * Z * pwxform_ctx_t)) :=
  match fuel with
  | O => λ _, None
  | S fuel =>
      if (i <? m)%Z then
        let YA := blk XA s in let YB := blk XB s in
        let jA := u32 (Z.land jA (n - 1) + (i - 1)) in let VjA := blk VA (jA * s) in
        let jB := u32 (Z.land jB (n - 1) + (i - 1)) in let VjB := blk VB (jB * s) in
        '((jA, cA), (jB, cB)) ← kx_blockmix_xor XA VjA YA cA XB VjB YB cB r;
        let jA := u32 (Z.land jA (n - 1) + i) in let VjA := blk VA (jA * s) in
        let jB := u32 (Z.land jB (n - 1) + i) in let VjB := blk VB (jB * s) in
        let XA := blk YA s in let XB := blk YB s in
        '((jA, cA), (jB, cB)) ← kx_blockmix_xor YA VjA XA cA YB VjB XB cB r;
        kx_smix1_inner fuel VA VB s r n m (i + 2) XA XB jA jB cA cB
      else mret ((XA, jA, cA), (XB, jB, cB))
  end.

Fixpoint kx_smix1_outer (fuel : nat) (VA VB s r N n XA XB jA jB : Z) (cA cB : pwxform_ctx_t)
    : M2 ((Z * Z * Z * pwxform_ctx_t) * (Z * Z * Z * pwxform_ctx_t)) :=
  match fuel with
  | O => λ _, None
  | S fuel =>
      if (n <? N)%Z then
        let m := if (n <? N `div` 2)%Z then n else (N - 1 - n)%Z in
        '((XA, jA, cA), (XB, jB, cB)) ←
          kx_smix1_inner (S (Z.to_nat m)) VA VB s r n m 1 XA XB jA jB cA cB;
        kx_smix1_outer fuel VA VB s r N (u32 (n ≪ 1)) XA XB jA jB cA cB
      else mret ((n, XA, jA, cA), (n, XB, jB, cB))
  end.

Definition kx_smix1 (BA BB r N VA VB XYA XYB : Z) (cA cB : pwxform_ctx_t)
    : M2 (pwxform_ctx_t * pwxform_ctx_t) :=
  let s := (2 * r)%Z in
  let XA := VA in let YA := blk VA s in
  let XB := VB in let YB := blk VB s in
  for_loop2 2 0 (λ i, kx_load (blk BA i) YA (blk XA i)) (λ i, kx_load (blk BB i) YB (blk XB i));;
  '(cA, cB) ← kx_smix1_expand (Z.to_nat (r - 1)) XA XB 1 cA cB;
  '(cA, cB) ← kx_blockmix XA YA cA XB YB cB r;
  let XA := blk YA s in let XB := blk YB s in
  '(cA, cB) ← kx_blockmix YA XA cA YB XB cB r;
  jA ← onA (integerify XA r);
  jB ← onB (integerify XB r);
  '((n, XA, jA, cA), (_, XB, jB, cB)) ← kx_smix1_outer 33 VA VB s r N 2 XA XB jA jB cA cB;
  let n := (n ≫ 1)%Z in
  let jA := u32 (Z.land jA (n - 1) + (N - 2 - n)) in let VjA := blk VA (jA * s) in
  let jB := u32 (Z.land jB (n - 1) + (N - 2 - n)) in let VjB := blk VB (jB * s) in
  let YA := blk XA s in let YB := blk XB s in
  '((jA, cA), (jB, cB)) ← kx_blockmix_xor XA VjA YA cA XB VjB YB cB r;
  let jA := u32 (Z.land jA (n - 1) + (N - 1 - n)) in let VjA := blk VA (jA * s) in
  let jB := u32 (Z.land jB (n - 1) + (N - 1 - n)) in let VjB := blk VB (jB * s) in
  '((_, cA), (_, cB)) ← kx_blockmix_xor YA VjA XYA cA YB VjB XYB cB r;
  for_loop2 (Z.to_nat (2 * r)) 0 (λ i, kx_store (blk XYA i) (blk XYA s) (blk BA i))
    (λ i, kx_store (blk XYB i) (blk XYB s) (blk BB i));;
  mret (cA, cB).

Fixpoint kx_smix2_loop (fuel : nat) (XA XB VA VB s r N jA jB Nloop : Z) (cA cB : pwxform_ctx_t)
    : M2 (pwxform_ctx_t * pwxform_ctx_t) :=
  match fuel with
  | O => λ _, None
  | S fuel =>
      let VjA := blk VA (jA * s) in let VjB := blk VB (jB * s) in
      '((jA, cA), (jB, cB)) ← kx_blockmix_xor_save XA VjA cA XB VjB cB r;
      let jA := Z.land jA (N - 1) in let jB := Z.land jB (N - 1) in
      let VjA := blk VA (jA * s) in let VjB := blk VB (jB * s) in
      '((jA, cA), (jB, cB)) ← kx_blockmix_xor_save XA VjA cA XB VjB cB r;
      let jA := Z.land jA (N - 1) in let jB := Z.land jB (N - 1) in
      let Nloop := u32 (Nloop - 2) in
      if (Nloop =? 0)%Z then mret (cA, cB)
      else kx_smix2_loop fuel XA XB VA VB s r N jA jB Nloop cA cB
  end.

Definition kx_smix2 (BA BB r N Nloop VA VB XYA XYB : Z) (cA cB : pwxform_ctx_t)
    : M2 (pwxform_ctx_t * pwxform_ctx_t) :=
  let s := (2 * r)%Z in
  let XA := XYA in let YA := blk XYA s in
  let XB := XYB in let YB := blk XYB s in
  for_loop2 (Z.to_nat (2 * r)) 0 (λ i, kx_load (blk BA i) YA (blk XA i))
    (λ i, kx_load (blk BB i) YB (blk XB i));;
  jA ← onA (integerify XA r);
  jB ← onB (integerify XB r);
  let jA := Z.land jA (N - 1) in let jB := Z.land jB (N - 1) in
  '(cA, cB) ← kx_smix2_loop (Z.to_nat Nloop) XA XB VA VB s r N jA jB Nloop cA cB;
  for_loop2 (Z.to_nat (2 * r)) 0 (λ i, kx_store (blk XA i) YA (blk BA i))
    (λ i, kx_store (blk XB i) YB (blk BB i));;
  mret (cA, cB).

(** ** The entry point *)
Record kx_thread_region_t := mkKx { kx_region : yespower_local_t; kx_init : bool }.

Definition korsh_yp2_supported : Z := 1.

(** The sizes of the fixed parameters, and the arrays of an instance at [B]. *)
Definition kx_B_size : Z := 128 * KYP_R.
Definition kx_V_size : Z := kx_B_size * KYP_N.
Definition kx_XY_size : Z := kx_B_size + 64.
Definition kx_Sbytes1 : Z := Swidth_to_Sbytes1 Swidth_1_0.
Definition kx_Sbytes : Z := 3 * kx_Sbytes1.
Definition kx_need : Z := kx_B_size + kx_V_size + kx_XY_size + kx_Sbytes.

Definition kx_V (B : Z) : Z := (B + kx_B_size)%Z.
Definition kx_XY (B : Z) : Z := (kx_V B + kx_V_size)%Z.
Definition kx_ctx (B : Z) : pwxform_ctx_t :=
  let Sp := (kx_XY B + kx_XY_size)%Z in
  mkPwxform_ctx Sp (Sp + kx_Sbytes1) (Sp + 2 * kx_Sbytes1) 0 (u32 kx_Sbytes).

(** The first part of an instance, inside [for (k = 0; k < 2; k++)]: the
    derived bytes and the S-boxes; the result is [sha256[k]]. *)
Definition kx_start (stk : nat → stack) (B : Z) (inp : list Z) : M (list Z) :=
  let sha256 := SHA256_Buf (st_ctx (stk 0)) (st_tmp (stk 0)) (take 80 inp) in
  old ← load_bytes 8 B;
  b ← lift (PBKDF2_SHA256 (st_hctx (stk 1)) (st_Phctx (stk 1)) (st_tmp (stk 1)) sha256 [] 1 old 128);
  store_bytes 8 B b;;
  smix1 Pass2 B 1 (ctx_Sbytes (kx_ctx B) `div` 128) (ctx_S0 (kx_ctx B)) (kx_XY B) None;;
  mret (take 32 b).

(** The woven part and the final codes. *)
Definition kx_finish (stkA stkB : nat → stack) (A B : Z) (shaA shaB : list Z) : M2 (list Z * list Z) :=
  let Nloop_rw := Z.land (u32 ((KYP_N + 2) `div` 3 + 1)) (u32 (Z.lnot 1)) in
  '(cA, cB) ← kx_smix1 A B KYP_R KYP_N (kx_V A) (kx_V B) (kx_XY A) (kx_XY B) (kx_ctx A) (kx_ctx B);
  '(cA, cB) ← kx_smix2 A B KYP_R KYP_N Nloop_rw (kx_V A) (kx_V B) (kx_XY A) (kx_XY B) cA cB;
  kA ← onA (load_bytes 4 (A + kx_B_size - 64)%Z);
  let outA := HMAC_SHA256_Buf (st_hctx (stkA 2)) (st_tmp (stkA 2)) kA shaA in
  kB ← onB (load_bytes 4 (B + kx_B_size - 64)%Z);
  let outB := HMAC_SHA256_Buf (st_hctx (stkB 2)) (st_tmp (stkB 2)) kB shaB in
  mret (outA, outB).

Definition set_mem (l : yespower_local_t) (m : mem) : yespower_local_t :=
  mkRegion (rg_base l) (rg_aligned l) (rg_base_size l) (rg_aligned_size l) m.

Section Hash2.
Context `{P : Platform}.

(** Making one thread region large enough: [inl] is the early [return -1]. *)
Definition kx_prepare (t : kx_thread_region_t) (s : os)
    : (kx_thread_region_t * os) + (kx_thread_region_t * os) :=
  let region := if kx_init t then kx_region t else init_region in
  if (rg_aligned_size region <? kx_need)%Z then
    match free_region region s with
    | (None, s) => inl (mkKx region true, s)
    | (Some _, s) =>
        match alloc_region kx_need s with
        | (None, region, s) => inl (mkKx region true, s)
        | (Some _, region, s) => inr (mkKx region true, s)
        end
    end
  else inr (mkKx region true, s).

(** One turn of the first loop. *)
Definition kx_turn (stk : nat → stack) (t : kx_thread_region_t) (s : os) (inp : list Z)
    : option ((kx_thread_region_t * os) + (Z * list Z * kx_thread_region_t * os)) :=
  match kx_prepare t s with
  | inl (t, s) => Some (inl (t, s))
  | inr (t, s) =>
      match rg_aligned (kx_region t) with
      | None => None
      | Some B =>
          match kx_start stk B inp (rg_mem (kx_region t)) with
          | None => None
          | Some (sha, m) => Some (inr (B, sha, mkKx (set_mem (kx_region t) m) (kx_init t), s))
          end
      end
  end.

(** [None]: an access outside a region.  Otherwise the return value ([None]
    for -1), the thread's two regions and the system. *)
Definition korsh_yespower_hash2 (stkA stkB : nat → stack) (t0 t1 : kx_thread_region_t) (s : os)
    (in0 in1 : list Z)
    : option (option (list Z * list Z) * (kx_thread_region_t * kx_thread_region_t) * os) :=
  if (le32dec (drop 68 in0) <=? KYP_PERS_TIME_THRESHOLD)%Z
     || (le32dec (drop 68 in1) <=? KYP_PERS_TIME_THRESHOLD)%Z
  then Some (None, (t0, t1), s) else
  match kx_turn stkA t0 s in0 with
  | None => None
  | Some (inl (t0, s)) => Some (None, (t0, t1), s)
  | Some (inr (A, shaA, t0, s)) =>
      match kx_turn stkB t1 s in1 with
      | None => None
      | Some (inl (t1, s)) => Some (None, (t0, t1), s)
      | Some (inr (B, shaB, t1, s)) =>
          match kx_finish stkA stkB A B shaA shaB (rg_mem (kx_region t0), rg_mem (kx_region t1)) with
          | None => None
          | Some (outs, (mA, mB)) =>
              Some (Some outs, (mkKx (set_mem (kx_region t0) mA) (kx_init t0),
                                mkKx (set_mem (kx_region t1) mB) (kx_init t1)), s)
          end
      end
  end.
End Hash2.
