(* ===== verification/Yp2Correct.v ===== *)
(** * Correctness of the two-way kernel

    [woven R E eA eB] says that the woven program [E] on two memories does
    what [eA] does on the first and [eB] on the second, with results related by
    [R]: it fails exactly when one of them does.  The rules of this relation
    take the interleaving apart one instruction at a time, in whatever order
    the code has them, and reduce [korsh_yespower_hash2] to two runs of the
    one-way code. *)
From S2P Require Import Prelude Sysendian Sha256 Sha256Spec Sha256Correct Hmac HmacCorrect Simd Salsa20 Mem.
From S2P Require Import Pwxform PwxformCorrect Blockmix BlockmixCorrect Smix SmixCorrect SmixMain Yespower.
From S2P Require Import YespowerCorrect Yp2.

Definition woven {A B C} (R : C → A → B → Prop) (E : M2 C) (eA : M A) (eB : M B) : Prop :=
  ∀ mm, match E mm with
        | Some (c, mm') =>
            match eA mm.1, eB mm.2 with
            | Some (a, m1), Some (b, m2) => mm' = (m1, m2) ∧ R c a b
            | _, _ => False
            end
        | None => eA mm.1 = None ∨ eB mm.2 = None
        end.

Section Rules.
Context {A B C : Type} (R : C → A → B → Prop).

Lemma woven_ret c a b : R c a b → woven R (mret c) (mret a) (mret b).
Proof. intros H [m1 m2]. by split. Qed.

Lemma woven_fail eA eB : woven R (λ _, None) eA eB ↔ ∀ m1 m2, eA m1 = None ∨ eB m2 = None.
Proof. split; [intros H m1 m2; apply (H (m1, m2))|intros H [m1 m2]; apply H]. Qed.

Lemma woven_A {A'} (e : M A') (K : A' → M2 C) (kA : A' → M A) (eB : M B) :
  (∀ a, woven R (K a) (kA a) eB) → woven R (onA e ≫= K) (e ≫= kA) eB.
Proof.
  intros H [m1 m2]. unfold mbind, M2_bind, M_bind, onA. cbn [fst snd].
  destruct (e m1) as [[a m]|]; [apply (H a (m, m2))|by left].
Qed.

Lemma woven_B {B'} (e : M B') (K : B' → M2 C) (eA : M A) (kB : B' → M B) :
  (∀ b, woven R (K b) eA (kB b)) → woven R (onB e ≫= K) eA (e ≫= kB).
Proof.
  intros H [m1 m2]. unfold mbind, M2_bind, M_bind, onB. cbn [fst snd].
  destruct (e m2) as [[b m]|]; [apply (H b (m1, m))|by right].
Qed.

Lemma woven_bind {A' B' C'} (R' : C' → A' → B' → Prop) E eA eB (K : C' → M2 C) (kA : A' → M A) (kB : B' → M B) :
  woven R' E eA eB → (∀ c a b, R' c a b → woven R (K c) (kA a) (kB b)) →
  woven R (E ≫= K) (eA ≫= kA) (eB ≫= kB).
Proof.
  intros H HK [m1 m2]. specialize (H (m1, m2)). unfold mbind, M2_bind, M_bind. cbn [fst snd] in *.
  destruct (E (m1, m2)) as [[c mm']|].
  - destruct (eA m1) as [[a m1']|], (eB m2) as [[b m2']|]; try done.
    destruct H as [-> HR]. apply (HK c a b HR (m1', m2')).
  - destruct H as [->| ->]; [by left|right; done].
Qed.

Lemma woven_weaken (R' : C → A → B → Prop) E eA eB :
  woven R' E eA eB → (∀ c a b, R' c a b → R c a b) → woven R E eA eB.
Proof.
  intros H HR mm. specialize (H mm). destruct (E mm) as [[c mm']|]; [|done].
  destruct (eA mm.1) as [[a m1]|], (eB mm.2) as [[b m2]|]; naive_solver.
Qed.
End Rules.

(** Both instances return their own results. *)
Definition both {A B} (c : A * B) (a : A) (b : B) : Prop := c = (a, b).
(** ... and the contexts are those of non-null pointers. *)
Definition both_ctx {A B} (c : A * B) (a : option A) (b : option B) : Prop := a = Some c.1 ∧ b = Some c.2.
Definition both_j {J A B} (c : (J * A) * (J * B)) (a : J * option A) (b : J * option B) : Prop :=
  a = (c.1.1, Some c.1.2) ∧ b = (c.2.1, Some c.2.2).

(** [weave] runs the next instruction of the woven program. *)
Ltac weave := repeat first [apply woven_A; intros ? | apply woven_B; intros ?].
Ltac weave_ret := apply woven_ret; done.

(** ** The transformation *)
(* A woven lane is [PWXFORM_SIMD] by definition, which the rules see through. *)
Lemma KX_ROUND_WRITE4_woven XA a0 a1 aw XB b0 b1 bw :
  woven both (KX_ROUND_WRITE4 XA a0 a1 aw XB b0 b1 bw)
    (PWXFORM_ROUND_WRITE4 Pass2 a0 a1 aw XA) (PWXFORM_ROUND_WRITE4 Pass2 b0 b1 bw XB).
Proof.
  unfold KX_ROUND_WRITE4, PWXFORM_ROUND_WRITE4. weave. weave_ret.
Qed.
Lemma KX_ROUND_WRITE2_woven XA a0 a1 aw XB b0 b1 bw :
  woven both (KX_ROUND_WRITE2 XA a0 a1 aw XB b0 b1 bw)
    (PWXFORM_ROUND_WRITE2 Pass2 a0 a1 aw XA) (PWXFORM_ROUND_WRITE2 Pass2 b0 b1 bw XB).
Proof.
  unfold KX_ROUND_WRITE2, PWXFORM_ROUND_WRITE2. weave. weave_ret.
Qed.

(** [weave_call H] runs a call of a woven function with its lemma [H] and
    names nothing: the results are pairs of the one-way results. *)
Ltac weave_call H :=
  eapply woven_bind; [apply H|];
  let c := fresh in let a := fresh in let b := fresh in intros c a b;
  unfold both, both_ctx, both_j; intros;
  repeat match goal with h : _ ∧ _ |- _ => destruct h end; subst;
  repeat match goal with x : (_ * _)%type |- _ => destruct x end; cbn [fst snd] in *;
  simplify_eq.

Lemma KX_PWXFORM2_woven XA cA XB cB :
  woven both (KX_PWXFORM2 XA cA XB cB) (PWXFORM Pass2 cA XA) (PWXFORM Pass2 cB XB).
Proof.
  destruct cA, cB. cbn [PWXFORM]. unfold KX_PWXFORM2, PWXFORM_pass2.
  weave_call KX_ROUND_WRITE4_woven. weave_call KX_ROUND_WRITE2_woven.
  weave_call KX_ROUND_WRITE2_woven. weave_ret.
Qed.

(** ** Block mixing *)
Definition both_i {A B} (c : (A * Z) * (B * Z)) (a : A * Z) (b : B * Z) : Prop := c = (a, b) ∧ a.2 = b.2.

Lemma kx_blockmix_loop_woven fuel AI AO BI BO i r XA cA XB cB :
  woven both_i (kx_blockmix_loop fuel AI AO BI BO i r XA cA XB cB)
    (blockmix_loop fuel Pass2 AI AO i r XA cA) (blockmix_loop fuel Pass2 BI BO i r XB cB).
Proof.
  revert i XA cA XB cB. induction fuel as [|fuel IH]; intros i XA cA XB cB.
  { apply woven_fail. by left. }
  cbn [kx_blockmix_loop blockmix_loop]. weave. weave_call KX_PWXFORM2_woven.
  destruct (r <=? i)%Z; [weave_ret|]. weave. apply IH.
Qed.

Lemma kx_blockmix_xor_loop_woven fuel A1 A2 AO B1 B2 BO i r XA cA XB cB :
  woven both_i (kx_blockmix_xor_loop fuel A1 A2 AO B1 B2 BO i r XA cA XB cB)
    (blockmix_xor_loop fuel Pass2 A1 A2 AO i r XA cA) (blockmix_xor_loop fuel Pass2 B1 B2 BO i r XB cB).
Proof.
  revert i XA cA XB cB. induction fuel as [|fuel IH]; intros i XA cA XB cB.
  { apply woven_fail. by left. }
  cbn [kx_blockmix_xor_loop blockmix_xor_loop]. weave. weave_call KX_PWXFORM2_woven.
  weave. weave_call KX_PWXFORM2_woven.
  destruct (r <=? i)%Z; [weave_ret|]. weave. apply IH.
Qed.

Lemma kx_blockmix_xor_save_loop_woven fuel A1 A2 B1 B2 i r XA cA XB cB :
  woven both_i (kx_blockmix_xor_save_loop fuel A1 A2 B1 B2 i r XA cA XB cB)
    (blockmix_xor_save_loop fuel Pass2 A1 A2 i r XA cA) (blockmix_xor_save_loop fuel Pass2 B1 B2 i r XB cB).
Proof.
  revert i XA cA XB cB. induction fuel as [|fuel IH]; intros i XA cA XB cB.
  { apply woven_fail. by left. }
  cbn [kx_blockmix_xor_save_loop blockmix_xor_save_loop]. weave. weave_call KX_PWXFORM2_woven.
  weave. weave_call KX_PWXFORM2_woven.
  destruct (r <=? i)%Z; [weave_ret|]. weave. apply IH.
Qed.

Lemma M_bind_assoc {A B C} (e : M A) (f : A → M B) (g : B → M C) m :
  ((e ≫= f) ≫= g) m = (e ≫= λ a, f a ≫= g) m.
Proof. unfold mbind, M_bind. by destruct (e m) as [[]|]. Qed.

Lemma woven_ext {A B C} (R : C → A → B → Prop) E eA eA' eB eB' :
  (∀ m, eA m = eA' m) → (∀ m, eB m = eB' m) → woven R E eA' eB' → woven R E eA eB.
Proof. intros HA HB H mm. rewrite HA, HB. apply H. Qed.

(** [KX_FINISH] and [SALSA20_to] leave the same state; one returns the
    integer, the other the block. *)
Lemma woven_finish {A B C} (R : C → A → B → Prop) XA oA XB oB (K : Z → Z → M2 C)
    (kA : salsa20_blk_t → M A) (kB : salsa20_blk_t → M B) :
  (∀ X Y, woven R (K (INTEGERIFY X) (INTEGERIFY Y)) (kA X) (kB Y)) →
  woven R (jA ← onA (KX_FINISH XA oA); jB ← onB (KX_FINISH XB oB); K jA jB)
    (SALSA20_to Pass2 XA oA ≫= kA) (SALSA20_to Pass2 XB oB ≫= kB).
Proof.
  intros H [m1 m2]. unfold KX_FINISH, SALSA20_to, SALSA20. unfold onA, onB, mbind, M2_bind, M_bind.
  cbn [fst snd].
  destruct (WRITE_X oA (SALSA20_2 XA) m1) as [[? m1']|]; [|by left].
  cbn [mret M_ret fst snd].
  destruct (WRITE_X oB (SALSA20_2 XB) m2) as [[? m2']|]; [|by right].
  apply (H (SALSA20_2 XA) (SALSA20_2 XB) (m1', m2')).
Qed.

Ltac weave_loop H :=
  eapply woven_bind; [apply H|];
  intros [[[? ?] ?] [[? ?] ?]] [[? ?] ?] [[? ?] ?] [[= <- <- <- <- <- <-] Hi]; cbn [snd] in Hi; subst.

Lemma kx_blockmix_woven AI AO cA BI BO cB r :
  woven both_ctx (kx_blockmix AI AO cA BI BO cB r)
    (blockmix Pass2 AI AO r (Some cA)) (blockmix Pass2 BI BO r (Some cB)).
Proof.
  unfold kx_blockmix. cbn [blockmix]. weave. weave_loop kx_blockmix_loop_woven.
  apply woven_finish. intros. weave_ret.
Qed.
Lemma kx_blockmix_xor_woven A1 A2 AO cA B1 B2 BO cB r :
  woven both_j (kx_blockmix_xor A1 A2 AO cA B1 B2 BO cB r)
    (blockmix_xor Pass2 A1 A2 AO r (Some cA)) (blockmix_xor Pass2 B1 B2 BO r (Some cB)).
Proof.
  unfold kx_blockmix_xor. cbn [blockmix_xor]. weave. weave_loop kx_blockmix_xor_loop_woven.
  apply woven_finish. intros. weave_ret.
Qed.
Lemma kx_blockmix_xor_save_woven A1 A2 cA B1 B2 cB r :
  woven both (kx_blockmix_xor_save A1 A2 cA B1 B2 cB r)
    (blockmix_xor_save Pass2 A1 A2 r cA) (blockmix_xor_save Pass2 B1 B2 r cB).
Proof.
  unfold kx_blockmix_xor_save, blockmix_xor_save. weave. weave_loop kx_blockmix_xor_save_loop_woven.
  apply woven_finish. intros. weave_ret.
Qed.

(** ** SMix *)
Lemma for_loop2_woven k i fA fB :
  woven (λ _ _ _, True) (for_loop2 k i fA fB) (for_loop k i fA) (for_loop k i fB).
Proof.
  revert i. induction k as [|k IH]; intros i; [weave_ret|]. cbn [for_loop2 for_loop]. weave. apply IH.
Qed.

Lemma kx_smix1_expand_woven k XA XB i cA cB :
  woven both_ctx (kx_smix1_expand k XA XB i cA cB)
    (smix1_expand k Pass2 XA i (Some cA)) (smix1_expand k Pass2 XB i (Some cB)).
Proof.
  revert i cA cB. induction k as [|k IH]; intros i cA cB; [weave_ret|].
  cbn [kx_smix1_expand smix1_expand]. weave_call kx_blockmix_woven. apply IH.
Qed.

Definition both_xj {A B} (c : (Z * Z * A) * (Z * Z * B)) (a : Z * Z * option A) (b : Z * Z * option B) : Prop :=
  a = (c.1.1, Some c.1.2) ∧ b = (c.2.1, Some c.2.2).
Definition both_nxj {A B} (c : (Z * Z * Z * A) * (Z * Z * Z * B)) (a : Z * Z * Z * option A)
    (b : Z * Z * Z * option B) : Prop :=
  a = (c.1.1, Some c.1.2) ∧ b = (c.2.1, Some c.2.2) ∧ c.1.1.1.1 = c.2.1.1.1.

Lemma kx_smix1_inner_woven fuel VA VB s r n m i XA XB jA jB cA cB :
  woven both_xj (kx_smix1_inner fuel VA VB s r n m i XA XB jA jB cA cB)
    (smix1_inner fuel Pass2 VA s r n m i XA jA (Some cA))
    (smix1_inner fuel Pass2 VB s r n m i XB jB (Some cB)).
Proof.
  revert i XA XB jA jB cA cB. induction fuel as [|fuel IH]; intros i XA XB jA jB cA cB.
  { apply woven_fail. by left. }
  cbn [kx_smix1_inner smix1_inner]. destruct (i <? m)%Z; [|weave_ret].
  weave_call kx_blockmix_xor_woven. weave_call kx_blockmix_xor_woven. apply IH.
Qed.

Lemma kx_smix1_outer_woven fuel VA VB s r N n XA XB jA jB cA cB :
  woven both_nxj (kx_smix1_outer fuel VA VB s r N n XA XB jA jB cA cB)
    (smix1_outer fuel Pass2 VA s r N n XA jA (Some cA))
    (smix1_outer fuel Pass2 VB s r N n XB jB (Some cB)).
Proof.
  revert n XA XB jA jB cA cB. induction fuel as [|fuel IH]; intros n XA XB jA jB cA cB.
  { apply woven_fail. by left. }
  cbn [kx_smix1_outer smix1_outer]. destruct (n <? N)%Z; [|weave_ret].
  eapply woven_bind; [apply kx_smix1_inner_woven|].
  intros [[[? ?] ?] [[? ?] ?]] ? ? [-> ->]. cbn [fst snd]. apply IH.
Qed.

Lemma kx_smix1_woven BA BB r N VA VB XYA XYB cA cB :
  woven both_ctx (kx_smix1 BA BB r N VA VB XYA XYB cA cB)
    (smix1 Pass2 BA r N VA XYA (Some cA)) (smix1 Pass2 BB r N VB XYB (Some cB)).
Proof.
  unfold kx_smix1, smix1, load_blks, store_blks.
  eapply woven_bind; [apply for_loop2_woven|intros _ _ _ _].
  weave_call kx_smix1_expand_woven. weave_call kx_blockmix_woven. weave_call kx_blockmix_woven. weave.
  eapply woven_bind; [apply kx_smix1_outer_woven|].
  intros [[[[? ?] ?] ?] [[[? ?] ?] ?]] ? ? (-> & -> & Hn). cbn [fst snd] in Hn |- *. subst.
  weave_call kx_blockmix_xor_woven. weave_call kx_blockmix_xor_woven.
  eapply woven_bind; [apply for_loop2_woven|intros _ _ _ _]. weave_ret.
Qed.

Lemma kx_smix2_loop_woven fuel XA XB VA VB s r N jA jB Nloop cA cB :
  woven both (kx_smix2_loop fuel XA XB VA VB s r N jA jB Nloop cA cB)
    (smix2_save_loop fuel Pass2 XA VA s r N jA Nloop cA)
    (smix2_save_loop fuel Pass2 XB VB s r N jB Nloop cB).
Proof.
  revert jA jB Nloop cA cB. induction fuel as [|fuel IH]; intros jA jB Nloop cA cB.
  { apply woven_fail. by left. }
  cbn [kx_smix2_loop smix2_save_loop].
  weave_call kx_blockmix_xor_save_woven. weave_call kx_blockmix_xor_save_woven.
  destruct (u32 (Nloop - 2) =? 0)%Z; [weave_ret|apply IH].
Qed.

Lemma kx_smix2_woven BA BB r N Nloop VA VB XYA XYB cA cB :
  woven both (kx_smix2 BA BB r N Nloop VA VB XYA XYB cA cB)
    (smix2 Pass2 BA r N Nloop VA XYA cA) (smix2 Pass2 BB r N Nloop VB XYB cB).
Proof.
  unfold kx_smix2, smix2, load_blks, store_blks. cbn [bool_decide orb].
  eapply woven_bind; [apply for_loop2_woven|intros _ _ _ _]. weave.
  weave_call kx_smix2_loop_woven.
  eapply woven_bind; [apply for_loop2_woven|intros _ _ _ _]. weave_ret.
Qed.

(** ** The entry point *)
Abbreviation params1 := korsh_yespower_1_0.

(** What remains of an instance after [kx_start], one-way. *)
Definition kx_rest (stk : nat → stack) (B : Z) (sha : list Z) : M (list Z) :=
  c ← smix1 Pass2 B KYP_R KYP_N (kx_V B) (kx_XY B) (Some (kx_ctx B));
  c ← smix2 Pass2 B KYP_R KYP_N (Nloop_up KYP_N) (kx_V B) (kx_XY B) (default (kx_ctx B) c);
  k ← load_bytes 4 (B + kx_B_size - 64)%Z;
  mret (HMAC_SHA256_Buf (st_hctx (stk 2)) (st_tmp (stk 2)) k sha).

Lemma kx_finish_woven stkA stkB A B shaA shaB :
  woven both (kx_finish stkA stkB A B shaA shaB) (kx_rest stkA A shaA) (kx_rest stkB B shaB).
Proof.
  unfold kx_finish, kx_rest. weave_call kx_smix1_woven. cbn [default].
  weave_call kx_smix2_woven. weave. weave_ret.
Qed.

Lemma kx_sizes : kx_B_size = B_size params1 ∧ kx_V_size = V_bytes params1 ∧ kx_XY_size = XY_size params1 ∧
  kx_Sbytes = ctx_bytes params1 ∧ kx_need = need params1.
Proof. by split_and!. Qed.

(** The one-way hash is the two parts, one after the other. *)
Lemma body_split stk B inp m :
  yespower_body stk B (take 80 inp) params1 m = (sha ← kx_start stk B inp; kx_rest stk B sha) m.
Proof.
  unfold yespower_body, kx_start, kx_rest, smix. change (pass_of params1) with Pass2. cbv beta iota.
  change (default [] (pers_bytes params1)) with (@nil Z). change (pr params1) with KYP_R.
  change (pN params1) with KYP_N. rewrite !M_bind_assoc. unfold mbind, M_bind, mret, M_ret.
  destruct (load_bytes 8 B m) as [[old m1]|]; [|reflexivity].
  destruct (lift _ m1) as [[b m2]|]; [|reflexivity].
  destruct (store_bytes 8 B b m2) as [[? m3]|]; [|reflexivity].
  unfold kx_ctx, kx_XY, kx_V. destruct kx_sizes as (-> & -> & -> & -> & _).
  change (u32 (ctx_bytes params1)) with (ctx_bytes params1).
  destruct (smix1 Pass2 B 1 _ _ _ _ m3) as [[? m4]|]; [|reflexivity].
  destruct (smix1 Pass2 B KYP_R KYP_N _ _ _ m4) as [[c m5]|]; [|reflexivity].
  destruct (smix2 Pass2 B _ _ _ _ _ _ m5) as [[c' m6]|]; reflexivity.
Qed.

Lemma params1_ok : params_ok params1 = true.
Proof. reflexivity. Qed.
Lemma params1_pers p : pers params1 = Some p → bytes p.
Proof. discriminate. Qed.

(** [kx_start] runs inside the region. *)
Lemma kx_start_spec stk B inp m : (∀ i, wf_stack (stk i)) → bytes inp →
  allocated m B kx_need → mem_wf m →
  ∃ sha m', kx_start stk B inp m = Some (sha, m') ∧ modifies (in_range B kx_need) m m'.
Proof.
  intros Hstk Hin HA Hm. destruct (arrays_allocated stk (take 80 inp) params1) with (B := B) (m := m)
    as (AB & AV & AX & AS & HW); [done|by apply Forall_take|apply params1_pers|apply params1_ok|exact HA|].
  unfold kx_start. rewrite SHA256_Buf_spec by (apply Hstk || by apply Forall_take).
  assert (allocated m B (16 * Z.of_nat 8)) as A8
    by (eapply allocated_sub; [exact AB|by exists 0%Z; lia|lia|change (rs (Z.to_nat (pr params1))) with 1024%Z; lia]).
  destruct (allocated_lanes m 8 B Hm A8) as (L & HL & HWL & Hat).
  pose proof (load_bytes_spec m B L Hat) as EL. rewrite HL in EL. step EL.
  erewrite run_bind by (apply pbkdf2_call; [done|apply sha256_bytes|constructor
    |rewrite length_bytes_of_lanes; lia|lia]).
  set (b := pbkdf2 _ _ _ _). assert (bytes b) as Hb by apply pbkdf2_bytes.
  destruct (store_bytes_spec 8 m B b A8 Hb) as (m1 & E1 & _ & M1). step E1.
  destruct (allocated_row m1 8 B) as (Bs & HWs & HBs); [by apply M1|by eapply modifies_allocated|].
  destruct (init_boxes Pass2 8 256 8 B (kx_V B) (kx_XY B) (kx_XY B + kx_XY_size)%Z)
    with (m := m1) (ctx := kx_ctx B) (Bs := Bs) as (m2 & c & E2 & _ & _ & _ & M2);
    [lia|done|lia|apply (layout_ok params1 params1_ok)|done|done|done
    |by eapply modifies_allocated|by eapply modifies_allocated|].
  step E2. exists (take 32 b), m2. split; [done|].
  eapply modifies_trans; [|eapply modifies_weaken; [exact M2|exact HW]].
  eapply modifies_weaken; [exact M1|]. intros x Hx. apply HW. left. revert Hx.
  change (rs (Z.to_nat (pr params1))) with 1024%Z. unfold in_range. lia.
Qed.

Definition wf_kx (t : kx_thread_region_t) : Prop := kx_init t = true → wf_local (kx_region t).

Section Platform2.
Context {P : Platform} {PL : PlatformLaws P}.

Lemma kx_prepare_spec t s : wf_kx t →
  match kx_prepare t s with
  | inl (t', s') => wf_kx t' ∧ ¬ memory_available
  | inr (t', s') => kx_init t' = true ∧ wf_local (kx_region t') ∧ (kx_need <= rg_aligned_size (kx_region t'))%Z
  end.
Proof using PL.
  intros Ht. unfold kx_prepare. set (region := if kx_init t then kx_region t else init_region).
  assert (wf_local region) as Hw by (unfold region; destruct (kx_init t) eqn:E; [by apply Ht|done]).
  destruct (Z.ltb_spec (rg_aligned_size region) kx_need) as [Hlt|Hge]; [|done].
  destruct (free_region region s) as [[l|] s1] eqn:EF.
  2:{ split; [by intros _|]. intros Hm. destruct (free_region_available region s Hm) as (? & ? & ?). congruence. }
  destruct (alloc_region kx_need s1) as [[ret reg] s2] eqn:EA.
  destruct (alloc_region_spec kx_need s1 ret reg s2 ltac:(by vm_compute) EA) as (HW & _ & _ & Hsz).
  destruct ret as [a|].
  - split_and!; [done|done|]. cbn. destruct Hsz as [-> _]. done.
  - split; [by intros _|]. intros Hm. destruct (alloc_region_available kx_need s1 Hm) as (? & ? & ? & ?). congruence.
Qed.

(** A turn of the first loop ends with an early return, on a system that
    refused memory, or with a region in which [kx_start] ran. *)
Lemma kx_turn_spec stk t s inp : (∀ i, wf_stack (stk i)) → bytes inp → wf_kx t →
  (∃ t' s', kx_turn stk t s inp = Some (inl (t', s')) ∧ wf_kx t' ∧ ¬ memory_available) ∨
  (∃ B sha l m m' s', kx_turn stk t s inp = Some (inr (B, sha, mkKx (set_mem l m') true, s')) ∧
    rg_aligned l = Some B ∧ (64 | B)%Z ∧ (kx_need <= rg_aligned_size l)%Z ∧
    allocated m B (rg_aligned_size l) ∧ mem_wf m ∧ modifies (in_range B kx_need) m m' ∧
    kx_start stk B inp m = Some (sha, m')).
Proof using PL.
  intros Hstk Hin Ht. unfold kx_turn. pose proof (kx_prepare_spec t s Ht) as Hp.
  destruct (kx_prepare t s) as [[t' s']|[[l i] s']]; [left; by eauto|right]. cbn [kx_region kx_init] in Hp |- *.
  destruct Hp as (-> & Hw & Hsz). unfold wf_local in Hw.
  destruct (rg_aligned l) as [B|] eqn:EB; [|exfalso; rewrite Hw in Hsz; revert Hsz; vm_compute; congruence].
  destruct Hw as (HD & HA & Hm).
  destruct (kx_start_spec stk B inp (rg_mem l) Hstk Hin) as (sha & m' & E & M); [by eapply allocated_le|done|].
  rewrite E. by eexists B, sha, l, (rg_mem l), m', s'.
Qed.

(** The rest of an instance gives the hash. *)
Lemma kx_rest_spec stk B inp m m' sha : (∀ i, wf_stack (stk i)) → bytes inp →
  allocated m B kx_need → mem_wf m → kx_start stk B inp m = Some (sha, m') →
  ∃ m'', kx_rest stk B sha m' = Some (yespower_ref params1 (take 80 inp), m'') ∧
    modifies (in_range B kx_need) m m''.
Proof using.
  intros Hstk Hin HA Hm E.
  destruct (yespower_body_spec stk (take 80 inp) params1) with (B := B) (m := m) as (m'' & E2 & M);
    [done|by apply Forall_take|apply params1_pers|apply params1_ok|done|done|].
  rewrite body_split, (run_bind _ _ _ _ _ E) in E2. by exists m''.
Qed.

Lemma wf_set_mem l B m m' : rg_aligned l = Some B → (64 | B)%Z → allocated m B (rg_aligned_size l) → mem_wf m →
  modifies (in_range B kx_need) m m' → wf_local (set_mem l m').
Proof using.
  intros EB HD HA Hm M. unfold wf_local, set_mem. cbn. rewrite EB.
  split_and!; [done|by eapply modifies_allocated|by apply M].
Qed.
End Platform2.

Lemma korsh_yespower_hash2_spec {P : Platform} {PL : PlatformLaws P} stkA stkB t0 t1 s in0 in1 :
  (∀ i, wf_stack (stkA i)) → (∀ i, wf_stack (stkB i)) → bytes in0 → bytes in1 → wf_kx t0 → wf_kx t1 →
  let old h := (le32dec (drop 68 h) <=? KYP_PERS_TIME_THRESHOLD)%Z in
  ∃ ret t0' t1' s', korsh_yespower_hash2 stkA stkB t0 t1 s in0 in1 = Some (ret, (t0', t1'), s') ∧
    wf_kx t0' ∧ wf_kx t1' ∧
    (old in0 || old in1 = true → ret = None ∧ t0' = t0 ∧ t1' = t1 ∧ s' = s) ∧
    (old in0 || old in1 = false →
      (ret = None ∧ ¬ memory_available) ∨ ret = Some (pow_hash in0, pow_hash in1)).
Proof.
  intros HsA HsB H0 H1 W0 W1 old. unfold korsh_yespower_hash2. fold (old in0) (old in1).
  destruct (old in0 || old in1) eqn:Eold; [by eexists None, t0, t1, s|].
  destruct (kx_turn_spec stkA t0 s in0 HsA H0 W0)
    as [(t0' & s1 & -> & W0' & HN)|(A & shaA & lA & mA & mA' & s1 & -> & EA & DA & NA & AA & MA & FA & SA)].
  { eexists None, t0', t1, s1. split_and!; try done. by left. }
  assert (wf_local (set_mem lA mA')) as WA by (by eapply wf_set_mem).
  destruct (kx_turn_spec stkB t1 s1 in1 HsB H1 W1)
    as [(t1' & s2 & -> & W1' & HN)|(B & shaB & lB & mB & mB' & s2 & -> & EB & DB & NB & AB & MB & FB & SB)].
  { eexists None, _, t1', s2. split_and!; try done; [by intros _|by left]. }
  destruct (kx_rest_spec stkA A in0 mA mA' shaA HsA H0) as (mA'' & RA & FA'); [by eapply allocated_le|done..|].
  destruct (kx_rest_spec stkB B in1 mB mB' shaB HsB H1) as (mB'' & RB & FB'); [by eapply allocated_le|done..|].
  pose proof (kx_finish_woven stkA stkB A B shaA shaB (mA', mB')) as HK. cbn [fst snd] in HK.
  rewrite RA, RB in HK. change (rg_mem (kx_region (mkKx (set_mem lA mA') true))) with mA'.
  change (rg_mem (kx_region (mkKx (set_mem lB mB') true))) with mB'.
  destruct (kx_finish stkA stkB A B shaA shaB (mA', mB')) as [[outs mm]|]; [|by destruct HK].
  destruct HK as [-> Houts]. unfold both in Houts. subst outs.
  eexists _, _, _, s2. split_and!; [reflexivity|intros _; by eapply (wf_set_mem lA A mA)
    |intros _; by eapply (wf_set_mem lB B mB)|done|intros _; right].
  apply orb_false_iff in Eold as [E0 E1].
  assert (∀ h, old h = false → pow_hash h = yespower_ref params1 (take 80 h)) as Hpow.
  { intros h Hh. unfold pow_hash, pow_params. apply Z.leb_gt in Hh. apply Z.ltb_lt in Hh.
    unfold KYP_PERS_TIME_THRESHOLD in Hh. by rewrite Hh. }
  by rewrite !Hpow.
Qed.

(** ** Statements *)

(** C3: the two-way kernel of the miner agrees with the node.  On any two
    headers and any state of the thread's two regions, [korsh_yespower_hash2]
    runs inside its regions and leaves them well-formed; it refuses (-1)
    headers with a timestamp of the old version, and otherwise, unless memory
    is refused, returns in [out0] and [out1] exactly the hashes [pow_hash] that
    [yespower_hash] of the node computes for [in0] and [in1] one at a time: the
    interleaving of the two instances cannot be observed. *)
Theorem korsh_yespower_hash2_correct {P : Platform} {PL : PlatformLaws P} stkA stkB t0 t1 s in0 in1 :
  (∀ i, wf_stack (stkA i)) → (∀ i, wf_stack (stkB i)) → bytes in0 → bytes in1 → wf_kx t0 → wf_kx t1 →
  let old h := (le32dec (drop 68 h) <=? KYP_PERS_TIME_THRESHOLD)%Z in
  ∃ ret t0' t1' s', korsh_yespower_hash2 stkA stkB t0 t1 s in0 in1 = Some (ret, (t0', t1'), s') ∧
    wf_kx t0' ∧ wf_kx t1' ∧
    (old in0 || old in1 = true → ret = None ∧ t0' = t0 ∧ t1' = t1 ∧ s' = s) ∧
    (old in0 || old in1 = false →
      (ret = None ∧ ¬ memory_available) ∨ ret = Some (pow_hash in0, pow_hash in1)).
Proof. apply korsh_yespower_hash2_spec. Qed.

Lemma korsh_yespower_hash2_correct_witness :
  let h0 := replicate 80 255%Z in let h1 := replicate 80 254%Z in
  ∃ t s', korsh_yespower_hash2 (P:=sample_platform) sample_stack sample_stack
      (mkKx init_region false) (mkKx init_region false) tt h0 h1
    = Some (Some (pow_hash h0, pow_hash h1), t, s').
Proof.
  intros h0 h1.
  destruct (korsh_yespower_hash2_correct (P:=sample_platform) sample_stack sample_stack
    (mkKx init_region false) (mkKx init_region false) tt h0 h1 sample_stack_wf sample_stack_wf)
    as (ret & t0' & t1' & s' & E & _ & _ & _ & H).
  - by apply Forall_replicate.
  - by apply Forall_replicate.
  - discriminate.
  - discriminate.
  - destruct (H eq_refl) as [[_ HN]| ->]; [destruct (HN sample_memory_available)|].
    exists (t0', t1'), s'. exact E.
Defined.
