(* ===== verification/Serialize.v ===== *)
(** * Serialization primitives of the node

    The lowest level of [src/src/serialize.h]: fixed-width integers, CompactSize
    and VarInt.  A stream is the list of the bytes that are left; a write is
    the list of bytes it appends; a read returns the value and the rest of the
    stream, or [None] for the exception it throws ([s.read] past the end
    included).  Byte order is that of [compat/endian.h] on a little-endian host. *)
From S2P Require Import Prelude.

Abbreviation stream := (list Z).
Definition reader (A : Type) : Type := stream → option (A * stream).
#[global] Instance reader_ret : MRet reader := λ A a s, Some (a, s).
#[global] Instance reader_bind : MBind reader := λ A B k e s,
  match e s with Some (a, s) => k a s | None => None end.
Definition throw {A} : reader A := λ _, None.

Definition read_bytes (n : nat) : reader (list Z) := λ s,
  if (length s <? n)%nat then None else Some (take n s, drop n s).

Definition ser_writedata8 (obj : Z) : list Z := [u8 obj].
Definition ser_writedata16 (obj : Z) : list Z := le_bytes 2 obj.
Definition ser_writedata16be (obj : Z) : list Z := be_bytes 2 obj.
Definition ser_writedata32 (obj : Z) : list Z := le_bytes 4 obj.
Definition ser_writedata32be (obj : Z) : list Z := be_bytes 4 obj.
Definition ser_writedata64 (obj : Z) : list Z := le_bytes 8 obj.
Definition ser_readdata8 : reader Z := l ← read_bytes 1; mret (le_val l).
Definition ser_readdata16 : reader Z := l ← read_bytes 2; mret (le_val l).
Definition ser_readdata16be : reader Z := l ← read_bytes 2; mret (be_val l).
Definition ser_readdata32 : reader Z := l ← read_bytes 4; mret (le_val l).
Definition ser_readdata32be : reader Z := l ← read_bytes 4; mret (be_val l).
Definition ser_readdata64 : reader Z := l ← read_bytes 8; mret (le_val l).

(** ** CompactSize *)
Definition MAX_SIZE : Z := 0x02000000.

Definition GetSizeOfCompactSize (nSize : Z) : Z :=
  if (nSize <? 253)%Z then 1
  else if (nSize <=? 0xffff)%Z then 1 + 2
  else if (nSize <=? 0xffffffff)%Z then 1 + 4
  else 1 + 8.

Definition WriteCompactSize (nSize : Z) : list Z :=
  if (nSize <? 253)%Z then ser_writedata8 nSize
  else if (nSize <=? 0xffff)%Z then ser_writedata8 253 ++ ser_writedata16 nSize
  else if (nSize <=? 0xffffffff)%Z then ser_writedata8 254 ++ ser_writedata32 nSize
  else ser_writedata8 255 ++ ser_writedata64 nSize.

Definition ReadCompactSize (range_check : bool) : reader Z :=
  chSize ← ser_readdata8;
  nSizeRet ←
    (if (chSize <? 253)%Z then mret chSize
     else if (chSize =? 253)%Z then
       n ← ser_readdata16; if (n <? 253)%Z then throw else mret n
     else if (chSize =? 254)%Z then
       n ← ser_readdata32; if (n <? 0x10000)%Z then throw else mret n
     else
       n ← ser_readdata64; if (n <? 0x100000000)%Z then throw else mret n);
  if range_check && (MAX_SIZE <? nSizeRet)%Z then throw else mret nSizeRet.

(** ** VarInt, for an unsigned type of [w] bits *)
Fixpoint GetSizeOfVarInt_loop (fuel : nat) (n nRet : Z) : Z :=
  match fuel with
  | O => nRet
  | S fuel =>
      let nRet := (nRet + 1)%Z in
      if (n <=? 0x7f)%Z then nRet else GetSizeOfVarInt_loop fuel ((n ≫ 7) - 1) nRet
  end.
Definition varint_max (w : nat) : nat := (w + 6) / 7.
Definition GetSizeOfVarInt (w : nat) (n : Z) : Z := GetSizeOfVarInt_loop (varint_max w) n 0.

(** [tmp[0 .. len - 1]], the last byte first; the fuel is the room left in
    [tmp], so [None] is a write past its end. *)
Fixpoint WriteVarInt_loop (fuel : nat) (n : Z) (tmp : list Z) : option (list Z) :=
  match fuel with
  | O => None
  | S fuel =>
      let b := Z.lor (Z.land n 0x7f) (if (length tmp =? 0)%nat then 0 else 0x80) in
      if (n <=? 0x7f)%Z then Some (b :: tmp) else WriteVarInt_loop fuel ((n ≫ 7) - 1) (b :: tmp)
  end.
Definition WriteVarInt (w : nat) (n : Z) : option (list Z) := WriteVarInt_loop (varint_max w) n [].

Fixpoint ReadVarInt_loop (w : nat) (n : Z) (s : stream) : option (Z * stream) :=
  match s with
  | [] => None
  | chData :: s =>
      let max := (2 ^ Z.of_nat w - 1)%Z in
      if (max ≫ 7 <? n)%Z then None else
      let n := Z.lor ((n ≪ 7) `mod` 2 ^ Z.of_nat w) (Z.land chData 0x7f) in
      if negb (Z.land chData 0x80 =? 0)%Z then
        if (n =? max)%Z then None else ReadVarInt_loop w (n + 1) s
      else Some (n, s)
  end.
Definition ReadVarInt (w : nat) : reader Z := ReadVarInt_loop w 0.

(** A decidable property of small numbers, by evaluation. *)
Lemma by_cases (n : Z) (P : Z → Prop) `{∀ x, Decision (P x)} :
  bool_decide (Forall P (seqZ 0 n)) = true → ∀ x, (0 <= x < n)%Z → P x.
Proof.
  intros HF x Hx. apply bool_decide_eq_true in HF. rewrite Forall_forall in HF.
  apply HF, elem_of_seqZ. lia.
Qed.

(** ** Fixed-width integers *)
Section Reading.
Local Open Scope Z_scope.

Lemma read_bytes_app n l s : length l = n → read_bytes n (l ++ s) = Some (l, s).
Proof.
  intros <-. unfold read_bytes. rewrite length_app. destruct (Nat.ltb_spec (length l + length s) (length l)); [lia|].
  by rewrite take_app_length, drop_app_length.
Qed.
Lemma read_bytes_Some n s l s' : read_bytes n s = Some (l, s') → s = l ++ s' ∧ length l = n.
Proof.
  unfold read_bytes. destruct (Nat.ltb_spec (length s) n); [done|]. intros [= <- <-].
  rewrite take_drop, length_take. split; [done|lia].
Qed.

Lemma read_le n x s : (0 <= x < 256 ^ Z.of_nat n) →
  (l ← read_bytes n; mret (le_val l) : reader Z) (le_bytes n x ++ s) = Some (x, s).
Proof.
  intros Hx. unfold mbind, reader_bind. rewrite read_bytes_app by apply length_le_bytes.
  unfold mret, reader_ret. rewrite le_val_le_bytes, Z.mod_small by done. done.
Qed.
Lemma read_le_Some n s x s' : bytes s → (l ← read_bytes n; mret (le_val l) : reader Z) s = Some (x, s') →
  s = le_bytes n x ++ s' ∧ 0 <= x < 256 ^ Z.of_nat n ∧ bytes s'.
Proof.
  intros Hs. unfold mbind, reader_bind. destruct (read_bytes n s) as [[l s1]|] eqn:E; [|done].
  apply read_bytes_Some in E as [-> Hl]. intros [= <- <-]. apply Forall_app in Hs as [H1 H2].
  rewrite le_bytes_le_val by done. split_and!; [done|by apply le_val_nonneg| |done].
  rewrite <-Hl. by apply le_val_bound.
Qed.
End Reading.

Lemma rd_bind {A B} (e : reader A) (k : A → reader B) s a s' : e s = Some (a, s') → (e ≫= k) s = k a s'.
Proof. intros He. unfold mbind, reader_bind. by rewrite He. Qed.
Lemma rd_bind_Some {A B} (e : reader A) (k : A → reader B) s b s2 :
  (e ≫= k) s = Some (b, s2) → ∃ a s1, e s = Some (a, s1) ∧ k a s1 = Some (b, s2).
Proof. unfold mbind, reader_bind. destruct (e s) as [[a s1]|]; [by eauto|done]. Qed.

(** [read H] performs the next read with the equation [H]. *)
Ltac read H := rewrite (rd_bind _ _ _ _ _ H).

(** ** CompactSize is canonical *)
Lemma Read_WriteCompactSize rc n s : (0 <= n < 2 ^ 64)%Z → (rc = true → n <= MAX_SIZE)%Z →
  ReadCompactSize rc (WriteCompactSize n ++ s) = Some (n, s).
Proof.
  intros Hn Hrc. unfold ReadCompactSize, WriteCompactSize.
  assert (rc && (MAX_SIZE <? n)%Z = false) as Hr.
  { destruct rc; [|done]. specialize (Hrc eq_refl). by apply Z.ltb_ge. }
  assert (∀ n s, (0 <= n < 256)%Z → ser_readdata8 (ser_writedata8 n ++ s) = Some (n, s)) as H8
    by (intros; by apply (read_le 1)).
  assert (∀ e s', e s' = Some (n, s) → (nSizeRet ← e; if rc && (MAX_SIZE <? nSizeRet)%Z then throw else mret nSizeRet : reader Z) s'
    = Some (n, s)) as Hend.
  { intros e s' He. read He. by rewrite Hr. }
  assert (∀ k (b : Z), (b <= n < 256 ^ Z.of_nat k)%Z →
    (m ← (l ← read_bytes k; mret (le_val l)); if (m <? b)%Z then throw else mret m : reader Z) (le_bytes k n ++ s) = Some (n, s)) as Hk.
  { intros k b Hb. read (read_le k n s ltac:(lia)). by destruct (Z.ltb_spec n b); [lia|]. }
  destruct (Z.ltb_spec n 253).
  { read (H8 n s ltac:(lia)). apply Hend. by destruct (Z.ltb_spec n 253); [|lia]. }
  destruct (Z.leb_spec n 0xffff).
  { rewrite <-app_assoc. read (H8 253%Z (ser_writedata16 n ++ s) ltac:(lia)). apply Hend, (Hk 2). cbn. lia. }
  destruct (Z.leb_spec n 0xffffffff).
  { rewrite <-app_assoc. read (H8 254%Z (ser_writedata32 n ++ s) ltac:(lia)). apply Hend, (Hk 4). cbn. lia. }
  rewrite <-app_assoc. read (H8 255%Z (ser_writedata64 n ++ s) ltac:(lia)). apply Hend, (Hk 8). cbn. lia.
Qed.

Lemma ReadCompactSize_Some rc s n s' : bytes s → ReadCompactSize rc s = Some (n, s') →
  s = WriteCompactSize n ++ s' ∧ (0 <= n < 2 ^ 64)%Z ∧ (rc = true → n <= MAX_SIZE)%Z.
Proof.
  intros Hs H. unfold ReadCompactSize in H. apply rd_bind_Some in H as (ch & s1 & H1 & H).
  apply (read_le_Some 1) in H1 as (-> & Hch & Hs1); [|done]. change (256 ^ Z.of_nat 1)%Z with 256%Z in Hch.
  apply rd_bind_Some in H as (m & s2 & H2 & H).
  assert (m = n ∧ s2 = s' ∧ (rc = true → n <= MAX_SIZE)%Z) as (-> & -> & Hrc).
  { destruct rc; [|by injection H as <- <-]. cbn [andb] in H.
    destruct (Z.ltb_spec MAX_SIZE m); [done|]. by injection H as <- <-. }
  assert (∀ k b, (m ← (l ← read_bytes k; mret (le_val l)); if (m <? b)%Z then throw else mret m : reader Z) s1 = Some (n, s') →
    s1 = le_bytes k n ++ s' ∧ (b <= n)%Z ∧ (0 <= n < 256 ^ Z.of_nat k)%Z) as Hk.
  { intros k b E. apply rd_bind_Some in E as (m & s2 & E1 & E2). apply read_le_Some in E1 as (-> & Hm & _); [|done].
    destruct (Z.ltb_spec m b); [done|]. injection E2 as <- <-. done. }
  unfold WriteCompactSize.
  destruct (Z.ltb_spec ch 253).
  { injection H2 as -> ->. destruct (Z.ltb_spec n 253); [|lia]. split; [done|]. split; [lia|done]. }
  destruct (Z.eqb_spec ch 253) as [->|].
  { apply (Hk 2) in H2 as (-> & Hb & Hn). change (256 ^ Z.of_nat 2)%Z with 65536%Z in Hn.
    destruct (Z.ltb_spec n 253); [lia|]. destruct (Z.leb_spec n 0xffff); [|lia]. split; [done|split; [lia|done]]. }
  destruct (Z.eqb_spec ch 254) as [->|].
  { apply (Hk 4) in H2 as (-> & Hb & Hn). change (256 ^ Z.of_nat 4)%Z with 4294967296%Z in Hn.
    destruct (Z.ltb_spec n 253); [lia|]. destruct (Z.leb_spec n 0xffff); [lia|].
    destruct (Z.leb_spec n 0xffffffff); [|lia]. split; [done|split; [lia|done]]. }
  assert (ch = 255%Z) as -> by lia. apply (Hk 8) in H2 as (-> & Hb & Hn).
  change (256 ^ Z.of_nat 8)%Z with (2 ^ 64)%Z in Hn.
  destruct (Z.ltb_spec n 253); [lia|]. destruct (Z.leb_spec n 0xffff); [lia|].
  destruct (Z.leb_spec n 0xffffffff); [lia|]. split; [done|split; [lia|done]].
Qed.

Lemma WriteCompactSize_length n : Z.of_nat (length (WriteCompactSize n)) = GetSizeOfCompactSize n.
Proof. unfold WriteCompactSize, GetSizeOfCompactSize. repeat (case_match; [reflexivity|]). reflexivity. Qed.

(** ** VarInt *)
Section VarInt.
Context (w : nat).
Local Abbreviation max := (2 ^ Z.of_nat w - 1)%Z.

Lemma low7 n : Z.lor ((n ≫ 7) ≪ 7) (Z.land n 0x7f) = n.
Proof using.
  change 0x7f%Z with (Z.ones 7). rewrite Z.land_ones by lia.
  apply Z.bits_inj'. intros i Hi. rewrite Z.lor_spec, Z.shiftl_spec, Z.testbit_mod_pow2 by lia.
  destruct (Z.ltb_spec i 7).
  - rewrite Z.testbit_neg_r by lia. done.
  - rewrite Z.shiftr_spec by lia. cbn [andb]. rewrite orb_false_r. f_equal. lia.
Qed.
Lemma digit_low n (c : bool) : Z.land (Z.lor (Z.land n 0x7f) (if c then 0 else 0x80)) 0x7f = Z.land n 0x7f.
Proof using. rewrite Z.land_lor_distr_l, <-Z.land_assoc. destruct c; by rewrite Z.lor_0_r. Qed.
Lemma digit_high n (c : bool) : negb (Z.land (Z.lor (Z.land n 0x7f) (if c then 0 else 0x80)) 0x80 =? 0)%Z = negb c.
Proof using. rewrite Z.land_lor_distr_l, <-Z.land_assoc, Z.land_0_r. by destruct c. Qed.

Lemma WriteVarInt_total fuel n tmp : 0 < fuel → (0 <= n < 2 ^ (7 * Z.of_nat fuel))%Z →
  is_Some (WriteVarInt_loop fuel n tmp).
Proof using.
  revert n tmp. induction fuel as [|fuel IH]; intros n tmp Hf Hn; [lia|].
  cbn [WriteVarInt_loop]. destruct (Z.leb_spec n 0x7f); [done|].
  destruct fuel as [|fuel]; [change (2 ^ (7 * Z.of_nat 1))%Z with 128%Z in Hn; lia|]. apply IH; [lia|].
  rewrite Z.shiftr_div_pow2 by lia. change (2 ^ 7)%Z with 128%Z.
  pose proof (Z.div_mod n 128). pose proof (Z.mod_pos_bound n 128).
  replace (7 * Z.of_nat (S (S fuel)))%Z with (7 + 7 * Z.of_nat (S fuel))%Z in Hn by lia.
  rewrite Z.pow_add_r in Hn by lia. change (2 ^ 7)%Z with 128%Z in Hn. lia.
Qed.

Lemma WriteVarInt_room n : 0 < w → (0 <= n < 2 ^ Z.of_nat w)%Z → is_Some (WriteVarInt w n).
Proof using.
  intros Hw Hn. apply WriteVarInt_total.
  { unfold varint_max. apply Nat.div_str_pos. lia. }
  split; [lia|]. eapply Z.lt_le_trans; [apply Hn|].
  apply Z.pow_le_mono_r; [lia|]. unfold varint_max.
  pose proof (Nat.div_mod_eq (w + 6) 7). pose proof (Nat.mod_upper_bound (w + 6) 7). lia.
Qed.

(** Reading the digits of [n] and then [tmp]. *)
Lemma Read_WriteVarInt_loop fuel n tmp out s :
  WriteVarInt_loop fuel n tmp = Some out → (0 <= n <= max)%Z → (tmp ≠ [] → n < max)%Z →
  ReadVarInt_loop w 0 (out ++ s) =
    if (length tmp =? 0)%nat then Some (n, s) else ReadVarInt_loop w (n + 1) (tmp ++ s).
Proof using.
  revert n tmp. induction fuel as [|fuel IH]; intros n tmp; [done|]. cbn [WriteVarInt_loop].
  set (b := Z.lor _ _). intros E Hn Ht.
  assert (∀ a, a = (n ≫ 7)%Z → ReadVarInt_loop w a (b :: tmp ++ s) =
    if (length tmp =? 0)%nat then Some (n, s) else ReadVarInt_loop w (n + 1) (tmp ++ s)) as Hstep.
  { intros a ->. cbn [ReadVarInt_loop].
    destruct (Z.ltb_spec (max ≫ 7) (n ≫ 7)) as [Hlt|_].
    { rewrite !Z.shiftr_div_pow2 in Hlt by lia. pose proof (Z.div_le_mono n max (2 ^ 7)). lia. }
    rewrite (Z.mod_small ((n ≫ 7) ≪ 7)).
    2:{ rewrite Z.shiftl_mul_pow2, Z.shiftr_div_pow2 by lia. change (2 ^ 7)%Z with 128%Z.
        pose proof (Z.div_mod n 128). pose proof (Z.mod_pos_bound n 128). lia. }
    unfold b. rewrite digit_low, digit_high, low7. destruct tmp as [|t tmp]; [done|].
    cbn [length Nat.eqb negb]. destruct (Z.eqb_spec n max); [|done]. specialize (Ht ltac:(done)). lia. }
  destruct (Z.leb_spec n 0x7f) as [Hle|Hgt].
  - injection E as <-. cbn [app]. apply Hstep. symmetry. rewrite Z.shiftr_div_pow2 by lia.
    apply Z.div_small. change (2 ^ 7)%Z with 128%Z. lia.
  - rewrite Z.shiftr_div_pow2 in E by lia. change (2 ^ 7)%Z with 128%Z in E.
    pose proof (Z.div_mod n 128). pose proof (Z.mod_pos_bound n 128).
    rewrite (IH _ _ E) by (try intros _; lia). cbn [length Nat.eqb app].
    apply Hstep. rewrite Z.shiftr_div_pow2 by lia. change (2 ^ 7)%Z with 128%Z. lia.
Qed.

Lemma Read_WriteVarInt n out s : (0 <= n <= max)%Z → WriteVarInt w n = Some out →
  ReadVarInt w (out ++ s) = Some (n, s).
Proof using. intros Hn E. unfold ReadVarInt. by rewrite (Read_WriteVarInt_loop _ _ _ _ _ E Hn). Qed.

(** More room does not change what is written. *)
Lemma WriteVarInt_mono f f' n tmp out : f ≤ f' →
  WriteVarInt_loop f n tmp = Some out → WriteVarInt_loop f' n tmp = Some out.
Proof using.
  revert f' n tmp. induction f as [|f IH]; intros f' n tmp Hf; [done|]. destruct f' as [|f']; [lia|].
  cbn [WriteVarInt_loop]. destruct (n <=? 0x7f)%Z; [done|]. apply IH. lia.
Qed.

(** The digits read so far, [pre], are those of [a - 1]. *)
Definition digits_of (pre : list Z) (a : Z) : Prop :=
  (a = 0%Z ∧ pre = []) ∨
  (0 < a)%Z ∧ ∃ f, ∀ t tmp, WriteVarInt_loop f (a - 1) (t :: tmp) = Some (pre ++ t :: tmp).

Lemma digit_again ch a (c : bool) : (0 <= a)%Z → is_u8 ch → negb (Z.land ch 0x80 =? 0)%Z = negb c →
  let n := Z.lor (a ≪ 7) (Z.land ch 0x7f) in
  Z.lor (Z.land n 0x7f) (if c then 0 else 0x80) = ch ∧ (n ≫ 7)%Z = a ∧ (n = a * 128 + Z.land ch 0x7f)%Z ∧
  (0 <= Z.land ch 0x7f < 128)%Z.
Proof using.
  intros Ha Hch Hc n.
  assert (Z.land ch 0x7f = ch `mod` 128)%Z as El by (change 0x7f%Z with (Z.ones 7); by rewrite Z.land_ones).
  pose proof (Z.mod_pos_bound ch 128) as Hm. assert (n = a * 128 + Z.land ch 0x7f)%Z as En.
  { unfold n. rewrite El. rewrite Z.shiftl_mul_pow2 by lia. change (2 ^ 7)%Z with 128%Z.
    rewrite <-(Z.lxor_lor), <-Z.add_nocarry_lxor; [done|..];
      apply Z.bits_inj'; intros i Hi; rewrite Z.land_spec, Z.testbit_0_l;
      change 128%Z with (2 ^ 7)%Z; rewrite <-Z.shiftl_mul_pow2, Z.shiftl_spec, Z.testbit_mod_pow2 by lia;
      destruct (Z.ltb_spec i 7); [by rewrite Z.testbit_neg_r by lia|by rewrite andb_false_r|
        by rewrite Z.testbit_neg_r by lia|by rewrite andb_false_r]. }
  split_and!.
  - unfold n. rewrite Z.land_lor_distr_l, <-Z.land_assoc. change (Z.land 0x7f 0x7f) with 0x7f%Z.
    assert (Z.land (a ≪ 7) 0x7f = 0)%Z as ->.
    { change 0x7f%Z with (Z.ones 7). rewrite Z.land_ones, Z.shiftl_mul_pow2 by lia. by rewrite Z.mod_mul. }
    rewrite Z.lor_0_l. pose proof (by_cases 256 (λ ch, (if (Z.land ch 0x80 =? 0)%Z
      then Z.lor (Z.land ch 0x7f) 0 else Z.lor (Z.land ch 0x7f) 0x80) = ch) eq_refl ch Hch) as H.
    cbv beta in H. destruct (Z.land ch 0x80 =? 0)%Z, c; done.
  - rewrite En, Z.shiftr_div_pow2, Z.add_comm by lia. change (2 ^ 7)%Z with 128%Z.
    rewrite Z.div_add, Z.div_small by lia. lia.
  - done.
  - lia.
  - lia.
Qed.

(** One more digit, with ([tmp] not empty) or without the continuation bit. *)
Lemma digits_write pre a ch tmp : (0 <= a)%Z → is_u8 ch → digits_of pre a →
  negb (Z.land ch 0x80 =? 0)%Z = negb (length tmp =? 0)%nat →
  let n := Z.lor (a ≪ 7) (Z.land ch 0x7f) in
  ∃ f, WriteVarInt_loop f n tmp = Some (pre ++ ch :: tmp).
Proof using.
  intros Ha Hch Hpre Hc n. destruct (digit_again ch a (length tmp =? 0)%nat Ha Hch Hc) as (Eb & Es & En & Hl).
  fold n in Eb, Es, En. destruct Hpre as [[-> ->]|[Hpos [f Hf]]].
  - exists 1. cbn [WriteVarInt_loop app]. rewrite Eb. destruct (Z.leb_spec n 0x7f); [done|lia].
  - exists (S f). cbn [WriteVarInt_loop]. rewrite Eb, Es. destruct (Z.leb_spec n 0x7f); [lia|]. apply Hf.
Qed.

Lemma digits_next pre a ch : (0 <= a)%Z → is_u8 ch → digits_of pre a → negb (Z.land ch 0x80 =? 0)%Z = true →
  digits_of (pre ++ [ch]) (Z.lor (a ≪ 7) (Z.land ch 0x7f) + 1).
Proof using.
  intros Ha Hch Hpre Hc. pose proof (digit_again ch a false Ha Hch Hc) as (Eb & Es & En & Hl).
  right. split; [lia|]. set (n := Z.lor (a ≪ 7) (Z.land ch 0x7f)) in *. replace (n + 1 - 1)%Z with n by lia.
  destruct Hpre as [[-> ->]|[Hpos [f Hf]]].
  - exists 1. intros t tmp. cbn [WriteVarInt_loop app length Nat.eqb]. rewrite Eb.
    destruct (Z.leb_spec n 0x7f); [done|lia].
  - exists (S f). intros t tmp. cbn [WriteVarInt_loop length Nat.eqb]. rewrite Eb, Es.
    destruct (Z.leb_spec n 0x7f); [lia|]. by rewrite Hf, <-app_assoc.
Qed.

Lemma ReadVarInt_loop_Some s : 7 ≤ w → ∀ a pre n s', bytes s → (0 <= a <= max)%Z → digits_of pre a →
  ReadVarInt_loop w a s = Some (n, s') →
  ∃ e f, s = e ++ s' ∧ WriteVarInt_loop f n [] = Some (pre ++ e) ∧ (0 <= n <= max)%Z.
Proof using.
  intros Hw7. induction s as [|ch s IH]; intros a pre n s' Hs Ha Hpre; [done|]. cbn [ReadVarInt_loop].
  apply Forall_cons in Hs as [Hch Hs]. destruct (Z.ltb_spec (max ≫ 7) a) as [|Hle]; [done|].
  assert (a * 128 + 127 <= max)%Z as Hroom.
  { rewrite Z.shiftr_div_pow2 in Hle by lia. change (2 ^ 7)%Z with 128%Z in Hle.
    pose proof (Z.div_mod max 128). pose proof (Z.mod_pos_bound max 128).
    assert (2 ^ Z.of_nat w = 128 * 2 ^ (Z.of_nat w - 7))%Z; [|lia].
    replace (Z.of_nat w) with (7 + (Z.of_nat w - 7))%Z at 1 by lia. by rewrite Z.pow_add_r by lia. }
  rewrite (Z.mod_small (a ≪ 7)) by (rewrite Z.shiftl_mul_pow2 by lia; change (2 ^ 7)%Z with 128%Z; lia).
  destruct (negb (Z.land ch 0x80 =? 0)%Z) eqn:Ec.
  - destruct (Z.eqb_spec (Z.lor (a ≪ 7) (Z.land ch 0x7f)) max); [done|]. intros H.
    pose proof (digit_again ch a false ltac:(lia) Hch Ec) as (_ & _ & En & Hl).
    apply IH with (pre := pre ++ [ch]) in H as (e & f & -> & Hw & Hn); [|done|lia|by apply digits_next; [lia|..]].
    exists (ch :: e), f. by rewrite <-app_assoc in Hw.
  - intros [= <- <-]. pose proof (digit_again ch a true ltac:(lia) Hch Ec) as (_ & _ & En & Hl).
    destruct (digits_write pre a ch [] ltac:(lia) Hch Hpre Ec) as [f Hf].
    exists [ch], f. split_and!; [done|done|lia|lia].
Qed.
End VarInt.

Lemma GetSizeOfVarInt_length f n r tmp out : WriteVarInt_loop f n tmp = Some out →
  (r = Z.of_nat (length tmp) → GetSizeOfVarInt_loop f n r = Z.of_nat (length out))%Z.
Proof.
  revert n r tmp. induction f as [|f IH]; intros n r tmp; [done|].
  cbn [WriteVarInt_loop GetSizeOfVarInt_loop]. destruct (n <=? 0x7f)%Z.
  - intros [= <-] ->. cbn [length]. lia.
  - intros H ->. eapply IH; [exact H|]. cbn [length]. lia.
Qed.

(** ** Statements *)

(** C34: CompactSize is a canonical encoding.  Reading back what was written
    gives the number and leaves the rest of the stream, and conversely a byte
    string that [ReadCompactSize] accepts is the one [WriteCompactSize] writes
    for the number returned, so non-minimal forms are refused; with the range
    check on, exactly the sizes up to [MAX_SIZE] are accepted.  The length is
    what [GetSizeOfCompactSize] says. *)
Theorem compactsize_canonical range_check n s rest : bytes s → (0 <= n < 2 ^ 64)%Z →
  (ReadCompactSize range_check (WriteCompactSize n ++ rest) = Some (n, rest) ↔
    (range_check = true → n <= MAX_SIZE)%Z) ∧
  (ReadCompactSize range_check s = Some (n, rest) → s = WriteCompactSize n ++ rest) ∧
  Z.of_nat (length (WriteCompactSize n)) = GetSizeOfCompactSize n.
Proof.
  intros Hs Hn. split_and!; [split|..].
  - intros H Hrc. unfold ReadCompactSize in H. apply rd_bind_Some in H as (ch & s1 & _ & H).
    apply rd_bind_Some in H as (m & s2 & _ & H). rewrite Hrc in H. cbn [andb] in H.
    destruct (Z.ltb_spec MAX_SIZE m); [done|]. by injection H as <- _.
  - by apply Read_WriteCompactSize.
  - intros H. by apply ReadCompactSize_Some in H as [-> _].
  - apply WriteCompactSize_length.
Qed.
Lemma compactsize_canonical_witness :
  ReadCompactSize true (WriteCompactSize 70000 ++ [7%Z]) = Some (70000%Z, [7%Z]) ∧
  [0xfd; 0xfd; 0x00]%Z = WriteCompactSize 253 ++ [].
Proof.
  split.
  - apply (compactsize_canonical true 70000 [] [7%Z]); [constructor|lia|]. intros _. unfold MAX_SIZE. lia.
  - apply (compactsize_canonical true 253 [0xfd; 0xfd; 0x00]%Z []); [|lia|reflexivity].
    repeat (apply Forall_cons; split; [done|]). constructor.
Defined.

(** C35: VarInt is a bijection between the numbers of an unsigned type of [w]
    bits and their encodings.  Writing never runs past the array [tmp], reading
    back what was written gives the number, and every byte string that
    [ReadVarInt] accepts is the encoding of the number it returns, which fits
    the type: each number has exactly one encoding. *)
Theorem varint_bijective w n s rest : 7 ≤ w → (0 <= n < 2 ^ Z.of_nat w)%Z → bytes s →
  ∃ enc, WriteVarInt w n = Some enc ∧ ReadVarInt w (enc ++ rest) = Some (n, rest) ∧
    GetSizeOfVarInt w n = Z.of_nat (length enc) ∧
    ∀ m s', ReadVarInt w s = Some (m, s') →
      (0 <= m < 2 ^ Z.of_nat w)%Z ∧ ∃ e, WriteVarInt w m = Some e ∧ s = e ++ s'.
Proof.
  intros Hw Hn Hs. destruct (WriteVarInt_room w n ltac:(lia) Hn) as [enc E]. exists enc.
  split_and!; [done|apply Read_WriteVarInt; [lia|done]| |].
  - unfold GetSizeOfVarInt. by eapply GetSizeOfVarInt_length.
  - intros m s' H. apply (ReadVarInt_loop_Some w s Hw 0 []) in H as (e & f & -> & He & Hm);
      [|done|lia|by left].
    split; [lia|]. exists e. split; [|done]. destruct (WriteVarInt_room w m ltac:(lia) ltac:(lia)) as [e' E'].
    rewrite E'. unfold WriteVarInt in E'. apply (WriteVarInt_mono _ (f + varint_max w)) in E'; [|lia].
    apply (WriteVarInt_mono _ (f + varint_max w)) in He; [|lia]. cbn [app] in He. congruence.
Qed.
Lemma varint_bijective_witness :
  ∃ enc, WriteVarInt 64 16384 = Some enc ∧ enc = [0xff; 0x00]%Z ∧
    ReadVarInt 64 (enc ++ [1%Z]) = Some (16384%Z, [1%Z]).
Proof.
  destruct (varint_bijective 64 16384 [] [1%Z]) as (enc & E & R & _).
  - lia.
  - split; [lia|reflexivity].
  - constructor.
  - exists enc. split; [exact E|]. split; [|exact R]. vm_compute in E. injection E as <-. reflexivity.
Defined.
