(* ===== verification/MinerUtil.v ===== *)
(** * Utilities of the miner

    The helpers at the top of [src/contrib/korsh-miner/korsh-miner.c]:
    hexadecimal, byte reversal, the growable buffer, variable-length integers,
    the payout address and the comparison with a target.  A C string is the
    list of its character codes without the terminator, so [strlen] is
    [length].  OpenSSL's [SHA256] is a parameter, and so is the allocator: what
    fresh memory holds and which requests it refuses. *)
From S2P Require Import Prelude Sysendian.

(** Conversion to [int]. *)
Definition int32 (x : Z) : Z := ((x + 2 ^ 31) `mod` 2 ^ 32 - 2 ^ 31)%Z.
Abbreviation cstring := (list Z).

(** ** Hexadecimal *)
Definition hexval (c : Z) : Z :=
  if (48 <=? c)%Z && (c <=? 57)%Z then c - 48
  else if (97 <=? c)%Z && (c <=? 102)%Z then c - 97 + 10
  else if (65 <=? c)%Z && (c <=? 70)%Z then c - 65 + 10
  else -1.

(** [k] turns of the loop left, at index [i]; [false] is the early [return -1]. *)
Fixpoint hex2bin_loop (k i : nat) (hex : cstring) (out : list Z) : bool * list Z :=
  match k with
  | O => (true, out)
  | S k =>
      let a := hexval (hex !!! (2 * i)) in
      let b := hexval (hex !!! (2 * i + 1)) in
      if (a <? 0)%Z || (b <? 0)%Z then (false, out)
      else hex2bin_loop k (S i) hex (<[i := u8 (Z.lor (a ≪ 4) b)]> out)
  end.

(** The return value and the buffer [out] afterwards. *)
Definition hex2bin (hex : cstring) (out : list Z) (maxlen : nat) : Z * list Z :=
  let n := length hex in
  if negb (n mod 2 =? 0)%nat || (maxlen <? n / 2)%nat then ((-1)%Z, out) else
  match hex2bin_loop (n / 2) 0 hex out with
  | (true, out) => (int32 (Z.of_nat (n / 2)), out)
  | (false, out) => ((-1)%Z, out)
  end.

Definition hexdigits : cstring :=
  [48; 49; 50; 51; 52; 53; 54; 55; 56; 57; 97; 98; 99; 100; 101; 102]%Z.

Fixpoint bin2hex (inp : list Z) : cstring :=
  match inp with
  | [] => []
  | b :: inp => hexdigits !!! Z.to_nat (b ≫ 4) :: hexdigits !!! Z.to_nat (Z.land b 15) :: bin2hex inp
  end.

(** ** Reversal in place *)
Fixpoint reverse_loop (k i n : nat) (p : list Z) : list Z :=
  match k with
  | O => p
  | S k =>
      let t := p !!! i in
      let p := <[i := p !!! (n - 1 - i)]> p in
      let p := <[n - 1 - i := t]> p in
      reverse_loop k (S i) n p
  end.
Definition reverse_bytes (p : list Z) (n : nat) : list Z := reverse_loop (n / 2) 0 n p.

(** ** The environment of the miner *)
Class MinerEnv := {
  (** OpenSSL's one-shot [SHA256]. *)
  SHA256 : list Z → list Z;
  (** The bytes of fresh memory, and the requests [realloc] refuses. *)
  heap_byte : nat → Z;
  refused : Z → bool
}.
Class MinerLaws (E : MinerEnv) : Prop := {
  SHA256_length : ∀ m, length (SHA256 m) = 32;
  SHA256_bytes : ∀ m, bytes (SHA256 m);
  heap_byte_u8 : ∀ i, is_u8 (heap_byte i)
}.

Section Env.
Context `{E : MinerEnv}.

Definition dsha (inp : list Z) : list Z := SHA256 (SHA256 inp).

(** ** The growable buffer

    [None] is [exit (1)]: the allocator refused. *)
Record buf_t := mkBuf { bf_p : list Z; bf_n : Z; bf_cap : Z }.
Definition buf_empty : buf_t := mkBuf [] 0 0.

Definition realloc (p : list Z) (cap : Z) : option (list Z) :=
  if refused cap then None
  else Some (take (Z.to_nat cap) p ++ (heap_byte <$> seq (length p) (Z.to_nat cap - length p))).

Definition buf_add (b : buf_t) (d : list Z) : option buf_t :=
  let n := Z.of_nat (length d) in
  b ← (if (bf_cap b <? u64 (bf_n b + n))%Z then
         let cap := u64 (u64 (bf_n b + n) * 2 + 256) in
         p ← realloc (bf_p b) cap; Some (mkBuf p (bf_n b) cap)
       else Some b);
  Some (mkBuf (memcpy (bf_p b) (Z.to_nat (bf_n b)) d) (u64 (bf_n b + n)) (bf_cap b)).

Definition buf_u8 (b : buf_t) (v : Z) : option buf_t := buf_add b [v].

Definition buf_varint (b : buf_t) (v : Z) : option buf_t :=
  if (v <? 0xfd)%Z then buf_u8 b (u8 v)
  else if (v <=? 0xffff)%Z then buf_add b (take 3 (0xfd%Z :: put_le32 (u32 v)))
  else if (v <=? 0xffffffff)%Z then buf_add b (take 5 (0xfe%Z :: put_le32 (u32 v)))
  else buf_add b (take 9 (0xff%Z :: put_le64 v)).

Definition buf_push (b : buf_t) (d : list Z) : option buf_t :=
  b ← buf_u8 b (u8 (Z.of_nat (length d))); buf_add b d.

(** ** The payout address *)
Definition base58 : cstring :=
  [49; 50; 51; 52; 53; 54; 55; 56; 57;
   65; 66; 67; 68; 69; 70; 71; 72; 74; 75; 76; 77; 78; 80; 81; 82; 83; 84; 85; 86; 87; 88; 89; 90;
   97; 98; 99; 100; 101; 102; 103; 104; 105; 106; 107; 109; 110; 111; 112; 113; 114; 115; 116; 117;
   118; 119; 120; 121; 122]%Z.

(** [strchr]: the index of the first occurrence. *)
Fixpoint strchr (s : cstring) (c : Z) : option nat :=
  match s with
  | [] => None
  | d :: s => if (d =? c)%Z then Some O else S <$> strchr s c
  end.

(** [for (i = 24; i >= 0; i--)] over [raw], seen from its last byte: the
    bytes after the step and the carry. *)
Fixpoint b58_step (raw : list Z) (carry : Z) : list Z * Z :=
  match raw with
  | [] => ([], carry)
  | r :: raw =>
      let carry := (carry + 58 * r)%Z in
      let '(raw, c) := b58_step raw (carry ≫ 8) in
      (Z.land carry 0xff :: raw, c)
  end.

Fixpoint b58_digits (addr : cstring) (raw : list Z) : option (list Z) :=
  match addr with
  | [] => Some raw
  | c :: addr =>
      match strchr base58 c with
      | None => None
      | Some q =>
          let '(raw, carry) := b58_step (reverse raw) (Z.of_nat q) in
          if (carry =? 0)%Z then b58_digits addr (reverse raw) else None
      end
  end.

(** [Some h160] for return value 0. *)
Definition b58check_p2pkh (addr : cstring) : option (list Z) :=
  match b58_digits addr (replicate 25 0%Z) with
  | None => None
  | Some raw =>
      let chk := dsha (take 21 raw) in
      if bool_decide (take 4 chk = take 4 (drop 21 raw)) then Some (take 20 (drop 1 raw)) else None
  end.
End Env.

(** ** The comparison with a target *)
Fixpoint le_leq_loop (k : nat) (h t : list Z) : Z :=
  match k with
  | O => 1
  | S k => if (h !!! k <? t !!! k)%Z then 1 else if (t !!! k <? h !!! k)%Z then 0 else le_leq_loop k h t
  end.
Definition le_leq (h t : list Z) : Z := le_leq_loop 32 h t.
