(* ===== verification/MinerUtilCorrect.v ===== *)
(** * Correctness of the miner's utilities *)
From S2P Require Import Prelude Sysendian Sha256Spec Sha256Correct Serialize MinerUtil.
From stdpp Require Import strings.

(** ** Hexadecimal *)












(** ** Reversal *)
Lemma lookup_reverse_loop k : ∀ i n p j, length p = n → 2 * (i + k) ≤ n → j < n →
  reverse_loop k i n p !! j =
    if decide (i ≤ j < i + k ∨ n - i - k ≤ j < n - i) then p !! (n - 1 - j) else p !! j.
Proof.
  induction k as [|k IH]; intros i n p j Hp Hk Hj; [by rewrite decide_False by lia|].
  cbn [reverse_loop]. set (q := <[n - 1 - i := _]> _).
  assert (∀ m, m < n → q !! m = if decide (m = i ∨ m = n - 1 - i) then p !! (n - 1 - m) else p !! m) as Hq.
  { intros m Hm. unfold q. destruct (decide (m = n - 1 - i)) as [->|H1].
    - rewrite list_lookup_insert_eq by (rewrite length_insert; lia). rewrite decide_True by lia.
      replace (n - 1 - (n - 1 - i)) with i by lia. symmetry. apply list_lookup_lookup_total_lt. lia.
    - rewrite list_lookup_insert_ne by lia. destruct (decide (m = i)) as [->|H2].
      + rewrite list_lookup_insert_eq, decide_True by lia. symmetry. apply list_lookup_lookup_total_lt. lia.
      + by rewrite list_lookup_insert_ne, decide_False by lia. }
  rewrite IH by (unfold q; rewrite ?length_insert; lia).
  destruct (decide (S i ≤ j < S i + k ∨ n - S i - k ≤ j < n - S i)) as [H1|H1].
  - rewrite Hq by lia. rewrite decide_False, decide_True by lia. done.
  - rewrite Hq by lia. destruct (decide (j = i ∨ j = n - 1 - i)).
    + by rewrite decide_True by lia.
    + by rewrite decide_False by lia.
Qed.

Lemma length_reverse_loop k i n p : length (reverse_loop k i n p) = length p.
Proof. revert i p. induction k as [|k IH]; intros i p; [done|]. cbn. by rewrite IH, !length_insert. Qed.

Lemma reverse_bytes_spec p : reverse_bytes p (length p) = reverse p.
Proof.
  apply list_eq_same_length with (length p); [by rewrite length_reverse|apply length_reverse_loop|].
  intros j x y Hj Hx Hy. unfold reverse_bytes in Hx.
  pose proof (Nat.div_mod_eq (length p) 2) as Hd. pose proof (Nat.mod_upper_bound (length p) 2).
  rewrite lookup_reverse_loop in Hx by lia.
  rewrite reverse_lookup in Hy by done. replace (length p - S j) with (length p - 1 - j) in Hy by lia.
  destruct (decide _); [congruence|].
  assert (length p - 1 - j = j) as Ej by lia. rewrite Ej in Hy. congruence.
Qed.

(** ** Comparison with a target *)
Lemma le_leq_loop_spec k h t : bytes h → bytes t → k ≤ length h → k ≤ length t →
  le_leq_loop k h t = if (le_val (take k h) <=? le_val (take k t))%Z then 1%Z else 0%Z.
Proof.
  intros Hh Ht. induction k as [|k IH]; intros H1 H2; [done|]. cbn [le_leq_loop].
  destruct (lookup_lt_is_Some_2 h k ltac:(lia)) as [x Hx].
  destruct (lookup_lt_is_Some_2 t k ltac:(lia)) as [y Hy].
  rewrite (list_lookup_total_correct _ _ _ Hx), (list_lookup_total_correct _ _ _ Hy).
  rewrite (take_S_r _ _ _ Hx), (take_S_r _ _ _ Hy), !le_val_app, !length_take, !Nat.min_l by lia.
  assert (bytes (take k h)) as Bh by (by apply Forall_take). assert (bytes (take k t)) as Bt by (by apply Forall_take).
  pose proof (le_val_nonneg _ Bh). pose proof (le_val_nonneg _ Bt).
  pose proof (le_val_bound _ Bh) as Ub. pose proof (le_val_bound _ Bt) as Ut.
  rewrite length_take, Nat.min_l in Ub, Ut by lia. cbn [le_val].
  set (P := (256 ^ Z.of_nat k)%Z) in *. rewrite Z.mul_0_r, !Z.add_0_r.
  destruct (Z.ltb_spec x y); [destruct (Z.leb_spec (le_val (take k h) + P * x) (le_val (take k t) + P * y)); [done|nia]|].
  destruct (Z.ltb_spec y x); [destruct (Z.leb_spec (le_val (take k h) + P * x) (le_val (take k t) + P * y)); [nia|done]|].
  assert (x = y) as -> by lia. rewrite IH by lia.
  destruct (Z.leb_spec (le_val (take k h)) (le_val (take k t))),
    (Z.leb_spec (le_val (take k h) + P * y) (le_val (take k t) + P * y)); lia.
Qed.

Lemma le_leq_spec h t : bytes h → bytes t → length h = 32 → length t = 32 →
  le_leq h t = if (le_val h <=? le_val t)%Z then 1%Z else 0%Z.
Proof. intros Hh Ht Lh Lt. unfold le_leq. rewrite le_leq_loop_spec by (done || lia). by rewrite !take_ge by lia. Qed.

(** ** The growable buffer *)
Section Buffer.
Context {E : MinerEnv} {L : MinerLaws E}.

(** The buffer [b] holds the bytes [l]. *)
Record rep (b : buf_t) (l : list Z) : Prop := {
  rep_n : bf_n b = Z.of_nat (length l);
  rep_cap : bf_cap b = Z.of_nat (length (bf_p b));
  rep_le : length l ≤ length (bf_p b);
  rep_p : take (length l) (bf_p b) = l
}.
(** The program exits only when the allocator refuses memory. *)
Definition holds (o : option buf_t) (l : list Z) : Prop :=
  match o with Some b => rep b l | None => ∃ c, refused c = true end.

Lemma rep_empty : rep buf_empty [].
Proof using. by split. Qed.

Lemma holds_bind o l k l' : holds o l → (∀ b, rep b l → holds (k b) l') → holds (o ≫= k) l'.
Proof using. destruct o as [b|]; [|done]. intros H Hk. by apply Hk. Qed.

Lemma buf_add_holds b l d : rep b l → (Z.of_nat (length l + length d) < 2 ^ 62)%Z →
  holds (buf_add b d) (l ++ d).
Proof using.
  intros [Hn Hc Hle Hp] Hs. unfold buf_add. rewrite Hn.
  rewrite (u64_id (Z.of_nat (length l) + _)) by (unfold in_width; lia).
  assert (∀ p, length l + length d ≤ length p → take (length l) p = l →
    rep (mkBuf (memcpy p (Z.to_nat (Z.of_nat (length l))) d) (Z.of_nat (length l) + Z.of_nat (length d))
      (Z.of_nat (length p))) (l ++ d)) as Hrep.
  { intros p Hlp Htp. rewrite Nat2Z.id. split; cbn [bf_n bf_cap bf_p]; rewrite ?length_memcpy, ?length_app; [lia|done|lia|].
    rewrite take_memcpy by lia. by rewrite Htp. }
  destruct (Z.ltb_spec (bf_cap b) (Z.of_nat (length l) + Z.of_nat (length d))) as [Hlt|Hge].
  - rewrite u64_id by (unfold in_width; lia). unfold realloc.
    set (cap := ((Z.of_nat (length l) + Z.of_nat (length d)) * 2 + 256)%Z).
    destruct (refused cap) eqn:Er; [by exists cap|]. cbn [mbind option_bind holds bf_n bf_p bf_cap].
    rewrite (u64_id (Z.of_nat (length l) + _)) by (unfold in_width; lia).
    set (p := take _ _ ++ _). assert (length p = Z.to_nat cap) as Hlp.
    { unfold p. rewrite length_app, length_take, length_fmap, length_seq. lia. }
    replace cap with (Z.of_nat (length p)) by (rewrite Hlp; unfold cap; lia).
    apply Hrep; [rewrite Hlp; unfold cap; lia|].
    unfold p. rewrite take_app_le, take_take, Nat.min_l by (rewrite ?length_take; unfold cap; lia). done.
  - cbn [mbind option_bind holds]. rewrite Hn, (u64_id (Z.of_nat (length l) + _)) by (unfold in_width; lia).
    rewrite Hc. apply Hrep; [lia|done].
Qed.

Lemma buf_varint_holds b l v : rep b l → (0 <= v < 2 ^ 64)%Z → (Z.of_nat (length l) < 2 ^ 61)%Z →
  holds (buf_varint b v) (l ++ WriteCompactSize v).
Proof using.
  intros Hb Hv Hl. unfold buf_varint, WriteCompactSize.
  assert (∀ d, (Z.of_nat (length d) < 2 ^ 61)%Z → holds (buf_add b d) (l ++ d)) as Hadd
    by (intros d Hd; apply buf_add_holds; [done|lia]).
  destruct (v <? 253)%Z; [by apply Hadd|].
  assert (∀ v', take 2 (put_le32 v') = le_bytes 2 v') as H16.
  { intros v'. by rewrite put_le32_le_bytes. }
  destruct (Z.leb_spec v 0xffff).
  { rewrite u32_id by (unfold in_width; lia). change (take 3 (0xfd%Z :: put_le32 v)) with (0xfd%Z :: take 2 (put_le32 v)).
    rewrite H16. by apply Hadd. }
  destruct (Z.leb_spec v 0xffffffff).
  { rewrite u32_id by (unfold in_width; lia). rewrite put_le32_le_bytes. by apply Hadd. }
  rewrite put_le64_le_bytes. by apply Hadd.
Qed.

Lemma buf_push_holds b l d : rep b l → length d < 256 → (Z.of_nat (length l) < 2 ^ 61)%Z →
  holds (buf_push b d) (l ++ Z.of_nat (length d) :: d).
Proof using.
  intros Hb Hd Hl. unfold buf_push. eapply holds_bind; [apply buf_add_holds; [exact Hb|cbn; lia]|].
  intros b' Hb'. rewrite u8_id in Hb' by (unfold in_width; lia).
  replace (l ++ Z.of_nat (length d) :: d) with ((l ++ [Z.of_nat (length d)]) ++ d) by (by rewrite <-app_assoc).
  apply buf_add_holds; [done|]. rewrite length_app. cbn. lia.
Qed.
End Buffer.

(** ** The payout address *)

(** The number a base-58 string denotes, from the value [v] of what precedes. *)
Fixpoint b58_value (addr : cstring) (v : Z) : option Z :=
  match addr with
  | [] => Some v
  | c :: addr => match strchr base58 c with
                 | None => None
                 | Some q => b58_value addr (v * 58 + Z.of_nat q)
                 end
  end.

Lemma strchr_lt s c q : strchr s c = Some q → q < length s.
Proof.
  revert q. induction s as [|d s IH]; intros q; [done|]. cbn. destruct (d =? c)%Z; [intros [= <-]; lia|].
  destruct (strchr s c) as [q'|]; [|done]. cbn. intros [= <-]. specialize (IH q' eq_refl). lia.
Qed.

Lemma b58_step_spec raw : ∀ carry raw' c, bytes raw → (0 <= carry)%Z → b58_step raw carry = (raw', c) →
  bytes raw' ∧ length raw' = length raw ∧ (0 <= c)%Z ∧
  (carry + 58 * le_val raw = le_val raw' + 256 ^ Z.of_nat (length raw) * c)%Z.
Proof.
  induction raw as [|r raw IH]; intros carry raw' c Hb Hc.
  { intros [= <- <-]. split_and!; [constructor|done|done|]. cbn [le_val length]. lia. }
  cbn [b58_step]. apply Forall_cons in Hb as [[Hr Hr'] Hb].
  destruct (b58_step raw ((carry + 58 * r) ≫ 8)) as [raw1 c1] eqn:E. intros [= <- <-].
  apply IH in E as (B1 & L1 & C1 & E1); [|done|apply Z.shiftr_nonneg; lia].
  rewrite land_ff. split_and!; [by constructor; [apply u8_width|]|cbn; lia|done|].
  cbn [le_val length]. rewrite Nat2Z.inj_succ, Z.pow_succ_r by lia.
  rewrite Z.shiftr_div_pow2 in E1 by lia. unfold u8. change (2 ^ 8)%Z with 256%Z in *.
  pose proof (Z.div_mod (carry + 58 * r) 256). lia.
Qed.

Lemma b58_value_mono addr v v' : (0 <= v)%Z → b58_value addr v = Some v' → (v <= v')%Z.
Proof.
  revert v. induction addr as [|c addr IH]; intros v Hv; cbn [b58_value]; [intros [= <-]; lia|].
  destruct (strchr base58 c) as [q|]; [|done]. intros H. apply IH in H; lia.
Qed.

Lemma b58_digits_spec addr : ∀ raw, bytes raw →
  b58_digits addr raw =
    match b58_value addr (be_val raw) with
    | Some v => if (v <? 256 ^ Z.of_nat (length raw))%Z then Some (be_bytes (length raw) v) else None
    | None => None
    end.
Proof.
  induction addr as [|c addr IH]; intros raw Hb; cbn [b58_digits b58_value].
  { assert (be_val raw < 256 ^ Z.of_nat (length raw))%Z as Hlt.
    { unfold be_val. rewrite <-(length_reverse raw). by apply le_val_bound, Forall_reverse. }
    apply Z.ltb_lt in Hlt. rewrite Hlt. by rewrite be_bytes_be_val. }
  destruct (strchr base58 c) as [q|] eqn:Eq; [|done].
  destruct (b58_step (reverse raw) (Z.of_nat q)) as [raw' carry] eqn:E.
  apply b58_step_spec in E as (B1 & L1 & C1 & E1); [|by apply Forall_reverse|lia].
  rewrite length_reverse in L1, E1. fold (be_val raw) in E1.
  destruct (Z.eqb_spec carry 0) as [->|Hne].
  - rewrite IH by (by apply Forall_reverse). unfold be_val at 1. rewrite reverse_involutive, length_reverse, L1.
    by replace (be_val raw * 58 + Z.of_nat q)%Z with (le_val raw') by lia.
  - destruct (b58_value addr _) as [v|] eqn:Ev; [|done].
    assert (0 <= be_val raw)%Z by (apply le_val_nonneg; by apply Forall_reverse).
    apply b58_value_mono in Ev; [|lia]. pose proof (le_val_nonneg _ B1).
    destruct (Z.ltb_spec v (256 ^ Z.of_nat (length raw))); [|done].
    assert (0 < 256 ^ Z.of_nat (length raw))%Z by (apply Z.pow_pos_nonneg; lia). nia.
Qed.

Lemma be_val_app l k : be_val (l ++ k) = (be_val l * 256 ^ Z.of_nat (length k) + be_val k)%Z.
Proof. unfold be_val. rewrite reverse_app, le_val_app, length_reverse. lia. Qed.
Lemma be_val_range l : bytes l → (0 <= be_val l < 256 ^ Z.of_nat (length l))%Z.
Proof.
  intros H. unfold be_val. apply Forall_reverse in H. split; [by apply le_val_nonneg|].
  rewrite <-length_reverse. by apply le_val_bound.
Qed.

(** C32: what [b58check_p2pkh] accepts.  It returns the 20-byte hash [h] exactly
    for the base-58 strings whose value is that of some byte [ver], [h] and the
    first four bytes of the double hash of these 21 bytes: no other character,
    no value of more than 25 bytes and no wrong checksum passes.  The version
    byte [ver] is arbitrary, the function does not look at it. *)
Theorem b58check_p2pkh_accepts {E : MinerEnv} {L : MinerLaws E} addr h :
  b58check_p2pkh addr = Some h ↔
  ∃ ver, is_u8 ver ∧ bytes h ∧ length h = 20 ∧
    b58_value addr 0 = Some (be_val (ver :: h ++ take 4 (dsha (ver :: h)))).
Proof.
  unfold b58check_p2pkh. rewrite b58_digits_spec by (by apply Forall_replicate).
  change (be_val (replicate 25 0%Z)) with 0%Z. rewrite length_replicate.
  assert (∀ m, length (take 4 (dsha m)) = 4) as H4.
  { intros m. rewrite length_take. unfold dsha. by rewrite SHA256_length. }
  destruct (b58_value addr 0) as [v|] eqn:Ev; [|by split; [done|intros (? & _ & _ & _ & ?)]].
  assert (0 <= v)%Z as Hv0 by (by eapply b58_value_mono in Ev).
  split.
  - destruct (Z.ltb_spec v (256 ^ Z.of_nat 25)) as [Hv|]; [|done].
    pose proof (length_be_bytes 25 v) as HL. pose proof (be_bytes_bytes 25 v) as HB.
    assert (be_val (be_bytes 25 v) = v) as Hval by (rewrite be_val_be_bytes; by apply Z.mod_small).
    destruct (be_bytes 25 v) as [|ver r]; [done|]. cbn [length] in HL. apply Forall_cons in HB as [Hver HB].
    case_bool_decide as Hc; [|done]. change (drop 1 (ver :: r)) with r.
    change (take 21 (ver :: r)) with (ver :: take 20 r) in Hc.
    change (drop 21 (ver :: r)) with (drop 20 r) in Hc. intros [= <-].
    exists ver. split_and!; [done|by apply Forall_take|rewrite length_take; lia|].
    rewrite Hc, <-Hval, (take_ge (drop 20 r)) by (rewrite length_drop; lia). by rewrite take_drop.
  - intros (ver & Hver & Hh & Hl & [= ->]). set (l := ver :: h ++ _).
    assert (length l = 25) as HL by (unfold l; cbn; rewrite length_app, H4; lia).
    assert (bytes l) as HB.
    { constructor; [done|]. apply Forall_app. split; [done|]. apply Forall_take, SHA256_bytes. }
    pose proof (be_val_range l HB) as [_ Hr]. rewrite HL in Hr. apply Z.ltb_lt in Hr. rewrite Hr.
    rewrite be_bytes_be_val by done. unfold l. set (chk := take 4 _) in *.
    change (take 21 (ver :: h ++ chk)) with (ver :: take 20 (h ++ chk)).
    change (drop 21 (ver :: h ++ chk)) with (drop 20 (h ++ chk)).
    change (drop 1 (ver :: h ++ chk)) with (h ++ chk).
    rewrite take_app_length' by lia. rewrite drop_app_length' by lia.
    rewrite (take_ge chk) by (unfold chk; rewrite H4; lia). rewrite bool_decide_true by done. done.
Qed.

(** An environment for the witnesses: SHA-256 itself, zeroed memory, and an
    allocator that refuses nothing. *)
#[global] Instance sample_env : MinerEnv := {| SHA256 := sha256; heap_byte _ := 0%Z; refused _ := false |}.
#[global] Instance sample_env_laws : MinerLaws sample_env.
Proof. split; [apply sha256_length|apply sha256_bytes|done]. Qed.

(** The address [1111111111111111111114oLvT2]. *)
Definition sample_addr : cstring :=
  replicate 21 49%Z ++ [52; 111; 76; 118; 84; 50]%Z.
Lemma b58check_p2pkh_accepts_witness :
  b58check_p2pkh (E:=sample_env) sample_addr = Some (replicate 20 0%Z).
Proof.
  apply (b58check_p2pkh_accepts (E:=sample_env) sample_addr (replicate 20 0%Z)).
  exists 0%Z. split; [done|]. split; [by apply Forall_replicate|]. split; [reflexivity|].
  vm_compute. reflexivity.
Defined.
