(* ===== verification/Limbs.v ===== *)
(** * Numbers as arrays of 32-bit limbs

    The value of a little-endian array of limbs, and the word-level formulas
    that the big-number code of the node ([arith_uint256]) and of the miner
    ([bn_shl], [bn_shr], [bn_divsmall]) share. *)
From S2P Require Import Prelude.
Local Open Scope Z_scope.

Fixpoint limbs_val (l : list Z) : Z :=
  match l with
  | [] => 0
  | x :: l => x + 2 ^ 32 * limbs_val l
  end.

(** The limb at a possibly negative or too large index. *)
Definition limb (l : list Z) (i : Z) : Z :=
  if i <? 0 then 0 else default 0 (l !! Z.to_nat i).

Lemma limbs_val_range l : words l → 0 <= limbs_val l < 2 ^ (32 * Z.of_nat (length l)).
Proof.
  induction 1 as [|x l [Hx Hx'] _ IH]; [done|]. cbn [limbs_val length].
  rewrite Nat2Z.inj_succ. replace (32 * Z.succ (Z.of_nat (length l))) with (32 + 32 * Z.of_nat (length l)) by lia.
  rewrite Z.pow_add_r by lia. lia.
Qed.
Lemma limbs_val_app l k : limbs_val (l ++ k) = limbs_val l + 2 ^ (32 * Z.of_nat (length l)) * limbs_val k.
Proof.
  induction l as [|x l IH]; [cbn [app limbs_val length]; rewrite Z.mul_0_r, Z.pow_0_r; lia|].
  cbn [app limbs_val length]. rewrite IH, Nat2Z.inj_succ.
  replace (32 * Z.succ (Z.of_nat (length l))) with (32 + 32 * Z.of_nat (length l)) by lia.
  rewrite Z.pow_add_r by lia. lia.
Qed.
Lemma limbs_val_zeros n : limbs_val (replicate n 0) = 0.
Proof. induction n as [|n IH]; [done|]. cbn [replicate limbs_val]. lia. Qed.

Lemma limbs_val_inj l k : words l → words k → length l = length k → limbs_val l = limbs_val k → l = k.
Proof.
  intros Hl. revert k. induction Hl as [|x l [Hx Hx'] Hl IH]; intros [|y k] Hk HL HV; try done.
  apply Forall_cons in Hk as [[Hy Hy'] Hk]. cbn [limbs_val] in HV. injection HL as HL.
  assert (x = y ∧ limbs_val l = limbs_val k) as [-> E]; [|f_equal; by apply IH].
  pose proof (limbs_val_range l Hl). pose proof (limbs_val_range k Hk). lia.
Qed.

Lemma words_limb l i : words l → is_u32 (limb l i).
Proof.
  intros Hl. unfold limb. destruct (i <? 0); [done|]. destruct (l !! Z.to_nat i) as [x|] eqn:E; [|done].
  cbn. rewrite Forall_lookup in Hl. by eapply Hl.
Qed.
Lemma limb_cons_S x l i : 0 < i → limb (x :: l) i = limb l (i - 1).
Proof.
  intros Hi. unfold limb. destruct (Z.ltb_spec i 0), (Z.ltb_spec (i - 1) 0); try lia.
  replace (Z.to_nat i) with (S (Z.to_nat (i - 1))) by lia. done.
Qed.

(** Bit [32 i + b] of the value is bit [b] of limb [i]. *)
Lemma limbs_testbit l : words l → ∀ i b, 0 <= i → 0 <= b < 32 →
  Z.testbit (limbs_val l) (32 * i + b) = Z.testbit (limb l i) b.
Proof.
  induction 1 as [|x l Hx Hl IH]; intros i b Hi Hb.
  { cbn [limbs_val]. unfold limb. rewrite lookup_nil. destruct (i <? 0); cbn; by rewrite !Z.testbit_0_l. }
  cbn [limbs_val]. assert (x + 2 ^ 32 * limbs_val l = Z.lor x (limbs_val l ≪ 32)) as ->.
  { rewrite Z.shiftl_mul_pow2 by lia. rewrite <-Z.lxor_lor, <-Z.add_nocarry_lxor by
      (apply Z.bits_inj'; intros j Hj; rewrite Z.land_spec, Z.testbit_0_l, <-Z.shiftl_mul_pow2 by lia;
       rewrite Z.shiftl_spec by lia; destruct (Z.lt_ge_cases j 32);
       [rewrite (Z.testbit_neg_r (limbs_val l)) by lia; apply andb_false_r
       |by rewrite (in_width_testbit 32 x) by (done || lia)]). lia. }
  rewrite Z.lor_spec, Z.shiftl_spec by lia. destruct (decide (i = 0)) as [->|Hne].
  - rewrite (Z.testbit_neg_r (limbs_val l)) by lia. rewrite orb_false_r. done.
  - rewrite (in_width_testbit 32 x) by (done || lia). cbn [orb].
    replace (32 * i + b - 32) with (32 * (i - 1) + b) by lia. rewrite IH by lia. by rewrite limb_cons_S by lia.
Qed.

(** ** Shifts by [32 * k + s] bits *)
Definition shl_word (a : list Z) (k s i : Z) : Z :=
  Z.lor (u32 (limb a (i - k) ≪ s)) (if s =? 0 then 0 else limb a (i - k - 1) ≫ (32 - s)).
Definition shr_word (a : list Z) (k s i : Z) : Z :=
  Z.lor (limb a (i + k) ≫ s) (if s =? 0 then 0 else u32 (limb a (i + k + 1) ≪ (32 - s))).
Definition word_list (n : nat) (f : Z → Z) : list Z := (λ i, f (Z.of_nat i)) <$> seq 0 n.

Lemma limb_word_list n f i : 0 <= i < Z.of_nat n → limb (word_list n f) i = f i.
Proof.
  intros Hi. unfold limb, word_list. destruct (Z.ltb_spec i 0); [lia|].
  rewrite list_lookup_fmap, lookup_seq_lt by lia. cbn. f_equal. lia.
Qed.
Lemma length_word_list n f : length (word_list n f) = n.
Proof. unfold word_list. by rewrite length_fmap, length_seq. Qed.
Lemma words_word_list n f : (∀ i, is_u32 (f i)) → words (word_list n f).
Proof. intros H. apply Forall_fmap, Forall_true. intros i. apply H. Qed.

Lemma shl_word_u32 a k s i : words a → 0 <= s < 32 → is_u32 (shl_word a k s i).
Proof.
  intros Ha Hs. unfold shl_word. apply lor_width; [lia|apply u32_width|].
  destruct (s =? 0); [done|]. apply shiftr_width; [lia|lia|by apply words_limb].
Qed.
Lemma shr_word_u32 a k s i : words a → 0 <= s < 32 → is_u32 (shr_word a k s i).
Proof.
  intros Ha Hs. unfold shr_word. apply lor_width; [lia|apply shiftr_width; [lia|lia|by apply words_limb]|].
  destruct (s =? 0); [done|apply u32_width].
Qed.

Lemma limb_neg l i : i < 0 → limb l i = 0.
Proof. intros. unfold limb. by destruct (Z.ltb_spec i 0); [|lia]. Qed.
Lemma limb_ge l i : Z.of_nat (length l) <= i → limb l i = 0.
Proof. intros. unfold limb. destruct (Z.ltb_spec i 0); [done|]. by rewrite lookup_ge_None_2 by lia. Qed.

(** Bits of the value at any index, limbs of negative index included. *)
Lemma limbs_testbit' l i b : words l → 0 <= b < 32 → Z.testbit (limbs_val l) (32 * i + b) = Z.testbit (limb l i) b.
Proof.
  intros Hl Hb. destruct (Z.lt_ge_cases i 0); [|by apply limbs_testbit].
  rewrite limb_neg, Z.testbit_0_l by lia. apply Z.testbit_neg_r. lia.
Qed.

Lemma shl_word_bit a k s i b : words a → 0 <= s < 32 → 0 <= b < 32 →
  Z.testbit (shl_word a k s i) b = Z.testbit (limbs_val a) (32 * (i - k) + b - s).
Proof.
  intros Ha Hs Hb. unfold shl_word, u32. rewrite Z.lor_spec, Z.testbit_mod_pow2, Z.shiftl_spec by lia.
  destruct (Z.ltb_spec b 32); [|lia]. cbn [andb].
  pose proof (words_limb a (i - k - 1) Ha) as Hw.
  destruct (Z.lt_ge_cases b s).
  - rewrite (Z.testbit_neg_r (limb a (i - k))) by lia. cbn [orb]. destruct (Z.eqb_spec s 0); [lia|].
    rewrite Z.shiftr_spec by lia. replace (32 * (i - k) + b - s) with (32 * (i - k - 1) + (b + (32 - s))) by lia.
    by rewrite limbs_testbit' by (done || lia).
  - replace (32 * (i - k) + b - s) with (32 * (i - k) + (b - s)) by lia. rewrite limbs_testbit' by (done || lia).
    destruct (Z.eqb_spec s 0); [by rewrite Z.testbit_0_l, orb_false_r|].
    rewrite Z.shiftr_spec, (in_width_testbit 32 (limb a (i - k - 1))) by (done || lia). by rewrite orb_false_r.
Qed.
Lemma shr_word_bit a k s i b : words a → 0 <= s < 32 → 0 <= b < 32 →
  Z.testbit (shr_word a k s i) b = Z.testbit (limbs_val a) (32 * (i + k) + b + s).
Proof.
  intros Ha Hs Hb. unfold shr_word, u32. rewrite Z.lor_spec, Z.shiftr_spec by lia.
  pose proof (words_limb a (i + k) Ha) as Hw. destruct (Z.lt_ge_cases (b + s) 32).
  - replace (32 * (i + k) + b + s) with (32 * (i + k) + (b + s)) by lia. rewrite limbs_testbit' by (done || lia).
    destruct (Z.eqb_spec s 0); [by rewrite Z.testbit_0_l, orb_false_r|].
    rewrite Z.testbit_mod_pow2, Z.shiftl_spec by lia. rewrite (Z.testbit_neg_r (limb a (i + k + 1))) by lia.
    by rewrite andb_false_r, orb_false_r.
  - rewrite (in_width_testbit 32 (limb a (i + k))) by (done || lia). cbn [orb]. destruct (Z.eqb_spec s 0); [lia|].
    rewrite Z.testbit_mod_pow2, Z.shiftl_spec by lia. destruct (Z.ltb_spec b 32); [|lia]. cbn [andb].
    replace (32 * (i + k) + b + s) with (32 * (i + k + 1) + (b - (32 - s))) by lia.
    by rewrite limbs_testbit' by (done || lia).
Qed.

(** An index into the bits as a limb and a bit. *)
Lemma split_bit i : 0 <= i → ∃ m b, i = 32 * m + b ∧ 0 <= m ∧ 0 <= b < 32.
Proof.
  intros Hi. exists (i `div` 32), (i `mod` 32). pose proof (Z.div_mod i 32). pose proof (Z.mod_pos_bound i 32).
  pose proof (Z.div_pos i 32). lia.
Qed.

Lemma shl_words_val a n k s : words a → 0 <= k → 0 <= s < 32 →
  limbs_val (word_list n (shl_word a k s)) = (limbs_val a * 2 ^ (32 * k + s)) `mod` 2 ^ (32 * Z.of_nat n).
Proof.
  intros Ha Hk Hs. assert (words (word_list n (shl_word a k s))) as Hw
    by (apply words_word_list; intros; by apply shl_word_u32).
  apply Z.bits_inj'. intros i Hi. destruct (split_bit i Hi) as (m & b & -> & Hm & Hb).
  rewrite limbs_testbit by done. rewrite <-Z.shiftl_mul_pow2, Z.testbit_mod_pow2, Z.shiftl_spec by lia.
  destruct (Z.ltb_spec (32 * m + b) (32 * Z.of_nat n)).
  - rewrite limb_word_list by lia. rewrite shl_word_bit by done. cbn [andb]. f_equal. lia.
  - rewrite limb_ge by (rewrite length_word_list; lia). by rewrite Z.testbit_0_l.
Qed.
Lemma shr_words_val a n k s : words a → length a = n → 0 <= k → 0 <= s < 32 →
  limbs_val (word_list n (shr_word a k s)) = limbs_val a `div` 2 ^ (32 * k + s).
Proof.
  intros Ha Hn Hk Hs. assert (words (word_list n (shr_word a k s))) as Hw
    by (apply words_word_list; intros; by apply shr_word_u32).
  apply Z.bits_inj'. intros i Hi. destruct (split_bit i Hi) as (m & b & -> & Hm & Hb).
  rewrite limbs_testbit by done. rewrite <-Z.shiftr_div_pow2, Z.shiftr_spec by lia.
  destruct (Z.lt_ge_cases m (Z.of_nat n)).
  - rewrite limb_word_list by lia. rewrite shr_word_bit by done. f_equal. lia.
  - rewrite limb_ge by (rewrite length_word_list; lia). rewrite Z.testbit_0_l. symmetry.
    destruct (split_bit (32 * m + b + (32 * k + s))) as (m' & b' & E & Hm' & Hb'); [lia|]. rewrite E.
    rewrite limbs_testbit by done. rewrite limb_ge by lia. apply Z.testbit_0_l.
Qed.
