(* ===== verification/ArithUint.v ===== *)
(** * 256-bit arithmetic of the node

    [base_uint<256>] and [arith_uint256] of [src/src/arith_uint256.h] and
    [src/src/arith_uint256.cpp]: the array [pn] of eight 32-bit limbs, every
    operator as the loop the code has, and the compact format of difficulty
    targets.  [uint_error] is [None]. *)
From S2P Require Import Prelude Sysendian Limbs.
Local Open Scope Z_scope.

Definition WIDTH : nat := 8.
Abbreviation arith_uint256 := (list Z) (only parsing).

(** ** Construction and bitwise operators *)
Definition base_uint_zero : arith_uint256 := replicate WIDTH 0.
Definition base_uint_u64 (b : Z) : arith_uint256 := u32 b :: u32 (b ≫ 32) :: replicate (WIDTH - 2) 0.
Definition op_not (a : arith_uint256) : arith_uint256 := (λ x, u32 (Z.lnot x)) <$> a.
Definition op_xor (a b : arith_uint256) : arith_uint256 := zip_with Z.lxor a b.
Definition op_and (a b : arith_uint256) : arith_uint256 := zip_with Z.land a b.
Definition op_or (a b : arith_uint256) : arith_uint256 := zip_with Z.lor a b.

(** [pn[0] op= (unsigned int)b; pn[1] op= (unsigned int)(b >> 32);] *)
Definition low_words (op : Z → Z → Z) (a : arith_uint256) (b : Z) : arith_uint256 :=
  match a with
  | x :: y :: a => op x (u32 b) :: op y (u32 (b ≫ 32)) :: a
  | _ => a
  end.
Definition op_xor_u64 (a : arith_uint256) (b : Z) : arith_uint256 := low_words Z.lxor a b.
Definition op_or_u64 (a : arith_uint256) (b : Z) : arith_uint256 := low_words Z.lor a b.

(** [while (i < WIDTH && ++pn[i] == 0) i++;] and its counterpart. *)
Fixpoint op_incr (a : arith_uint256) : arith_uint256 :=
  match a with
  | [] => []
  | x :: a => let x := u32 (x + 1) in if x =? 0 then x :: op_incr a else x :: a
  end.
Fixpoint op_decr (a : arith_uint256) : arith_uint256 :=
  match a with
  | [] => []
  | x :: a => let x := u32 (x - 1) in if x =? 0xffffffff then x :: op_decr a else x :: a
  end.
Definition op_neg (a : arith_uint256) : arith_uint256 := op_incr (op_not a).

(** ** Addition and subtraction *)
Fixpoint add_loop (carry : Z) (a b : arith_uint256) : arith_uint256 :=
  match a, b with
  | x :: a, y :: b =>
      let n := u64 (carry + x + y) in Z.land n 0xffffffff :: add_loop (n ≫ 32) a b
  | _, _ => []
  end.
Definition op_add (a b : arith_uint256) : arith_uint256 := add_loop 0 a b.
Definition op_sub (a b : arith_uint256) : arith_uint256 := op_add a (op_neg b).
Definition op_add_u64 (a : arith_uint256) (b64 : Z) : arith_uint256 := op_add a (base_uint_u64 b64).
Definition op_sub_u64 (a : arith_uint256) (b64 : Z) : arith_uint256 := op_add a (op_neg (base_uint_u64 b64)).

(** ** Multiplication *)
Fixpoint mul32_loop (carry b32 : Z) (a : arith_uint256) : arith_uint256 :=
  match a with
  | [] => []
  | x :: a => let n := u64 (carry + b32 * x) in Z.land n 0xffffffff :: mul32_loop (n ≫ 32) b32 a
  end.
Definition op_mul32 (a : arith_uint256) (b32 : Z) : arith_uint256 := mul32_loop 0 b32 a.

(** The inner loop: [a] is the accumulator from limb [j] on. *)
Fixpoint mul_row (carry p : Z) (a b : arith_uint256) : arith_uint256 :=
  match a, b with
  | x :: a, y :: b =>
      let n := u64 (carry + x + p * y) in Z.land n 0xffffffff :: mul_row (n ≫ 32) p a b
  | _, _ => []
  end.
Fixpoint mul_loop (j : nat) (pn a b : arith_uint256) : arith_uint256 :=
  match pn with
  | [] => a
  | p :: pn => mul_loop (S j) pn (take j a ++ mul_row 0 p (drop j a) b) b
  end.
Definition op_mul (pn b : arith_uint256) : arith_uint256 := mul_loop 0 pn base_uint_zero b.

(** ** Shifts: [turns] turns of the loop left, at index [i] *)
Definition or_at (pn : arith_uint256) (i v : Z) : arith_uint256 :=
  <[Z.to_nat i := Z.lor (limb pn i) v]> pn.

Fixpoint shl_loop (turns : nat) (i k shift : Z) (a pn : arith_uint256) : arith_uint256 :=
  match turns with
  | O => pn
  | S turns =>
      let pn := if (i + k + 1 <? Z.of_nat WIDTH) && negb (shift =? 0)
                then or_at pn (i + k + 1) (limb a i ≫ (32 - shift)) else pn in
      let pn := if i + k <? Z.of_nat WIDTH then or_at pn (i + k) (u32 (limb a i ≪ shift)) else pn in
      shl_loop turns (i + 1) k shift a pn
  end.
Definition op_shl (a : arith_uint256) (shift : Z) : arith_uint256 :=
  shl_loop WIDTH 0 (shift `div` 32) (shift `mod` 32) a (replicate WIDTH 0).

Fixpoint shr_loop (turns : nat) (i k shift : Z) (a pn : arith_uint256) : arith_uint256 :=
  match turns with
  | O => pn
  | S turns =>
      let pn := if (0 <=? i - k - 1) && negb (shift =? 0)
                then or_at pn (i - k - 1) (u32 (limb a i ≪ (32 - shift))) else pn in
      let pn := if 0 <=? i - k then or_at pn (i - k) (limb a i ≫ shift) else pn in
      shr_loop turns (i + 1) k shift a pn
  end.
Definition op_shr (a : arith_uint256) (shift : Z) : arith_uint256 :=
  shr_loop WIDTH 0 (shift `div` 32) (shift `mod` 32) a (replicate WIDTH 0).

(** ** Comparison *)

(** [for (i = WIDTH - 1; i >= 0; i--)], with [k] limbs left. *)
Fixpoint CompareTo_loop (k : nat) (a b : arith_uint256) : Z :=
  match k with
  | O => 0
  | S k =>
      if limb a (Z.of_nat k) <? limb b (Z.of_nat k) then -1
      else if limb b (Z.of_nat k) <? limb a (Z.of_nat k) then 1
      else CompareTo_loop k a b
  end.
Definition CompareTo (a b : arith_uint256) : Z := CompareTo_loop WIDTH a b.
Definition op_gt (a b : arith_uint256) : bool := 0 <? CompareTo a b.
Definition op_ge (a b : arith_uint256) : bool := 0 <=? CompareTo a b.
Definition op_lt (a b : arith_uint256) : bool := CompareTo a b <? 0.
Definition op_le (a b : arith_uint256) : bool := CompareTo a b <=? 0.
(** [memcmp] of the arrays. *)
Definition op_eq (a b : arith_uint256) : bool := bool_decide (a = b).

Definition EqualTo (a : arith_uint256) (b : Z) : bool :=
  if negb (forallb (λ x, x =? 0) (drop 2 a)) then false
  else if negb (limb a 1 =? b ≫ 32) then false
  else if negb (limb a 0 =? Z.land b 0xffffffff) then false
  else true.

(** [for (nbits = 31; nbits > 0; nbits--)]: the highest set bit plus one; 1 if
    no bit above bit 0 is set. *)
Fixpoint bits_word (nbits : nat) (x : Z) : Z :=
  match nbits with
  | O => 1
  | S k => if negb (Z.land x (1 ≪ Z.of_nat nbits) =? 0) then Z.of_nat nbits + 1 else bits_word k x
  end.
Fixpoint bits_loop (k : nat) (a : arith_uint256) : Z :=
  match k with
  | O => 0
  | S k =>
      if negb (limb a (Z.of_nat k) =? 0) then 32 * Z.of_nat k + bits_word 31 (limb a (Z.of_nat k))
      else bits_loop k a
  end.
Definition bits (a : arith_uint256) : Z := bits_loop WIDTH a.
Definition GetLow64 (a : arith_uint256) : Z := Z.lor (limb a 0) (limb a 1 ≪ 32).

(** ** Division *)
Fixpoint div_loop (fuel : nat) (shift : Z) (num div pn : arith_uint256) : arith_uint256 * arith_uint256 :=
  match fuel with
  | O => (pn, num)
  | S fuel =>
      if 0 <=? shift then
        let '(num, pn) :=
          if op_ge num div
          then (op_sub num div, or_at pn (shift `div` 32) (1 ≪ Z.land shift 31)) else (num, pn) in
        div_loop fuel (shift - 1) num (op_shr div 1) pn
      else (pn, num)
  end.
Definition op_div (a b : arith_uint256) : option arith_uint256 :=
  let num_bits := bits a in
  let div_bits := bits b in
  if div_bits =? 0 then None
  else if num_bits <? div_bits then Some base_uint_zero
  else
    let shift := num_bits - div_bits in
    Some (div_loop (S (Z.to_nat shift)) shift a (op_shl b shift) base_uint_zero).1.

(** ** The compact format *)
Record compact := mkCompact { cp_value : arith_uint256; cp_negative : bool; cp_overflow : bool }.

Definition SetCompact (nCompact : Z) : compact :=
  let nSize := nCompact ≫ 24 in
  let nWord := Z.land nCompact 0x007fffff in
  let '(nWord, value) :=
    if nSize <=? 3 then
      let nWord := nWord ≫ (8 * (3 - nSize)) in (nWord, base_uint_u64 nWord)
    else (nWord, op_shl (base_uint_u64 nWord) (8 * (nSize - 3))) in
  mkCompact value
    (negb (nWord =? 0) && negb (Z.land nCompact 0x00800000 =? 0))
    (negb (nWord =? 0) && ((34 <? nSize) || ((0xff <? nWord) && (33 <? nSize))
                           || ((0xffff <? nWord) && (32 <? nSize)))).

(** [None] is a failing assertion. *)
Definition GetCompact (a : arith_uint256) (fNegative : bool) : option Z :=
  let nSize := (bits a + 7) `div` 8 in
  let nCompact :=
    if nSize <=? 3 then u32 (u64 (GetLow64 a ≪ (8 * (3 - nSize))))
    else u32 (GetLow64 (op_shr a (8 * (nSize - 3)))) in
  let '(nCompact, nSize) :=
    if negb (Z.land nCompact 0x00800000 =? 0) then (nCompact ≫ 8, nSize + 1) else (nCompact, nSize) in
  if negb (Z.land nCompact (u32 (Z.lnot 0x007fffff)) =? 0) || negb (nSize <? 256) then None else
  let nCompact := Z.lor nCompact (nSize ≪ 24) in
  Some (Z.lor nCompact (if fNegative && negb (Z.land nCompact 0x007fffff =? 0) then 0x00800000 else 0)).

(** ** Conversion from and to [uint256], 32 little-endian bytes *)
Definition ArithToUint256 (a : arith_uint256) : list Z := a ≫= le32enc.
Fixpoint UintToArith256_loop (k : nat) (a : list Z) : arith_uint256 :=
  match k with
  | O => []
  | S k => le32dec (take 4 a) :: UintToArith256_loop k (drop 4 a)
  end.
Definition UintToArith256 (a : list Z) : arith_uint256 := UintToArith256_loop WIDTH a.
