(* ===== verification/ArithCorrect.v ===== *)
(** * The 256-bit arithmetic computes modulo [2^256] *)
From S2P Require Import Prelude Sysendian Limbs ArithUint.
Local Open Scope Z_scope.

Abbreviation val := limbs_val.
Definition modulus (a : list Z) : Z := 2 ^ (32 * Z.of_nat (length a)).

(** A well-formed number: eight 32-bit limbs. *)
Definition wf_arith (a : arith_uint256) : Prop := words a ∧ length a = WIDTH.

Lemma modulus_pos l : 0 < modulus l.
Proof. apply Z.pow_pos_nonneg; lia. Qed.
Lemma modulus_cons x l : modulus (x :: l) = 2 ^ 32 * modulus l.
Proof.
  unfold modulus. cbn [length]. rewrite Nat2Z.inj_succ.
  replace (32 * Z.succ (Z.of_nat (length l))) with (32 + 32 * Z.of_nat (length l)) by lia.
  by rewrite Z.pow_add_r by lia.
Qed.
Lemma modulus_wf a : wf_arith a → modulus a = 2 ^ 256.
Proof. intros [_ HL]. unfold modulus. by rewrite HL. Qed.
Lemma val_range a : wf_arith a → 0 <= val a < 2 ^ 256.
Proof. intros H. rewrite <-(modulus_wf a H). apply limbs_val_range, H. Qed.

Lemma land_ffffffff n : Z.land n 0xffffffff = u32 n.
Proof. unfold u32. change 0xffffffff with (Z.ones 32). by rewrite Z.land_ones. Qed.

(** One limb of a carry loop. *)
Lemma carry_step n v m : 0 <= n → 0 < m →
  u32 n + 2 ^ 32 * ((n ≫ 32 + v) `mod` m) = (n + 2 ^ 32 * v) `mod` (2 ^ 32 * m).
Proof.
  intros Hn Hm. rewrite Z.shiftr_div_pow2 by lia. unfold u32.
  pose proof (Z.div_mod n (2 ^ 32)) as E. rewrite E at 3 by lia.
  replace (2 ^ 32 * (n `div` 2 ^ 32) + n `mod` 2 ^ 32 + 2 ^ 32 * v)
    with (n `mod` 2 ^ 32 + (n `div` 2 ^ 32 + v) * 2 ^ 32) by lia.
  rewrite Z.rem_mul_r by lia. rewrite Z_mod_plus_full, Z.mod_mod by lia. f_equal.
  rewrite Z.div_add by lia. rewrite (Z.div_small (n `mod` 2 ^ 32)) by (apply Z.mod_pos_bound; lia). done.
Qed.

(** ** Addition and subtraction *)
Lemma add_loop_spec a : ∀ b c, words a → words b → length a = length b → 0 <= c <= 1 →
  words (add_loop c a b) ∧ length (add_loop c a b) = length a ∧
  val (add_loop c a b) = (c + val a + val b) `mod` modulus a.
Proof.
  induction a as [|x a IH]; intros [|y b] c Ha Hb HL Hc; try done.
  { split_and!; [constructor|done|]. cbn. by rewrite Z.mod_1_r. }
  apply Forall_cons in Ha as [[Hx Hx'] Ha]. apply Forall_cons in Hb as [[Hy Hy'] Hb]. injection HL as HL.
  cbn [add_loop]. rewrite u64_id by (unfold in_width; lia).
  assert (0 <= (c + x + y) ≫ 32 <= 1) as Hc'.
  { rewrite Z.shiftr_div_pow2 by lia. split; [apply Z.div_pos; lia|].
    assert ((c + x + y) `div` 2 ^ 32 < 2); [apply Z.div_lt_upper_bound; lia|lia]. }
  destruct (IH b ((c + x + y) ≫ 32) Ha Hb HL Hc') as (W & L & V).
  rewrite land_ffffffff. split_and!; [by constructor; [apply u32_width|]|cbn; lia|].
  cbn [limbs_val]. rewrite V, modulus_cons.
  replace ((c + x + y) ≫ 32 + val a + val b) with ((c + x + y) ≫ 32 + (val a + val b)) by lia.
  rewrite carry_step; [f_equal; lia|lia|apply modulus_pos].
Qed.

Lemma words_op_not a : words a → words (op_not a).
Proof. intros H. apply Forall_fmap, Forall_true. intros. apply u32_width. Qed.
Lemma val_op_not a : words a → val (op_not a) = modulus a - 1 - val a.
Proof.
  induction 1 as [|x a [Hx Hx'] Ha IH]; [done|]. unfold op_not in *. rewrite fmap_cons.
  cbn [limbs_val]. rewrite IH, modulus_cons. unfold u32.
  replace (Z.lnot x) with (2 ^ 32 - 1 - x + (-1) * 2 ^ 32) by (unfold Z.lnot; lia).
  rewrite Z_mod_plus_full, Z.mod_small by lia. lia.
Qed.

Lemma op_incr_spec a : words a → words (op_incr a) ∧ length (op_incr a) = length a ∧
  val (op_incr a) = (val a + 1) `mod` modulus a.
Proof.
  induction 1 as [|x a [Hx Hx'] Ha (W & L & V)]; [split_and!; [constructor|done|by rewrite Z.mod_1_r]|].
  cbn [op_incr]. pose proof (modulus_pos a). pose proof (limbs_val_range a Ha) as Hr. fold (modulus a) in Hr.
  destruct (Z.eqb_spec (u32 (x + 1)) 0) as [E|E].
  - assert (x = 2 ^ 32 - 1) as ->.
    { unfold u32 in E. destruct (decide (x = 2 ^ 32 - 1)); [done|]. rewrite Z.mod_small in E by lia. lia. }
    split_and!; [constructor; [done|done]|cbn; lia|]. cbn [limbs_val]. rewrite V, modulus_cons, E.
    replace (2 ^ 32 - 1 + 2 ^ 32 * val a + 1) with (2 ^ 32 * (val a + 1)) by lia.
    rewrite Z.mul_mod_distr_l by lia. lia.
  - assert (x < 2 ^ 32 - 1) as Hlt.
    { destruct (decide (x = 2 ^ 32 - 1)) as [->|]; [done|lia]. }
    rewrite u32_id by (unfold in_width; lia).
    split_and!; [constructor; [unfold in_width; lia|done]|done|]. cbn [limbs_val]. rewrite modulus_cons, Z.mod_small; lia.
Qed.
Lemma op_decr_spec a : words a → words (op_decr a) ∧ length (op_decr a) = length a ∧
  val (op_decr a) = (val a - 1) `mod` modulus a.
Proof.
  induction 1 as [|x a [Hx Hx'] Ha (W & L & V)]; [split_and!; [constructor|done|by rewrite Z.mod_1_r]|].
  cbn [op_decr]. pose proof (modulus_pos a). pose proof (limbs_val_range a Ha) as Hr. fold (modulus a) in Hr.
  destruct (Z.eqb_spec (u32 (x - 1)) 0xffffffff) as [E|E].
  - assert (x = 0) as ->.
    { unfold u32 in E. destruct (decide (x = 0)); [done|]. rewrite Z.mod_small in E by lia. lia. }
    split_and!; [constructor; [done|done]|cbn; lia|]. cbn [limbs_val]. rewrite V, modulus_cons, E.
    replace (0 + 2 ^ 32 * val a - 1) with (2 ^ 32 - 1 + (val a - 1) * 2 ^ 32) by lia.
    rewrite Z.rem_mul_r, Z_mod_plus_full, Z.div_add by lia.
    change ((2 ^ 32 - 1) `mod` 2 ^ 32) with (2 ^ 32 - 1). change ((2 ^ 32 - 1) `div` 2 ^ 32) with 0. done.
  - assert (0 < x) as Hlt.
    { destruct (decide (x = 0)) as [->|]; [done|lia]. }
    rewrite u32_id by (unfold in_width; lia).
    split_and!; [constructor; [unfold in_width; lia|done]|done|]. cbn [limbs_val]. rewrite modulus_cons, Z.mod_small; lia.
Qed.

Lemma op_neg_spec a : words a → words (op_neg a) ∧ length (op_neg a) = length a ∧
  val (op_neg a) = (- val a) `mod` modulus a.
Proof.
  intros Ha. unfold op_neg. pose proof (words_op_not a Ha) as Hn. assert (length (op_not a) = length a) as HL
    by (unfold op_not; by rewrite length_fmap).
  destruct (op_incr_spec _ Hn) as (W & L & V). split_and!; [done|lia|]. rewrite V, val_op_not by done.
  unfold modulus at 2. rewrite HL. fold (modulus a).
  replace (modulus a - 1 - val a + 1) with (- val a + 1 * modulus a) by lia. apply Z_mod_plus_full.
Qed.

Lemma op_add_spec a b : wf_arith a → wf_arith b →
  wf_arith (op_add a b) ∧ val (op_add a b) = (val a + val b) `mod` 2 ^ 256.
Proof.
  intros Ha Hb. destruct (add_loop_spec a b 0) as (W & L & V);
    [apply Ha|apply Hb|by rewrite (proj2 Ha), (proj2 Hb)|lia|].
  unfold op_add. split; [split; [done|rewrite L; apply Ha]|]. by rewrite V, (modulus_wf a Ha).
Qed.
Lemma wf_op_neg a : wf_arith a → wf_arith (op_neg a).
Proof. intros [W L]. destruct (op_neg_spec a W) as (W' & L' & _). split; [done|lia]. Qed.
Lemma op_sub_spec a b : wf_arith a → wf_arith b →
  wf_arith (op_sub a b) ∧ val (op_sub a b) = (val a - val b) `mod` 2 ^ 256.
Proof.
  intros Ha Hb. unfold op_sub. destruct (op_add_spec a (op_neg b) Ha (wf_op_neg b Hb)) as [W V]. split; [done|].
  destruct (op_neg_spec b (proj1 Hb)) as (_ & _ & Vn). rewrite V, Vn, (modulus_wf b Hb).
  by rewrite Zplus_mod_idemp_r.
Qed.

(** ** Multiplication *)
Lemma mul32_loop_spec a : ∀ c b, words a → is_u32 b → is_u32 c →
  words (mul32_loop c b a) ∧ length (mul32_loop c b a) = length a ∧
  val (mul32_loop c b a) = (c + b * val a) `mod` modulus a.
Proof.
  induction a as [|x a IH]; intros c b Ha Hb Hc.
  { split_and!; [constructor|done|]. cbn. by rewrite Z.mod_1_r. }
  apply Forall_cons in Ha as [[Hx Hx'] Ha]. destruct Hb as [Hb Hb'], Hc as [Hc Hc'].
  cbn [mul32_loop]. assert (0 <= c + b * x < 2 ^ 64) as Hn by nia. rewrite u64_id by done.
  destruct (IH ((c + b * x) ≫ 32) b Ha) as (W & L & V); [done| |].
  { rewrite Z.shiftr_div_pow2 by lia. split; [apply Z.div_pos; lia|apply Z.div_lt_upper_bound; lia]. }
  rewrite land_ffffffff. split_and!; [by constructor; [apply u32_width|]|cbn; lia|].
  cbn [limbs_val]. rewrite V, modulus_cons, carry_step by (lia || apply modulus_pos). f_equal. lia.
Qed.

Lemma mul_row_spec a : ∀ b c p, words a → words b → (length a ≤ length b)%nat → is_u32 p → is_u32 c →
  words (mul_row c p a b) ∧ length (mul_row c p a b) = length a ∧
  val (mul_row c p a b) = (c + val a + p * val b) `mod` modulus a.
Proof.
  induction a as [|x a IH]; intros b c p Ha Hb HL Hp Hc.
  { split_and!; [constructor|done|]. cbn. by rewrite Z.mod_1_r. }
  destruct b as [|y b]; [cbn in HL; lia|].
  apply Forall_cons in Ha as [[Hx Hx'] Ha]. apply Forall_cons in Hb as [[Hy Hy'] Hb]. cbn [length] in HL.
  destruct Hp as [Hp Hp'], Hc as [Hc Hc'].
  cbn [mul_row]. assert (0 <= c + x + p * y < 2 ^ 64) as Hn by nia. rewrite u64_id by done.
  destruct (IH b ((c + x + p * y) ≫ 32) p Ha Hb) as (W & L & V); [lia|done| |].
  { rewrite Z.shiftr_div_pow2 by lia. split; [apply Z.div_pos; lia|apply Z.div_lt_upper_bound; lia]. }
  rewrite land_ffffffff. split_and!; [by constructor; [apply u32_width|]|cbn; lia|].
  cbn [limbs_val]. rewrite V, modulus_cons.
  replace ((c + x + p * y) ≫ 32 + val a + p * val b) with ((c + x + p * y) ≫ 32 + (val a + p * val b)) by lia.
  rewrite carry_step by (lia || apply modulus_pos). f_equal. lia.
Qed.

(** Replacing the limbs from [j] on by their value plus [v], modulo the rest. *)
Lemma high_part l j v : words l → (j ≤ length l)%nat →
  val (take j l) + 2 ^ (32 * Z.of_nat j) * ((val (drop j l) + v) `mod` modulus (drop j l))
  = (val l + 2 ^ (32 * Z.of_nat j) * v) `mod` modulus l.
Proof.
  intros Hl Hj. pose proof (modulus_pos (drop j l)) as Hm.
  assert (length (take j l) = j) as Ht by (rewrite length_take; lia).
  assert (modulus l = 2 ^ (32 * Z.of_nat j) * modulus (drop j l)) as ->.
  { unfold modulus. rewrite length_drop, <-Z.pow_add_r by lia. f_equal. lia. }
  assert (val l = val (take j l) + 2 ^ (32 * Z.of_nat j) * val (drop j l)) as El
    by (rewrite <-(take_drop j l) at 1; rewrite limbs_val_app, Ht; done).
  pose proof (limbs_val_range (take j l) (Forall_take _ _ _ Hl)) as Hr. rewrite Ht in Hr.
  assert (0 < 2 ^ (32 * Z.of_nat j)) by (apply Z.pow_pos_nonneg; lia).
  rewrite El.
  replace (val (take j l) + 2 ^ (32 * Z.of_nat j) * val (drop j l) + 2 ^ (32 * Z.of_nat j) * v)
    with (val (take j l) + (val (drop j l) + v) * 2 ^ (32 * Z.of_nat j)) by lia.
  rewrite Z.rem_mul_r by lia. rewrite Z_mod_plus_full, Z.div_add by lia.
  by rewrite (Z.mod_small (val (take j l))), (Z.div_small (val (take j l))) by lia.
Qed.

Lemma mul_loop_spec b pn : ∀ j a, words a → words b → words pn → length a = length b →
  (j + length pn = length a)%nat →
  words (mul_loop j pn a b) ∧ length (mul_loop j pn a b) = length a ∧
  val (mul_loop j pn a b) = (val a + 2 ^ (32 * Z.of_nat j) * (val pn * val b)) `mod` modulus a.
Proof.
  induction pn as [|p pn IH]; intros j a Ha Hb Hpn HL Hj.
  { split_and!; [done|done|]. cbn [mul_loop limbs_val]. rewrite Z.mul_0_l, Z.mul_0_r, Z.add_0_r.
    symmetry. apply Z.mod_small. by apply limbs_val_range. }
  cbn [length] in Hj. apply Forall_cons in Hpn as [Hp Hpn]. cbn [mul_loop].
  destruct (mul_row_spec (drop j a) b 0 p) as (W & L & V);
    [by apply Forall_drop|done|rewrite length_drop; lia|done|done|].
  set (a' := take j a ++ mul_row 0 p (drop j a) b).
  assert (length a' = length a) as HL' by (unfold a'; rewrite length_app, L, length_take, length_drop; lia).
  assert (val a' = (val a + 2 ^ (32 * Z.of_nat j) * (p * val b)) `mod` modulus a) as Va'.
  { unfold a'. rewrite limbs_val_app, V, Z.add_0_l, length_take, Nat.min_l by lia. apply high_part; [done|lia]. }
  destruct (IH (S j) a') as (W' & L' & V');
    [apply Forall_app; split; [by apply Forall_take|done]|done|done|lia|lia|].
  split_and!; [done|lia|]. rewrite V'. unfold modulus at 1. rewrite HL'. fold (modulus a).
  rewrite Va', Zplus_mod_idemp_l. cbn [limbs_val]. f_equal.
  replace (32 * Z.of_nat (S j)) with (32 * Z.of_nat j + 32) by lia. rewrite Z.pow_add_r by lia. lia.
Qed.

Lemma wf_zero : wf_arith base_uint_zero.
Proof. split; [by apply Forall_replicate|done]. Qed.
Lemma op_mul_spec a b : wf_arith a → wf_arith b →
  wf_arith (op_mul a b) ∧ val (op_mul a b) = (val a * val b) `mod` 2 ^ 256.
Proof.
  intros [Wa La] [Wb Lb]. destruct (mul_loop_spec b a 0 base_uint_zero) as (W & L & V);
    [apply wf_zero|done|done|by rewrite Lb|by rewrite La|].
  unfold op_mul. split; [by split; [|rewrite L]|]. rewrite V, (modulus_wf _ wf_zero).
  unfold base_uint_zero. rewrite limbs_val_zeros. f_equal. lia.
Qed.
Lemma op_mul32_spec a b : wf_arith a → is_u32 b →
  wf_arith (op_mul32 a b) ∧ val (op_mul32 a b) = (val a * b) `mod` 2 ^ 256.
Proof.
  intros Ha Hb. destruct (mul32_loop_spec a 0 b) as (W & L & V); [apply Ha|done|done|].
  split; [split; [done|unfold op_mul32; rewrite L; apply Ha]|]. unfold op_mul32.
  rewrite V, (modulus_wf _ Ha). f_equal. lia.
Qed.
Lemma wf_base_uint_u64 b : wf_arith (base_uint_u64 b).
Proof. split; [|done]. do 2 (constructor; [apply u32_width|]). by apply Forall_replicate. Qed.
Lemma val_base_uint_u64 b : is_u64 b → val (base_uint_u64 b) = b.
Proof.
  intros [Hb Hb']. unfold base_uint_u64. cbn [limbs_val]. rewrite limbs_val_zeros. unfold u32.
  rewrite Z.shiftr_div_pow2 by lia. rewrite (Z.mod_small (b `div` 2 ^ 32)).
  - pose proof (Z.div_mod b (2 ^ 32)). lia.
  - split; [apply Z.div_pos; lia|apply Z.div_lt_upper_bound; lia].
Qed.

(** ** Shifts *)
Lemma word_list_ext n f g : (∀ i, 0 <= i < Z.of_nat n → f i = g i) → word_list n f = word_list n g.
Proof.
  intros H. unfold word_list. apply list_fmap_ext. intros i x Hx. apply lookup_seq in Hx as [-> Hi].
  apply H. lia.
Qed.
Lemma word_list_zeros n : replicate n 0 = word_list n (λ _, 0).
Proof.
  apply list_eq_same_length with n; [by rewrite length_word_list|by rewrite length_replicate|].
  intros i x y Hi. rewrite lookup_replicate_2 by done. unfold word_list.
  rewrite list_lookup_fmap, lookup_seq_lt by done. cbn. congruence.
Qed.

Lemma or_at_word_list n f j v : 0 <= j < Z.of_nat n →
  or_at (word_list n f) j v = word_list n (λ m, if m =? j then Z.lor (f m) v else f m).
Proof.
  intros Hj. apply list_eq_same_length with n;
    [by rewrite length_word_list|unfold or_at; by rewrite length_insert, length_word_list|].
  intros i x y Hi. unfold or_at. rewrite limb_word_list by done. unfold word_list at 2.
  rewrite list_lookup_fmap, lookup_seq_lt by done. cbn. intros Hx [= <-].
  destruct (Z.eqb_spec (Z.of_nat i) j) as [<-|Hne].
  - rewrite Nat2Z.id, list_lookup_insert_eq in Hx by (by rewrite length_word_list). congruence.
  - rewrite list_lookup_insert_ne in Hx by lia. unfold word_list in Hx.
    rewrite list_lookup_fmap, lookup_seq_lt in Hx by done. cbn in Hx. congruence.
Qed.

(** The words when the limbs below [i] have been processed. *)
Definition shl_part (a : list Z) (k s i m : Z) : Z :=
  Z.lor (if m - k <? i then u32 (limb a (m - k) ≪ s) else 0)
        (if (s =? 0) || (i <=? m - k - 1) then 0 else limb a (m - k - 1) ≫ (32 - s)).
Definition shr_part (a : list Z) (k s i m : Z) : Z :=
  Z.lor (if m + k <? i then limb a (m + k) ≫ s else 0)
        (if (s =? 0) || (i <=? m + k + 1) then 0 else u32 (limb a (m + k + 1) ≪ (32 - s))).

(** [zif] decides the integer comparisons that [lia] can. *)
Ltac zif := repeat match goal with
  | |- context [?a =? ?b] =>
      first [rewrite (proj2 (Z.eqb_eq a b)) by lia | rewrite (proj2 (Z.eqb_neq a b)) by lia]
  | |- context [?a <? ?b] =>
      first [rewrite (proj2 (Z.ltb_lt a b)) by lia | rewrite (proj2 (Z.ltb_ge a b)) by lia]
  | |- context [?a <=? ?b] =>
      first [rewrite (proj2 (Z.leb_le a b)) by lia | rewrite (proj2 (Z.leb_gt a b)) by lia]
  end; cbn [andb orb negb].

Lemma shl_loop_spec a k s turns : ∀ i, 0 <= k → 0 <= i → (s = 0 ∨ s ≠ 0) →
  shl_loop turns i k s a (word_list WIDTH (shl_part a k s i))
  = word_list WIDTH (shl_part a k s (i + Z.of_nat turns)).
Proof.
  induction turns as [|turns IH]; intros i Hk Hi Hs; [by rewrite Z.add_0_r|].
  cbn [shl_loop]. replace (i + Z.of_nat (S turns)) with (i + 1 + Z.of_nat turns) by lia.
  rewrite <-IH by lia. f_equal.
  destruct (Z.ltb_spec (i + k + 1) (Z.of_nat WIDTH)), (Z.eqb_spec s 0), (Z.ltb_spec (i + k) (Z.of_nat WIDTH));
    try lia; cbn [andb negb]; rewrite ?or_at_word_list by lia; apply word_list_ext; intros m Hm;
    unfold shl_part;
    (assert (m = i + k ∨ m = i + k + 1 ∨ m ≠ i + k ∧ m ≠ i + k + 1 ∧ (m < i + k ∨ i + k + 1 < m))
      as [->|[->|(? & ? & [?|?])]] by lia);
    try lia; zif; rewrite ?Z.lor_0_r, ?Z.lor_0_l; try done;
    first [solve [repeat f_equal; lia]|rewrite Z.lor_comm; repeat f_equal; lia].
Qed.

Lemma shr_loop_spec a k s turns : ∀ i, 0 <= k → 0 <= i → (i + Z.of_nat turns <= Z.of_nat WIDTH) → (s = 0 ∨ s ≠ 0) →
  shr_loop turns i k s a (word_list WIDTH (shr_part a k s i))
  = word_list WIDTH (shr_part a k s (i + Z.of_nat turns)).
Proof.
  induction turns as [|turns IH]; intros i Hk Hi Hle Hs; [by rewrite Z.add_0_r|].
  cbn [shr_loop]. replace (i + Z.of_nat (S turns)) with (i + 1 + Z.of_nat turns) by lia.
  rewrite <-IH by lia. f_equal.
  destruct (Z.leb_spec 0 (i - k - 1)), (Z.eqb_spec s 0), (Z.leb_spec 0 (i - k));
    try lia; cbn [andb negb]; rewrite ?or_at_word_list by lia; apply word_list_ext; intros m Hm;
    unfold shr_part;
    (assert (m = i - k ∨ m = i - k - 1 ∨ m ≠ i - k ∧ m ≠ i - k - 1 ∧ (m < i - k - 1 ∨ i - k < m))
      as [->|[->|(? & ? & [?|?])]] by lia);
    try lia; zif; rewrite ?Z.lor_0_r, ?Z.lor_0_l; try done;
    first [solve [repeat f_equal; lia]|rewrite Z.lor_comm; repeat f_equal; lia].
Qed.

Lemma op_shl_words a shift : 0 <= shift →
  op_shl a shift = word_list WIDTH (shl_word a (shift `div` 32) (shift `mod` 32)).
Proof.
  intros Hs. pose proof (Z.div_pos shift 32). unfold op_shl.
  assert (replicate WIDTH 0 = word_list WIDTH (shl_part a (shift `div` 32) (shift `mod` 32) 0)) as ->.
  { rewrite word_list_zeros. apply word_list_ext. intros m Hm. unfold shl_part.
    destruct (Z.ltb_spec (m - shift `div` 32) 0); [rewrite limb_neg, Z.shiftl_0_l by lia|];
      (destruct (Z.eqb_spec (shift `mod` 32) 0); cbn [orb]; [done|]);
      (destruct (Z.leb_spec 0 (m - shift `div` 32 - 1)); [done|]); rewrite limb_neg, Z.shiftr_0_l by lia; done. }
  rewrite shl_loop_spec by lia. apply word_list_ext. intros m Hm. unfold shl_part, shl_word.
  change (0 + Z.of_nat WIDTH) with 8. change (Z.of_nat WIDTH) with 8 in Hm. zif.
  destruct (Z.eqb_spec (shift `mod` 32) 0); cbn [orb]; [done|]. by zif.
Qed.
Lemma op_shr_words a shift : 0 <= shift → length a = WIDTH →
  op_shr a shift = word_list WIDTH (shr_word a (shift `div` 32) (shift `mod` 32)).
Proof.
  intros Hs Ha. pose proof (Z.div_pos shift 32). unfold op_shr.
  assert (replicate WIDTH 0 = word_list WIDTH (shr_part a (shift `div` 32) (shift `mod` 32) 0)) as ->.
  { rewrite word_list_zeros. apply word_list_ext. intros m Hm. unfold shr_part. zif.
    by destruct (Z.eqb_spec (shift `mod` 32) 0). }
  rewrite shr_loop_spec by lia. apply word_list_ext. intros m Hm. unfold shr_part, shr_word.
  change (0 + Z.of_nat WIDTH) with (Z.of_nat WIDTH).
  destruct (Z.ltb_spec (m + shift `div` 32) (Z.of_nat WIDTH));
    [|rewrite (limb_ge a (m + shift `div` 32)) by (rewrite Ha; lia); rewrite Z.shiftr_0_l];
    (destruct (Z.eqb_spec (shift `mod` 32) 0); cbn [orb]; [done|]);
    (destruct (Z.leb_spec (Z.of_nat WIDTH) (m + shift `div` 32 + 1)); [|done]);
    rewrite (limb_ge a (m + shift `div` 32 + 1)) by (rewrite Ha; lia); by rewrite Z.shiftl_0_l.
Qed.

Lemma op_shl_spec a shift : wf_arith a → 0 <= shift →
  wf_arith (op_shl a shift) ∧ val (op_shl a shift) = (val a * 2 ^ shift) `mod` 2 ^ 256.
Proof.
  intros [Wa La] Hs. rewrite op_shl_words by done. pose proof (Z.div_pos shift 32).
  pose proof (Z.mod_pos_bound shift 32). pose proof (Z.div_mod shift 32). split.
  - split; [apply words_word_list; intros; apply shl_word_u32; [done|lia]|apply length_word_list].
  - rewrite shl_words_val by (done || lia). change (32 * Z.of_nat WIDTH) with 256. do 2 f_equal. f_equal. lia.
Qed.
Lemma op_shr_spec a shift : wf_arith a → 0 <= shift →
  wf_arith (op_shr a shift) ∧ val (op_shr a shift) = val a `div` 2 ^ shift.
Proof.
  intros [Wa La] Hs. rewrite op_shr_words by done. pose proof (Z.div_pos shift 32).
  pose proof (Z.mod_pos_bound shift 32). pose proof (Z.div_mod shift 32). split.
  - split; [apply words_word_list; intros; apply shr_word_u32; [done|lia]|apply length_word_list].
  - rewrite shr_words_val by (done || lia). do 2 f_equal. lia.
Qed.

(** ** Comparison and size *)
Lemma limb_lookup l k x : l !! k = Some x → limb l (Z.of_nat k) = x.
Proof. intros H. unfold limb. destruct (Z.ltb_spec (Z.of_nat k) 0); [lia|]. by rewrite Nat2Z.id, H. Qed.

Lemma val_take_S a k : words a → (k < length a)%nat →
  val (take (S k) a) = val (take k a) + 2 ^ (32 * Z.of_nat k) * limb a (Z.of_nat k) ∧
  0 <= val (take k a) < 2 ^ (32 * Z.of_nat k).
Proof.
  intros Ha Hk. destruct (lookup_lt_is_Some_2 a k Hk) as [x Hx]. rewrite (take_S_r _ _ _ Hx), limbs_val_app.
  rewrite length_take, Nat.min_l by lia. rewrite (limb_lookup _ _ _ Hx). cbn [limbs_val]. split; [lia|].
  pose proof (limbs_val_range (take k a) (Forall_take _ _ _ Ha)) as H. rewrite length_take, Nat.min_l in H by lia. done.
Qed.

Lemma CompareTo_loop_spec k a b : words a → words b → (k ≤ length a)%nat → (k ≤ length b)%nat →
  CompareTo_loop k a b = match val (take k a) ?= val (take k b) with Lt => -1 | Eq => 0 | Gt => 1 end.
Proof.
  intros Ha Hb. induction k as [|k IH]; intros H1 H2; [done|]. cbn [CompareTo_loop].
  destruct (val_take_S a k Ha) as [-> Ra]; [lia|]. destruct (val_take_S b k Hb) as [-> Rb]; [lia|].
  pose proof (words_limb a (Z.of_nat k) Ha) as [? _]. pose proof (words_limb b (Z.of_nat k) Hb) as [? _].
  destruct (Z.ltb_spec (limb a (Z.of_nat k)) (limb b (Z.of_nat k))).
  { by rewrite (proj2 (Z.compare_lt_iff _ _)) by nia. }
  destruct (Z.ltb_spec (limb b (Z.of_nat k)) (limb a (Z.of_nat k))).
  { by rewrite (proj2 (Z.compare_gt_iff _ _)) by nia. }
  assert (limb a (Z.of_nat k) = limb b (Z.of_nat k)) as -> by lia. rewrite IH by lia.
  by rewrite !(Z.add_comm (val _)), Z.add_compare_mono_l.
Qed.
Lemma CompareTo_spec a b : wf_arith a → wf_arith b →
  CompareTo a b = match val a ?= val b with Lt => -1 | Eq => 0 | Gt => 1 end.
Proof.
  intros [Wa La] [Wb Lb]. unfold CompareTo. rewrite CompareTo_loop_spec by (done || lia).
  by rewrite !take_ge by lia.
Qed.
Lemma op_gt_spec a b : wf_arith a → wf_arith b → op_gt a b = (val b <? val a).
Proof.
  intros Ha Hb. unfold op_gt. rewrite CompareTo_spec by done. unfold Z.ltb at 2. rewrite (Z.compare_antisym (val a)).
  by destruct (val a ?= val b).
Qed.
Lemma op_ge_spec a b : wf_arith a → wf_arith b → op_ge a b = (val b <=? val a).
Proof.
  intros Ha Hb. unfold op_ge. rewrite CompareTo_spec by done. unfold Z.leb at 2. rewrite (Z.compare_antisym (val a)).
  by destruct (val a ?= val b).
Qed.

Lemma op_lt_spec a b : wf_arith a → wf_arith b → op_lt a b = (val a <? val b).
Proof. intros Ha Hb. unfold op_lt. rewrite CompareTo_spec by done. unfold Z.ltb at 2. by destruct (val a ?= val b). Qed.
Lemma op_le_spec a b : wf_arith a → wf_arith b → op_le a b = (val a <=? val b).
Proof. intros Ha Hb. unfold op_le. rewrite CompareTo_spec by done. unfold Z.leb at 2. by destruct (val a ?= val b). Qed.
Lemma op_eq_spec a b : wf_arith a → wf_arith b → op_eq a b = true ↔ val a = val b.
Proof.
  intros [Wa La] [Wb Lb]. unfold op_eq. rewrite bool_decide_eq_true. split; [by intros ->|].
  apply limbs_val_inj; [done..|congruence].
Qed.

(** ** Bitwise operators *)

(** An operation on bits, limb by limb. *)
Lemma zip_bits_spec (op : Z → Z → Z) (f : bool → bool → bool) a b :
  (∀ x y n, 0 <= n → Z.testbit (op x y) n = f (Z.testbit x n) (Z.testbit y n)) → f false false = false →
  (∀ x y, 0 <= x → 0 <= y → 0 <= op x y) →
  wf_arith a → wf_arith b → wf_arith (zip_with op a b) ∧ val (zip_with op a b) = op (val a) (val b).
Proof.
  intros Hop Hf Hpos [Wa La] [Wb Lb].
  assert (∀ x y, is_u32 x → is_u32 y → is_u32 (op x y)) as Hw.
  { intros x y Hx Hy. apply in_width_bits; [lia|apply Hpos; [apply Hx|apply Hy]|]. intros n Hn. rewrite Hop by lia.
    by rewrite (in_width_testbit 32 x), (in_width_testbit 32 y) by (done || lia). }
  assert (words (zip_with op a b)) as W.
  { clear La Lb. revert b Wb. induction Wa as [|x a Hx Wa IH]; intros [|y b] Wb; try constructor;
      apply Forall_cons in Wb as [Hy Wb]; auto. }
  assert (length (zip_with op a b) = WIDTH) as HL by (rewrite length_zip_with; lia).
  split; [done|]. apply Z.bits_inj'. intros n Hn. rewrite Hop by done.
  assert (n = 32 * (n `div` 32) + n `mod` 32) as -> by (apply Z.div_mod; lia).
  pose proof (Z.mod_pos_bound n 32 ltac:(lia)). pose proof (Z.div_pos n 32 Hn ltac:(lia)).
  rewrite !limbs_testbit by (done || lia). rewrite <- Hop by lia. f_equal. unfold limb.
  destruct (Z.ltb_spec (n `div` 32) 0); [lia|]. rewrite lookup_zip_with.
  destruct (a !! Z.to_nat (n `div` 32)) as [x|] eqn:Ea; cbn.
  - destruct (lookup_lt_is_Some_2 b (Z.to_nat (n `div` 32))) as [y ->]; [apply lookup_lt_Some in Ea; lia|done].
  - apply lookup_ge_None in Ea. rewrite (proj2 (lookup_ge_None b _)) by lia. cbn.
    apply Z.bits_inj'. intros k Hk. by rewrite Hop, !Z.testbit_0_l.
Qed.
Lemma op_xor_spec a b : wf_arith a → wf_arith b → wf_arith (op_xor a b) ∧ val (op_xor a b) = Z.lxor (val a) (val b).
Proof. apply (zip_bits_spec Z.lxor xorb); [intros; apply Z.lxor_spec|done|intros; by apply Z.lxor_nonneg]. Qed.
Lemma op_and_spec a b : wf_arith a → wf_arith b → wf_arith (op_and a b) ∧ val (op_and a b) = Z.land (val a) (val b).
Proof. apply (zip_bits_spec Z.land andb); [intros; apply Z.land_spec|done|intros; apply Z.land_nonneg; by left]. Qed.
Lemma op_or_spec a b : wf_arith a → wf_arith b → wf_arith (op_or a b) ∧ val (op_or a b) = Z.lor (val a) (val b).
Proof. apply (zip_bits_spec Z.lor orb); [intros; apply Z.lor_spec|done|intros; by apply Z.lor_nonneg]. Qed.
Lemma op_not_mod a : wf_arith a → wf_arith (op_not a) ∧ val (op_not a) = Z.lnot (val a) `mod` 2 ^ 256.
Proof.
  intros Ha. pose proof (val_range a Ha). split; [split; [by apply words_op_not, Ha|unfold op_not; rewrite length_fmap; apply Ha]|].
  rewrite val_op_not, modulus_wf by (done || apply Ha). unfold Z.lnot.
  apply (Z.mod_unique _ _ (-1)); lia.
Qed.
Lemma op_neg_mod a : wf_arith a → wf_arith (op_neg a) ∧ val (op_neg a) = (- val a) `mod` 2 ^ 256.
Proof.
  intros Ha. split; [by apply wf_op_neg|]. destruct (op_neg_spec a (proj1 Ha)) as (_&_&->). by rewrite modulus_wf.
Qed.
Lemma low_words_spec (op : Z → Z → Z) a b : (∀ x, op x 0 = x) → wf_arith a → low_words op a b = zip_with op a (base_uint_u64 b).
Proof.
  intros H0 [_ La]. destruct a as [|x [|y a]]; [done..|]. unfold low_words, base_uint_u64. cbn [zip_with]. do 2 f_equal.
  injection La as La. revert La. change (WIDTH - 2)%nat with 6%nat. generalize 6%nat. clear -H0.
  induction a as [|z a IH]; intros [|n]; [done..|]. cbn [replicate zip_with length]. intros [= Hn]. rewrite H0. f_equal. by apply IH.
Qed.

Lemma EqualTo_spec a b : wf_arith a → is_u64 b → EqualTo a b = (val a =? b).
Proof.
  intros [Wa La] [Hb0 Hb1]. unfold EqualTo. destruct a as [|x [|y a]]; [done|done|].
  change (drop 2 (x :: y :: a)) with a.
  rewrite !Forall_cons in Wa. destruct Wa as ([Hx Hx'] & [Hy Hy'] & Wa). pose proof (limbs_val_range a Wa) as Hr.
  assert (forallb (λ x, x =? 0) a = (val a =? 0)) as ->.
  { clear -Wa. induction Wa as [|z a [Hz _] Wa IH]; [done|]. cbn [forallb limbs_val]. rewrite IH.
    pose proof (limbs_val_range a Wa). destruct (Z.eqb_spec z 0), (Z.eqb_spec (val a) 0); cbn [andb]; lia. }
  change (limb (x :: y :: a) 1) with y. change (limb (x :: y :: a) 0) with x.
  rewrite land_ffffffff, Z.shiftr_div_pow2 by lia. unfold u32. cbn [limbs_val].
  pose proof (Z.div_mod b (2 ^ 32) ltac:(lia)). pose proof (Z.mod_pos_bound b (2 ^ 32) ltac:(lia)).
  assert (0 <= b `div` 2 ^ 32 < 2 ^ 32) by (split; [apply Z.div_pos; lia|apply Z.div_lt_upper_bound; lia]).
  destruct (Z.eqb_spec (val a) 0), (Z.eqb_spec y (b `div` 2 ^ 32)), (Z.eqb_spec x (b `mod` 2 ^ 32)), (Z.eqb_spec (x + 2 ^ 32 * (y + 2 ^ 32 * val a)) b);
    cbn [negb]; lia.
Qed.
Lemma EqualTo_zero a : wf_arith a → EqualTo a 0 = (val a =? 0).
Proof. intros Ha. by apply EqualTo_spec. Qed.

Lemma land_bit x n : 0 <= n → (Z.land x (1 ≪ n) =? 0) = negb (Z.testbit x n).
Proof.
  intros Hn. rewrite Z.shiftl_1_l. destruct (Z.testbit x n) eqn:E; cbn [negb].
  - apply Z.eqb_neq. intros H. apply (f_equal (λ z, Z.testbit z n)) in H.
    rewrite Z.land_spec, Z.pow2_bits_true, E, Z.testbit_0_l in H by done. done.
  - apply Z.eqb_eq. apply Z.bits_inj'. intros i Hi. rewrite Z.land_spec, Z.testbit_0_l.
    destruct (decide (n = i)) as [->|]; [by rewrite E|]. rewrite Z.pow2_bits_false by done. apply andb_false_r.
Qed.
Lemma bits_word_spec n x : 1 <= x < 2 ^ (Z.of_nat n + 1) → bits_word n x = Z.log2 x + 1.
Proof.
  induction n as [|n IH]; intros Hx; [change (2 ^ (Z.of_nat 0 + 1)) with 2 in Hx; by replace x with 1 by lia|].
  cbn [bits_word]. rewrite land_bit by lia. rewrite negb_involutive. destruct (Z.testbit x (Z.of_nat (S n))) eqn:E.
  - f_equal. symmetry. apply Z.log2_unique; [lia|]. split; [|rewrite <-Z.add_1_r; lia].
    destruct (Z.lt_ge_cases x (2 ^ Z.of_nat (S n))) as [Hlt|]; [|done].
    rewrite (in_width_testbit (Z.of_nat (S n))) in E by (unfold in_width; lia). done.
  - apply IH. split; [lia|]. destruct (Z.lt_ge_cases x (2 ^ (Z.of_nat n + 1))) as [|Hge]; [done|].
    exfalso. assert (Z.log2 x = Z.of_nat (S n)) as El.
    { apply Z.log2_unique; [lia|]. split; [by replace (Z.of_nat (S n)) with (Z.of_nat n + 1) by lia|].
      rewrite <-Z.add_1_r. lia. }
    rewrite <-El, Z.bit_log2 in E by lia. done.
Qed.

(** The number of significant bits. *)
Definition nbits (v : Z) : Z := if v =? 0 then 0 else Z.log2 v + 1.
Lemma bits_loop_spec k a : words a → (k ≤ length a)%nat → bits_loop k a = nbits (val (take k a)).
Proof.
  intros Ha. induction k as [|k IH]; intros Hk; [done|]. cbn [bits_loop].
  destruct (val_take_S a k Ha) as [-> Ra]; [lia|]. pose proof (words_limb a (Z.of_nat k) Ha) as [Hl Hl'].
  set (x := limb a (Z.of_nat k)) in *. assert (0 < 2 ^ (32 * Z.of_nat k)) by (apply Z.pow_pos_nonneg; lia).
  destruct (Z.eqb_spec x 0) as [->|Hne]; cbn [negb].
  - rewrite IH, Z.mul_0_r, Z.add_0_r by lia. done.
  - rewrite bits_word_spec by (change (2 ^ (Z.of_nat 31 + 1)) with (2 ^ 32); lia). unfold nbits.
    destruct (Z.eqb_spec (val (take k a) + 2 ^ (32 * Z.of_nat k) * x) 0); [nia|].
    assert (Z.log2 (val (take k a) + 2 ^ (32 * Z.of_nat k) * x) = 32 * Z.of_nat k + Z.log2 x) as ->; [|lia].
    pose proof (Z.log2_nonneg x). pose proof (Z.log2_spec x ltac:(lia)) as [L1 L2].
    apply Z.log2_unique; [lia|]. rewrite <-Z.add_succ_r, !Z.pow_add_r by lia. nia.
Qed.
Lemma bits_spec a : wf_arith a → bits a = nbits (val a).
Proof. intros [Wa La]. unfold bits. rewrite bits_loop_spec by (done || lia). by rewrite take_ge by lia. Qed.

(** ** Division *)
Lemma limb_or_at a i v m : 0 <= i < Z.of_nat (length a) →
  limb (or_at a i v) m = if m =? i then Z.lor (limb a i) v else limb a m.
Proof.
  intros Hi. unfold or_at. destruct (Z.eqb_spec m i) as [->|Hne].
  - unfold limb at 1. destruct (Z.ltb_spec i 0); [lia|]. by rewrite list_lookup_insert_eq by lia.
  - unfold limb at 1 3. destruct (Z.ltb_spec m 0); [done|]. by rewrite list_lookup_insert_ne by lia.
Qed.
Lemma or_at_spec a i v : words a → is_u32 v → 0 <= i < Z.of_nat (length a) →
  words (or_at a i v) ∧ length (or_at a i v) = length a ∧ val (or_at a i v) = Z.lor (val a) (v ≪ (32 * i)).
Proof.
  intros Ha Hv Hi. assert (words (or_at a i v)) as Hw.
  { unfold or_at. apply Forall_insert; [done|]. apply lor_width; [lia|by apply words_limb|done]. }
  split_and!; [done|unfold or_at; apply length_insert|].
  apply Z.bits_inj'. intros j Hj. destruct (split_bit j Hj) as (m & b & -> & Hm & Hb).
  rewrite limbs_testbit, limb_or_at, Z.lor_spec, Z.shiftl_spec, limbs_testbit by done.
  destruct (Z.eqb_spec m i) as [->|Hne].
  - rewrite Z.lor_spec. do 2 f_equal. lia.
  - destruct (Z.lt_ge_cases m i); [rewrite (Z.testbit_neg_r v) by lia; by rewrite orb_false_r|].
    rewrite (in_width_testbit 32 v) by (done || lia). by rewrite orb_false_r.
Qed.

(** Setting a bit below all others. *)
Lemma set_bit_spec pn s t : wf_arith pn → 0 <= s < 256 → val pn = 2 ^ (s + 1) * t →
  wf_arith (or_at pn (s `div` 32) (1 ≪ Z.land s 31)) ∧
  val (or_at pn (s `div` 32) (1 ≪ Z.land s 31)) = val pn + 2 ^ s.
Proof.
  intros [Wp Lp] Hs Hv. pose proof (Z.div_mod s 32) as Hd. pose proof (Z.mod_pos_bound s 32) as Hm.
  change 31 with (Z.ones 5). rewrite Z.land_ones by lia. change (2 ^ 5) with 32. rewrite Z.shiftl_1_l.
  assert (is_u32 (2 ^ (s `mod` 32))) as Hb.
  { split; [apply Z.pow_nonneg; lia|]. apply Z.pow_lt_mono_r; lia. }
  destruct (or_at_spec pn (s `div` 32) (2 ^ (s `mod` 32)) Wp Hb) as (W & L & V).
  { rewrite Lp. change (Z.of_nat WIDTH) with 8. lia. }
  split; [split; [done|lia]|]. rewrite V, Z.shiftl_mul_pow2, <-Z.pow_add_r by lia.
  replace (s `mod` 32 + 32 * (s `div` 32)) with s by lia. symmetry.
  rewrite <-Z.lxor_lor; [rewrite <-Z.add_nocarry_lxor; [done|]|];
    (apply Z.bits_inj'; intros i Hi; rewrite Z.land_spec, Z.testbit_0_l;
     destruct (decide (s = i)) as [<-|Hne]; [|rewrite Z.pow2_bits_false by done; apply andb_false_r];
     rewrite Hv, Z.mul_comm, Z.mul_pow2_bits_low by lia; done).
Qed.

Lemma div_loop_spec D fuel : ∀ num div pn t,
  let s := Z.of_nat fuel - 1 in
  wf_arith num → wf_arith div → wf_arith pn → 0 < D →
  (0 <= s → val div = D * 2 ^ s) → val num < D * 2 ^ (s + 1) → val pn = 2 ^ (s + 1) * t →
  val pn + 2 ^ (s + 1) <= 2 ^ 256 →
  ∃ pn' num', div_loop fuel s num div pn = (pn', num') ∧ wf_arith pn' ∧ wf_arith num' ∧
    val pn' = val pn + val num `div` D ∧ val num' = val num `mod` D.
Proof.
  induction fuel as [|fuel IH]; intros num div pn t s Wn Wd Wp HD Hdiv Hnum Hpn Hroom.
  { unfold s in Hnum. change (2 ^ (Z.of_nat 0 - 1 + 1)) with 1 in Hnum. pose proof (val_range num Wn).
    exists pn, num. rewrite Z.div_small, Z.mod_small by lia. split_and!; try done. lia. }
  assert (s = Z.of_nat fuel) as Es by (unfold s; lia). clearbody s. subst s.
  pose proof (val_range num Wn) as Rn. pose proof (val_range pn Wp) as Rp.
  assert (2 ^ (Z.of_nat fuel + 1) = 2 * 2 ^ Z.of_nat fuel) as Ep by (rewrite Z.pow_add_r by lia; lia).
  set (S2 := 2 ^ Z.of_nat fuel) in *. assert (0 < S2) by (apply Z.pow_pos_nonneg; lia).
  specialize (Hdiv ltac:(lia)). cbn [div_loop].
  destruct (Z.leb_spec 0 (Z.of_nat fuel)); [|lia]. rewrite op_ge_spec by done.
  assert (0 ≤ Z.of_nat fuel < 256) as Hf.
  { split; [lia|]. destruct (Z.lt_ge_cases (Z.of_nat fuel) 256) as [|Hge]; [done|].
    assert (2 ^ 256 <= S2) by (apply Z.pow_le_mono_r; lia). lia. }
  destruct (op_shr_spec div 1 Wd ltac:(lia)) as [Wd' Vd'].
  assert (0 <= Z.of_nat fuel - 1 → val (op_shr div 1) = D * 2 ^ (Z.of_nat fuel - 1)) as Hdiv'.
  { intros Hs. rewrite Vd', Hdiv. unfold S2. replace (Z.of_nat fuel) with (Z.of_nat fuel - 1 + 1) at 1 by lia.
    rewrite Z.pow_add_r, Z.mul_assoc by lia. by rewrite Z.div_mul. }
  rewrite Ep in Hnum, Hroom.
  destruct (Z.leb_spec (val div) (val num)) as [Hle|Hgt].
  - destruct (op_sub_spec num div Wn Wd) as [Ws Vs]. rewrite Z.mod_small in Vs by lia.
    destruct (set_bit_spec pn (Z.of_nat fuel) t Wp Hf) as [Wo Vo]; [done|]. fold S2 in Vo.
    rewrite Ep in Hpn.
    destruct (IH (op_sub num div) (op_shr div 1) (or_at pn (Z.of_nat fuel `div` 32) (1 ≪ Z.land (Z.of_nat fuel) 31))
      (2 * t + 1)) as (pn' & num' & E & W1 & W2 & V1 & V2); try done.
    { replace (Z.of_nat fuel - 1 + 1) with (Z.of_nat fuel) by lia. fold S2. lia. }
    { rewrite Vo, Hpn. replace (Z.of_nat fuel - 1 + 1) with (Z.of_nat fuel) by lia. fold S2. lia. }
    { rewrite Vo. replace (Z.of_nat fuel - 1 + 1) with (Z.of_nat fuel) by lia. fold S2. lia. }
    exists pn', num'. split_and!; [done|done|done|rewrite V1, Vo, Vs, Hdiv|rewrite V2, Vs, Hdiv].
    + replace (val num - D * S2) with (val num + (- S2) * D) by lia. rewrite Z.div_add by lia. lia.
    + replace (val num - D * S2) with (val num + (- S2) * D) by lia. apply Z_mod_plus_full.
  - rewrite Ep in Hpn. destruct (IH num (op_shr div 1) pn (2 * t)) as (pn' & num' & E & W1 & W2 & V1 & V2); try done.
    { replace (Z.of_nat fuel - 1 + 1) with (Z.of_nat fuel) by lia. fold S2. lia. }
    { rewrite Hpn. replace (Z.of_nat fuel - 1 + 1) with (Z.of_nat fuel) by lia. fold S2. lia. }
    { replace (Z.of_nat fuel - 1 + 1) with (Z.of_nat fuel) by lia. fold S2. lia. }
    by exists pn', num'.
Qed.

Lemma nbits_spec v : 0 < v → 0 < nbits v ∧ 2 ^ (nbits v - 1) <= v < 2 ^ nbits v.
Proof.
  intros Hv. unfold nbits. destruct (Z.eqb_spec v 0); [lia|]. pose proof (Z.log2_nonneg v).
  pose proof (Z.log2_spec v Hv) as [H1 H2]. rewrite Z.add_simpl_r, Z.add_1_r. split; [lia|done].
Qed.
Lemma nbits_le v n : 0 <= v < 2 ^ n → 0 <= n → nbits v <= n.
Proof.
  intros Hv Hn. unfold nbits. destruct (Z.eqb_spec v 0); [lia|].
  pose proof (Z.log2_lt_pow2 v n ltac:(lia)) as [H _]. specialize (H ltac:(lia)). lia.
Qed.

Lemma op_div_spec a b : wf_arith a → wf_arith b → val b ≠ 0 →
  ∃ q, op_div a b = Some q ∧ wf_arith q ∧ val q = val a `div` val b.
Proof.
  intros Ha Hb Hne. pose proof (val_range a Ha) as Ra. pose proof (val_range b Hb) as Rb.
  destruct (nbits_spec (val b) ltac:(lia)) as (Pb & Lb & Ub). unfold op_div. rewrite !bits_spec by done.
  destruct (Z.eqb_spec (nbits (val b)) 0); [lia|].
  assert (val a < 2 ^ nbits (val a)) as Ua.
  { destruct (decide (val a = 0)) as [->|]; [done|]. apply nbits_spec. lia. }
  destruct (Z.ltb_spec (nbits (val a)) (nbits (val b))) as [Hlt|Hge].
  { exists base_uint_zero. split_and!; [done|apply wf_zero|]. unfold base_uint_zero. rewrite limbs_val_zeros.
    symmetry. apply Z.div_small. split; [lia|].
    assert (2 ^ nbits (val a) <= 2 ^ (nbits (val b) - 1)) by (apply Z.pow_le_mono_r; lia). lia. }
  set (sh := nbits (val a) - nbits (val b)). assert (nbits (val a) <= 256) by (by apply nbits_le).
  destruct (op_shl_spec b sh Hb ltac:(lia)) as [Ws Vs].
  assert (0 < 2 ^ sh) by (apply Z.pow_pos_nonneg; lia).
  assert (val b * 2 ^ sh < 2 ^ 256) as Hov.
  { eapply Z.lt_le_trans; [apply Z.mul_lt_mono_pos_r; [done|exact Ub]|].
    rewrite <-Z.pow_add_r by lia. apply Z.pow_le_mono_r; lia. }
  rewrite Z.mod_small in Vs by lia.
  destruct (div_loop_spec (val b) (S (Z.to_nat sh)) a (op_shl b sh) base_uint_zero 0)
    as (q & num' & E & Wq & _ & Vq & _); try done; try lia.
  - apply wf_zero.
  - intros _. rewrite Vs. do 2 f_equal. lia.
  - replace (Z.of_nat (S (Z.to_nat sh)) - 1 + 1) with (sh + 1) by lia.
    eapply Z.lt_le_trans; [exact Ua|].
    transitivity (2 ^ (nbits (val b) - 1) * 2 ^ (sh + 1)); [|apply Z.mul_le_mono_nonneg_r; [apply Z.pow_nonneg; lia|done]].
    rewrite <-Z.pow_add_r by lia. apply Z.pow_le_mono_r; lia.
  - unfold base_uint_zero. rewrite limbs_val_zeros. lia.
  - unfold base_uint_zero. rewrite limbs_val_zeros, Z.add_0_l. apply Z.pow_le_mono_r; lia.
  - replace (Z.of_nat (S (Z.to_nat sh)) - 1) with sh in E by lia. rewrite E. exists q. split_and!; [done|done|].
    rewrite Vq. unfold base_uint_zero. rewrite limbs_val_zeros. lia.
Qed.
