(* ===== verification/Compact.v ===== *)
(** * The compact format of difficulty targets

    [SetCompact] and [GetCompact] of [arith_uint256.cpp] against their
    arithmetic meaning. *)
From S2P Require Import Prelude Sysendian Limbs ArithUint ArithCorrect.
Local Open Scope Z_scope.

(** ** Decoding *)
Definition cp_size (c : Z) : Z := c `div` 2 ^ 24.
Definition cp_word (c : Z) : Z := c `mod` 2 ^ 23.
(** The number a compact stands for, without any bound on its size. *)
Definition compact_val (c : Z) : Z :=
  if cp_size c <=? 3 then cp_word c `div` 256 ^ (3 - cp_size c) else cp_word c * 256 ^ (cp_size c - 3).

Lemma pow256 n : 0 <= n → 256 ^ n = 2 ^ (8 * n).
Proof. intros Hn. change 256 with (2 ^ 8). by rewrite <-Z.pow_mul_r by lia. Qed.
Lemma pow256_pos n : 0 < 256 ^ n ∨ n < 0.
Proof. destruct (Z.lt_ge_cases n 0); [by right|left]. apply Z.pow_pos_nonneg; lia. Qed.

Lemma cp_size_range c : is_u32 c → 0 <= cp_size c < 256.
Proof.
  intros [H1 H2]. unfold cp_size. split; [apply Z.div_pos; lia|]. apply Z.div_lt_upper_bound; lia.
Qed.
Lemma cp_word_range c : 0 <= cp_word c < 2 ^ 23.
Proof. apply Z.mod_pos_bound. lia. Qed.

Lemma compact_val_nonneg c : 0 <= compact_val c.
Proof.
  pose proof (cp_word_range c) as Hw. unfold compact_val. destruct (Z.leb_spec (cp_size c) 3).
  - apply Z.div_pos; [lia|]. apply Z.pow_pos_nonneg; lia.
  - apply Z.mul_nonneg_nonneg; [lia|]. apply Z.pow_nonneg. lia.
Qed.
Lemma compact_val_not_max c : is_u32 c → compact_val c ≠ 2 ^ 256 - 1.
Proof.
  intros Hc. pose proof (cp_word_range c) as Hw. pose proof (cp_size_range c Hc). unfold compact_val. destruct (Z.leb_spec (cp_size c) 3).
  - assert (1 <= 256 ^ (3 - cp_size c)) by (pose proof (Z.pow_pos_nonneg 256 (3 - cp_size c)); lia).
    assert (cp_word c `div` 256 ^ (3 - cp_size c) <= cp_word c) by (apply Z.div_le_upper_bound; nia). lia.
  - replace (cp_size c - 3) with (Z.succ (cp_size c - 4)) by lia. rewrite Z.pow_succ_r by lia.
    generalize (256 ^ (cp_size c - 4)). intros e E.
    assert (256 * (cp_word c * e) = 2 ^ 256 - 1) as E' by (rewrite <- E; ring).
    apply (f_equal (λ z, z `mod` 256)) in E'. rewrite Z.mul_comm, Z.mod_mul in E' by lia. vm_compute in E'. done.
Qed.

Lemma overflow_spec w n : 0 <= w < 2 ^ 23 → 3 < n →
  negb (w =? 0) && ((34 <? n) || ((0xff <? w) && (33 <? n)) || ((0xffff <? w) && (32 <? n)))
  = (2 ^ 256 <=? w * 256 ^ (n - 3)).
Proof.
  intros Hw Hn. rewrite pow256 by lia. destruct (Z.eqb_spec w 0) as [->|Hne]; [done|]. cbn [negb andb].
  destruct (Z.ltb_spec 34 n) as [H35|H34]; cbn [orb].
  { symmetry. apply Z.leb_le. assert (2 ^ 256 <= 2 ^ (8 * (n - 3))) by (apply Z.pow_le_mono_r; lia). nia. }
  assert (n = 34 ∨ n = 33 ∨ n <= 32) as [->|[->|H32]] by lia.
  - change (8 * (34 - 3)) with 248. destruct (Z.ltb_spec 0xff w), (Z.ltb_spec 0xffff w), (Z.leb_spec (2 ^ 256) (w * 2 ^ 248)); lia.
  - change (8 * (33 - 3)) with 240. destruct (Z.ltb_spec 0xff w), (Z.ltb_spec 0xffff w), (Z.leb_spec (2 ^ 256) (w * 2 ^ 240)); lia.
  - destruct (Z.ltb_spec 33 n), (Z.ltb_spec 32 n); try lia. rewrite !andb_false_r. symmetry. apply Z.leb_gt.
    assert (2 ^ (8 * (n - 3)) <= 2 ^ 232) by (apply Z.pow_le_mono_r; lia). nia.
Qed.

Lemma SetCompact_spec c : is_u32 c →
  wf_arith (cp_value (SetCompact c)) ∧ val (cp_value (SetCompact c)) = compact_val c `mod` 2 ^ 256 ∧
  cp_overflow (SetCompact c) = (2 ^ 256 <=? compact_val c) ∧
  cp_negative (SetCompact c) = negb (compact_val c =? 0) && Z.testbit c 23.
Proof.
  intros Hc. pose proof (cp_size_range c Hc) as Hs. pose proof (cp_word_range c) as Hw.
  assert (c ≫ 24 = cp_size c) as E1 by (unfold cp_size; by rewrite Z.shiftr_div_pow2).
  assert (Z.land c 0x7fffff = cp_word c) as E2 by (change 0x7fffff with (Z.ones 23); by rewrite Z.land_ones).
  assert (negb (Z.land c 0x00800000 =? 0) = Z.testbit c 23) as E3.
  { change 0x00800000 with (1 ≪ 23). rewrite land_bit by lia. apply negb_involutive. }
  unfold SetCompact, compact_val. rewrite E1, E2, E3. destruct (Z.leb_spec (cp_size c) 3) as [Hle|Hgt].
  - rewrite Z.shiftr_div_pow2 by lia. rewrite <-pow256 by lia. set (w := cp_word c `div` _).
    assert (0 <= w < 2 ^ 23) as Hw'.
    { assert (0 < 256 ^ (3 - cp_size c)) by (apply Z.pow_pos_nonneg; lia).
      split; [apply Z.div_pos; lia|]. apply Z.div_lt_upper_bound; [lia|]. nia. }
    cbn [cp_value cp_overflow cp_negative]. split_and!; [apply wf_base_uint_u64| | |done].
    + rewrite val_base_uint_u64 by (unfold in_width; lia). by rewrite Z.mod_small by lia.
    + zif. rewrite !andb_false_r. done.
  - cbn [cp_value cp_overflow cp_negative].
    destruct (op_shl_spec (base_uint_u64 (cp_word c)) (8 * (cp_size c - 3)) (wf_base_uint_u64 _) ltac:(lia)) as [W V].
    assert (0 < 256 ^ (cp_size c - 3)) by (apply Z.pow_pos_nonneg; lia).
    split_and!; [done| |by apply overflow_spec|].
    + rewrite V, val_base_uint_u64 by (unfold in_width; lia). by rewrite pow256 by lia.
    + f_equal. destruct (Z.eqb_spec (cp_word c) 0), (Z.eqb_spec (cp_word c * 256 ^ (cp_size c - 3)) 0); try done; nia.
Qed.

(** ** Encoding *)
Definition nbytes (v : Z) : Z := (nbits v + 7) `div` 8.
Definition mantissa (v : Z) : Z :=
  if nbytes v <=? 3 then v * 256 ^ (3 - nbytes v) else v `div` 256 ^ (nbytes v - 3).
Definition compact_of (v : Z) : Z :=
  if mantissa v <? 2 ^ 23 then mantissa v + 2 ^ 24 * nbytes v
  else mantissa v `div` 256 + 2 ^ 24 * (nbytes v + 1).

Lemma nbytes_spec v : 0 < v → 0 < nbytes v ∧ 256 ^ (nbytes v - 1) <= v < 256 ^ nbytes v.
Proof.
  intros Hv. destruct (nbits_spec v Hv) as (Hp & H1 & H2). unfold nbytes.
  pose proof (Z.div_mod (nbits v + 7) 8) as Hd. pose proof (Z.mod_pos_bound (nbits v + 7) 8) as Hm.
  set (n := (nbits v + 7) `div` 8) in *. assert (0 < n) by lia. split; [done|]. rewrite !pow256 by lia. split.
  - etransitivity; [|exact H1]. apply Z.pow_le_mono_r; lia.
  - eapply Z.lt_le_trans; [exact H2|]. apply Z.pow_le_mono_r; lia.
Qed.
Lemma nbytes_unique v n : 0 < n → 256 ^ (n - 1) <= v < 256 ^ n → nbytes v = n.
Proof.
  intros Hn [H1 H2]. assert (0 < 256 ^ (n - 1)) by (apply Z.pow_pos_nonneg; lia).
  destruct (nbytes_spec v ltac:(lia)) as (Hp & L1 & L2).
  destruct (Z.lt_trichotomy (nbytes v) n) as [Hlt|[|Hgt]]; [|done|]; exfalso.
  - assert (256 ^ nbytes v <= 256 ^ (n - 1)) by (apply Z.pow_le_mono_r; lia). lia.
  - assert (256 ^ n <= 256 ^ (nbytes v - 1)) by (apply Z.pow_le_mono_r; lia). lia.
Qed.
Lemma nbytes_0 : nbytes 0 = 0.
Proof. done. Qed.
Lemma nbytes_256 v : 0 <= v < 2 ^ 256 → 0 <= nbytes v <= 32.
Proof.
  intros Hv. destruct (decide (v = 0)) as [->|]; [by rewrite nbytes_0|].
  destruct (nbytes_spec v ltac:(lia)) as (Hp & L1 & L2). split; [lia|].
  destruct (Z.le_gt_cases (nbytes v) 32); [done|exfalso].
  assert (256 ^ 32 <= 256 ^ (nbytes v - 1)) by (apply Z.pow_le_mono_r; lia). change (256 ^ 32) with (2 ^ 256) in *. lia.
Qed.

Lemma mantissa_range v : 0 < v → 2 ^ 16 <= mantissa v < 2 ^ 24.
Proof.
  intros Hv. destruct (nbytes_spec v Hv) as (Hp & L1 & L2). unfold mantissa. set (n := nbytes v) in *.
  destruct (Z.leb_spec n 3) as [Hle|Hgt].
  - assert (0 < 256 ^ (3 - n)) by (apply Z.pow_pos_nonneg; lia).
    assert (256 ^ (n - 1) * 256 ^ (3 - n) = 2 ^ 16) as E1
      by (rewrite <-Z.pow_add_r by lia; replace (n - 1 + (3 - n)) with 2 by lia; done).
    assert (256 ^ n * 256 ^ (3 - n) = 2 ^ 24) as E2
      by (rewrite <-Z.pow_add_r by lia; replace (n + (3 - n)) with 3 by lia; done). nia.
  - assert (0 < 256 ^ (n - 3)) by (apply Z.pow_pos_nonneg; lia). split.
    + apply Z.div_le_lower_bound; [done|]. etransitivity; [|exact L1]. change (2 ^ 16) with (256 ^ 2).
      rewrite <-Z.pow_add_r by lia. apply Z.pow_le_mono_r; lia.
    + apply Z.div_lt_upper_bound; [done|]. eapply Z.lt_le_trans; [exact L2|]. change (2 ^ 24) with (256 ^ 3).
      rewrite <-Z.pow_add_r by lia. apply Z.pow_le_mono_r; lia.
Qed.
Lemma mantissa_0 : mantissa 0 = 0.
Proof. done. Qed.

Lemma GetLow64_spec a : wf_arith a → GetLow64 a = val a `mod` 2 ^ 64.
Proof.
  intros [Wa La]. destruct a as [|x [|y a]]; [done|done|]. unfold GetLow64.
  change (limb (x :: y :: a) 1) with y. change (limb (x :: y :: a) 0) with x. cbn [limbs_val].
  rewrite !Forall_cons in Wa. destruct Wa as ([Hx Hx'] & [Hy Hy'] & Wa).
  replace (x + 2 ^ 32 * (y + 2 ^ 32 * val a)) with (x + 2 ^ 32 * y + val a * 2 ^ 64) by lia.
  rewrite Z_mod_plus_full, Z.mod_small by lia.
  pose proof (limbs_testbit [x; y]) as _. rewrite Z.shiftl_mul_pow2 by lia.
  rewrite <-Z.lxor_lor, <-Z.add_nocarry_lxor; [lia|..];
    (apply Z.bits_inj'; intros i Hi; rewrite Z.land_spec, Z.testbit_0_l, <-Z.shiftl_mul_pow2, Z.shiftl_spec by lia;
     destruct (Z.lt_ge_cases i 32);
     [rewrite (Z.testbit_neg_r y) by lia; apply andb_false_r
     |by rewrite (in_width_testbit 32 x) by (unfold in_width; lia)]).
Qed.

Lemma or_compact m n : 0 <= m < 2 ^ 24 → 0 <= n → Z.lor m (n ≪ 24) = m + 2 ^ 24 * n.
Proof.
  intros Hm Hn. rewrite Z.shiftl_mul_pow2 by lia. rewrite <-Z.lxor_lor, <-Z.add_nocarry_lxor; [lia|..];
    (apply Z.bits_inj'; intros i Hi; rewrite Z.land_spec, Z.testbit_0_l, <-Z.shiftl_mul_pow2, Z.shiftl_spec by lia;
     destruct (Z.lt_ge_cases i 24);
     [rewrite (Z.testbit_neg_r n) by lia; apply andb_false_r
     |by rewrite (in_width_testbit 24 m) by (unfold in_width; lia)]).
Qed.

Lemma GetCompact_spec a : wf_arith a → GetCompact a false = Some (compact_of (val a)).
Proof.
  intros Ha. pose proof (val_range a Ha) as Hr. pose proof (nbytes_256 _ Hr) as Hn.
  unfold GetCompact. rewrite bits_spec by done. fold (nbytes (val a)).
  assert (0 <= mantissa (val a) < 2 ^ 24) as Hm.
  { destruct (decide (val a = 0)) as [->|]; [rewrite mantissa_0; lia|]. pose proof (mantissa_range (val a)). lia. }
  set (nc := if nbytes (val a) <=? 3 then _ else _).
  assert (nc = mantissa (val a)) as ->.
  { unfold nc. clear nc. revert Hm. unfold mantissa. destruct (Z.leb_spec (nbytes (val a)) 3) as [Hle|Hgt]; intros Hm.
    - rewrite GetLow64_spec by done. rewrite Z.shiftl_mul_pow2, <-pow256 by lia.
      assert (val a < 2 ^ 24) as Hsmall.
      { destruct (decide (val a = 0)) as [->|]; [done|]. destruct (nbytes_spec (val a) ltac:(lia)) as (_ & _ & L).
        eapply Z.lt_le_trans; [exact L|]. change (2 ^ 24) with (256 ^ 3). apply Z.pow_le_mono_r; lia. }
      rewrite (Z.mod_small (val a)) by lia. rewrite u64_id, u32_id by (unfold in_width; lia). done.
    - destruct (op_shr_spec a (8 * (nbytes (val a) - 3)) Ha ltac:(lia)) as [W V].
      rewrite GetLow64_spec, V, <-pow256 by (done || lia). rewrite Z.mod_small by lia.
      rewrite u32_id by (unfold in_width; lia). done. }
  change 0x00800000 with (1 ≪ 23). rewrite land_bit, negb_involutive by lia.
  assert (∀ m n, 0 <= m < 2 ^ 23 → 0 <= n < 256 →
    (if negb (Z.land m (u32 (Z.lnot 0x007fffff)) =? 0) || negb (n <? 256) then None else
      Some (Z.lor (Z.lor m (n ≪ 24)) (if false && negb (Z.land (Z.lor m (n ≪ 24)) 0x007fffff =? 0) then 1 ≪ 23 else 0)))
    = Some (m + 2 ^ 24 * n)) as Hfin.
  { intros m n H1 H2. assert (Z.land m (u32 (Z.lnot 0x007fffff)) = 0) as ->.
    { change (u32 (Z.lnot 0x007fffff)) with (511 ≪ 23). apply Z.bits_inj'. intros i Hi.
      rewrite Z.land_spec, Z.shiftl_spec, Z.testbit_0_l by lia. destruct (Z.lt_ge_cases i 23).
      - rewrite (Z.testbit_neg_r 511) by lia. apply andb_false_r.
      - by rewrite (in_width_testbit 23 m) by (unfold in_width; lia). }
    destruct (Z.ltb_spec n 256); [|lia]. cbn [Z.eqb negb orb andb]. rewrite Z.lor_0_r, or_compact by lia. done. }
  unfold compact_of. destruct (Z.ltb_spec (mantissa (val a)) (2 ^ 23)) as [Hlt|Hge].
  - rewrite (in_width_testbit 23) by (unfold in_width; lia). cbn [negb]. apply Hfin; lia.
  - assert (Z.testbit (mantissa (val a)) 23 = true) as ->.
    { rewrite <-(Z.log2_unique (mantissa (val a)) 23) by lia. apply Z.bit_log2. lia. }
    cbn [negb]. rewrite Z.shiftr_div_pow2 by lia. change (2 ^ 8) with 256. apply Hfin; [|lia].
    split; [apply Z.div_pos; lia|apply Z.div_lt_upper_bound; lia].
Qed.

(** ** Precision and normal form *)
Lemma compact_of_decomp v : 0 < v < 2 ^ 256 → ∃ m e,
  compact_of v = m + 2 ^ 24 * e ∧ 2 ^ 15 <= m < 2 ^ 23 ∧ 1 <= e <= 33 ∧
  (e <= 3 → m = v * 256 ^ (3 - e)) ∧ (3 < e → m = v `div` 256 ^ (e - 3)).
Proof.
  intros Hv. pose proof (mantissa_range v ltac:(lia)) as Hm. pose proof (nbytes_256 v ltac:(lia)) as Hn.
  destruct (nbytes_spec v ltac:(lia)) as (Hp & _ & _). unfold compact_of.
  destruct (Z.ltb_spec (mantissa v) (2 ^ 23)) as [Hlt|Hge].
  - exists (mantissa v), (nbytes v). split_and!; try lia; intros He; unfold mantissa; by zif.
  - exists (mantissa v `div` 256), (nbytes v + 1). split_and!; try lia.
    + apply Z.div_le_lower_bound; lia.
    + apply Z.div_lt_upper_bound; lia.
    + intros He. unfold mantissa. zif. replace (3 - nbytes v) with (3 - (nbytes v + 1) + 1) by lia.
      rewrite Z.pow_add_r, Z.pow_1_r, Z.mul_assoc by lia. by rewrite Z.div_mul.
    + intros He. unfold mantissa. replace (nbytes v + 1 - 3) with (nbytes v - 3 + 1) by lia.
      rewrite Z.pow_add_r, Z.pow_1_r by lia. destruct (Z.leb_spec (nbytes v) 3).
      * assert (nbytes v = 3) as -> by lia. by rewrite Z.mul_1_r.
      * rewrite Z.div_div; [done|..]; [pose proof (pow256_pos (nbytes v - 3)); lia|lia].
Qed.

Lemma cp_parts m e : 0 <= m < 2 ^ 23 → 0 <= e < 256 →
  cp_size (m + 2 ^ 24 * e) = e ∧ cp_word (m + 2 ^ 24 * e) = m ∧ is_u32 (m + 2 ^ 24 * e) ∧
  Z.testbit (m + 2 ^ 24 * e) 23 = false.
Proof.
  intros Hm He. unfold cp_size, cp_word. split_and!.
  - rewrite Z.mul_comm, Z.div_add, Z.div_small by lia. lia.
  - replace (m + 2 ^ 24 * e) with (m + (2 * e) * 2 ^ 23) by lia. rewrite Z_mod_plus_full. by apply Z.mod_small.
  - unfold in_width. lia.
  - rewrite <-or_compact by lia. rewrite Z.lor_spec, Z.shiftl_spec by lia.
    rewrite (in_width_testbit 23 m) by (unfold in_width; lia). by rewrite Z.testbit_neg_r by lia.
Qed.

(** What survives the encoding. *)
Lemma compact_val_of v : 0 <= v < 2 ^ 256 →
  compact_val (compact_of v) <= v ∧ (v - compact_val (compact_of v)) * 2 ^ 15 <= v ∧
  0 <= compact_val (compact_of v) ∧ is_u32 (compact_of v) ∧ Z.testbit (compact_of v) 23 = false ∧
  (0 < v → 0 < compact_val (compact_of v)).
Proof.
  intros Hv. destruct (decide (v = 0)) as [->|Hne]; [by vm_compute|].
  destruct (compact_of_decomp v ltac:(lia)) as (m & e & -> & Hm & He & H3 & H4).
  destruct (cp_parts m e ltac:(lia) ltac:(lia)) as (E1 & E2 & E3 & E4). unfold compact_val. rewrite E1, E2.
  destruct (Z.leb_spec e 3) as [Hle|Hgt].
  - assert (m `div` 256 ^ (3 - e) = v) as -> by (rewrite (H3 Hle); apply Z.div_mul; pose proof (pow256_pos (3 - e)); lia).
    split_and!; try done; lia.
  - assert (0 < 256 ^ (e - 3)) as Hp by (pose proof (pow256_pos (e - 3)); lia).
    specialize (H4 Hgt). pose proof (Z.div_mod v (256 ^ (e - 3))) as Hd. pose proof (Z.mod_pos_bound v (256 ^ (e - 3)) Hp).
    rewrite <-H4 in Hd. split_and!; try done; nia.
Qed.

(** Encoding what was decoded from a normal form gives it back. *)
Lemma compact_of_val v : 0 <= v < 2 ^ 256 → compact_of (compact_val (compact_of v)) = compact_of v.
Proof.
  intros Hv. destruct (decide (v = 0)) as [->|Hne]; [by vm_compute|].
  destruct (compact_of_decomp v ltac:(lia)) as (m & e & E & Hm & He & H3 & H4).
  destruct (cp_parts m e ltac:(lia) ltac:(lia)) as (E1 & E2 & _). rewrite E at 1. unfold compact_val. rewrite E1, E2.
  destruct (Z.leb_spec e 3) as [Hle|Hgt].
  { by rewrite (H3 Hle), Z.div_mul by (pose proof (pow256_pos (3 - e)); lia). }
  rewrite E. clear E E1 E2 H3 H4. assert (0 < 256 ^ (e - 3)) as Hp by (pose proof (pow256_pos (e - 3)); lia).
  set (r := m * 256 ^ (e - 3)). destruct (Z.lt_ge_cases m (2 ^ 16)) as [Hlt|Hge].
  - assert (nbytes r = e - 1) as En.
    { apply nbytes_unique; [lia|]. unfold r. replace (e - 1 - 1) with (1 + (e - 3)) by lia.
      replace (e - 1) with (2 + (e - 3)) by lia. rewrite !Z.pow_add_r by lia. change (256 ^ 1) with 256. change (256 ^ 2) with (2 ^ 16). nia. }
    assert (mantissa r = m * 256) as Em.
    { unfold mantissa. rewrite En. unfold r. destruct (Z.leb_spec (e - 1) 3).
      - assert (e = 4) as -> by lia. change (256 ^ (3 - (4 - 1))) with 1. change (256 ^ (4 - 3)) with 256. lia.
      - replace (e - 3) with (1 + (e - 1 - 3)) by lia. rewrite Z.pow_add_r by lia. change (256 ^ 1) with 256.
        rewrite Z.mul_assoc, Z.div_mul; [done|]. pose proof (pow256_pos (e - 1 - 3)). lia. }
    unfold compact_of. rewrite Em, En. destruct (Z.ltb_spec (m * 256) (2 ^ 23)); [lia|].
    rewrite Z.div_mul by lia. lia.
  - assert (nbytes r = e) as En.
    { apply nbytes_unique; [lia|]. unfold r. replace (e - 1) with (2 + (e - 3)) by lia.
      replace (256 ^ e) with (256 ^ (3 + (e - 3))) by (f_equal; lia).
      rewrite !Z.pow_add_r by lia. change (256 ^ 2) with (2 ^ 16). change (256 ^ 3) with (2 ^ 24). nia. }
    assert (mantissa r = m) as Em.
    { unfold mantissa. rewrite En. zif. unfold r. apply Z.div_mul. lia. }
    unfold compact_of. rewrite Em, En. by destruct (Z.ltb_spec m (2 ^ 23)); [|lia].
Qed.

(** ** Statements *)

(** C27: [SetCompact] decodes exactly.  The value it leaves is the number
    [mantissa * 256^(exponent - 3)] modulo [2^256]; the overflow flag is raised
    exactly when that number does not fit in 256 bits, and the negative flag
    exactly when the sign bit is set and the number is not zero. *)
Theorem SetCompact_exact c : is_u32 c →
  wf_arith (cp_value (SetCompact c)) ∧
  (cp_overflow (SetCompact c) = true ↔ 2 ^ 256 <= compact_val c) ∧
  (cp_overflow (SetCompact c) = false → limbs_val (cp_value (SetCompact c)) = compact_val c) ∧
  (cp_negative (SetCompact c) = true ↔ compact_val c ≠ 0 ∧ Z.testbit c 23 = true).
Proof.
  intros Hc. destruct (SetCompact_spec c Hc) as (W & V & O & N). rewrite O, N. split_and!; [done|apply Z.leb_le| |].
  - intros Hlt. apply Z.leb_gt in Hlt. rewrite V. apply Z.mod_small. split; [apply compact_val_nonneg|done].
  - rewrite andb_true_iff, negb_true_iff, Z.eqb_neq. done.
Qed.
Lemma SetCompact_exact_witness :
  limbs_val (cp_value (SetCompact 0x1b0404cb)) = 0x404cb * 256 ^ 24 ∧ cp_overflow (SetCompact 0xff123456) = true.
Proof.
  split.
  - apply (SetCompact_exact 0x1b0404cb); [split; [lia|reflexivity]|reflexivity].
  - apply (SetCompact_exact 0xff123456); [split; [lia|reflexivity]|]. vm_compute. congruence.
Defined.

(** C28: [GetCompact] never fails an assertion on a 256-bit number; decoding its
    result gives a number that is not larger, that differs from it by less than
    one part in [2^15], with neither flag raised; and encoding that number
    again gives the same bits, so the encoding is a normal form. *)
Theorem GetCompact_precise a : wf_arith a →
  ∃ c, GetCompact a false = Some c ∧ is_u32 c ∧
    let r := SetCompact c in
    cp_negative r = false ∧ cp_overflow r = false ∧
    limbs_val (cp_value r) <= limbs_val a ∧
    (limbs_val a - limbs_val (cp_value r)) * 2 ^ 15 <= limbs_val a ∧
    GetCompact (cp_value r) false = Some c.
Proof.
  intros Ha. pose proof (val_range a Ha) as Hr. exists (compact_of (val a)).
  destruct (compact_val_of (val a) Hr) as (H1 & H2 & H3 & H4 & H5 & _).
  destruct (SetCompact_spec _ H4) as (W & V & O & N). rewrite Z.mod_small in V by lia.
  split; [by apply GetCompact_spec|]. split; [done|]. cbv zeta.
  split_and!; [| |by rewrite V|by rewrite V|].
  - by rewrite N, H5, andb_false_r.
  - rewrite O. apply Z.leb_gt. lia.
  - rewrite GetCompact_spec, V by done. f_equal. by apply compact_of_val.
Qed.
Lemma GetCompact_precise_witness :
  GetCompact (op_shl (base_uint_u64 0x1234567) 200) false = Some 0x1d012345 ∧
  limbs_val (cp_value (SetCompact 0x1d012345)) <= limbs_val (op_shl (base_uint_u64 0x1234567) 200).
Proof.
  destruct (GetCompact_precise (op_shl (base_uint_u64 0x1234567) 200)) as (c & E & _ & _ & _ & H & _).
  - exact (proj1 (op_shl_spec (base_uint_u64 0x1234567) 200 (wf_base_uint_u64 _) ltac:(lia))).
  - assert (c = 0x1d012345) as -> by (vm_compute in E; congruence). split; [exact E|exact H].
Defined.

(** C26: the operators of [arith_uint256] compute modulo [2^256] on well-formed
    numbers, and keep them well-formed: negation and complement, addition and
    subtraction of numbers and of 64-bit words, multiplication by numbers and
    by 32-bit words, shifts, increment and decrement, and the bitwise
    operators with numbers and with 64-bit words.  Division fails exactly for a
    zero divisor and else gives the quotient; the comparisons with numbers and
    with 64-bit words are those of the values, [bits] is the bit length and
    [GetLow64] the value modulo [2^64]. *)
Theorem arith_uint256_correct a b k n w : wf_arith a → wf_arith b → is_u32 k → 0 <= n → is_u64 w →
  let ok r v := wf_arith r ∧ limbs_val r = v `mod` 2 ^ 256 in
  ok (op_add a b) (val a + val b) ∧ ok (op_sub a b) (val a - val b) ∧
  ok (op_add_u64 a w) (val a + w) ∧ ok (op_sub_u64 a w) (val a - w) ∧
  ok (op_neg a) (- val a) ∧ ok (op_not a) (Z.lnot (val a)) ∧
  ok (op_xor a b) (Z.lxor (val a) (val b)) ∧ ok (op_and a b) (Z.land (val a) (val b)) ∧ ok (op_or a b) (Z.lor (val a) (val b)) ∧
  ok (op_xor_u64 a w) (Z.lxor (val a) w) ∧ ok (op_or_u64 a w) (Z.lor (val a) w) ∧
  ok (op_mul a b) (val a * val b) ∧ ok (op_mul32 a k) (val a * k) ∧
  ok (op_shl a n) (val a * 2 ^ n) ∧ ok (op_shr a n) (val a `div` 2 ^ n) ∧
  ok (op_incr a) (val a + 1) ∧ ok (op_decr a) (val a - 1) ∧
  (op_div a b = None ↔ val b = 0) ∧ (∀ q, op_div a b = Some q → ok q (val a `div` val b)) ∧
  (op_gt a b = true ↔ val b < val a) ∧ (op_ge a b = true ↔ val b <= val a) ∧
  (op_lt a b = true ↔ val a < val b) ∧ (op_le a b = true ↔ val a <= val b) ∧
  (op_eq a b = true ↔ val a = val b) ∧ (EqualTo a w = true ↔ val a = w) ∧
  GetLow64 a = val a `mod` 2 ^ 64 ∧ bits a = (if val a =? 0 then 0 else Z.log2 (val a) + 1).
Proof.
  intros Ha Hb Hk Hn Hw ok. pose proof (wf_base_uint_u64 w) as Ww. pose proof (val_base_uint_u64 w Hw) as Vw. pose proof (val_range a Ha) as Ra. pose proof (val_range b Hb) as Rb.
  assert (∀ v d, 0 <= v < 2 ^ 256 → 0 < d → (v `div` d) `mod` 2 ^ 256 = v `div` d) as Hdiv.
  { intros v d Hv Hd. apply Z.mod_small. split; [apply Z.div_pos; lia|]. apply Z.div_lt_upper_bound; [done|]. nia. }
  destruct (op_incr_spec a (proj1 Ha)) as (Wi & Li & Vi). destruct (op_decr_spec a (proj1 Ha)) as (Wd & Ld & Vd).
  rewrite (modulus_wf a Ha) in Vi, Vd.
  assert (∀ op r v, wf_arith r ∧ val r = op → op = v → ok r v) as Hbits.
  { intros op r v [W V] <-. split; [exact W|]. rewrite <- V. symmetry. apply Z.mod_small. by apply val_range. }
  split; [exact (op_add_spec a b Ha Hb)|]. split; [exact (op_sub_spec a b Ha Hb)|].
  pose proof (op_add_spec a _ Ha Ww) as Hadd. pose proof (op_sub_spec a _ Ha Ww) as Hsub. rewrite Vw in Hadd, Hsub.
  split; [exact Hadd|]. split; [exact Hsub|].
  split; [exact (op_neg_mod a Ha)|]. split; [exact (op_not_mod a Ha)|].
  split; [exact (Hbits _ _ _ (op_xor_spec a b Ha Hb) eq_refl)|]. split; [exact (Hbits _ _ _ (op_and_spec a b Ha Hb) eq_refl)|].
  split; [exact (Hbits _ _ _ (op_or_spec a b Ha Hb) eq_refl)|].
  split; [unfold op_xor_u64; rewrite low_words_spec by (done || apply Z.lxor_0_r); exact (Hbits _ _ _ (op_xor_spec a _ Ha Ww) ltac:(by rewrite Vw))|].
  split; [unfold op_or_u64; rewrite low_words_spec by (done || apply Z.lor_0_r); exact (Hbits _ _ _ (op_or_spec a _ Ha Ww) ltac:(by rewrite Vw))|].
  split; [exact (op_mul_spec a b Ha Hb)|]. split; [exact (op_mul32_spec a k Ha Hk)|].
  split; [exact (op_shl_spec a n Ha Hn)|]. split.
  { destruct (op_shr_spec a n Ha Hn) as [W V]. split; [exact W|]. rewrite V. symmetry.
    apply Hdiv; [exact Ra|apply Z.pow_pos_nonneg; lia]. }
  split; [split; [split; [exact Wi|rewrite Li; apply Ha]|exact Vi]|].
  split; [split; [split; [exact Wd|rewrite Ld; apply Ha]|exact Vd]|].
  assert (val b = 0 → op_div a b = None) as H0.
  { intros E0. unfold op_div. rewrite (bits_spec b Hb), E0. reflexivity. }
  split.
  { split; [|exact H0]. intros HN. destruct (decide (val b = 0)) as [E0|Hne]; [exact E0|].
    destruct (op_div_spec a b Ha Hb Hne) as (q & E & _). congruence. }
  split.
  { intros q Hq. destruct (decide (val b = 0)) as [E0|Hne]; [rewrite (H0 E0) in Hq; discriminate|].
    destruct (op_div_spec a b Ha Hb Hne) as (q' & E & W & V). assert (q' = q) as -> by congruence.
    split; [exact W|]. rewrite V. symmetry. apply Hdiv; [exact Ra|lia]. }
  split; [rewrite op_gt_spec by assumption; apply Z.ltb_lt|].
  split; [rewrite op_ge_spec by assumption; apply Z.leb_le|].
  split; [rewrite op_lt_spec by assumption; apply Z.ltb_lt|]. split; [rewrite op_le_spec by assumption; apply Z.leb_le|].
  split; [by apply op_eq_spec|]. split; [rewrite EqualTo_spec by assumption; apply Z.eqb_eq|].
  split; [exact (GetLow64_spec a Ha)|exact (bits_spec a Ha)].
Qed.
Lemma arith_uint256_correct_witness :
  limbs_val (op_mul (op_shl (base_uint_u64 7) 200) (op_shl (base_uint_u64 5) 50)) = 35 * 2 ^ 250 ∧
  op_div (base_uint_u64 7) base_uint_zero = None.
Proof.
  assert (∀ v n, is_u64 v → 0 <= n → wf_arith (op_shl (base_uint_u64 v) n)) as W.
  { intros v n _ Hn. exact (proj1 (op_shl_spec (base_uint_u64 v) n (wf_base_uint_u64 v) Hn)). }
  split.
  - destruct (arith_uint256_correct (op_shl (base_uint_u64 7) 200) (op_shl (base_uint_u64 5) 50) 0 0 0)
      as (_ & _ & _ & _ & _ & _ & _ & _ & _ & _ & _ & H & _); [apply W; [done|lia]|apply W; [done|lia]|done|lia|done|]. rewrite (proj2 H). reflexivity.
  - destruct (arith_uint256_correct (base_uint_u64 7) base_uint_zero 0 0 0) as (_ & _ & _ & _ & _ & _ & _ & _ & _ & _ & _ & _ & _ & _ & _ & _ & _ & H & _);
      [apply wf_base_uint_u64|apply wf_zero|done|lia|done|]. apply H. reflexivity.
Defined.
