(* ===== verification/Params.v ===== *)
(** * Consensus parameters

    The scalar fields of [Consensus::Params] ([src/src/consensus/params.h]), the
    functions of the structure, and the values [CMainParams] and
    [CTestNetParams] give them ([src/src/chainparams.cpp]).  [powLimit] is the
    byte string of the [uint256]; the other hashes, the deployments and the
    quorum tables are left out. *)
From S2P Require Import Prelude.
Local Open Scope Z_scope.

Definition COIN : Z := 100000000.

Record Consensus_Params := mkConsensus {
  nMaxMoney : Z; nSubsidyHalvingInterval : Z; nMasternodePaymentsStartBlock : Z;
  nMasternodePaymentsIncreaseBlock : Z; nMasternodePaymentsIncreasePeriod : Z;
  nInstantSendConfirmationsRequired : Z; nInstantSendKeepLock : Z; nBudgetPaymentsStartBlock : Z;
  nBudgetPaymentsCycleBlocks : Z; nBudgetPaymentsWindowBlocks : Z; nSuperblockStartBlock : Z;
  nSuperblockCycle : Z; nSuperblockMaturityWindow : Z; nGovernanceMinQuorum : Z;
  nGovernanceFilterElements : Z; nMasternodeMinimumConfirmations : Z; BIP34Height : Z; BIP65Height : Z;
  BIP66Height : Z; BIP147Height : Z; CSVHeight : Z; DIP0001Height : Z; DIP0003Height : Z;
  DIP0003EnforcementHeight : Z; DIP0008Height : Z; BRRHeight : Z; nBRRFixHeight : Z; DIP0020Height : Z;
  DIP0024Height : Z; DIP0024QuorumsHeight : Z; V19Height : Z; V20Height : Z; MN_RRHeight : Z;
  nKSHv014Height : Z; nKorshEvoActivationHeight : Z; nKSHv030Height : Z; nKSHShieldHeight : Z;
  nKSHv040Height : Z; nKSHv040HalvingInterval : Z; nKSHv040PowTargetSpacing : Z; nKSHv040SuperblockCycle : Z;
  nKSHv005ForkHeight : Z; WithdrawalsHeight : Z; MinBIP9WarningHeight : Z; nRuleChangeActivationThreshold : Z;
  nMinerConfirmationWindow : Z; powLimit : list Z; fPowAllowMinDifficultyBlocks : bool;
  fPowNoRetargeting : bool; nPowTargetSpacing : Z; nPowTargetTimespan : Z; nPowKGWHeight : Z;
  nPowDGWHeight : Z; nMinimumDifficultyBlocks : Z; nHighSubsidyBlocks : Z; nHighSubsidyFactor : Z
}.

Definition DifficultyAdjustmentInterval (P : Consensus_Params) : Z := nPowTargetTimespan P `quot` nPowTargetSpacing P.
Definition IsKSHv040Active (P : Consensus_Params) (nHeight : Z) : bool := nKSHv040Height P <=? nHeight.
Definition SubsidyHalvingInterval (P : Consensus_Params) (nHeight : Z) : Z :=
  if IsKSHv040Active P nHeight then nKSHv040HalvingInterval P else nSubsidyHalvingInterval P.
Definition PowTargetSpacing (P : Consensus_Params) (nHeight : Z) : Z :=
  if IsKSHv040Active P nHeight then nKSHv040PowTargetSpacing P else nPowTargetSpacing P.
Definition SuperblockCycle (P : Consensus_Params) (nHeight : Z) : Z :=
  if IsKSHv040Active P nHeight then nKSHv040SuperblockCycle P else nSuperblockCycle P.
Definition SuperblockBudgetCycle (P : Consensus_Params) (nHeight : Z) : Z :=
  if nKSHv040Height P <? nHeight then nKSHv040SuperblockCycle P else nSuperblockCycle P.

(** [00ffffffff000...000], the limit of both public networks. *)
Definition public_powLimit : list Z := replicate 27 0 ++ replicate 4 255 ++ [0].

Definition main_params : Consensus_Params := {|
  nMaxMoney := 10000000 * COIN; nSubsidyHalvingInterval := 2500000; nMasternodePaymentsStartBlock := 2;
  nMasternodePaymentsIncreaseBlock := 999999999; nMasternodePaymentsIncreasePeriod := 262800;
  nInstantSendConfirmationsRequired := 2; nInstantSendKeepLock := 24; nBudgetPaymentsStartBlock := 999999999;
  nBudgetPaymentsCycleBlocks := 21600; nBudgetPaymentsWindowBlocks := 100; nSuperblockStartBlock := 999999999;
  nSuperblockCycle := 21600; nSuperblockMaturityWindow := 1662; nGovernanceMinQuorum := 2;
  nGovernanceFilterElements := 15000; nMasternodeMinimumConfirmations := 15; BIP34Height := 0;
  BIP65Height := 0; BIP66Height := 0; BIP147Height := 0; CSVHeight := 0; DIP0001Height := 2;
  DIP0003Height := 2; DIP0003EnforcementHeight := 50; DIP0008Height := 999999999; BRRHeight := 999999999;
  nBRRFixHeight := 999999999; DIP0020Height := 999999999; DIP0024Height := 999999999;
  DIP0024QuorumsHeight := 999999999; V19Height := 14000; V20Height := 999999999; MN_RRHeight := 999999999;
  nKSHv014Height := 1; nKorshEvoActivationHeight := 999999999; nKSHv030Height := 999999999;
  nKSHShieldHeight := 999999999; nKSHv040Height := 999999999; nKSHv040HalvingInterval := 1000000;
  nKSHv040PowTargetSpacing := 60; nKSHv040SuperblockCycle := 10800; nKSHv005ForkHeight := 999999999;
  WithdrawalsHeight := 999999999; MinBIP9WarningHeight := 0; nRuleChangeActivationThreshold := 54;
  nMinerConfirmationWindow := 60; powLimit := public_powLimit; fPowAllowMinDifficultyBlocks := false;
  fPowNoRetargeting := false; nPowTargetSpacing := 60; nPowTargetTimespan := 60 * 60; nPowKGWHeight := 0;
  nPowDGWHeight := 0; nMinimumDifficultyBlocks := 0; nHighSubsidyBlocks := 0; nHighSubsidyFactor := 1
|}.

Definition testnet_params : Consensus_Params := {|
  nMaxMoney := 10000000 * COIN; nSubsidyHalvingInterval := 1030596; nMasternodePaymentsStartBlock := 50;
  nMasternodePaymentsIncreaseBlock := 101; nMasternodePaymentsIncreasePeriod := 262800;
  nInstantSendConfirmationsRequired := 2; nInstantSendKeepLock := 6; nBudgetPaymentsStartBlock := 27600;
  nBudgetPaymentsCycleBlocks := 21600; nBudgetPaymentsWindowBlocks := 10; nSuperblockStartBlock := 27700;
  nSuperblockCycle := 21600; nSuperblockMaturityWindow := 1662; nGovernanceMinQuorum := 1;
  nGovernanceFilterElements := 500; nMasternodeMinimumConfirmations := 1; BIP34Height := 0; BIP65Height := 0;
  BIP66Height := 0; BIP147Height := 0; CSVHeight := 0; DIP0001Height := 2; DIP0003Height := 2;
  DIP0003EnforcementHeight := 50; DIP0008Height := 2; BRRHeight := 20000; nBRRFixHeight := 27700;
  DIP0020Height := 20000; DIP0024Height := 20000; DIP0024QuorumsHeight := 20000; V19Height := 20000;
  V20Height := 20000; MN_RRHeight := 999999999; nKSHv014Height := 40000;
  nKorshEvoActivationHeight := 999999999; nKSHv030Height := 90000; nKSHShieldHeight := 999999999;
  nKSHv040Height := 172800; nKSHv040HalvingInterval := 1000000; nKSHv040PowTargetSpacing := 120;
  nKSHv040SuperblockCycle := 10800; nKSHv005ForkHeight := 1; WithdrawalsHeight := 999999999;
  MinBIP9WarningHeight := 0; nRuleChangeActivationThreshold := 54; nMinerConfirmationWindow := 60;
  powLimit := public_powLimit; fPowAllowMinDifficultyBlocks := true; fPowNoRetargeting := false;
  nPowTargetSpacing := 60; nPowTargetTimespan := 60 * 60; nPowKGWHeight := 0; nPowDGWHeight := 0;
  nMinimumDifficultyBlocks := 0; nHighSubsidyBlocks := 0; nHighSubsidyFactor := 1
|}.
