(* ===== verification/Chain.v ===== *)
(** * The block tree and the active chain

    [CBlockIndex] and [CChain] of [src/src/chain.h] and [src/src/chain.cpp], and
    [BlockManager::AddToBlockIndex] of [src/src/node/blockstorage.cpp].  The
    block index is a store of entries by block hash; a pointer to an entry is
    the hash it is stored under, and [None] is [nullptr].  A program that would
    dereference a null pointer or fail an assertion has no result. *)
From S2P Require Import Prelude Sysendian Limbs ArithUint Params.
From stdpp Require Import sorting.
Local Open Scope Z_scope.

Abbreviation ptr := Z (only parsing).

Record CBlockIndex := mkIndex {
  pprev : option ptr; pskip : option ptr; nHeight : Z;
  nFile : Z; nDataPos : Z; nUndoPos : Z;
  nChainWork : arith_uint256; nTx : Z; nChainTx : Z; nStatus : Z;
  nVersion : Z; hashMerkleRoot : list Z; nTime : Z; nBits : Z; nNonce : Z;
  nSequenceId : Z; nTimeMax : Z
}.
Abbreviation block_tree := (gmap Z CBlockIndex).

(** Assignments to the members the chain code writes. *)
Definition set_prev (b : CBlockIndex) (p : option ptr) (h : Z) : CBlockIndex :=
  mkIndex p (pskip b) h (nFile b) (nDataPos b) (nUndoPos b) (nChainWork b) (nTx b) (nChainTx b) (nStatus b)
    (nVersion b) (hashMerkleRoot b) (nTime b) (nBits b) (nNonce b) (nSequenceId b) (nTimeMax b).
Definition set_pskip (b : CBlockIndex) (p : option ptr) : CBlockIndex :=
  mkIndex (pprev b) p (nHeight b) (nFile b) (nDataPos b) (nUndoPos b) (nChainWork b) (nTx b) (nChainTx b) (nStatus b)
    (nVersion b) (hashMerkleRoot b) (nTime b) (nBits b) (nNonce b) (nSequenceId b) (nTimeMax b).
Definition set_status (b : CBlockIndex) (s : Z) : CBlockIndex :=
  mkIndex (pprev b) (pskip b) (nHeight b) (nFile b) (nDataPos b) (nUndoPos b) (nChainWork b) (nTx b) (nChainTx b) s
    (nVersion b) (hashMerkleRoot b) (nTime b) (nBits b) (nNonce b) (nSequenceId b) (nTimeMax b).
Definition set_totals (b : CBlockIndex) (tmax : Z) (work : arith_uint256) : CBlockIndex :=
  mkIndex (pprev b) (pskip b) (nHeight b) (nFile b) (nDataPos b) (nUndoPos b) work (nTx b) (nChainTx b) (nStatus b)
    (nVersion b) (hashMerkleRoot b) (nTime b) (nBits b) (nNonce b) (nSequenceId b) tmax.

Definition HaveTxsDownloaded (b : CBlockIndex) : bool := negb (nChainTx b =? 0).
Definition GetBlockTime (b : CBlockIndex) : Z := nTime b.
Definition GetBlockTimeMax (b : CBlockIndex) : Z := nTimeMax b.

(** ** Status *)
Definition BLOCK_VALID_TREE : Z := 2.
Definition BLOCK_VALID_SCRIPTS : Z := 5.
Definition BLOCK_VALID_MASK : Z := 7.
Definition BLOCK_FAILED_MASK : Z := 96.
Definition BLOCK_CONFLICT_CHAINLOCK : Z := 128.
Definition BLOCK_ASSUMED_VALID : Z := 256.

(** [None] is the failing assertion: only validity flags are allowed. *)
Definition IsValid (b : CBlockIndex) (nUpTo : Z) : option bool :=
  if negb (Z.land nUpTo (Z.lnot BLOCK_VALID_MASK) =? 0) then None
  else if negb (Z.land (nStatus b) BLOCK_FAILED_MASK =? 0) then Some false
  else Some (nUpTo <=? Z.land (nStatus b) BLOCK_VALID_MASK).

Definition IsAssumedValid (b : CBlockIndex) : bool := negb (Z.land (nStatus b) BLOCK_ASSUMED_VALID =? 0).

Definition RaiseValidity (b : CBlockIndex) (nUpTo : Z) : option (bool * CBlockIndex) :=
  if negb (Z.land nUpTo (Z.lnot BLOCK_VALID_MASK) =? 0) then None
  else if negb (Z.land (nStatus b) BLOCK_FAILED_MASK =? 0) then Some (false, b)
  else if Z.land (nStatus b) BLOCK_VALID_MASK <? nUpTo then
    let s := if IsAssumedValid b && (BLOCK_VALID_SCRIPTS <=? nUpTo)
             then Z.land (nStatus b) (Z.lnot BLOCK_ASSUMED_VALID) else nStatus b in
    Some (true, set_status b (Z.lor (Z.land s (Z.lnot BLOCK_VALID_MASK)) nUpTo))
  else Some (false, b).

(** ** Ancestors and the skip list *)
Definition InvertLowestOne (n : Z) : Z := Z.land n (n - 1).
Definition GetSkipHeight (height : Z) : Z :=
  if height <? 2 then 0
  else if negb (Z.land height 1 =? 0) then InvertLowestOne (InvertLowestOne (height - 1)) + 1
  else InvertLowestOne height.

Fixpoint GetAncestor_loop (fuel : nat) (t : block_tree) (pindexWalk : ptr) (heightWalk height : Z) : option ptr :=
  match fuel with
  | O => None
  | S fuel =>
      if height <? heightWalk then
        let heightSkip := GetSkipHeight heightWalk in
        let heightSkipPrev := GetSkipHeight (heightWalk - 1) in
        b ← t !! pindexWalk;
        match pskip b with
        | Some q =>
            if (heightSkip =? height)
               || ((height <? heightSkip) && negb ((heightSkipPrev <? heightSkip - 2) && (height <=? heightSkipPrev)))
            then GetAncestor_loop fuel t q heightSkip height
            else q ← pprev b; GetAncestor_loop fuel t q (heightWalk - 1) height
        | None => q ← pprev b; GetAncestor_loop fuel t q (heightWalk - 1) height
        end
      else Some pindexWalk
  end.

Definition GetAncestor (t : block_tree) (p : ptr) (height : Z) : option (option ptr) :=
  b ← t !! p;
  if (nHeight b <? height) || (height <? 0) then Some None
  else q ← GetAncestor_loop (S (Z.to_nat (nHeight b))) t p (nHeight b) height; Some (Some q).

Definition BuildSkip (t : block_tree) (p : ptr) : option block_tree :=
  b ← t !! p;
  match pprev b with
  | Some q => r ← GetAncestor t q (GetSkipHeight (nHeight b)); Some (<[p := set_pskip b r]> t)
  | None => Some t
  end.

(** [while (pa != pb && pa && pb)]. *)
Fixpoint LastCommonAncestor_loop (fuel : nat) (t : block_tree) (pa pb : option ptr) : option (option ptr * option ptr) :=
  match fuel with
  | O => None
  | S fuel =>
      match pa, pb with
      | Some a, Some b =>
          if decide (a = b) then Some (pa, pb)
          else ba ← t !! a; bb ← t !! b; LastCommonAncestor_loop fuel t (pprev ba) (pprev bb)
      | _, _ => Some (pa, pb)
      end
  end.
Definition LastCommonAncestor (t : block_tree) (pa pb : ptr) : option (option ptr) :=
  ba ← t !! pa; bb ← t !! pb;
  pa' ← (if nHeight bb <? nHeight ba then GetAncestor t pa (nHeight bb) else Some (Some pa));
  pb' ← (if (nHeight ba <? nHeight bb) then GetAncestor t pb (nHeight ba) else Some (Some pb));
  r ← LastCommonAncestor_loop (S (S (Z.to_nat (Z.min (nHeight ba) (nHeight bb))))) t pa' pb';
  if decide (r.1 = r.2) then Some r.1 else None.

(** ** Median time *)
Definition nMedianTimeSpan : nat := 11.
(** The times of the last [k] blocks, the latest first. *)
Fixpoint past_times (k : nat) (t : block_tree) (pindex : option ptr) : option (list Z) :=
  match k, pindex with
  | S k, Some p => b ← t !! p; l ← past_times k t (pprev b); Some (GetBlockTime b :: l)
  | _, _ => Some []
  end.
Definition GetMedianTimePast (t : block_tree) (p : ptr) : option Z :=
  l ← past_times nMedianTimeSpan t (Some p);
  merge_sort Z.le (reverse l) !! (length l / 2)%nat.

(** ** The active chain *)
Abbreviation CChain := (list (option Z)) (only parsing).

Definition Genesis (vChain : CChain) : option ptr := mjoin (vChain !! 0%nat).
Definition Tip (vChain : CChain) : option ptr := mjoin (last vChain).
Definition Height (vChain : CChain) : Z := Z.of_nat (length vChain) - 1.
Definition at_height (vChain : CChain) (h : Z) : option ptr :=
  if (h <? 0) || (Z.of_nat (length vChain) <=? h) then None else mjoin (vChain !! Z.to_nat h).
Definition Contains (t : block_tree) (vChain : CChain) (p : ptr) : option bool :=
  b ← t !! p; Some (bool_decide (at_height vChain (nHeight b) = Some p)).
Definition Next (t : block_tree) (vChain : CChain) (p : ptr) : option (option ptr) :=
  b ← t !! p; c ← Contains t vChain p;
  Some (if c : bool then at_height vChain (nHeight b + 1) else None).

Fixpoint SetTip_loop (fuel : nat) (t : block_tree) (vChain : CChain) (pindex : option ptr) : option CChain :=
  match fuel with
  | O => None
  | S fuel =>
      match pindex with
      | None => Some vChain
      | Some p =>
          b ← t !! p; e ← vChain !! Z.to_nat (nHeight b);
          if decide (e = Some p) then Some vChain
          else SetTip_loop fuel t (<[Z.to_nat (nHeight b) := Some p]> vChain) (pprev b)
      end
  end.
Definition SetTip (t : block_tree) (vChain : CChain) (block : ptr) : option CChain :=
  b ← t !! block;
  let n := Z.to_nat (nHeight b + 1) in
  SetTip_loop (S n) t (resize n None vChain) (Some block).

Fixpoint FindFork_loop (fuel : nat) (t : block_tree) (vChain : CChain) (pindex : option ptr) : option (option ptr) :=
  match fuel with
  | O => None
  | S fuel =>
      match pindex with
      | None => Some None
      | Some p =>
          c ← Contains t vChain p;
          if c : bool then Some (Some p) else b ← t !! p; FindFork_loop fuel t vChain (pprev b)
      end
  end.
Definition FindFork (t : block_tree) (vChain : CChain) (pindex : option ptr) : option (option ptr) :=
  match pindex with
  | None => Some None
  | Some p =>
      b ← t !! p;
      q ← (if Height vChain <? nHeight b then GetAncestor t p (Height vChain) else Some (Some p));
      FindFork_loop (S (S (Z.to_nat (nHeight b)))) t vChain q
  end.

(** The hashes of a block locator; [size] is [vHave.size ()]. *)
Fixpoint GetLocator_loop (fuel : nat) (t : block_tree) (vChain : CChain) (pindex : option ptr) (nStep : Z) (size : nat)
    : option (list ptr) :=
  match fuel with
  | O => None
  | S fuel =>
      match pindex with
      | None => Some []
      | Some p =>
          b ← t !! p;
          if nHeight b =? 0 then Some [p] else
          let h := Z.max (nHeight b - nStep) 0 in
          c ← Contains t vChain p;
          next ← (if c : bool then Some (at_height vChain h) else GetAncestor t p h);
          let size := S size in
          let nStep := if (10 <? size)%nat then nStep * 2 else nStep in
          l ← GetLocator_loop fuel t vChain next nStep size; Some (p :: l)
      end
  end.
Definition GetLocator (t : block_tree) (vChain : CChain) (pindex : option ptr) : option (list ptr) :=
  let p := match pindex with None => Tip vChain | Some p => Some p end in
  match p with
  | None => Some []
  | Some q => b ← t !! q; GetLocator_loop (S (Z.to_nat (nHeight b))) t vChain p 1 0
  end.

(** ** Work *)
Definition GetBlockProof (b : CBlockIndex) : option arith_uint256 :=
  let '(mkCompact bnTarget fNegative fOverflow) := SetCompact (nBits b) in
  if fNegative || fOverflow || EqualTo bnTarget 0 then Some (base_uint_u64 0)
  else q ← op_div (op_not bnTarget) (op_add bnTarget (base_uint_u64 1));
       Some (op_add q (base_uint_u64 1)).

(** [int64_t] is kept: the magnitude is at most [2 ^ 63 - 1].  [None] is the
    exception of a division by zero. *)
Definition GetBlockProofEquivalentTime (to from tip : CBlockIndex) (P : Consensus_Params) : option Z :=
  let '(r, sign) := if op_gt (nChainWork to) (nChainWork from)
                    then (op_sub (nChainWork to) (nChainWork from), 1)
                    else (op_sub (nChainWork from) (nChainWork to), -1) in
  proof ← GetBlockProof tip;
  r ← op_div (op_mul r (base_uint_u64 (u64 (PowTargetSpacing P (nHeight tip))))) proof;
  Some (if 63 <? bits r then sign * (2 ^ 63 - 1) else sign * GetLow64 r).

(** ** Searching the active chain by time

    [std::lower_bound] by halving: the first position in [first, first + len)
    whose entry is not before the key. *)
Fixpoint lower_bound (fuel : nat) (before : nat → option bool) (first len : nat) : option nat :=
  match fuel with
  | O => None
  | S fuel =>
      if (len =? 0)%nat then Some first else
      let half := (len / 2)%nat in
      c ← before (first + half)%nat;
      if c : bool then lower_bound fuel before (first + half + 1) (len - half - 1)
      else lower_bound fuel before first half
  end.
Definition time_before (t : block_tree) (vChain : CChain) (time height : Z) (i : nat) : option bool :=
  e ← vChain !! i; p ← e; b ← t !! p;
  Some ((GetBlockTimeMax b <? time) || (nHeight b <? height)).
Definition FindEarliestAtLeast (t : block_tree) (vChain : CChain) (time height : Z) : option (option ptr) :=
  i ← lower_bound (S (length vChain)) (time_before t vChain time height) 0 (length vChain);
  Some (mjoin (vChain !! i)).

(** ** Adding a header to the index *)
Record CBlockHeader := mkHeader {
  h_nVersion : Z; hashPrevBlock : ptr; h_hashMerkleRoot : list Z; h_nTime : Z; h_nBits : Z; h_nNonce : Z }.
Record BlockManager := mkManager {
  m_block_index : block_tree;
  m_dirty_blockindex : gset ptr;
  m_prev_block_index : list (ptr * ptr);
  best_header : option ptr
}.

(** The header an entry stores; the previous hash is read through [pprev]. *)
Definition GetBlockHeader (b : CBlockIndex) : CBlockHeader :=
  mkHeader (nVersion b) (default 0 (pprev b)) (hashMerkleRoot b) (nTime b) (nBits b) (nNonce b).

Definition new_index (block : CBlockHeader) : CBlockIndex :=
  mkIndex None None 0 0 0 0 (base_uint_u64 0) 0 0 0
    (h_nVersion block) (h_hashMerkleRoot block) (h_nTime block) (h_nBits block) (h_nNonce block) 0 0.

(** The entry after its links, times and work are set.  The entry is in the
    index when its predecessor is looked up. *)
Definition link_index (t : block_tree) (block : CBlockHeader) (hash : ptr) : option CBlockIndex :=
  let b := new_index block in
  b ← match <[hash := b]> t !! hashPrevBlock block with
      | Some prev =>
          t' ← BuildSkip (<[hash := set_prev b (Some (hashPrevBlock block)) (nHeight prev + 1)]> t) hash;
          t' !! hash
      | None => Some b
      end;
  proof ← GetBlockProof b;
  let prev := p ← pprev b; (<[hash := b]> t) !! p in
  let tmax := match prev with Some p => Z.max (nTimeMax p) (nTime b) | None => nTime b end in
  let work := match prev with Some p => nChainWork p | None => base_uint_u64 0 end in
  Some (set_totals b tmax (op_add work proof)).

Definition AddToBlockIndex (bm : BlockManager) (block : CBlockHeader) (hash : ptr) (status : Z)
    : option (BlockManager * ptr) :=
  if negb (Z.land status BLOCK_FAILED_MASK =? 0) then None else
  match m_block_index bm !! hash with
  | Some _ => Some (bm, hash)
  | None =>
      b ← link_index (m_block_index bm) block hash;
      '(b, best) ← (if negb (Z.land status BLOCK_VALID_MASK =? 0) then
             r ← RaiseValidity b status;
             best ← match best_header bm with
                    | None => Some hash
                    | Some h =>
                        bh ← m_block_index bm !! h;
                        Some (if op_gt (nChainWork b) (nChainWork bh) then hash else h)
                    end;
             Some (r.2, Some best)
           else
             r ← RaiseValidity b BLOCK_VALID_TREE;
             Some (set_status r.2 (Z.lor (nStatus r.2) status), best_header bm));
      Some (mkManager (<[hash := b]> (m_block_index bm)) ({[hash]} ∪ m_dirty_blockindex bm)
              (match pprev b with Some p => (p, hash) :: m_prev_block_index bm | None => m_prev_block_index bm end)
              best, hash)
  end.
