(* ===== verification/ChainCorrect.v ===== *)
(** * The block tree: invariant, ancestors and the active chain

    Every entry of the index is linked to its parent, its skip pointer leads to
    the ancestor at [GetSkipHeight] of its height, and its totals are those of
    its parent plus its own.  Under this invariant the walks of [chain.cpp]
    terminate and find what their names say; [AddToBlockIndex] establishes it. *)
From S2P Require Import Prelude Sysendian Limbs ArithUint ArithCorrect Compact Params Chain.
From stdpp Require Import sorting.
Local Open Scope Z_scope.

(** ** Ancestors *)

(** [n] steps along [pprev]. *)
Fixpoint up (n : nat) (t : block_tree) (p : ptr) : option ptr :=
  match n with
  | O => Some p
  | S n => b ← t !! p; q ← pprev b; up n t q
  end.
Definition ancestor (t : block_tree) (q p : ptr) : Prop := ∃ n, up n t p = Some q.

(** A target that is positive and fits, and the expected number of hashes it takes to meet it. *)
Definition target_ok (bits : Z) : bool :=
  negb (Z.testbit bits 23) && (0 <? compact_val bits) && (compact_val bits <? 2 ^ 256).
Definition block_proof (bits : Z) : Z :=
  if target_ok bits then 2 ^ 256 `div` (compact_val bits + 1) else 0.

Record entry_ok (t : block_tree) (p : ptr) (b : CBlockIndex) : Prop := {
  eo_work : wf_arith (nChainWork b);
  eo_time : is_u32 (nTime b);
  eo_bits : is_u32 (nBits b);
  eo_prev : match pprev b with
            | None => nHeight b = 0 ∧ pskip b = None ∧ nTimeMax b = nTime b ∧
                      limbs_val (nChainWork b) = block_proof (nBits b)
            | Some q => ∃ bq, t !! q = Some bq ∧ 0 <= nHeight bq ∧ nHeight b = nHeight bq + 1 ∧
                      pskip b = up (Z.to_nat (nHeight b - GetSkipHeight (nHeight b))) t p ∧
                      nTimeMax b = Z.max (nTimeMax bq) (nTime b) ∧
                      limbs_val (nChainWork b) = (limbs_val (nChainWork bq) + block_proof (nBits b)) `mod` 2 ^ 256
            end
}.
Definition tree_ok (t : block_tree) : Prop := map_Forall (entry_ok t) t.

Lemma InvertLowestOne_lt n : 1 <= n → 0 <= InvertLowestOne n < n.
Proof.
  intros Hn. unfold InvertLowestOne. split; [by apply Z.land_nonneg; lia|].
  enough (Z.land n (n - 1) <= n - 1) by lia.
  apply (Z.ldiff_le); [lia|]. bitwise.
Qed.
Lemma GetSkipHeight_lt h : 1 <= h → 0 <= GetSkipHeight h < h.
Proof.
  intros Hh. unfold GetSkipHeight. case (Z.ltb_spec h 2); [lia|]. intros H2.
  case (Z.eqb_spec (Z.land h 1) 0); simpl; intros Hodd.
  - apply InvertLowestOne_lt; lia.
  - assert (h ≠ 2) by (intros ->; done).
    pose proof (InvertLowestOne_lt (h - 1) ltac:(lia)) as H1.
    destruct (decide (InvertLowestOne (h - 1) = 0)) as [->|]; [vm_compute InvertLowestOne; lia|].
    pose proof (InvertLowestOne_lt (InvertLowestOne (h - 1)) ltac:(lia)). lia.
Qed.

Lemma up_add n m t p : up (n + m) t p = up n t p ≫= up m t.
Proof.
  revert p. induction n as [|n IH]; intros p; [done|]. simpl.
  destruct (t !! p) as [b|]; simpl; [|done]. destruct (pprev b); simpl; [apply IH|done].
Qed.
Lemma up_weaken n t t' p q : t ⊆ t' → up n t p = Some q → up n t' p = Some q.
Proof.
  intros Hs. revert p. induction n as [|n IH]; intros p; [done|]. simpl.
  destruct (t !! p) as [b|] eqn:E; simpl; [|done]. rewrite (lookup_weaken _ _ _ _ E Hs). simpl.
  destruct (pprev b); simpl; [auto|done].
Qed.
Lemma GetAncestor_loop_weaken fuel t t' p hw h q : t ⊆ t' →
  GetAncestor_loop fuel t p hw h = Some q → GetAncestor_loop fuel t' p hw h = Some q.
Proof.
  intros Hs. revert p hw. induction fuel as [|fuel IH]; intros p hw; [done|]. cbn [GetAncestor_loop].
  destruct (h <? hw); [|done]. destruct (t !! p) as [b|] eqn:E; simpl; [|done].
  rewrite (lookup_weaken _ _ _ _ E Hs). simpl. destruct (pskip b); [case_match; [by auto|]|];
    destruct (pprev b); simpl; auto; done.
Qed.

(** [r] is the last of the blocks that [p] and [q] both descend from. *)
Definition last_common (t : block_tree) (p q : ptr) (r : option ptr) : Prop :=
  match r with
  | Some a => ancestor t a p ∧ ancestor t a q ∧ ∀ c, ancestor t c p → ancestor t c q → ancestor t c a
  | None => ∀ c, ancestor t c p → ancestor t c q → False
  end.

(** The chain that ends in [tip]: its ancestors by height. *)
Definition chain_of (t : block_tree) (tip : ptr) (c : CChain) : Prop :=
  ∃ b, t !! tip = Some b ∧ length c = Z.to_nat (nHeight b + 1) ∧
       ∀ i, (i < length c)%nat → c !! i = Some (up (length c - 1 - i) t tip).
Definition chain_ok (t : block_tree) (c : CChain) : Prop := c = [] ∨ ∃ tip, chain_of t tip c.

(** ** Walks in a well-formed tree *)
Section walks.
Context (t : block_tree) (Ht : tree_ok t).

Lemma entry_height p b : t !! p = Some b → 0 <= nHeight b.
Proof using Ht.
  intros Hp. destruct (Ht p b Hp) as [_ _ _ H]. destruct (pprev b); [destruct H as (?&_&?&?&_)|]; lia.
Qed.
Lemma entry_root p b : t !! p = Some b → pprev b = None ↔ nHeight b = 0.
Proof using Ht.
  intros Hp. destruct (Ht p b Hp) as [_ _ _ H]. destruct (pprev b); [destruct H as (?&_&?&?&_)|]; split; try lia; done.
Qed.
Lemma entry_parent p b : t !! p = Some b → 0 < nHeight b →
  ∃ q bq, pprev b = Some q ∧ t !! q = Some bq ∧ nHeight bq = nHeight b - 1.
Proof using Ht.
  intros Hp Hh. destruct (Ht p b Hp) as [_ _ _ H]. destruct (pprev b) as [q|]; [|lia].
  destruct H as (bq&?&?&?&_). exists q, bq. repeat split; [done|lia].
Qed.

Lemma up_total n p b : t !! p = Some b → Z.of_nat n <= nHeight b →
  ∃ q bq, up n t p = Some q ∧ t !! q = Some bq ∧ nHeight bq = nHeight b - Z.of_nat n.
Proof using Ht.
  revert p b. induction n as [|n IH]; intros p b Hp Hn; [exists p, b; repeat split; [done|lia]|].
  destruct (entry_parent p b Hp ltac:(lia)) as (q&bq&Eq&Hq&Hhq).
  destruct (IH q bq Hq ltac:(lia)) as (r&br&?&?&?). exists r, br. simpl. rewrite Hp; simpl. rewrite Eq; simpl.
  repeat split; [done..|lia].
Qed.
Lemma up_height n p b q : t !! p = Some b → up n t p = Some q →
  ∃ bq, t !! q = Some bq ∧ nHeight bq = nHeight b - Z.of_nat n.
Proof using Ht.
  revert p b. induction n as [|n IH]; intros p b Hp Hu; simpl in Hu; [simplify_eq; exists b; split; [done|lia]|].
  rewrite Hp in Hu; simpl in Hu. destruct (pprev b) as [r|] eqn:Er; simpl in Hu; [|done].
  pose proof (entry_height p b Hp). pose proof (entry_root p b Hp) as Hroot.
  assert (nHeight b ≠ 0) by (intros E; apply Hroot in E; congruence).
  destruct (entry_parent p b Hp ltac:(lia)) as (r'&br&Eq&Hr&Hhr). simplify_eq.
  destruct (IH _ br Hr Hu) as (bq&?&?). exists bq. split; [done|lia].
Qed.

Lemma GetAncestor_loop_up fuel p b h : t !! p = Some b → 0 <= h <= nHeight b → nHeight b - h < Z.of_nat fuel →
  GetAncestor_loop fuel t p (nHeight b) h = up (Z.to_nat (nHeight b - h)) t p.
Proof using Ht.
  revert p b. induction fuel as [|fuel IH]; intros p b Hp Hh Hf; [lia|]. cbn [GetAncestor_loop].
  case (Z.ltb_spec h (nHeight b)); intros Hlt; [|by replace (Z.to_nat (nHeight b - h)) with 0%nat by lia].
  rewrite Hp; simpl.
  destruct (entry_parent p b Hp ltac:(lia)) as (q&bq&Eq&Hq&Hhq).
  assert (Hstep : GetAncestor_loop fuel t q (nHeight b - 1) h = up (Z.to_nat (nHeight b - h)) t p).
  { rewrite <- Hhq, (IH q bq Hq ltac:(lia) ltac:(lia)).
    replace (Z.to_nat (nHeight b - h)) with (S (Z.to_nat (nHeight bq - h))) by lia. simpl. rewrite Hp; simpl. by rewrite Eq. }
  destruct (pskip b) as [s|] eqn:Es; rewrite ?Eq; simpl; [|done].
  case_match eqn:Ec; [|done].
  pose proof (GetSkipHeight_lt (nHeight b) ltac:(lia)) as Hs.
  destruct (Ht p b Hp) as [_ _ _ H]. rewrite Eq in H. destruct H as (bq'&_&_&_&Hskip&_). rewrite Es in Hskip.
  destruct (up_height _ p b s Hp (eq_sym Hskip)) as (bs&Hbs&Hhs).
  assert (Hge : h <= GetSkipHeight (nHeight b)).
  { apply orb_prop in Ec as [Ec|Ec]; [lia|]. apply andb_prop in Ec as [Ec _]. lia. }
  replace (GetSkipHeight (nHeight b)) with (nHeight bs) at 1 by lia.
  rewrite (IH s bs Hbs ltac:(lia) ltac:(lia)).
  replace (Z.to_nat (nHeight b - h))
    with (Z.to_nat (nHeight b - GetSkipHeight (nHeight b)) + Z.to_nat (nHeight bs - h))%nat by lia.
  rewrite up_add, <- Hskip. done.
Qed.

Lemma GetAncestor_spec p b h : t !! p = Some b →
  GetAncestor t p h =
    Some (if (0 <=? h) && (h <=? nHeight b) then up (Z.to_nat (nHeight b - h)) t p else None).
Proof using Ht.
  intros Hp. unfold GetAncestor. rewrite Hp. cbn [mbind option_bind].
  destruct (Z.leb_spec 0 h), (Z.leb_spec h (nHeight b)), (Z.ltb_spec (nHeight b) h), (Z.ltb_spec h 0);
    try lia; try done. cbn [orb andb].
  rewrite (GetAncestor_loop_up _ p b h Hp) by lia.
  destruct (up_total (Z.to_nat (nHeight b - h)) p b Hp ltac:(lia)) as (q&bq&E&_). by rewrite E.
Qed.

Lemma ancestor_refl p : ancestor t p p.
Proof. by exists 0%nat. Qed.
Lemma ancestor_cons p b q c : t !! p = Some b → pprev b = Some q → ancestor t c q → ancestor t c p.
Proof. intros Hp Hb [n Hn]. exists (S n). simpl. rewrite Hp; simpl. by rewrite Hb. Qed.
Lemma ancestor_uncons p b c : t !! p = Some b → ancestor t c p →
  c = p ∨ ∃ q, pprev b = Some q ∧ ancestor t c q.
Proof.
  intros Hp [[|n] Hn]; simpl in Hn; [left; congruence|]. rewrite Hp in Hn; simpl in Hn.
  destruct (pprev b) as [q|]; simpl in Hn; [|done]. right. exists q. split; [done|by exists n].
Qed.
Lemma ancestor_height p b c : t !! p = Some b → ancestor t c p →
  ∃ bc, t !! c = Some bc ∧ nHeight bc <= nHeight b ∧ up (Z.to_nat (nHeight b - nHeight bc)) t p = Some c.
Proof using Ht.
  intros Hp [n Hn]. destruct (up_height n p b c Hp Hn) as (bc&?&?). exists bc. split; [done|].
  split; [lia|]. by replace (Z.to_nat (nHeight b - nHeight bc)) with n by lia.
Qed.
Lemma ancestor_level p b c bc : t !! p = Some b → t !! c = Some bc → ancestor t c p →
  nHeight bc = nHeight b → c = p.
Proof using Ht.
  intros Hp Hc Ha Hh. destruct (ancestor_height p b c Hp Ha) as (bc'&Hc'&_&Hu). simplify_eq.
  rewrite Hh, Z.sub_diag in Hu. simpl in Hu. congruence.
Qed.
Lemma ancestor_mid p b a ba c bc : t !! p = Some b → t !! a = Some ba → t !! c = Some bc →
  ancestor t a p → ancestor t c p → nHeight bc <= nHeight ba → ancestor t c a.
Proof using Ht.
  intros Hp Ha Hc Hap Hcp Hle.
  destruct (ancestor_height p b a Hp Hap) as (ba'&Ha'&?&Hua), (ancestor_height p b c Hp Hcp) as (bc'&Hc'&?&Huc).
  assert (ba' = ba) as -> by congruence. assert (bc' = bc) as -> by congruence.
  exists (Z.to_nat (nHeight ba - nHeight bc)).
  replace (Z.to_nat (nHeight b - nHeight bc))
    with (Z.to_nat (nHeight b - nHeight ba) + Z.to_nat (nHeight ba - nHeight bc))%nat in Huc by lia.
  rewrite up_add, Hua in Huc. exact Huc.
Qed.
Lemma ancestor_trans p q r : ancestor t p q → ancestor t q r → ancestor t p r.
Proof. intros [n Hn] [m Hm]. exists (m + n)%nat. by rewrite up_add, Hm. Qed.
Lemma ancestor_antisym p b q : t !! p = Some b → ancestor t q p → ancestor t p q → p = q.
Proof using Ht.
  intros Hp Hq Hpq. destruct (ancestor_height p b q Hp Hq) as (bq&Hbq&?&_).
  destruct (ancestor_height q bq p Hbq Hpq) as (b'&Hb'&?&_).
  assert (b' = b) as -> by congruence. symmetry. apply (ancestor_level p b q bq); [done..|lia].
Qed.
Lemma last_common_unique p b q r r' : t !! p = Some b → last_common t p q r → last_common t p q r' → r = r'.
Proof using Ht.
  intros Hp. destruct r as [a|], r' as [a'|]; simpl; [|naive_solver..].
  intros (Ha&Hb&Hl) (Ha'&Hb'&Hl'). f_equal.
  destruct (ancestor_height p b a Hp Ha) as (ba&Hba&_).
  apply (ancestor_antisym a ba); auto.
Qed.

Lemma LastCommonAncestor_loop_spec fuel p bp q bq : t !! p = Some bp → t !! q = Some bq →
  nHeight bp = nHeight bq → nHeight bp + 1 < Z.of_nat fuel →
  ∃ r, LastCommonAncestor_loop fuel t (Some p) (Some q) = Some (r, r) ∧ last_common t p q r.
Proof using Ht.
  revert p bp q bq. induction fuel as [|fuel IH]; intros p bp q bq Hp Hq Hh Hf;
    pose proof (entry_height p bp Hp); [lia|]. cbn [LastCommonAncestor_loop].
  case_decide as Hpq; [subst q; exists (Some p); repeat split; auto using ancestor_refl|].
  rewrite Hp, Hq. cbn [mbind option_bind].
  assert (Hno : ∀ c, ancestor t c p → ancestor t c q → c ≠ p ∧ c ≠ q).
  { intros c Hcp Hcq. split; intros ->.
    - apply Hpq, (ancestor_level q bq p bp); done.
    - apply Hpq. symmetry. by apply (ancestor_level p bp q bq). }
  destruct (decide (nHeight bp = 0)) as [E|E].
  - rewrite (proj2 (entry_root p bp Hp) E), (proj2 (entry_root q bq Hq) (eq_trans (eq_sym Hh) E)).
    destruct fuel as [|fuel]; [lia|]. exists None. split; [done|]. intros c Hcp Hcq. destruct (Hno c Hcp Hcq) as [Hp' _].
    destruct (ancestor_uncons p bp c Hp Hcp) as [?|(r&Hr&_)]; [done|].
    rewrite (proj2 (entry_root p bp Hp) E) in Hr. done.
  - destruct (entry_parent p bp Hp ltac:(lia)) as (p'&bp'&Ep&Hp'&?), (entry_parent q bq Hq ltac:(lia)) as (q'&bq'&Eq&Hq'&?).
    rewrite Ep, Eq. destruct (IH p' bp' q' bq' Hp' Hq' ltac:(lia) ltac:(lia)) as (r&Hr&Hl). exists r. split; [done|].
    assert (Hdown : ∀ c, ancestor t c p → ancestor t c q → ancestor t c p' ∧ ancestor t c q').
    { intros c Hcp Hcq. destruct (Hno c Hcp Hcq).
      destruct (ancestor_uncons p bp c Hp Hcp) as [?|(?&?&?)], (ancestor_uncons q bq c Hq Hcq) as [?|(?&?&?)]; naive_solver. }
    destruct r as [a|]; simpl in *; [|naive_solver].
    destruct Hl as (Ha&Hb&Hl). split; [by eapply ancestor_cons|]. split; [by eapply ancestor_cons|naive_solver].
Qed.

(** Lowering one end to an ancestor that no common ancestor lies above. *)
Lemma last_common_lower p b a ba q bq r : t !! p = Some b → t !! a = Some ba → t !! q = Some bq →
  ancestor t a p → nHeight bq <= nHeight ba → last_common t a q r → last_common t p q r.
Proof using Ht.
  intros Hp Ha Hq Hap Hle Hl.
  assert (Hdown : ∀ c, ancestor t c p → ancestor t c q → ancestor t c a).
  { intros c Hcp Hcq. destruct (ancestor_height q bq c Hq Hcq) as (bc&Hc&?&_).
    apply (ancestor_mid p b a ba c bc); auto; lia. }
  destruct r as [x|]; simpl in *; [|naive_solver].
  destruct Hl as (Hx&Hy&Hl). split; [by apply (ancestor_trans x a p)|]. split; [done|]. intros c Hcp Hcq. apply Hl; auto.
Qed.
Lemma last_common_sym p q r : last_common t p q r → last_common t q p r.
Proof. destruct r; simpl; naive_solver. Qed.

Lemma LastCommonAncestor_spec p bp q bq : t !! p = Some bp → t !! q = Some bq →
  ∃ r, LastCommonAncestor t p q = Some r ∧ last_common t p q r.
Proof using Ht.
  intros Hp Hq. unfold LastCommonAncestor. rewrite Hp, Hq. cbn [mbind option_bind].
  pose proof (entry_height p bp Hp) as Hh1. pose proof (entry_height q bq Hq) as Hh2.
  rewrite (GetAncestor_spec p bp _ Hp), (GetAncestor_spec q bq _ Hq).
  destruct (Z.leb_spec 0 (nHeight bq)), (Z.leb_spec 0 (nHeight bp)); try lia.
  destruct (Z.ltb_spec (nHeight bq) (nHeight bp)) as [H1|H1], (Z.ltb_spec (nHeight bp) (nHeight bq)) as [H2|H2];
    try lia; cbn [andb mbind option_bind].
  - destruct (Z.leb_spec (nHeight bq) (nHeight bp)); [|lia].
    destruct (up_total (Z.to_nat (nHeight bp - nHeight bq)) p bp Hp ltac:(lia)) as (a&ba&Eu&Ha&Hha). rewrite Eu.
    edestruct (LastCommonAncestor_loop_spec (S (S (Z.to_nat (nHeight bp `min` nHeight bq)))) a ba q bq) as (r&Er&Hl); [done|done|lia..|].
    rewrite Er. simpl. rewrite decide_True by done. exists r. split; [done|].
    apply (last_common_lower p bp a ba q bq); auto; [by eexists|lia].
  - destruct (Z.leb_spec (nHeight bp) (nHeight bq)); [|lia].
    destruct (up_total (Z.to_nat (nHeight bq - nHeight bp)) q bq Hq ltac:(lia)) as (a&ba&Eu&Ha&Hha). rewrite Eu.
    edestruct (LastCommonAncestor_loop_spec (S (S (Z.to_nat (nHeight bp `min` nHeight bq)))) p bp a ba) as (r&Er&Hl); [done|done|lia..|].
    rewrite Er. simpl. rewrite decide_True by done. exists r. split; [done|].
    apply last_common_sym, (last_common_lower q bq a ba p bp); auto using last_common_sym; [by eexists|lia].
  - edestruct (LastCommonAncestor_loop_spec (S (S (Z.to_nat (nHeight bp `min` nHeight bq)))) p bp q bq) as (r&Er&Hl); [done|done|lia..|].
    rewrite Er. simpl. rewrite decide_True by done. by exists r.
Qed.
End walks.
