(* ===== verification/ChainIndex.v ===== *)
(** * The block index

    [GetBlockProof] is the expected number of hashes, and [AddToBlockIndex]
    keeps the invariant of the tree, of the best header and of the index of
    children. *)
From S2P Require Import Prelude Sysendian Limbs ArithUint ArithCorrect Compact Params Chain ChainCorrect.
Local Open Scope Z_scope.

(** ** Work *)
Lemma target_flags c : is_u32 c →
  let r := SetCompact c in
  cp_negative r || cp_overflow r || EqualTo (cp_value r) 0 = negb (target_ok c).
Proof.
  intros Hc r. destruct (SetCompact_spec c Hc) as (W&V&O&N). unfold r. rewrite EqualTo_zero, O, N, V by done.
  unfold target_ok. pose proof (compact_val_nonneg c).
  destruct (Z.leb_spec (2 ^ 256) (compact_val c)), (Z.ltb_spec (compact_val c) (2 ^ 256)); try lia.
  rewrite Z.mod_small by lia.
  destruct (Z.eqb_spec (compact_val c) 0), (Z.ltb_spec 0 (compact_val c)); try lia; by destruct (Z.testbit c 23).
Qed.
Lemma target_val c : is_u32 c → target_ok c = true →
  wf_arith (cp_value (SetCompact c)) ∧ val (cp_value (SetCompact c)) = compact_val c ∧ 0 < compact_val c < 2 ^ 256 - 1.
Proof.
  intros Hc Ht. destruct (SetCompact_spec c Hc) as (W&V&_&_). pose proof (compact_val_not_max c Hc).
  unfold target_ok in Ht. apply andb_prop in Ht as [[_ H1]%andb_prop H2]. rewrite Z.mod_small in V by lia.
  split_and!; [done|done|lia|lia].
Qed.
Lemma proof_quotient v : 0 < v < 2 ^ 256 - 1 → (2 ^ 256 - 1 - v) `div` (v + 1) + 1 = 2 ^ 256 `div` (v + 1) ∧
  0 < 2 ^ 256 `div` (v + 1) < 2 ^ 256.
Proof.
  intros Hv. replace (2 ^ 256) with (2 ^ 256 - 1 - v + 1 * (v + 1)) at 2 by lia. rewrite Z.div_add by lia.
  split; [done|]. split; [apply Z.div_str_pos; lia|]. apply Z.div_lt; lia.
Qed.
Lemma GetBlockProof_spec b : is_u32 (nBits b) →
  ∃ w, GetBlockProof b = Some w ∧ wf_arith w ∧ val w = block_proof (nBits b).
Proof.
  intros Hb. pose proof (target_flags _ Hb) as Hf. unfold GetBlockProof, block_proof.
  destruct (SetCompact (nBits b)) as [v n o] eqn:E. cbn [cp_value cp_negative cp_overflow] in Hf. rewrite Hf.
  destruct (target_ok (nBits b)) eqn:Et; cbn [negb];
    [|exists (base_uint_u64 0); split_and!; [done|apply wf_base_uint_u64|apply val_base_uint_u64; unfold in_width; lia]].
  destruct (target_val _ Hb Et) as (W&V&R). rewrite E in W, V. cbn [cp_value] in W, V.
  destruct (proof_quotient _ R) as [Q1 Q2].
  assert (W1 := wf_base_uint_u64 1). assert (V1 : val (base_uint_u64 1) = 1) by (apply val_base_uint_u64; unfold in_width; lia).
  destruct (op_add_spec v (base_uint_u64 1) W W1) as [Wd Vd]. rewrite V1, V, Z.mod_small in Vd by lia.
  assert (Wn : wf_arith (op_not v)).
  { split; [by apply words_op_not, W|]. unfold op_not. rewrite length_fmap. apply W. }
  assert (Vn : val (op_not v) = 2 ^ 256 - 1 - compact_val (nBits b)) by (rewrite val_op_not, modulus_wf, V by (done || apply W); done).
  destruct (op_div_spec (op_not v) (op_add v (base_uint_u64 1)) Wn Wd ltac:(lia)) as (q&Eq&Wq&Vq).
  rewrite Eq. cbn [mbind option_bind]. destruct (op_add_spec q (base_uint_u64 1) Wq W1) as [Wr Vr].
  eexists. split; [done|]. split; [done|]. rewrite Vr, V1, Vq, Vd, Vn, Q1. apply Z.mod_small. lia.
Qed.

(** ** Adding an entry *)
Definition header_ok (block : CBlockHeader) : Prop := is_u32 (h_nTime block) ∧ is_u32 (h_nBits block).

Lemma GetAncestor_weaken t t' p h r : t ⊆ t' → GetAncestor t p h = Some r → GetAncestor t' p h = Some r.
Proof.
  intros Hs. unfold GetAncestor. destruct (t !! p) as [b|] eqn:E; [|done]. rewrite (lookup_weaken _ _ _ _ E Hs).
  cbn [mbind option_bind]. destruct (_ || _); [done|].
  destruct (GetAncestor_loop (S (Z.to_nat (nHeight b))) t p (nHeight b) h) as [q|] eqn:El; [|done].
  by rewrite (GetAncestor_loop_weaken _ _ _ _ _ _ _ Hs El).
Qed.
Lemma entry_ok_weaken t t' p b : tree_ok t → t ⊆ t' → t !! p = Some b → entry_ok t' p b.
Proof.
  intros Ht Hs Hp. pose proof (Ht p b Hp) as [Hw Hti Hbi Hl]. split; [done..|].
  destruct (pprev b) as [q|] eqn:Eq; [|done]. destruct Hl as (bq&Hq&?&Hh&Hsk&?&?). exists bq.
  split_and!; [by eapply lookup_weaken|done..| |done|done]. rewrite Hsk.
  pose proof (GetSkipHeight_lt (nHeight b) ltac:(lia)).
  destruct (up_total t Ht (Z.to_nat (nHeight b - GetSkipHeight (nHeight b))) p b Hp ltac:(lia)) as (r&_&E&_).
  rewrite E. symmetry. by apply (up_weaken _ t).
Qed.

(** The entry [link_index] builds, at whatever status it is stored with. *)
Record linked (t : block_tree) (block : CBlockHeader) (hash : ptr) (b : CBlockIndex) : Prop := {
  lk_status : nStatus b = 0;
  lk_prev : pprev b = (if decide (is_Some (t !! hashPrevBlock block)) then Some (hashPrevBlock block) else None);
  lk_header : nVersion b = h_nVersion block ∧ hashMerkleRoot b = h_hashMerkleRoot block ∧ nTime b = h_nTime block ∧
              nBits b = h_nBits block ∧ nNonce b = h_nNonce block;
  lk_entry s : entry_ok (<[hash := set_status b s]> t) hash (set_status b s)
}.

Lemma BuildSkip_spec t hash b q bq : tree_ok t → t !! hash = None → t !! q = Some bq → pprev b = Some q →
  nHeight b = nHeight bq + 1 →
  BuildSkip (<[hash := b]> t) hash =
    Some (<[hash := set_pskip b (up (Z.to_nat (nHeight bq - GetSkipHeight (nHeight b))) t q)]> (<[hash := b]> t)).
Proof.
  intros Ht Hnone Hq Hb Hh. unfold BuildSkip. rewrite lookup_insert_eq. cbn [mbind option_bind]. rewrite Hb.
  pose proof (entry_height t Ht q bq Hq). pose proof (GetSkipHeight_lt (nHeight b) ltac:(lia)).
  rewrite (GetAncestor_weaken t _ q _ (up (Z.to_nat (nHeight bq - GetSkipHeight (nHeight b))) t q)); [done|by apply insert_subseteq|].
  rewrite (GetAncestor_spec t Ht q bq _ Hq).
  destruct (Z.leb_spec 0 (GetSkipHeight (nHeight b))), (Z.leb_spec (GetSkipHeight (nHeight b)) (nHeight bq)); try lia. done.
Qed.

Lemma link_index_root t block hash : t !! hash = None → header_ok block → hash ≠ hashPrevBlock block →
  t !! hashPrevBlock block = None → ∃ b, link_index t block hash = Some b ∧ linked t block hash b.
Proof.
  intros Hnone [Hti Hbi] Hne Hp. unfold link_index. rewrite lookup_insert_ne, Hp by done. cbn [mbind option_bind].
  destruct (GetBlockProof_spec (new_index block) Hbi) as (w&Ew&Ww&Vw). rewrite Ew. cbn [mbind option_bind].
  destruct (op_add_spec (base_uint_u64 0) w (wf_base_uint_u64 0) Ww) as [Wr Vr].
  assert (V0 : val (base_uint_u64 0) = 0) by (apply val_base_uint_u64; unfold in_width; lia).
  rewrite V0, Z.add_0_l, Z.mod_small, Vw in Vr by (by apply val_range).
  eexists. split; [done|]. split; [done|by rewrite decide_False by (rewrite Hp; by intros [? ?])|done|].
  intros s. split; [exact Wr|exact Hti|exact Hbi|]. split_and!; [done..|exact Vr].
Qed.
Lemma link_index_child t block hash bq : tree_ok t → t !! hash = None → header_ok block → hash ≠ hashPrevBlock block →
  t !! hashPrevBlock block = Some bq → ∃ b, link_index t block hash = Some b ∧ linked t block hash b.
Proof.
  intros Ht Hnone [Hti Hbi] Hne Hp. pose proof (entry_height t Ht _ bq Hp) as Hhq. unfold link_index.
  rewrite lookup_insert_ne, Hp by done. set (q := hashPrevBlock block) in *.
  rewrite (BuildSkip_spec t hash _ q bq Ht Hnone Hp) by done. cbn [mbind option_bind].
  rewrite lookup_insert_eq. cbn [mbind option_bind].
  set (b := set_pskip _ _). destruct (GetBlockProof_spec b Hbi) as (w&Ew&Ww&Vw). rewrite Ew. cbn [mbind option_bind].
  change (pprev b) with (Some q). cbn [mbind option_bind]. rewrite lookup_insert_ne, Hp by done.
  destruct (Ht _ _ Hp) as [Wq _ _ _]. destruct (op_add_spec (nChainWork bq) w Wq Ww) as [Wr Vr].
  eexists. split; [done|]. split; [done|rewrite decide_True by (exists bq; exact Hp); done|done|].
  intros s. split; [exact Wr|exact Hti|exact Hbi|]. exists bq.
  assert (Hsub : t ⊆ <[hash:=set_status (set_totals b (nTimeMax bq `max` nTime b) (op_add (nChainWork bq) w)) s]> t)
    by by apply insert_subseteq.
  split_and!; [by rewrite lookup_insert_ne by done|done|done| |done|change (block_proof _) with (block_proof (nBits b)); rewrite <- Vw; exact Vr].
  cbn [pskip nHeight set_status set_totals set_pskip set_prev b].
  pose proof (GetSkipHeight_lt (nHeight bq + 1) ltac:(lia)).
  destruct (up_total t Ht (Z.to_nat (nHeight bq - GetSkipHeight (nHeight bq + 1))) q bq Hp ltac:(lia)) as (r&_&E&_).
  rewrite E. replace (Z.to_nat (nHeight bq + 1 - GetSkipHeight (nHeight bq + 1)))
    with (S (Z.to_nat (nHeight bq - GetSkipHeight (nHeight bq + 1)))) by lia.
  cbn [up]. rewrite lookup_insert_eq. symmetry. by apply (up_weaken _ t).
Qed.
Lemma link_index_spec t block hash : tree_ok t → t !! hash = None → header_ok block → hash ≠ hashPrevBlock block →
  ∃ b, link_index t block hash = Some b ∧ linked t block hash b.
Proof.
  intros Ht Hn Hb Hne. destruct (t !! hashPrevBlock block) as [bq|] eqn:E; [by eapply link_index_child|by apply link_index_root].
Qed.

(** ** The invariant of the manager *)

(** The statuses the callers pass. *)
Definition status_arg (s : Z) : Prop := s = BLOCK_VALID_TREE ∨ s = BLOCK_CONFLICT_CHAINLOCK.
Definition conflicting (b : CBlockIndex) : bool := negb (Z.land (nStatus b) BLOCK_CONFLICT_CHAINLOCK =? 0).

(** The best header is an entry of most work among those that do not conflict
    with a chain lock; there is none only when there is no such entry. *)
Definition best_ok (t : block_tree) (best : option ptr) : Prop :=
  match best with
  | None => ∀ p b, t !! p = Some b → conflicting b = true
  | Some h => ∃ bh, t !! h = Some bh ∧ conflicting bh = false ∧
      ∀ p b, t !! p = Some b → conflicting b = false → limbs_val (nChainWork b) <= limbs_val (nChainWork bh)
  end.

Record manager_ok (bm : BlockManager) : Prop := {
  mo_tree : tree_ok (m_block_index bm);
  mo_best : best_ok (m_block_index bm) (best_header bm);
  mo_children q p : (q, p) ∈ m_prev_block_index bm ↔
                    ∃ b, m_block_index bm !! p = Some b ∧ pprev b = Some q;
  mo_dirty p : p ∈ m_dirty_blockindex bm → is_Some (m_block_index bm !! p)
}.

Lemma RaiseValidity_fresh b : nStatus b = 0 → RaiseValidity b BLOCK_VALID_TREE = Some (true, set_status b BLOCK_VALID_TREE).
Proof. intros H. unfold RaiseValidity, IsAssumedValid. by rewrite H. Qed.

Lemma tree_ok_insert t block hash b s : tree_ok t → t !! hash = None → linked t block hash b →
  tree_ok (<[hash := set_status b s]> t).
Proof.
  intros Ht Hn Hl p x Hp. apply lookup_insert_Some in Hp as [[<- <-]|[Hne Hp]]; [apply (lk_entry _ _ _ _ Hl)|].
  apply (entry_ok_weaken t); [done|by apply insert_subseteq|done].
Qed.
Lemma best_insert bm block hash b : manager_ok bm → m_block_index bm !! hash = None →
  linked (m_block_index bm) block hash b →
  ∃ h, match best_header bm with
       | None => Some hash
       | Some h => bh ← m_block_index bm !! h; Some (if op_gt (nChainWork b) (nChainWork bh) then hash else h)
       end = Some h ∧ best_ok (<[hash := set_status b BLOCK_VALID_TREE]> (m_block_index bm)) (Some h).
Proof.
  intros [Ht Hb _ _] Hn Hl. set (b' := set_status b BLOCK_VALID_TREE). destruct (best_header bm) as [h|].
  - destruct Hb as (bh&Hh&Hc&Hmax). rewrite Hh. cbn [mbind option_bind].
    destruct (Ht _ _ Hh) as [Wh _ _ _]. destruct (lk_entry _ _ _ _ Hl 0) as [W _ _ _]. change (wf_arith (nChainWork b)) in W.
    rewrite op_gt_spec by done. destruct (Z.ltb_spec (val (nChainWork bh)) (val (nChainWork b))) as [Hlt|Hge].
    + exists hash. split; [done|]. exists b'. split_and!; [apply lookup_insert_eq|done|].
      intros p x Hp Hx. apply lookup_insert_Some in Hp as [[<- <-]|[Hne Hp]]; [done|].
      specialize (Hmax p x Hp Hx). change (nChainWork b') with (nChainWork b). lia.
    + exists h. split; [done|]. exists bh. split_and!; [rewrite lookup_insert_ne; [done|congruence]|done|].
      intros p x Hp Hx. apply lookup_insert_Some in Hp as [[<- <-]|[Hne Hp]]; [exact Hge|by apply (Hmax p)].
  - exists hash. split; [done|]. exists b'. split_and!; [apply lookup_insert_eq|done|].
    intros p x Hp Hx. apply lookup_insert_Some in Hp as [[<- <-]|[Hne Hp]]; [done|]. rewrite (Hb p x Hp) in Hx. done.
Qed.
Lemma best_conflicting t best hash b : t !! hash = None → conflicting b = true → best_ok t best → best_ok (<[hash := b]> t) best.
Proof.
  intros Hn Hc. destruct best as [h|]; simpl.
  - intros (bh&Hh&?&Hmax). exists bh. split_and!; [rewrite lookup_insert_ne; [done|congruence]|done|].
    intros p x Hp Hx. apply lookup_insert_Some in Hp as [[<- <-]|[_ Hp]]; [congruence|by apply (Hmax p)].
  - intros Hbest p x Hp. apply lookup_insert_Some in Hp as [[<- <-]|[_ Hp]]; [done|by apply (Hbest p)].
Qed.
Lemma children_insert bm hash b : manager_ok bm → m_block_index bm !! hash = None → ∀ q p,
  (q, p) ∈ match pprev b with Some q => (q, hash) :: m_prev_block_index bm | None => m_prev_block_index bm end ↔
  ∃ x, <[hash := b]> (m_block_index bm) !! p = Some x ∧ pprev x = Some q.
Proof.
  intros Hbm Hn q p. pose proof (mo_children bm Hbm q p) as Hc. destruct (decide (p = hash)) as [->|Hp].
  - rewrite lookup_insert_eq. split.
    + intros Hin. exists b. split; [done|]. destruct (pprev b) as [r|].
      * apply elem_of_cons in Hin as [[= ->]|Hin]; [done|]. apply Hc in Hin as (x&Hx&_). congruence.
      * apply Hc in Hin as (x&Hx&_). congruence.
    + intros (x&[= <-]&->). left.
  - rewrite lookup_insert_ne by done. rewrite <- Hc. destruct (pprev b); [|done].
    rewrite elem_of_cons. split; [intros [[= _ ?]|?]; done|auto].
Qed.

(** What adding a header leaves in the index. *)
Definition added (bm bm' : BlockManager) (block : CBlockHeader) (hash : ptr) : Prop :=
  match m_block_index bm !! hash with
  | Some _ => bm' = bm
  | None => m_block_index bm ⊆ m_block_index bm' ∧ hash ∈ m_dirty_blockindex bm' ∧
      ∃ b, m_block_index bm' !! hash = Some b ∧ IsValid b BLOCK_VALID_TREE = Some true ∧
        (is_Some (m_block_index bm !! hashPrevBlock block) → GetBlockHeader b = block)
  end.
Lemma linked_header t block hash b s : linked t block hash b →
  is_Some (t !! hashPrevBlock block) → GetBlockHeader (set_status b s) = block.
Proof.
  intros [_ Hp (H1&H2&H3&H4&H5) _] Hs. rewrite decide_True in Hp by done. unfold GetBlockHeader, set_status. cbn.
  rewrite Hp, H1, H2, H3, H4, H5. by destruct block.
Qed.

Definition insert_manager (bm : BlockManager) (hash : ptr) (b : CBlockIndex) (best : option ptr) : BlockManager :=
  mkManager (<[hash := b]> (m_block_index bm)) ({[hash]} ∪ m_dirty_blockindex bm)
    (match pprev b with Some p => (p, hash) :: m_prev_block_index bm | None => m_prev_block_index bm end) best.
Lemma insert_manager_ok bm block hash b s best : manager_ok bm → m_block_index bm !! hash = None →
  linked (m_block_index bm) block hash b → IsValid (set_status b s) BLOCK_VALID_TREE = Some true →
  best_ok (<[hash := set_status b s]> (m_block_index bm)) best →
  manager_ok (insert_manager bm hash (set_status b s) best) ∧
  added bm (insert_manager bm hash (set_status b s) best) block hash.
Proof.
  intros Hbm Hn Hl Hv Hbest.
  assert (Hsub : m_block_index bm ⊆ <[hash := set_status b s]> (m_block_index bm)) by by apply insert_subseteq.
  split; [split; cbn [m_block_index best_header m_prev_block_index m_dirty_blockindex insert_manager]|].
  - apply (tree_ok_insert _ block); [apply Hbm|done|done].
  - done.
  - by apply children_insert.
  - intros p [->%elem_of_singleton|Hp]%elem_of_union; [rewrite lookup_insert_eq; by eexists|].
    destruct (mo_dirty bm Hbm p Hp) as [y Hy]. eapply mk_is_Some, lookup_weaken; [exact Hy|exact Hsub].
  - unfold added. rewrite Hn. cbn [m_block_index m_dirty_blockindex insert_manager]. split; [done|]. split; [set_solver|].
    eexists. split; [apply lookup_insert_eq|]. split; [done|by apply (linked_header _ _ _ _ _ Hl)].
Qed.

Lemma AddToBlockIndex_spec bm block hash s : manager_ok bm → header_ok block → hash ≠ hashPrevBlock block → status_arg s →
  ∃ bm', AddToBlockIndex bm block hash s = Some (bm', hash) ∧ manager_ok bm' ∧ added bm bm' block hash.
Proof.
  intros Hbm Hh Hne Hs. unfold AddToBlockIndex.
  assert ((Z.land s BLOCK_FAILED_MASK =? 0) = true) as -> by (destruct Hs as [-> | ->]; reflexivity). cbn [negb].
  destruct (m_block_index bm !! hash) as [x|] eqn:Hn; [exists bm; split_and!; [done..|]; unfold added; by rewrite Hn|].
  destruct (link_index_spec _ block hash (mo_tree bm Hbm) Hn Hh Hne) as (b&Eb&Hl). rewrite Eb. cbn [mbind option_bind].
  destruct Hs as [-> | ->].
  - change (negb (Z.land BLOCK_VALID_TREE BLOCK_VALID_MASK =? 0)) with true. cbv iota.
    rewrite (RaiseValidity_fresh b (lk_status _ _ _ _ Hl)). cbn [mbind option_bind snd].
    destruct (best_insert bm block hash b Hbm Hn Hl) as (h&Ebest&Hbest). rewrite Ebest. cbn [mbind option_bind].
    eexists. split; [done|]. by apply insert_manager_ok.
  - change (negb (Z.land BLOCK_CONFLICT_CHAINLOCK BLOCK_VALID_MASK =? 0)) with false. cbv iota.
    rewrite (RaiseValidity_fresh b (lk_status _ _ _ _ Hl)). cbn [mbind option_bind snd].
    change (set_status (set_status b BLOCK_VALID_TREE) _) with (set_status b 130).
    eexists. split; [done|]. apply insert_manager_ok; [done..|]. apply best_conflicting; [done..|apply Hbm].
Qed.

(** ** Histories of the index *)
Definition empty_manager : BlockManager := mkManager ∅ ∅ [] None.
Inductive reachable : BlockManager → Prop :=
  | reach_empty : reachable empty_manager
  | reach_add bm bm' block hash s q : reachable bm → header_ok block → hash ≠ hashPrevBlock block → status_arg s →
      AddToBlockIndex bm block hash s = Some (bm', q) → reachable bm'.

Lemma empty_manager_ok : manager_ok empty_manager.
Proof.
  split; cbn; [by intros p b Hp|by intros p b Hp| |set_solver]. intros q p. split; [by intros ?%elem_of_nil|].
  by intros (b&Hb&_).
Qed.
Lemma reachable_ok bm : reachable bm → manager_ok bm.
Proof.
  induction 1 as [|bm bm' block hash s q _ IH Hh Hne Hs E]; [apply empty_manager_ok|].
  destruct (AddToBlockIndex_spec bm block hash s IH Hh Hne Hs) as (bm''&E'&Hok&_). congruence.
Qed.

(** A list of headers, their hashes and statuses, added in order. *)
Fixpoint add_all (l : list (CBlockHeader * ptr * Z)) (bm : BlockManager) : option BlockManager :=
  match l with
  | [] => Some bm
  | (block, hash, s) :: l => r ← AddToBlockIndex bm block hash s; add_all l r.1
  end.
Definition add_input_ok (x : CBlockHeader * ptr * Z) : Prop :=
  header_ok x.1.1 ∧ x.1.2 ≠ hashPrevBlock x.1.1 ∧ status_arg x.2.
Lemma add_all_reachable l bm bm' : Forall add_input_ok l → reachable bm → add_all l bm = Some bm' → reachable bm'.
Proof.
  intros Hl. revert bm. induction Hl as [|[[block hash] s] l (H1&H2&H3) Hl IH]; intros bm Hbm; simpl; [congruence|].
  destruct (AddToBlockIndex bm block hash s) as [[b q]|] eqn:E; simpl; [|done]. apply IH. by eapply reach_add.
Qed.

(** Twenty blocks on top of a first one, a branch of two at height 10 and a
    conflicting block at height 15. *)
Definition sample_headers : list (CBlockHeader * ptr * Z) :=
  ((λ i, (mkHeader 1 (Z.of_nat i) [] (1000 + 60 * Z.of_nat i) 0x1f00ffff 7, Z.of_nat i + 1, BLOCK_VALID_TREE)) <$> seq 0 21)
  ++ [(mkHeader 1 11 [] 1500 0x1f00ffff 7, 101, BLOCK_VALID_TREE); (mkHeader 1 101 [] 2000 0x1f00ffff 7, 102, BLOCK_VALID_TREE);
      (mkHeader 1 15 [] 2000 0x1e00ffff 7, 201, BLOCK_CONFLICT_CHAINLOCK)].
Definition sample_manager : BlockManager := default empty_manager (add_all sample_headers empty_manager).
Definition sample_tree : block_tree := m_block_index sample_manager.
Lemma sample_reachable : reachable sample_manager.
Proof.
  apply (add_all_reachable sample_headers empty_manager); [|constructor|vm_compute; reflexivity].
  apply Forall_app. split.
  - apply Forall_fmap, Forall_seq. intros i Hi. unfold add_input_ok, header_ok, status_arg, in_width. simpl. split_and!; lia.
  - repeat apply Forall_cons_2; [..|by apply Forall_nil]; unfold add_input_ok, header_ok, status_arg, in_width; simpl;
      split_and!; lia.
Qed.
Lemma sample_ok : manager_ok sample_manager.
Proof. apply reachable_ok, sample_reachable. Qed.

(** ** Statements *)

(** C20: [AddToBlockIndex] never fails on a header whose hash is not its own
    predecessor.  A known hash changes nothing.  A new hash keeps every entry
    of the index, becomes dirty, is valid as a tree entry and gives back the
    header it was made from; and the invariant holds afterwards: links, skip
    pointers, maximal times and accumulated work of every entry, the best
    header, the index of children and the dirty set. *)
Theorem AddToBlockIndex_correct bm block hash s :
  manager_ok bm → header_ok block → hash ≠ hashPrevBlock block → status_arg s →
  ∃ bm', AddToBlockIndex bm block hash s = Some (bm', hash) ∧ manager_ok bm' ∧ added bm bm' block hash.
Proof. apply AddToBlockIndex_spec. Qed.
Lemma AddToBlockIndex_correct_witness :
  ∃ bm', AddToBlockIndex sample_manager (mkHeader 1 21 [] 5000 0x1f00ffff 9) 22 BLOCK_VALID_TREE = Some (bm', 22) ∧
    manager_ok bm' ∧ best_header bm' = Some 22.
Proof.
  destruct (AddToBlockIndex_correct sample_manager (mkHeader 1 21 [] 5000 0x1f00ffff 9) 22 BLOCK_VALID_TREE) as (bm'&E&Hok&_).
  - exact sample_ok.
  - split; split; vm_compute; congruence.
  - discriminate.
  - by left.
  - exists bm'. split; [exact E|]. split; [exact Hok|]. vm_compute in E. injection E as <-. reflexivity.
Defined.

(** C19: whatever headers have been added, in whatever order, the index is a
    well-formed forest with correct skip pointers and totals, the best header
    is an entry of most work among those not conflicting with a chain lock,
    and the index of children and the dirty set agree with the entries. *)
Theorem block_index_invariant bm : reachable bm → manager_ok bm.
Proof. apply reachable_ok. Qed.
Lemma block_index_invariant_witness : manager_ok sample_manager ∧ best_header sample_manager = Some 21.
Proof. split; [exact (block_index_invariant sample_manager sample_reachable)|vm_compute; reflexivity]. Defined.

(** C25: the work of a block is [2^256 / (target + 1)], rounded down, computed
    without any intermediate number of more than 256 bits, and zero for a
    target that is negative, zero or too large. *)
Theorem GetBlockProof_exact b : is_u32 (nBits b) →
  ∃ w, GetBlockProof b = Some w ∧ wf_arith w ∧
    (target_ok (nBits b) = true → let T := limbs_val (cp_value (SetCompact (nBits b))) in
       limbs_val w * (T + 1) <= 2 ^ 256 < (limbs_val w + 1) * (T + 1)) ∧
    (target_ok (nBits b) = false → limbs_val w = 0).
Proof.
  intros Hb. destruct (GetBlockProof_spec b Hb) as (w&E&W&V). exists w. split_and!; [done|done| |]; unfold block_proof in V.
  - intros Ht T. destruct (target_val _ Hb Ht) as (_&Vt&R). unfold T. rewrite Ht in V. rewrite Vt, V.
    pose proof (Z.mul_div_le (2 ^ 256) (compact_val (nBits b) + 1) ltac:(lia)).
    pose proof (Z.mul_succ_div_gt (2 ^ 256) (compact_val (nBits b) + 1) ltac:(lia)). lia.
  - intros Ht. by rewrite Ht in V.
Qed.
Lemma GetBlockProof_exact_witness :
  ∃ w, GetBlockProof (new_index (mkHeader 1 0 [] 0 0x1f00ffff 0)) = Some w ∧ limbs_val w = 0x10001.
Proof.
  destruct (GetBlockProof_exact (new_index (mkHeader 1 0 [] 0 0x1f00ffff 0))) as (w&E&_).
  - split; vm_compute; congruence.
  - exists w. split; [exact E|]. vm_compute in E. injection E as <-. reflexivity.
Defined.
