(* ===== verification/ChainActive.v ===== *)
(** * The active chain

    [CChain] as the ancestors of its tip: [SetTip] installs them, [FindFork]
    finds the last common ancestor with the tip, [GetLocator] lists ancestors
    at exponentially growing distances, [FindEarliestAtLeast] searches by time. *)
From S2P Require Import Prelude Sysendian Limbs ArithUint ArithCorrect Compact Params Chain ChainCorrect ChainIndex.
From stdpp Require Import sorting.
Local Open Scope Z_scope.

(** The distance of the [i]th locator entry from the first, and the step to the next. *)
Definition locator_offset (i : nat) : Z := if (i <=? 11)%nat then Z.of_nat i else 9 + 2 ^ (Z.of_nat i - 10).
Definition locator_step (i : nat) : Z := if (i <=? 10)%nat then 1 else 2 ^ (Z.of_nat i - 10).

Lemma locator_step_pos i : 1 <= locator_step i.
Proof. unfold locator_step. destruct (Nat.leb_spec i 10); [lia|]. pose proof (Z.pow_pos_nonneg 2 (Z.of_nat i - 10)). lia. Qed.
Lemma locator_offset_S i : locator_offset (S i) = locator_offset i + locator_step i.
Proof.
  unfold locator_offset, locator_step.
  destruct (Nat.leb_spec i 10), (Nat.leb_spec i 11), (Nat.leb_spec (S i) 11); try lia.
  - assert (i = 11%nat) as -> by lia. done.
  - replace (Z.of_nat (S i) - 10) with (Z.succ (Z.of_nat i - 10)) by lia. rewrite Z.pow_succ_r by lia. lia.
Qed.
Lemma locator_step_S i : locator_step (S i) = if (10 <? S i)%nat then locator_step i * 2 else locator_step i.
Proof.
  unfold locator_step. destruct (Nat.leb_spec i 10), (Nat.leb_spec (S i) 10), (Nat.ltb_spec 10 (S i)); try lia.
  - assert (i = 10%nat) as -> by lia. done.
  - replace (Z.of_nat (S i) - 10) with (Z.succ (Z.of_nat i - 10)) by lia. rewrite Z.pow_succ_r by lia. lia.
Qed.

(** Halving finds the boundary of a predicate that is true up to some position. *)
Lemma lower_bound_spec fuel before first len : (len < fuel)%nat →
  (∀ j, (first ≤ j < first + len)%nat → is_Some (before j)) →
  (∀ i j, (first ≤ i ≤ j)%nat → (j < first + len)%nat → before j = Some true → before i = Some true) →
  ∃ k, lower_bound fuel before first len = Some k ∧ (first ≤ k ≤ first + len)%nat ∧
    (∀ j, (first ≤ j < k)%nat → before j = Some true) ∧ (∀ j, (k ≤ j < first + len)%nat → before j = Some false).
Proof.
  revert first len. induction fuel as [|fuel IH]; intros first len Hf Htot Hmono; [lia|]. cbn [lower_bound].
  destruct (Nat.eqb_spec len 0); [exists first; split_and!; [done|lia..]|].
  pose proof (Nat.div_lt len 2 ltac:(lia) ltac:(lia)). set (half := (len / 2)%nat) in *.
  destruct (Htot (first + half)%nat ltac:(lia)) as [[] Hc]; rewrite Hc; cbn [mbind option_bind].
  - destruct (IH (first + half + 1)%nat (len - half - 1)%nat) as (k&Hk&Hr&Hlo&Hhi); [lia|intros; apply Htot; lia|..].
    { intros i j Hi Hj. apply Hmono; lia. }
    exists k. split_and!; [done|lia|lia| |intros; apply Hhi; lia].
    intros j Hj. destruct (decide (j ≤ first + half)%nat); [|apply Hlo; lia].
    apply (Hmono j (first + half)%nat); [lia|lia|done].
  - destruct (IH first half) as (k&Hk&Hr&Hlo&Hhi); [lia|intros; apply Htot; lia|..].
    { intros i j Hi Hj. apply Hmono; lia. }
    exists k. split_and!; [done|lia|lia|done|].
    intros j Hj. destruct (decide (j < first + half)%nat); [apply Hhi; lia|].
    destruct (Htot j ltac:(lia)) as [[] Hj']; [|done].
    rewrite (Hmono (first + half)%nat j) in Hc; [done|lia|lia|done].
Qed.

Section active.
Context (t : block_tree) (Ht : tree_ok t).

Lemma chain_of_tip tip c : chain_of t tip c → Tip c = Some tip.
Proof using Ht.
  intros (b&Hb&Hlen&Hc). unfold Tip. rewrite last_lookup. pose proof (entry_height t Ht tip b Hb).
  rewrite (Hc (pred (length c))) by lia. simpl. by replace (length c - 1 - pred (length c))%nat with 0%nat by lia.
Qed.
Lemma at_height_spec tip b c h : chain_of t tip c → t !! tip = Some b →
  at_height c h = if (0 <=? h) && (h <=? nHeight b) then up (Z.to_nat (nHeight b - h)) t tip else None.
Proof using Ht.
  intros (b'&Hb'&Hlen&Hc) Hb. assert (b' = b) as -> by congruence. pose proof (entry_height t Ht tip b Hb).
  unfold at_height. destruct (Z.ltb_spec h 0), (Z.leb_spec (Z.of_nat (length c)) h), (Z.leb_spec 0 h), (Z.leb_spec h (nHeight b));
    try lia; try done. cbn [orb andb].
  rewrite (Hc (Z.to_nat h)) by lia. simpl. f_equal. lia.
Qed.
Lemma Contains_spec tip c p b : chain_of t tip c → t !! p = Some b →
  ∃ r, Contains t c p = Some r ∧ (r = true ↔ ancestor t p tip).
Proof using Ht.
  intros Hc Hp. unfold Contains. rewrite Hp. cbn [mbind option_bind]. eexists. split; [done|].
  rewrite bool_decide_eq_true. pose proof Hc as (bt&Hbt&_). rewrite (at_height_spec tip bt c _ Hc Hbt).
  pose proof (entry_height t Ht p b Hp). split.
  - case_match; [|done]. intros Hu. by eexists.
  - intros Ha. destruct (ancestor_height t Ht tip bt p Hbt Ha) as (b'&Hp'&?&Hu). assert (b' = b) as -> by congruence.
    destruct (Z.leb_spec 0 (nHeight b)), (Z.leb_spec (nHeight b) (nHeight bt)); try lia. done.
Qed.
Lemma Contains_nil p b : t !! p = Some b → Contains t [] p = Some false.
Proof.
  intros Hp. unfold Contains. rewrite Hp. simpl. f_equal. apply bool_decide_eq_false.
  unfold at_height. simpl. by destruct (_ || _).
Qed.

(** ** [SetTip] *)
Lemma SetTip_loop_spec fuel p b c : t !! p = Some b → (Z.to_nat (nHeight b) < length c)%nat → nHeight b + 1 < Z.of_nat fuel →
  (∀ i q, (i ≤ Z.to_nat (nHeight b))%nat → c !! i = Some (Some q) → ∀ j, (j ≤ i)%nat → c !! j = Some (up (i - j) t q)) →
  ∃ c', SetTip_loop fuel t c (Some p) = Some c' ∧ length c' = length c ∧
    (∀ j, (j ≤ Z.to_nat (nHeight b))%nat → c' !! j = Some (up (Z.to_nat (nHeight b) - j) t p)) ∧
    (∀ j, (Z.to_nat (nHeight b) < j)%nat → c' !! j = c !! j).
Proof using Ht.
  revert p b c. induction fuel as [|fuel IH]; intros p b c Hp Hlen Hf Hcl;
    pose proof (entry_height t Ht p b Hp); [lia|]. cbn [SetTip_loop].
  rewrite Hp. cbn [mbind option_bind].
  destruct (lookup_lt_is_Some_2 c _ Hlen) as [e He]. rewrite He. cbn [mbind option_bind].
  case_decide as E; [subst e; exists c; split_and!; [done|done|intros; by apply Hcl|done]|].
  set (h := Z.to_nat (nHeight b)) in *. set (c1 := <[h := Some p]> c).
  assert (Hc1 : ∀ j, j ≠ h → c1 !! j = c !! j) by (intros; by apply list_lookup_insert_ne).
  assert (Hh : c1 !! h = Some (Some p)) by (by apply list_lookup_insert_eq).
  destruct (decide (nHeight b = 0)) as [E0|E0].
  - rewrite (proj2 (entry_root t Ht p b Hp) E0). destruct fuel as [|fuel]; [lia|]. exists c1.
    split; [done|]. split; [apply length_insert|]. split; [|intros; apply Hc1; lia].
    intros j Hj. assert (j = h) as -> by lia. by rewrite Nat.sub_diag.
  - destruct (entry_parent t Ht p b Hp ltac:(lia)) as (q&bq&Eq&Hq&Hhq). rewrite Eq.
    destruct (IH q bq c1 Hq) as (c'&Hc'&Hlen'&Hlo&Hhi); [unfold c1; rewrite length_insert; lia|lia| |].
    { intros i r Hi Hr j Hj. rewrite Hc1 in Hr |- * by lia. apply Hcl; [lia|done|lia]. }
    exists c'. split; [done|]. split; [by rewrite Hlen'; apply length_insert|].
    assert (Hup : ∀ k, up (S k) t p = up k t q) by (intros k; simpl; rewrite Hp; simpl; by rewrite Eq).
    split; intros j Hj.
    + destruct (decide (j = h)) as [->|]; [rewrite Hhi, Hh, Nat.sub_diag by lia; done|].
      rewrite Hlo by lia. f_equal. rewrite <- Hup. f_equal. lia.
    + rewrite Hhi by lia. apply Hc1; lia.
Qed.

Lemma chain_ok_below c n : chain_ok t c → ∀ i q, resize n None c !! i = Some (Some q) →
  ∀ j, (j ≤ i)%nat → resize n None c !! j = Some (up (i - j) t q).
Proof.
  intros Hc i q Hi j Hj.
  assert (i < n)%nat. { apply lookup_lt_Some in Hi. by rewrite length_resize in Hi. }
  assert (i < length c)%nat. { apply Nat.nle_gt. intros Hle. rewrite lookup_resize_new in Hi by lia. done. }
  rewrite lookup_resize in Hi |- * by lia.
  destruct Hc as [->|(tip&b&Hb&Hlen&Hc)]; [done|]. rewrite Hc in Hi |- * by lia. injection Hi as Hi. f_equal.
  replace (length c - 1 - j)%nat with (length c - 1 - i + (i - j))%nat by lia. by rewrite up_add, Hi.
Qed.

Lemma SetTip_spec c p b : chain_ok t c → t !! p = Some b → ∃ c', SetTip t c p = Some c' ∧ chain_of t p c'.
Proof using Ht.
  intros Hc Hp. unfold SetTip. rewrite Hp. cbn [mbind option_bind]. pose proof (entry_height t Ht p b Hp).
  destruct (SetTip_loop_spec (S (Z.to_nat (nHeight b + 1))) p b (resize (Z.to_nat (nHeight b + 1)) None c) Hp)
    as (c'&Hc'&Hlen&Hlo&_); [rewrite length_resize; lia|lia| |].
  { intros i q _ Hi. by apply chain_ok_below. }
  rewrite Hc'. exists c'. split; [done|]. rewrite length_resize in Hlen. exists b. split; [done|]. split; [done|].
  intros i Hi. rewrite Hlo by lia. do 2 f_equal. lia.
Qed.

(** ** [FindFork] *)
Lemma FindFork_loop_spec fuel tip c p b : chain_of t tip c → t !! p = Some b → nHeight b + 1 < Z.of_nat fuel →
  ∃ r, FindFork_loop fuel t c (Some p) = Some r ∧ last_common t p tip r.
Proof using Ht.
  intros Hc. revert p b. induction fuel as [|fuel IH]; intros p b Hp Hf;
    pose proof (entry_height t Ht p b Hp); [lia|]. cbn [FindFork_loop].
  destruct (Contains_spec tip c p b Hc Hp) as ([]&Er&Hr); rewrite Er; cbn [mbind option_bind].
  - exists (Some p). split; [done|]. split; [apply ancestor_refl|]. split; [by apply Hr|done].
  - rewrite Hp. cbn [mbind option_bind].
    assert (Hno : ∀ x, ancestor t x p → ancestor t x tip → x ≠ p) by (intros x _ Hx ->; apply Hr in Hx; done).
    destruct (decide (nHeight b = 0)) as [E|E].
    + rewrite (proj2 (entry_root t Ht p b Hp) E). destruct fuel as [|fuel]; [lia|]. exists None. split; [done|].
      intros x Hx Hx'. destruct (ancestor_uncons t p b x Hp Hx) as [?|(q&Hq&_)]; [by apply (Hno x)|].
      rewrite (proj2 (entry_root t Ht p b Hp) E) in Hq. done.
    + destruct (entry_parent t Ht p b Hp ltac:(lia)) as (q&bq&Eq&Hq&?). rewrite Eq.
      destruct (IH q bq Hq ltac:(lia)) as (r&Er'&Hl). exists r. split; [done|].
      assert (Hdown : ∀ x, ancestor t x p → ancestor t x tip → ancestor t x q).
      { intros x Hx Hx'. destruct (ancestor_uncons t p b x Hp Hx) as [?|(?&?&?)]; [by destruct (Hno x)|congruence]. }
      destruct r as [a|]; simpl in *; [|naive_solver].
      destruct Hl as (Ha&Hb&Hl). split; [by eapply ancestor_cons|]. split; [done|]. auto.
Qed.
Lemma FindFork_spec tip c p b : chain_of t tip c → t !! p = Some b →
  ∃ r, FindFork t c (Some p) = Some r ∧ last_common t p tip r.
Proof using Ht.
  intros Hc Hp. unfold FindFork. rewrite Hp. cbn [mbind option_bind]. pose proof Hc as (bt&Hbt&Hlen&_).
  pose proof (entry_height t Ht p b Hp). pose proof (entry_height t Ht tip bt Hbt).
  assert (HH : Height c = nHeight bt) by (unfold Height; lia). rewrite HH.
  destruct (Z.ltb_spec (nHeight bt) (nHeight b)); [|apply (FindFork_loop_spec _ tip c p b Hc Hp); lia].
  rewrite (GetAncestor_spec t Ht p b _ Hp).
  destruct (Z.leb_spec 0 (nHeight bt)), (Z.leb_spec (nHeight bt) (nHeight b)); try lia. cbn [andb mbind option_bind].
  destruct (up_total t Ht (Z.to_nat (nHeight b - nHeight bt)) p b Hp ltac:(lia)) as (a&ba&Eu&Ha&Hha). rewrite Eu.
  destruct (FindFork_loop_spec (S (S (Z.to_nat (nHeight b)))) tip c a ba Hc Ha ltac:(lia)) as (r&Er&Hl).
  rewrite Er. exists r. split; [done|]. apply (last_common_lower t Ht p b a ba tip bt); auto; [by eexists|lia].
Qed.

(** ** [GetLocator] *)
Lemma next_locator c p b h : chain_ok t c → t !! p = Some b → 0 <= h <= nHeight b →
  (r ← Contains t c p; if r : bool then Some (at_height c h) else GetAncestor t p h) =
  Some (up (Z.to_nat (nHeight b - h)) t p).
Proof using Ht.
  intros Hc Hp Hh.
  assert (Hanc : GetAncestor t p h = Some (up (Z.to_nat (nHeight b - h)) t p)).
  { rewrite (GetAncestor_spec t Ht p b _ Hp). destruct (Z.leb_spec 0 h), (Z.leb_spec h (nHeight b)); try lia; done. }
  destruct Hc as [->|(tip&Hc)]; [rewrite (Contains_nil p b Hp); exact Hanc|].
  destruct (Contains_spec tip c p b Hc Hp) as ([]&Er&Hr); rewrite Er; cbn [mbind option_bind]; [|exact Hanc].
  pose proof Hc as (bt&Hbt&_). rewrite (at_height_spec tip bt c h Hc Hbt). f_equal.
  destruct (ancestor_height t Ht tip bt p Hbt ltac:(by apply Hr)) as (b'&Hp'&?&Hu). assert (b' = b) as -> by congruence.
  destruct (Z.leb_spec 0 h), (Z.leb_spec h (nHeight bt)); try lia. cbn [andb].
  replace (Z.to_nat (nHeight bt - h)) with (Z.to_nat (nHeight bt - nHeight b) + Z.to_nat (nHeight b - h))%nat by lia.
  by rewrite up_add, Hu.
Qed.

(** What a locator built from [p0] holds from its [s]th entry on. *)
Definition locator_from (s : nat) (p0 : ptr) (h0 : Z) (l : list ptr) : Prop :=
  (0 < length l)%nat ∧
  (∀ i, (i < length l)%nat → l !! i = up (Z.to_nat (h0 - Z.max 0 (h0 - locator_offset (s + i)))) t p0) ∧
  (∀ i, (S i < length l)%nat → locator_offset (s + i) < h0) ∧ h0 <= locator_offset (s + (length l - 1)).

Lemma GetLocator_loop_spec fuel c p0 b0 : chain_ok t c → t !! p0 = Some b0 → ∀ p b s,
  t !! p = Some b → ancestor t p p0 → nHeight b = Z.max 0 (nHeight b0 - locator_offset s) → nHeight b < Z.of_nat fuel →
  ∃ l, GetLocator_loop fuel t c (Some p) (locator_step s) s = Some l ∧ locator_from s p0 (nHeight b0) l.
Proof using Ht.
  intros Hc Hp0. induction fuel as [|fuel IH]; intros p b s Hp Ha Hs Hf;
    pose proof (entry_height t Ht p b Hp); [lia|].
  destruct (ancestor_height t Ht p0 b0 p Hp0 Ha) as (b'&Hp'&?&Hu). assert (b' = b) as -> by congruence.
  cbn [GetLocator_loop]. rewrite Hp. cbn [mbind option_bind].
  destruct (Z.eqb_spec (nHeight b) 0) as [E|E].
  { exists [p]. split; [done|]. split_and!; simpl; [lia| |lia|rewrite Nat.add_0_r; lia].
    intros i Hi. assert (i = 0%nat) as -> by lia. rewrite Nat.add_0_r, <- Hs, E. simpl. rewrite <- Hu. by rewrite E. }
  pose proof (locator_step_pos s). pose proof (locator_offset_S s) as HoS.
  set (h := Z.max (nHeight b - locator_step s) 0).
  pose proof (next_locator c p b h Hc Hp ltac:(lia)) as Hnext.
  destruct (Contains t c p) as [r|]; cbn [mbind option_bind] in Hnext |- *; [|done]. rewrite Hnext. cbn [mbind option_bind].
  rewrite <- locator_step_S.
  destruct (up_total t Ht (Z.to_nat (nHeight b - h)) p b Hp ltac:(lia)) as (q&bq&Eq&Hq&Hhq). rewrite Eq.
  destruct (IH q bq (S s) Hq) as (l&Hl&Hlen&Hat&Hlt&Hge); [|lia|lia|].
  { apply (ancestor_trans t q p p0); [by eexists|done]. }
  rewrite Hl. cbn [mbind option_bind]. exists (p :: l). split; [done|]. split_and!; simpl; [lia|..].
  - intros [|i] Hi; [simpl; rewrite Nat.add_0_r, <- Hs; by symmetry|].
    simpl. rewrite Hat by lia. by rewrite <- Nat.add_succ_comm.
  - intros [|i] Hi; [rewrite Nat.add_0_r; lia|]. rewrite <- Nat.add_succ_comm. apply Hlt. lia.
  - rewrite Nat.sub_0_r. replace (s + length l)%nat with (S s + (length l - 1))%nat by lia. done.
Qed.
Lemma GetLocator_spec c p b : chain_ok t c → t !! p = Some b →
  ∃ l, GetLocator t c (Some p) = Some l ∧ locator_from 0 p (nHeight b) l.
Proof using Ht.
  intros Hc Hp. unfold GetLocator. rewrite Hp. cbn [mbind option_bind]. pose proof (entry_height t Ht p b Hp).
  apply (GetLocator_loop_spec _ c p b Hc Hp p b 0 Hp (ancestor_refl t p)); [|lia].
  unfold locator_offset. simpl. lia.
Qed.

(** ** Times *)
Lemma TimeMax_up n p b q bq : t !! p = Some b → up n t p = Some q → t !! q = Some bq → nTimeMax bq <= nTimeMax b.
Proof using Ht.
  revert p b. induction n as [|n IH]; intros p b Hp Hu Hq; simpl in Hu; [simplify_eq; lia|].
  rewrite Hp in Hu. simpl in Hu. destruct (Ht p b Hp) as [_ _ _ H]. destruct (pprev b) as [r|]; simpl in Hu; [|done].
  destruct H as (br&Hr&_&_&_&Hmax&_). specialize (IH r br Hr Hu Hq). lia.
Qed.

(** The predicate of the search, at a height of the chain. *)
Lemma time_before_spec tip bt c time height i : chain_of t tip c → t !! tip = Some bt → (i < length c)%nat →
  ∃ q bq, c !! i = Some (Some q) ∧ up (Z.to_nat (nHeight bt) - i) t tip = Some q ∧ t !! q = Some bq ∧ nHeight bq = Z.of_nat i ∧
    time_before t c time height i = Some ((nTimeMax bq <? time) || (Z.of_nat i <? height)).
Proof using Ht.
  intros (b'&Hb'&Hlen&Hc) Hbt Hi. assert (b' = bt) as -> by congruence. pose proof (entry_height t Ht tip bt Hbt).
  destruct (up_total t Ht (length c - 1 - i) tip bt Hbt ltac:(lia)) as (q&bq&Eu&Hq&Hh).
  assert (Hb : nHeight bq = Z.of_nat i) by lia. exists q, bq.
  unfold time_before. rewrite Hc, Eu by done. cbn [mbind option_bind]. rewrite Hq. cbn [mbind option_bind].
  unfold GetBlockTimeMax. rewrite Hb. split_and!; [done| |done|done|done].
  rewrite <- Eu. f_equal. lia.
Qed.
Lemma FindEarliestAtLeast_spec tip c time height : chain_of t tip c →
  ∃ k, FindEarliestAtLeast t c time height = Some (mjoin (c !! k)) ∧ (k ≤ length c)%nat ∧
    ∀ i q bq, c !! i = Some (Some q) → t !! q = Some bq → ((k ≤ i)%nat ↔ time <= nTimeMax bq ∧ height <= nHeight bq).
Proof using Ht.
  intros Hc. pose proof Hc as (bt&Hbt&Hlen&_). pose proof (entry_height t Ht tip bt Hbt). unfold FindEarliestAtLeast.
  destruct (lower_bound_spec (S (length c)) (time_before t c time height) 0 (length c)) as (k&Hk&Hr&Hlo&Hhi); [lia|..].
  { intros j Hj. destruct (time_before_spec tip bt c time height j Hc Hbt ltac:(lia)) as (q&bq&_&_&_&_&E). by eexists. }
  { intros i j Hij Hj Hbj.
    destruct (time_before_spec tip bt c time height i Hc Hbt ltac:(lia)) as (qi&bi&_&Eui&Hqi&Hhi&Ei).
    destruct (time_before_spec tip bt c time height j Hc Hbt ltac:(lia)) as (qj&bj&_&Euj&Hqj&Hhj&Ej).
    assert (nTimeMax bi <= nTimeMax bj).
    { replace (Z.to_nat (nHeight bt) - i)%nat with (Z.to_nat (nHeight bt) - j + (j - i))%nat in Eui by lia.
      rewrite up_add, Euj in Eui. by apply (TimeMax_up (j - i) qj bj qi bi). }
    rewrite Ej in Hbj. injection Hbj as Hbj. rewrite Ei. f_equal. apply orb_true_iff. apply orb_true_iff in Hbj. lia. }
  rewrite Hk. exists k. split; [done|]. split; [lia|]. intros i q bq Hi Hq.
  pose proof (lookup_lt_Some _ _ _ Hi) as Hil.
  destruct (time_before_spec tip bt c time height i Hc Hbt Hil) as (q'&bq'&Hi'&_&Hq'&Hh&E).
  assert (q' = q) as -> by congruence. assert (bq' = bq) as -> by congruence.
  destruct (decide (k ≤ i)%nat) as [Hki|Hki].
  - rewrite (Hhi i ltac:(lia)) in E. injection E as E. symmetry in E. apply orb_false_iff in E. split; lia.
  - rewrite (Hlo i ltac:(lia)) in E. injection E as E. symmetry in E. apply orb_true_iff in E. split; lia.
Qed.

(** The maximal time is that of some block at or below. *)
Lemma TimeMax_iff time p b : t !! p = Some b → time <= nTimeMax b ↔ ∃ a ba, ancestor t a p ∧ t !! a = Some ba ∧ time <= nTime ba.
Proof using Ht.
  intros Hp. pose proof (entry_height t Ht p b Hp) as Hh. remember (Z.to_nat (nHeight b)) as n eqn:Hn.
  revert p b Hp Hh Hn. induction n as [n IH] using lt_wf_ind. intros p b Hp Hh Hn.
  destruct (Ht p b Hp) as [_ _ _ He]. destruct (pprev b) as [q|] eqn:Eq.
  - destruct He as (bq&Hq&Hq0&Hhq&_&->&_). specialize (IH (Z.to_nat (nHeight bq)) ltac:(lia) q bq Hq Hq0 eq_refl).
    rewrite Z.max_le_iff, IH. split.
    + intros [(a&ba&Ha&Hba&Hle)|Hle]; [exists a, ba; split; [by apply (ancestor_cons t p b q a)|done]|].
      exists p, b. split; [apply ancestor_refl|done].
    + intros (a&ba&Ha&Hba&Hle). destruct (ancestor_uncons t p b a Hp Ha) as [->|(q'&Eq'&Ha')].
      * right. by simplify_eq.
      * left. simplify_eq. by exists a, ba.
  - destruct He as (_&_&->&_). split.
    + intros Hle. exists p, b. split; [apply ancestor_refl|done].
    + intros (a&ba&Ha&Hba&Hle). destruct (ancestor_uncons t p b a Hp Ha) as [->|(q'&Eq'&Ha')]; [|congruence].
      assert (ba = b) as -> by congruence. done.
Qed.
(** A block of the active chain and its parent. *)
Lemma chain_parent tip c i q bq q' : chain_of t tip c → c !! i = Some (Some q) → t !! q = Some bq → pprev bq = Some q' →
  ∃ j, i = S j ∧ c !! j = Some (Some q').
Proof using Ht.
  intros Hc Hi Hq Eq. pose proof Hc as (bt&Hbt&Hlen&Hat). pose proof (lookup_lt_Some _ _ _ Hi) as Hil.
  assert (up (length c - 1 - i) t tip = Some q) as Hu by (rewrite Hat in Hi by done; congruence).
  destruct (up_height t Ht _ tip bt q Hbt Hu) as (bq'&Hq'&Hh). simplify_eq.
  destruct (Ht q bq Hq) as [_ _ _ He]. rewrite Eq in He. destruct He as (b'&Hb'&Hb0&Hhb&_).
  pose proof (entry_height t Ht tip bt Hbt).
  exists (i - 1)%nat. split; [lia|]. rewrite Hat by lia. f_equal.
  replace (length c - 1 - (i - 1))%nat with (length c - 1 - i + 1)%nat by lia.
  rewrite up_add, Hu. cbn. rewrite Hq. cbn. by rewrite Eq.
Qed.

Lemma past_times_spec k p b : t !! p = Some b →
  ∃ l, past_times k t (Some p) = Some l ∧ length l = Nat.min k (Z.to_nat (nHeight b + 1)) ∧
    ∀ i x, l !! i = Some x → ∃ q bq, up i t p = Some q ∧ t !! q = Some bq ∧ x = nTime bq.
Proof using Ht.
  revert p b. induction k as [|k IH]; intros p b Hp; [by exists []|]. cbn [past_times]. rewrite Hp. cbn [mbind option_bind].
  pose proof (entry_height t Ht p b Hp). destruct (decide (nHeight b = 0)) as [E|E].
  - rewrite (proj2 (entry_root t Ht p b Hp) E). exists [GetBlockTime b].
    split; [by destruct k|]. split; [cbn [length]; lia|]. intros [|i] x; [|done]. intros [= <-]. by exists p, b.
  - destruct (entry_parent t Ht p b Hp ltac:(lia)) as (q&bq&Eq&Hq&?). rewrite Eq.
    destruct (IH q bq Hq) as (l&Hl&Hlen&Hat). rewrite Hl. cbn [mbind option_bind]. exists (GetBlockTime b :: l).
    split; [done|]. split; [cbn [length]; lia|]. intros [|i] x; [intros [= <-]; by exists p, b|].
    intros Hx. destruct (Hat i x Hx) as (r&br&?&?&?). exists r, br. simpl. rewrite Hp. simpl. by rewrite Eq.
Qed.
End active.

(** ** The median *)
Lemma filter_none {A} (P : A → Prop) `{∀ x, Decision (P x)} l : (∀ x, x ∈ l → ¬ P x) → filter P l = [].
Proof.
  intros Hl. destruct (filter P l) as [|x l'] eqn:E; [done|]. exfalso.
  assert (x ∈ filter P l) as [? ?]%list_elem_of_filter by (rewrite E; left). by apply (Hl x).
Qed.
Lemma sorted_below (s : list Z) (k : nat) (m : Z) : StronglySorted Z.le s → s !! k = Some m →
  (length (filter (λ x : Z, (x < m)%Z) s) ≤ k)%nat ∧ (length (filter (λ x : Z, (m < x)%Z) s) ≤ length s - k - 1)%nat.
Proof.
  intros Hs Hm. pose proof (take_drop_middle s k m Hm) as E. pose proof (lookup_lt_Some _ _ _ Hm) as Hk.
  rewrite <- E, StronglySorted_app, StronglySorted_cons in Hs. destruct Hs as (H1&_&H2&_). rewrite Forall_forall in H2.
  rewrite <- E, !filter_app, !length_app. split.
  - rewrite (filter_none _ (m :: drop (S k) s)).
    + etrans; [apply Nat.add_le_mono; [apply length_filter|apply Nat.le_refl]|]. rewrite length_take. simpl. lia.
    + intros x Hx. apply elem_of_cons in Hx as [->|Hx]; [lia|]. specialize (H2 x Hx). lia.
  - rewrite (filter_none _ (take k s)) by (intros x Hx; specialize (H1 x m Hx ltac:(left)); lia).
    rewrite filter_cons_False by lia. cbn [length]. etrans; [apply Nat.add_le_mono; [apply Nat.le_refl|apply length_filter]|].
    rewrite length_take, length_drop. lia.
Qed.

(** ** Statements *)

(** C22: [GetAncestor] returns the block reached by following [pprev] down to the
    height asked for, and a null pointer for heights the block does not
    descend from; no walk fails an assertion or follows a null pointer.
    [LastCommonAncestor] returns the last block both arguments descend from,
    or null when they descend from different roots. *)
Theorem ancestors_correct t p bp q bq h : tree_ok t → t !! p = Some bp → t !! q = Some bq →
  GetAncestor t p h = Some (if (0 <=? h) && (h <=? nHeight bp) then up (Z.to_nat (nHeight bp - h)) t p else None) ∧
  (0 <= h <= nHeight bp → ∃ a ba, GetAncestor t p h = Some (Some a) ∧ t !! a = Some ba ∧ nHeight ba = h ∧ ancestor t a p) ∧
  ∃ r, LastCommonAncestor t p q = Some r ∧ last_common t p q r.
Proof.
  intros Ht Hp Hq. pose proof (GetAncestor_spec t Ht p bp h Hp) as E. split; [done|].
  split; [|by apply (LastCommonAncestor_spec t Ht p bp q bq)].
  intros Hh. destruct (up_total t Ht (Z.to_nat (nHeight bp - h)) p bp Hp ltac:(lia)) as (a&ba&Eu&Ha&Hha). exists a, ba.
  rewrite E. destruct (Z.leb_spec 0 h), (Z.leb_spec h (nHeight bp)); try lia. simpl.
  split_and!; [by rewrite Eu|done|lia|by eexists].
Qed.
Lemma ancestors_correct_witness :
  GetAncestor sample_tree 21 5 = Some (Some 6) ∧ LastCommonAncestor sample_tree 102 20 = Some (Some 11).
Proof.
  destruct (sample_tree !! 21) as [b1|] eqn:E1; [|vm_compute in E1; discriminate].
  destruct (sample_tree !! 20) as [b2|] eqn:E2; [|vm_compute in E2; discriminate].
  destruct (sample_tree !! 102) as [b3|] eqn:E3; [|vm_compute in E3; discriminate].
  split.
  - transitivity (Some (if (0 <=? 5) && (5 <=? nHeight b1) then up (Z.to_nat (nHeight b1 - 5)) sample_tree 21 else None)).
    + exact (proj1 (ancestors_correct sample_tree 21 b1 20 b2 5 (mo_tree _ sample_ok) E1 E2)).
    + vm_compute in E1. injection E1 as <-. vm_compute. reflexivity.
  - destruct (ancestors_correct sample_tree 102 b3 20 b2 0 (mo_tree _ sample_ok) E3 E2) as (_&_&r&Er&_).
    rewrite Er. vm_compute in Er. congruence.
Defined.

(** C21: the active chain.  From any well-formed chain [SetTip] installs exactly
    the ancestors of the new tip, each at the position of its height, however
    the old and the new chain fork; [Contains] then decides descent of the
    tip, [at_height] is [GetAncestor] of the tip, and [FindFork] agrees with
    [LastCommonAncestor]. *)
Theorem SetTip_installs_ancestors t c tip bt p bp h : tree_ok t → chain_ok t c → t !! tip = Some bt → t !! p = Some bp →
  ∃ c', SetTip t c tip = Some c' ∧ chain_of t tip c' ∧ Tip c' = Some tip ∧ Height c' = nHeight bt ∧
    Some (at_height c' h) = GetAncestor t tip h ∧
    (∃ r, Contains t c' p = Some r ∧ (r = true ↔ ancestor t p tip)) ∧
    FindFork t c' (Some p) = LastCommonAncestor t p tip.
Proof.
  intros Ht Hc Hbt Hp. destruct (SetTip_spec t Ht c tip bt Hc Hbt) as (c'&E&Hc'). exists c'.
  destruct (FindFork_spec t Ht tip c' p bp Hc' Hp) as (r&Ef&Hf), (LastCommonAncestor_spec t Ht p bp tip bt Hp Hbt) as (r'&El&Hl).
  pose proof Hc' as (b'&Hb'&Hlen&_). assert (b' = bt) as -> by congruence. pose proof (entry_height t Ht tip bt Hbt).
  split_and!; [done|done|by apply (chain_of_tip t Ht)|unfold Height; lia| | |].
  - rewrite (at_height_spec t Ht tip bt c' h Hc' Hbt). symmetry. by apply GetAncestor_spec.
  - by apply (Contains_spec t Ht tip c' p bp).
  - rewrite Ef, El. f_equal. by apply (last_common_unique t Ht p bp tip).
Qed.
Lemma SetTip_installs_ancestors_witness :
  ∃ c c', SetTip sample_tree [] 20 = Some c ∧ SetTip sample_tree c 102 = Some c' ∧ chain_of sample_tree 102 c' ∧
    FindFork sample_tree c' (Some 20) = Some (Some 11).
Proof.
  destruct (sample_tree !! 20) as [b2|] eqn:E2; [|vm_compute in E2; discriminate].
  destruct (sample_tree !! 102) as [b3|] eqn:E3; [|vm_compute in E3; discriminate].
  destruct (SetTip_installs_ancestors sample_tree [] 20 b2 20 b2 0 (mo_tree _ sample_ok) (or_introl eq_refl) E2 E2) as (c&Ec&Hc&_).
  destruct (SetTip_installs_ancestors sample_tree c 102 b3 20 b2 0 (mo_tree _ sample_ok) (or_intror (ex_intro _ 20 Hc)) E3 E2)
    as (c'&Ec'&Hc'&_&_&_&_&Ef).
  exists c, c'. split; [exact Ec|]. split; [exact Ec'|]. split; [exact Hc'|]. rewrite Ef. vm_compute. reflexivity.
Defined.

(** C23: a block locator starts at the block it is made for and ends at height
    zero; its first twelve entries are consecutive ancestors and after that
    the distance doubles, so the [i]th entry is the ancestor at distance
    [9 + 2^(i-10)] and the number of entries is logarithmic in the height. *)
Theorem GetLocator_exponential t c p b : tree_ok t → chain_ok t c → t !! p = Some b →
  ∃ l, GetLocator t c (Some p) = Some l ∧ locator_from t 0 p (nHeight b) l ∧ l !! 0%nat = Some p ∧
    (∃ g bg, last l = Some g ∧ t !! g = Some bg ∧ nHeight bg = 0) ∧
    (1 <= nHeight b → Z.of_nat (length l) <= 14 + Z.log2 (nHeight b)).
Proof.
  intros Ht Hc Hp. destruct (GetLocator_spec t Ht c p b Hc Hp) as (l&E&Hl). exists l. pose proof (entry_height t Ht p b Hp).
  split_and!; [done|done|..]; destruct Hl as (Hlen&Hat&Hlt&Hge).
  - rewrite Hat by done. change (locator_offset (0 + 0)) with 0.
    by replace (Z.to_nat (nHeight b - Z.max 0 (nHeight b - 0))) with 0%nat by lia.
  - destruct (up_total t Ht (Z.to_nat (nHeight b - 0)) p b Hp ltac:(lia)) as (g&bg&Eu&Hg&Hh). exists g, bg.
    rewrite last_lookup, Hat by lia. replace (0 + pred (length l))%nat with (length l - 1)%nat by lia. simpl in Hge.
    replace (Z.max 0 _) with 0 by lia. split_and!; [done|done|lia].
  - intros Hh. destruct (decide (length l ≤ 13)%nat); [pose proof (Z.log2_nonneg (nHeight b)); lia|].
    specialize (Hlt (length l - 2)%nat ltac:(lia)). unfold locator_offset in Hlt. destruct (Nat.leb_spec (0 + (length l - 2)) 11); [lia|].
    replace (Z.of_nat (0 + (length l - 2)) - 10) with (Z.of_nat (length l) - 12) in Hlt by lia.
    assert (Z.of_nat (length l) - 12 <= Z.log2 (nHeight b)) by (apply Z.log2_le_pow2; lia). lia.
Qed.
Lemma GetLocator_exponential_witness : ∃ l, GetLocator sample_tree [] (Some 21) = Some l ∧ last l = Some 1.
Proof.
  destruct (sample_tree !! 21) as [b|] eqn:E; [|vm_compute in E; discriminate].
  destruct (GetLocator_exponential sample_tree [] 21 b (mo_tree _ sample_ok) (or_introl eq_refl) E) as (l&El&_).
  exists l. split; [exact El|]. vm_compute in El. injection El as <-. reflexivity.
Defined.

(** C24: times.  The median time of a block is one of the times of the last
    eleven blocks of its chain, with at most half of them smaller and at most
    half larger.  [FindEarliestAtLeast] returns the lowest block of the active
    chain of at least the given height such that it or a block below it has at
    least the given timestamp: the search by halving is right because the
    maximal times it looks at do not decrease.  The timestamp of the block
    itself, which the comment in [chain.h] names, is at least the given one
    when no height is asked for. *)
Theorem chain_times_correct t tip c p b time height : tree_ok t → t !! p = Some b → chain_of t tip c →
  (∃ l m, past_times nMedianTimeSpan t (Some p) = Some l ∧ length l = Nat.min 11 (Z.to_nat (nHeight b + 1)) ∧
     (∀ i x, l !! i = Some x → ∃ q bq, up i t p = Some q ∧ t !! q = Some bq ∧ x = nTime bq) ∧
     GetMedianTimePast t p = Some m ∧ m ∈ l ∧
     (length (filter (λ x : Z, (x < m)%Z) l) ≤ length l / 2)%nat ∧
     (length (filter (λ x : Z, (m < x)%Z) l) ≤ length l / 2)%nat) ∧
  (∃ k, FindEarliestAtLeast t c time height = Some (mjoin (c !! k)) ∧ (k ≤ length c)%nat ∧
    (∀ i q bq, c !! i = Some (Some q) → t !! q = Some bq →
      ((k ≤ i)%nat ↔ height <= nHeight bq ∧ ∃ a ba, ancestor t a q ∧ t !! a = Some ba ∧ time <= nTime ba)) ∧
    (height <= 0 → ∀ q bq, c !! k = Some (Some q) → t !! q = Some bq → time <= nTime bq)).
Proof.
  intros Ht Hp Hc. split.
  2:{ destruct (FindEarliestAtLeast_spec t Ht tip c time height Hc) as (k&Ek&Hk&Hiff). exists k. split; [done|]. split; [done|].
      assert (∀ i q bq, c !! i = Some (Some q) → t !! q = Some bq →
        ((k ≤ i)%nat ↔ height <= nHeight bq ∧ ∃ a ba, ancestor t a q ∧ t !! a = Some ba ∧ time <= nTime ba)) as Hspec.
      { intros i q bq Hi Hq. rewrite (Hiff i q bq Hi Hq), <- (TimeMax_iff t Ht time q bq Hq). tauto. }
      split; [done|]. intros H0 q bq Hq Hbq. destruct (proj1 (Hspec k q bq Hq Hbq) (le_n k)) as [_ (a&ba&Ha&Hba&Hle)].
      destruct (ancestor_uncons t q bq a Hbq Ha) as [->|(q'&Eq'&Ha')]; [by simplify_eq|].
      destruct (chain_parent t Ht tip c k q bq q' Hc Hq Hbq Eq') as (j&->&Hj).
      destruct (Ht q bq Hbq) as [_ _ _ He]. rewrite Eq' in He. destruct He as (b'&Hb'&Hb0&_).
      assert (S j ≤ j)%nat; [|lia]. apply (Hspec j q' b' Hj Hb'). split; [lia|by exists a, ba]. }
  pose proof (entry_height t Ht p b Hp). destruct (past_times_spec t Ht nMedianTimeSpan p b Hp) as (l&El&Hlen&Hat).
  unfold nMedianTimeSpan in Hlen. unfold GetMedianTimePast. rewrite El. cbn [mbind option_bind].
  set (s := merge_sort Z.le (reverse l)).
  assert (Hperm : s ≡ₚ l) by (unfold s; rewrite merge_sort_Permutation; apply reverse_Permutation).
  assert (Hs : StronglySorted Z.le s) by (apply StronglySorted_merge_sort; [intros x y z; lia|intros x y; lia]).
  pose proof (Permutation_length Hperm) as Hls. pose proof (Nat.div_lt (length l) 2 ltac:(lia) ltac:(lia)).
  destruct (lookup_lt_is_Some_2 s (length l / 2)) as [m Hm]; [lia|]. exists l, m.
  destruct (sorted_below s _ m Hs Hm) as [H1 H2]. rewrite Hls in H2. rewrite (filter_Permutation _ s l Hperm) in H1.
  rewrite (filter_Permutation _ s l Hperm) in H2.
  split_and!; [done|done|done|done|rewrite <- Hperm; by eapply list_elem_of_lookup_2|done|].
  pose proof (Nat.div_mod_eq (length l) 2). pose proof (Nat.mod_upper_bound (length l) 2 ltac:(lia)). lia.
Qed.
Lemma chain_times_correct_witness :
  ∃ c, SetTip sample_tree [] 21 = Some c ∧ GetMedianTimePast sample_tree 20 = Some 1840 ∧
    FindEarliestAtLeast sample_tree c 1250 3 = Some (Some 6).
Proof.
  destruct (sample_tree !! 21) as [b|] eqn:E; [|vm_compute in E; discriminate].
  destruct (sample_tree !! 20) as [b2|] eqn:E2; [|vm_compute in E2; discriminate].
  destruct (SetTip_spec sample_tree (mo_tree _ sample_ok) [] 21 b (or_introl eq_refl) E) as (c&Ec&Hc). exists c. split; [exact Ec|].
  destruct (chain_times_correct sample_tree 21 c 20 b2 1250 3 (mo_tree _ sample_ok) E2 Hc) as [(l&m&_&_&_&Em&_) (k&Ek&_)].
  split; [rewrite Em; vm_compute in Em; congruence|]. clear Ek. vm_compute in Ec. injection Ec as <-. vm_compute. reflexivity.
Defined.
