(* ===== verification/Double.v ===== *)
(** * Double precision

    The binary64 operations of the C++ code, by the reference definitions of
    the Standard Library's [SpecFloat] (round to nearest even); [pow] is the
    one function of the mathematical library the code calls, a parameter. *)
From S2P Require Import Prelude.
From Stdlib Require Import SpecFloat.
Local Open Scope Z_scope.

Definition double : Type := spec_float.
Definition dprec : Z := 53.
Definition demax : Z := 1024.

(** [double (n)] for an integer. *)
Definition double_of (n : Z) : double :=
  match n with
  | Z0 => S754_zero false
  | Zpos m => binary_normalize dprec demax (Zpos m) 0 false
  | Zneg m => binary_normalize dprec demax (Zneg m) 0 true
  end.
Definition dmul (x y : double) : double := SFmul dprec demax x y.
Definition ddiv (x y : double) : double := SFdiv dprec demax x y.
Definition dadd (x y : double) : double := SFadd dprec demax x y.
Definition dle (x y : double) : bool := SFleb x y.

(** The literal [n / d]: both are exact, so the quotient is the nearest double. *)
Definition dlit (n d : Z) : double := ddiv (double_of n) (double_of d).

(** Conversion to an integer: towards zero; [None] where it is undefined. *)
Definition trunc (x : double) : option Z :=
  match x with
  | S754_zero _ => Some 0
  | S754_finite s m e =>
      let v := if 0 <=? e then Zpos m * 2 ^ e else Zpos m `div` 2 ^ (- e) in
      Some (if s then - v else v)
  | _ => None
  end.

Class LibM := { pow : double → double → double }.
(** A stand-in, for examples whose result does not depend on it. *)
Definition sample_libm : LibM := {| pow x _ := x |}.
