(* ===== verification/Pow.v ===== *)
(** * Difficulty and proof of work

    [src/src/pow.cpp].  [None] is a failing assertion, a null pointer or an
    exception; [bnNew *= n] with a signed 64-bit [n] picks the 32-bit overload
    of the operator, and [/= n] the conversion from 64 bits. *)
From S2P Require Import Prelude Sysendian Limbs ArithUint Params Chain Double.
Local Open Scope Z_scope.

(** ** Kimoto Gravity Well *)
Record kgw := mkKgw {
  kg_mass : Z; kg_actual : Z; kg_target : Z; kg_ratio : double; kg_avg : arith_uint256; kg_prev : arith_uint256
}.

Section KGW.
Context `{LibM}.

(** The running average of the targets, at turn [i]. *)
Definition kgw_average (avg prev : arith_uint256) (i : Z) : option arith_uint256 :=
  if 1 <? i then
    if op_ge avg prev then q ← op_div (op_sub avg prev) (base_uint_u64 i); Some (op_add q prev)
    else q ← op_div (op_sub prev avg) (base_uint_u64 i); Some (op_sub prev q)
  else Some avg.

Fixpoint kgw_loop (fuel : nat) (t : block_tree) (BlockLastSolved : CBlockIndex) (reading : option ptr)
    (i nTargetSpacing PastBlocksMin PastBlocksMax : Z) (s : kgw) : option kgw :=
  match fuel with
  | O => None
  | S fuel =>
      match reading with
      | None => Some s
      | Some p =>
          b ← t !! p;
          if nHeight b <=? 0 then Some s
          else if (0 <? PastBlocksMax) && (PastBlocksMax <? i) then Some s else
          let mass := kg_mass s + 1 in
          avg ← kgw_average (cp_value (SetCompact (nBits b))) (kg_prev s) i;
          let actual := GetBlockTime BlockLastSolved - GetBlockTime b in
          let target := nTargetSpacing * mass in
          let actual := if actual <? 0 then 0 else actual in
          let ratio := if negb (actual =? 0) && negb (target =? 0)
                       then ddiv (double_of target) (double_of actual) else double_of 1 in
          let dev := dadd (double_of 1) (dmul (dlit 7084 10000)
                       (pow (ddiv (double_of mass) (dlit 282 10)) (dlit (-1228) 1000))) in
          let s := mkKgw mass actual target ratio avg avg in
          if (PastBlocksMin <=? mass) && (dle ratio (ddiv (double_of 1) dev) || dle dev ratio) then Some s
          else match pprev b with
               | None => Some s
               | Some q => kgw_loop fuel t BlockLastSolved (Some q) (i + 1) nTargetSpacing PastBlocksMin PastBlocksMax s
               end
      end
  end.

(** Scaling the average by the time the blocks took. *)
Definition retarget (bn : arith_uint256) (actual target : Z) : option arith_uint256 :=
  op_div (op_mul32 bn (u32 actual)) (base_uint_u64 (u64 target)).
Definition limit_target (bn limit : arith_uint256) : arith_uint256 := if op_gt bn limit then limit else bn.

Definition KimotoGravityWell (t : block_tree) (pindexLast : option ptr) (P : Consensus_Params) (nTargetSpacing : Z) : option Z :=
  let limit := UintToArith256 (powLimit P) in
  pastSecondsMin ← trunc (dmul (double_of (nPowTargetTimespan P)) (dlit 25 1000));
  let pastSecondsMax := u64 (nPowTargetTimespan P * 7) in
  if nTargetSpacing =? 0 then None else
  let PastBlocksMin := u64 pastSecondsMin `div` u64 nTargetSpacing in
  let PastBlocksMax := pastSecondsMax `div` u64 nTargetSpacing in
  match pindexLast with
  | None => GetCompact limit false
  | Some p =>
      last ← t !! p;
      if (nHeight last =? 0) || (nHeight last <? PastBlocksMin) then GetCompact limit false else
      s ← kgw_loop (S (S (Z.to_nat (nHeight last)))) t last (Some p) 1 nTargetSpacing PastBlocksMin PastBlocksMax
            (mkKgw 0 0 0 (double_of 1) base_uint_zero base_uint_zero);
      bnNew ← (if negb (kg_actual s =? 0) && negb (kg_target s =? 0)
               then retarget (kg_avg s) (kg_actual s) (kg_target s) else Some (kg_avg s));
      GetCompact (limit_target bnNew limit) false
  end.
End KGW.

(** ** Dark Gravity Wave *)
Definition nPastBlocks : Z := 20.

(** [k] turns of the loop left, at turn [nCountBlocks]; the average and the
    last block read. *)
Fixpoint dgw_loop (k : nat) (t : block_tree) (pindex : ptr) (nCountBlocks : Z) (bnPastTargetAvg : arith_uint256)
    : option (arith_uint256 * CBlockIndex) :=
  match k with
  | O => None
  | S k =>
      b ← t !! pindex;
      let bnTarget := cp_value (SetCompact (nBits b)) in
      avg ← (if nCountBlocks =? 1 then Some bnTarget
             else op_div (op_add (op_mul32 bnPastTargetAvg (u32 nCountBlocks)) bnTarget)
                         (base_uint_u64 (u32 (nCountBlocks + 1))));
      if nCountBlocks =? nPastBlocks then Some (avg, b)
      else q ← pprev b; dgw_loop k t q (nCountBlocks + 1) avg
  end.

Definition clamp_timespan (nActualTimespan lo hi : Z) : Z :=
  let a := if nActualTimespan <? lo then lo else nActualTimespan in
  if hi <? a then hi else a.

Definition DarkGravityWave (t : block_tree) (pindexLast : option ptr) (P : Consensus_Params) (nTargetSpacing : Z) : option Z :=
  let bnPowLimit := UintToArith256 (powLimit P) in
  match pindexLast with
  | None => GetCompact bnPowLimit false
  | Some p =>
      last ← t !! p;
      if nHeight last <? nPastBlocks then GetCompact bnPowLimit false else
      '(avg, first) ← dgw_loop (Z.to_nat nPastBlocks) t p 1 base_uint_zero;
      let nTargetTimespan := nPastBlocks * nTargetSpacing in
      let nActualTimespan := clamp_timespan (GetBlockTime last - GetBlockTime first)
                               (nTargetTimespan `quot` 3) (nTargetTimespan * 3) in
      bnNew ← retarget avg nActualTimespan nTargetTimespan;
      GetCompact (limit_target bnNew bnPowLimit) false
  end.

(** ** The original rule *)
Definition CalculateNextWorkRequired (last : CBlockIndex) (nFirstBlockTime : Z) (P : Consensus_Params) : option Z :=
  if fPowNoRetargeting P then Some (nBits last) else
  let nActualTimespan := clamp_timespan (GetBlockTime last - nFirstBlockTime)
                           (nPowTargetTimespan P `quot` 4) (nPowTargetTimespan P * 4) in
  bnNew ← retarget (cp_value (SetCompact (nBits last))) nActualTimespan (nPowTargetTimespan P);
  GetCompact (limit_target bnNew (UintToArith256 (powLimit P))) false.

(** The last block that was not mined under the minimum-difficulty rule. *)
Fixpoint last_regular (fuel : nat) (t : block_tree) (p : ptr) (interval nProofOfWorkLimit : Z) : option Z :=
  match fuel with
  | O => None
  | S fuel =>
      b ← t !! p;
      match pprev b with
      | Some q =>
          if negb (Z.rem (nHeight b) interval =? 0) && (nBits b =? nProofOfWorkLimit)
          then last_regular fuel t q interval nProofOfWorkLimit else Some (nBits b)
      | None => Some (nBits b)
      end
  end.

Definition GetNextWorkRequiredBTC (t : block_tree) (p : ptr) (pblock : CBlockHeader) (P : Consensus_Params) : option Z :=
  last ← t !! p;
  let nTargetSpacing := PowTargetSpacing P (nHeight last + 1) in
  nProofOfWorkLimit ← GetCompact (UintToArith256 (powLimit P)) false;
  let interval := DifficultyAdjustmentInterval P in
  if interval =? 0 then None else
  if negb (Z.rem (nHeight last + 1) interval =? 0) then
    if fPowAllowMinDifficultyBlocks P then
      if GetBlockTime last + nTargetSpacing * 2 <? h_nTime pblock then Some nProofOfWorkLimit
      else last_regular (S (Z.to_nat (nHeight last))) t p interval nProofOfWorkLimit
    else Some (nBits last)
  else
    let nHeightFirst := nHeight last - (interval - 1) in
    if nHeightFirst <? 0 then None else
    r ← GetAncestor t p nHeightFirst; f ← r; first ← t !! f;
    CalculateNextWorkRequired last (GetBlockTime first) P.

(** ** The rule in force *)
Section Rule.
Context `{LibM}.

Definition GetNextWorkRequired (t : block_tree) (p : ptr) (pblock : CBlockHeader) (P : Consensus_Params) : option Z :=
  last ← t !! p;
  let nNextHeight := nHeight last + 1 in
  let nTargetSpacing := PowTargetSpacing P nNextHeight in
  let bnPowLimit := UintToArith256 (powLimit P) in
  let rest :=
    if nHeight last + 1 <? nPowKGWHeight P then GetNextWorkRequiredBTC t p pblock P
    else if fPowNoRetargeting P then GetCompact bnPowLimit false
    else
      let waves := if nHeight last + 1 <? nPowDGWHeight P then KimotoGravityWell t (Some p) P nTargetSpacing
                   else DarkGravityWave t (Some p) P nTargetSpacing in
      if fPowAllowMinDifficultyBlocks P then
        if GetBlockTime last + 2 * 60 * 60 <? h_nTime pblock then GetCompact bnPowLimit false
        else if GetBlockTime last + nTargetSpacing * 4 <? h_nTime pblock then
          GetCompact (limit_target (op_mul32 (cp_value (SetCompact (nBits last))) 10) bnPowLimit) false
        else waves
      else waves in
  if nHeight last <? nMinimumDifficultyBlocks P then GetCompact bnPowLimit false
  else if nKSHv005ForkHeight P <=? nNextHeight then
    if negb (Z.rem nNextHeight 20 =? 0) then Some (nBits last) else rest
  else if (nPowTargetTimespan P =? 20 * 60) && negb (Z.rem nNextHeight 20 =? 0) then Some (nBits last)
  else rest.
End Rule.

(** ** The check *)
Definition CheckProofOfWork (hash : list Z) (nBits : Z) (P : Consensus_Params) : bool :=
  let '(mkCompact bnTarget fNegative fOverflow) := SetCompact nBits in
  if fNegative || EqualTo bnTarget 0 || fOverflow || op_gt bnTarget (UintToArith256 (powLimit P)) then false
  else if op_gt (UintToArith256 hash) bnTarget then false
  else true.
