(* ===== verification/PowCorrect.v ===== *)
(** * Difficulty and proof of work: what the rules compute

    Targets as integers, the retargeting rules over them, and the proof that
    the required bits never exceed the limit of the network. *)
From S2P Require Import Prelude Sysendian Limbs ArithUint ArithCorrect Compact Params Chain ChainCorrect ChainIndex Double Pow.
Local Open Scope Z_scope.

(** ** Hashes as numbers *)
Lemma UintToArith256_loop_spec k l : length l = (4 * k)%nat → bytes l →
  words (UintToArith256_loop k l) ∧ length (UintToArith256_loop k l) = k ∧ val (UintToArith256_loop k l) = le_val l.
Proof.
  revert l. induction k as [|k IH]; intros l Hlen Hb; [by destruct l|].
  cbn [UintToArith256_loop limbs_val length].
  destruct (IH (drop 4 l)) as (W&L&V); [rewrite length_drop; lia|by apply Forall_drop|].
  assert (Ht : bytes (take 4 l)) by by apply Forall_take. assert (Hl4 : length (take 4 l) = 4%nat) by (rewrite length_take; lia).
  rewrite le32dec_le_val by done. rewrite V, L. split_and!; [|done|].
  - constructor; [|done]. pose proof (le_val_nonneg _ Ht). pose proof (le_val_bound _ Ht) as H4. rewrite Hl4 in H4.
    change (256 ^ Z.of_nat 4) with (2 ^ 32) in H4. unfold in_width. lia.
  - rewrite <- (take_drop 4 l) at 3. rewrite le_val_app, Hl4. change (256 ^ Z.of_nat 4) with (2 ^ 32). lia.
Qed.
Lemma UintToArith256_spec l : length l = 32%nat → bytes l →
  wf_arith (UintToArith256 l) ∧ val (UintToArith256 l) = le_val l.
Proof. intros Hl Hb. destruct (UintToArith256_loop_spec WIDTH l Hl Hb) as (W&L&V). by split; [split|]. Qed.

(** ** Bits of a target within a limit *)
Definition valid_bits (L c : Z) : Prop := is_u32 c ∧ target_ok c = true ∧ compact_val c <= L.

Lemma compact_of_valid L v : 0 < v < 2 ^ 256 → v <= L → valid_bits L (compact_of v).
Proof.
  intros Hv HL. destruct (compact_val_of v ltac:(lia)) as (H1&_&_&H4&H5&H6). specialize (H6 ltac:(lia)).
  split; [done|]. split; [|lia]. unfold target_ok. rewrite H5. zif. done.
Qed.
Lemma valid_target L c : valid_bits L c →
  wf_arith (cp_value (SetCompact c)) ∧ val (cp_value (SetCompact c)) = compact_val c ∧ 0 < compact_val c <= L.
Proof. intros (Hc&Ht&HL). destruct (target_val c Hc Ht) as (W&V&R). split_and!; [done|done|lia|done]. Qed.

Lemma limit_target_spec a l : wf_arith a → wf_arith l →
  wf_arith (limit_target a l) ∧ val (limit_target a l) = Z.min (val a) (val l).
Proof.
  intros Ha Hl. unfold limit_target. rewrite op_gt_spec by done.
  destruct (Z.ltb_spec (val l) (val a)); (split; [done|lia]).
Qed.
Lemma retarget_spec a actual target : wf_arith a → is_u32 actual → 0 < target < 2 ^ 64 →
  ∃ r, retarget a actual target = Some r ∧ wf_arith r ∧ val r = ((val a * actual) `mod` 2 ^ 256) `div` target.
Proof.
  intros Ha Hac Ht. unfold retarget. rewrite (u32_id actual Hac), (u64_id target) by (unfold in_width; lia).
  destruct (op_mul32_spec a actual Ha Hac) as [W V].
  assert (Vt : val (base_uint_u64 target) = target) by (apply val_base_uint_u64; unfold in_width; lia).
  destruct (op_div_spec (op_mul32 a actual) (base_uint_u64 target) W (wf_base_uint_u64 _) ltac:(lia)) as (q&E&Wq&Vq).
  exists q. split_and!; [done|done|]. by rewrite Vq, V, Vt.
Qed.
Lemma clamp_spec a lo hi : clamp_timespan a lo hi = Z.min (Z.max a lo) hi.
Proof. unfold clamp_timespan. destruct (Z.ltb_spec a lo), (Z.ltb_spec hi lo), (Z.ltb_spec hi a); lia. Qed.
Lemma clamp_range a lo hi : lo <= hi → lo <= clamp_timespan a lo hi <= hi.
Proof.
  intros H. rewrite clamp_spec. lia.
Qed.

(** ** The average of Dark Gravity Wave *)
Fixpoint dgw_average (n avg : Z) (l : list Z) : Z :=
  match l with
  | [] => avg
  | x :: l => dgw_average (n + 1) ((avg * n + x) `div` (n + 1)) l
  end.
Lemma dgw_average_between lo hi l : ∀ n avg, 1 <= n → lo <= avg <= hi → Forall (λ x, lo <= x <= hi) l →
  lo <= dgw_average n avg l <= hi.
Proof.
  induction l as [|x l IH]; intros n avg Hn Ha Hl; [done|]. inversion Hl as [|? ? Hx Hl']; subst. simpl.
  apply IH; [lia| |done]. split; [apply Z.div_le_lower_bound; nia|].
  apply Z.lt_succ_r, Z.div_lt_upper_bound; nia.
Qed.

Lemma dgw_average_same k : ∀ n x, 1 <= n → dgw_average n x (replicate k x) = x.
Proof.
  induction k as [|k IH]; intros n x Hn; [done|]. cbn [replicate dgw_average].
  replace (x * n + x) with (x * (n + 1)) by lia. rewrite Z.div_mul by lia. apply IH. lia.
Qed.
(** The targets of [k] blocks, the latest first. *)
Fixpoint past_targets (k : nat) (t : block_tree) (p : ptr) : option (list Z) :=
  match k with
  | O => Some []
  | S k => b ← t !! p; l ← (match k, pprev b with O, _ => Some [] | _, Some q => past_targets k t q | _, None => None end);
           Some (compact_val (nBits b) :: l)
  end.

Definition tree_valid (L : Z) (t : block_tree) : Prop := ∀ p b, t !! p = Some b → valid_bits L (nBits b).

Section dgw.
Context (L : Z) (t : block_tree) (HL : 0 < L ∧ L * 21 < 2 ^ 256) (Ht : tree_ok t) (Hv : tree_valid L t).

Lemma dgw_step b c avg : valid_bits L (nBits b) → 1 <= c <= 20 → wf_arith avg → val avg <= L →
  ∃ r, op_div (op_add (op_mul32 avg (u32 c)) (cp_value (SetCompact (nBits b)))) (base_uint_u64 (u32 (c + 1))) = Some r ∧
    wf_arith r ∧ val r = (val avg * c + compact_val (nBits b)) `div` (c + 1).
Proof using HL.
  intros Hb Hc Wa Ha. destruct (valid_target L _ Hb) as (W&V&R). pose proof (val_range avg Wa).
  rewrite !u32_id by (unfold in_width; lia).
  destruct (op_mul32_spec avg c Wa ltac:(unfold in_width; lia)) as [Wm Vm]. rewrite Z.mod_small in Vm by nia.
  destruct (op_add_spec _ _ Wm W) as [Ws Vs]. rewrite Vm, V, Z.mod_small in Vs by nia.
  assert (Vt : val (base_uint_u64 (c + 1)) = c + 1) by (apply val_base_uint_u64; unfold in_width; lia).
  destruct (op_div_spec _ (base_uint_u64 (c + 1)) Ws (wf_base_uint_u64 _) ltac:(lia)) as (q&E&Wq&Vq).
  exists q. split_and!; [done|done|]. by rewrite Vq, Vs, Vt.
Qed.

Lemma past_targets_S k p b q : t !! p = Some b → pprev b = Some q →
  past_targets (S (S k)) t p = (l ← past_targets (S k) t q; Some (compact_val (nBits b) :: l)).
Proof. intros Hp Hq. cbn [past_targets]. rewrite Hp. cbn [mbind option_bind]. rewrite Hq. done. Qed.

(** The loop from its second turn on. *)
Lemma dgw_loop_spec k p b c avg : t !! p = Some b → c + Z.of_nat k = 20 → 2 <= c → Z.of_nat k <= nHeight b →
  wf_arith avg → 0 < val avg <= L →
  ∃ r first l q, dgw_loop (S k) t p c avg = Some (r, first) ∧ past_targets (S k) t p = Some l ∧
    up k t p = Some q ∧ t !! q = Some first ∧ wf_arith r ∧ val r = dgw_average c (val avg) l ∧
    length l = S k ∧ Forall (λ x, 0 < x <= L) l.
Proof using HL Ht Hv.
  revert p b c avg. induction k as [|k IH]; intros p b c avg Hp Hc Hc2 Hh Wa Ha.
  - assert (c = 20) as -> by lia. destruct (dgw_step b 20 avg (Hv p b Hp) ltac:(lia) Wa ltac:(lia)) as (r&E&Wr&Vr).
    cbn [dgw_loop past_targets]. rewrite Hp. cbn [mbind option_bind]. change (20 =? 1) with false. cbv iota. rewrite E.
    exists r, b, [compact_val (nBits b)], p. split_and!; [done..|].
    constructor; [|constructor]. apply (valid_target L _ (Hv p b Hp)).
  - destruct (entry_parent t Ht p b Hp ltac:(lia)) as (q&bq&Eq&Hq&Hhq).
    destruct (dgw_step b c avg (Hv p b Hp) ltac:(lia) Wa ltac:(lia)) as (a&E&Wr&Vr).
    destruct (valid_target L _ (Hv p b Hp)) as (_&_&Rb).
    destruct (IH q bq (c + 1) a Hq ltac:(lia) ltac:(lia) ltac:(lia) Wr) as (r&first&l&z&El&Ep&Eu&Hz&Wz&Vz&Hl&Hf).
    { rewrite Vr. split; [apply Z.div_str_pos; nia|]. apply Z.lt_succ_r, Z.div_lt_upper_bound; nia. }
    rewrite (past_targets_S k p b q Hp Eq), Ep.
    remember (S k) as k' eqn:Ek. cbn [dgw_loop up]. rewrite Hp. cbn [mbind option_bind].
    destruct (Z.eqb_spec c 1); [lia|]. rewrite E. cbn [mbind option_bind]. unfold nPastBlocks.
    destruct (Z.eqb_spec c 20); [lia|]. rewrite Eq. cbn [mbind option_bind]. subst k'. cbn [up]. rewrite Hp. cbn [mbind option_bind].
    rewrite Eq. cbn [mbind option_bind].
    exists r, first, (compact_val (nBits b) :: l), z. split_and!; [done|done|done|done|done| |simpl; lia|by constructor].
    rewrite Vz, Vr. done.
Qed.

Lemma dgw_full p b : t !! p = Some b → 20 <= nHeight b →
  ∃ r first x l q, dgw_loop (Z.to_nat nPastBlocks) t p 1 base_uint_zero = Some (r, first) ∧
    past_targets 20 t p = Some (x :: l) ∧ length l = 19%nat ∧ up 19 t p = Some q ∧ t !! q = Some first ∧
    wf_arith r ∧ val r = dgw_average 2 x l ∧ Forall (λ x, 0 < x <= L) (x :: l).
Proof using HL Ht Hv.
  intros Hp Hh. destruct (entry_parent t Ht p b Hp ltac:(lia)) as (q&bq&Eq&Hq&Hhq).
  destruct (valid_target L _ (Hv p b Hp)) as (W&V&R).
  destruct (dgw_loop_spec 18 q bq 2 (cp_value (SetCompact (nBits b))) Hq ltac:(lia) ltac:(lia) ltac:(lia) W)
    as (r&first&l&z&El&Ep&Eu&Hz&Wz&Vz&Hl&Hf); [lia|].
  exists r, first, (compact_val (nBits b)), l, z. rewrite (past_targets_S 18 p b q Hp Eq), Ep.
  change (Z.to_nat nPastBlocks) with 20%nat. split_and!; [|done|done| |done|done|by rewrite Vz, V|by constructor].
  - rewrite <- El. change 20%nat with (S 19). cbn [dgw_loop]. rewrite Hp. cbn [mbind option_bind]. rewrite Eq. done.
  - change 19%nat with (S 18). cbn [up]. rewrite Hp. cbn [mbind option_bind]. rewrite Eq. done.
Qed.
End dgw.

(** ** The rules stay within the limit *)
Definition within (L : Z) (r : option Z) : Prop := ∃ c, r = Some c ∧ is_u32 c ∧ compact_val c <= L.
Lemma GetCompact_within L a : wf_arith a → val a <= L → within L (GetCompact a false).
Proof.
  intros Wa Ha. pose proof (val_range a Wa) as Hr. exists (compact_of (val a)).
  destruct (compact_val_of (val a) Hr) as (H1&_&_&H4&_). split_and!; [by apply GetCompact_spec|apply H4..|lia].
Qed.
Lemma valid_within L c : valid_bits L c → within L (Some c).
Proof. intros (H1&_&H2). by exists c. Qed.

Record pow_params_ok (P : Consensus_Params) : Prop := {
  po_limit : length (powLimit P) = 32%nat ∧ bytes (powLimit P);
  po_range : 0 < le_val (powLimit P) ∧ le_val (powLimit P) * 21 < 2 ^ 256;
  po_spacing : 0 < nPowTargetSpacing P < 2 ^ 24 ∧ 0 < nKSHv040PowTargetSpacing P < 2 ^ 24;
  po_timespan : nPowTargetSpacing P <= nPowTargetTimespan P < 2 ^ 24;
  po_seconds : is_Some (trunc (dmul (double_of (nPowTargetTimespan P)) (dlit 25 1000)))
}.

Section rules.
Context (P : Consensus_Params) (HP : pow_params_ok P) (t : block_tree) (Ht : tree_ok t) (Hv : tree_valid (le_val (powLimit P)) t).
Local Abbreviation L := (le_val (powLimit P)).
Local Abbreviation limit := (UintToArith256 (powLimit P)).

Lemma limit_spec : wf_arith limit ∧ val limit = L.
Proof using HP. apply UintToArith256_spec; apply HP. Qed.
Lemma limit_within : within L (GetCompact limit false).
Proof using HP. destruct limit_spec as [W V]. apply GetCompact_within; [done|lia]. Qed.
Lemma limited_within a : wf_arith a → within L (GetCompact (limit_target a limit) false).
Proof using HP.
  intros Wa. destruct limit_spec as [W V], (limit_target_spec a limit Wa W) as [Wm Vm]. apply GetCompact_within; [done|lia].
Qed.
Lemma spacing_range h : 0 < PowTargetSpacing P h < 2 ^ 24.
Proof using HP. unfold PowTargetSpacing. destruct (IsKSHv040Active P h); apply HP. Qed.

(** *** Dark Gravity Wave *)
Lemma DarkGravityWave_spec p b s : t !! p = Some b → 0 < s < 2 ^ 24 →
  (nHeight b < 20 → DarkGravityWave t (Some p) P s = Some (compact_of L)) ∧
  (20 <= nHeight b → ∃ x l q first, past_targets 20 t p = Some (x :: l) ∧ length l = 19%nat ∧
     Forall (λ y, 0 < y <= L) (x :: l) ∧ up 19 t p = Some q ∧ t !! q = Some first ∧
     let actual := Z.min (Z.max (nTime b - nTime first) ((20 * s) `div` 3)) (3 * (20 * s)) in
     DarkGravityWave t (Some p) P s =
       Some (compact_of (Z.min (((dgw_average 2 x l * actual) `mod` 2 ^ 256) `div` (20 * s)) L))).
Proof using HP Ht Hv.
  intros Hp Hs. destruct limit_spec as [W V]. unfold DarkGravityWave. rewrite Hp. cbn [mbind option_bind].
  change (nHeight b <? nPastBlocks) with (nHeight b <? 20). split; intros Hh; (destruct (Z.ltb_spec (nHeight b) 20); [|try lia]); try lia.
  - by rewrite GetCompact_spec, V.
  - destruct (dgw_full L t (po_range P HP) Ht Hv p b Hp Hh) as (r&first&x&l&q&El&Ep&Hl&Eu&Hq&Wr&Vr&Hf).
    exists x, l, q, first. split_and!; [done..|]. cbv zeta. rewrite El. cbn [mbind option_bind].
    pose proof (Z.quot_div_nonneg (20 * s) 3 ltac:(lia) ltac:(lia)) as Eq.
    pose proof (Z.div_pos (20 * s) 3 ltac:(lia) ltac:(lia)). pose proof (Z.div_le_upper_bound (20 * s) 3 (20 * s) ltac:(lia) ltac:(lia)).
    unfold GetBlockTime, nPastBlocks. rewrite Eq, (Z.mul_comm (20 * s) 3), clamp_spec. set (a := Z.min _ _).
    assert (Ha : (20 * s) `div` 3 <= a <= 3 * (20 * s)) by lia.
    destruct (retarget_spec r a (20 * s) Wr) as (m&Em&Wm&Vm); [unfold in_width; lia|lia|].
    rewrite Em. cbn [mbind option_bind]. destruct (limit_target_spec m limit Wm W) as [Wl Vl].
    rewrite GetCompact_spec by done. by rewrite Vl, Vm, Vr, V.
Qed.
Lemma DarkGravityWave_within p b s : t !! p = Some b → 0 < s < 2 ^ 24 → within L (DarkGravityWave t (Some p) P s).
Proof using HP Ht Hv.
  intros Hp Hs. pose proof (po_range P HP) as [HL0 HL1].
  destruct (DarkGravityWave_spec p b s Hp Hs) as [H1 H2]. destruct (Z.lt_ge_cases (nHeight b) 20) as [Hh|Hh].
  - rewrite (H1 Hh). destruct (compact_of_valid L L ltac:(lia) ltac:(lia)) as (?&_&?). by exists (compact_of L).
  - destruct (H2 Hh) as (x&l&q&first&_&_&_&_&_&E). cbv zeta in E. rewrite E. clear E. set (v := Z.min _ _).
    assert (Hv' : 0 <= v <= L).
    { split; [|lia]. apply Z.min_glb; [|lia]. apply Z.div_pos; [apply Z.mod_pos_bound; lia|lia]. }
    destruct (compact_val_of v ltac:(lia)) as (H3&_&_&H4&_). exists (compact_of v). split_and!; [done|apply H4..|lia].
Qed.

(** *** The original rule *)
Lemma CalculateNextWorkRequired_within p b f : t !! p = Some b → within L (CalculateNextWorkRequired b f P).
Proof using HP Hv.
  intros Hp. unfold CalculateNextWorkRequired. pose proof (Hv p b Hp) as Hb.
  destruct (fPowNoRetargeting P); [by apply valid_within|].
  pose proof (po_timespan P HP) as Hts. pose proof (po_spacing P HP) as [[? ?] _].
  rewrite Z.quot_div_nonneg by lia. set (T := nPowTargetTimespan P) in *.
  pose proof (Z.div_pos T 4 ltac:(lia) ltac:(lia)). pose proof (Z.div_le_upper_bound T 4 T ltac:(lia) ltac:(lia)).
  pose proof (clamp_range (GetBlockTime b - f) (T `div` 4) (T * 4) ltac:(lia)) as Ha.
  destruct (valid_target L _ Hb) as (W&_).
  destruct (retarget_spec (cp_value (SetCompact (nBits b))) (clamp_timespan (GetBlockTime b - f) (T `div` 4) (T * 4)) T W)
    as (m&Em&Wm&_); [unfold in_width; lia|lia|].
  rewrite Em. cbn [mbind option_bind]. by apply limited_within.
Qed.
Lemma last_regular_within fuel p b i lim : t !! p = Some b → nHeight b < Z.of_nat fuel → within L (last_regular fuel t p i lim).
Proof using Ht Hv.
  revert p b. induction fuel as [|fuel IH]; intros p b Hp Hf; pose proof (entry_height t Ht p b Hp); [lia|].
  cbn [last_regular]. rewrite Hp. cbn [mbind option_bind]. destruct (pprev b) as [q|] eqn:Eq; [|by apply valid_within, (Hv p)].
  destruct (_ && _); [|by apply valid_within, (Hv p)].
  assert (nHeight b ≠ 0) by (intros E; apply (entry_root t Ht p b Hp) in E; congruence).
  destruct (entry_parent t Ht p b Hp ltac:(lia)) as (q'&bq&Eq'&Hq&?). simplify_eq. apply (IH _ bq Hq). lia.
Qed.
Lemma GetNextWorkRequiredBTC_within p b h : t !! p = Some b → within L (GetNextWorkRequiredBTC t p h P).
Proof using HP Ht Hv.
  intros Hp. unfold GetNextWorkRequiredBTC. rewrite Hp. cbn [mbind option_bind]. pose proof (entry_height t Ht p b Hp) as Hh.
  destruct limit_within as (c&E&Hc). rewrite E. cbn [mbind option_bind].
  pose proof (po_timespan P HP) as Hts. pose proof (po_spacing P HP) as [[? ?] _].
  assert (Hi : 1 <= DifficultyAdjustmentInterval P).
  { unfold DifficultyAdjustmentInterval. rewrite Z.quot_div_nonneg by lia. apply Z.div_le_lower_bound; lia. }
  set (i := DifficultyAdjustmentInterval P) in *. destruct (Z.eqb_spec i 0); [lia|].
  destruct (Z.eqb_spec (Z.rem (nHeight b + 1) i) 0) as [Er|Er]; cbn [negb].
  - rewrite Z.rem_mod_nonneg in Er by lia. pose proof (Z.div_mod (nHeight b + 1) i ltac:(lia)) as Ed.
    assert (1 <= (nHeight b + 1) `div` i) by (destruct (Z.lt_ge_cases 0 ((nHeight b + 1) `div` i)); nia).
    destruct (Z.ltb_spec (nHeight b - (i - 1)) 0); [nia|].
    rewrite (GetAncestor_spec t Ht p b _ Hp). destruct (Z.leb_spec 0 (nHeight b - (i - 1))), (Z.leb_spec (nHeight b - (i - 1)) (nHeight b)); try lia.
    cbn [andb mbind option_bind].
    destruct (up_total t Ht (Z.to_nat (nHeight b - (nHeight b - (i - 1)))) p b Hp ltac:(lia)) as (q&bq&Eu&Hq&_).
    rewrite Eu. cbn [mbind option_bind]. rewrite Hq. cbn [mbind option_bind]. by apply (CalculateNextWorkRequired_within p).
  - destruct (fPowAllowMinDifficultyBlocks P); [|by apply valid_within, (Hv p)].
    destruct (_ <? _); [by exists c|]. apply (last_regular_within _ p b _ _ Hp). lia.
Qed.

(** *** Kimoto Gravity Well *)
Context `{LibM}.

Lemma kgw_average_spec avg prev i : wf_arith avg → wf_arith prev → 0 < i < 2 ^ 64 →
  ∃ r, kgw_average avg prev i = Some r ∧ wf_arith r.
Proof.
  intros Wa Wp Hi. unfold kgw_average. destruct (1 <? i); [|by exists avg].
  assert (Vi : val (base_uint_u64 i) = i) by (apply val_base_uint_u64; unfold in_width; lia).
  destruct (op_ge avg prev).
  - destruct (op_div_spec (op_sub avg prev) (base_uint_u64 i)) as (q&E&Wq&_); [by apply op_sub_spec|apply wf_base_uint_u64|lia|].
    rewrite E. eexists. split; [done|]. by apply op_add_spec.
  - destruct (op_div_spec (op_sub prev avg) (base_uint_u64 i)) as (q&E&Wq&_); [by apply op_sub_spec|apply wf_base_uint_u64|lia|].
    rewrite E. eexists. split; [done|]. by apply op_sub_spec.
Qed.
Lemma kgw_loop_spec fuel last p b i s lo hi st : t !! p = Some b → nHeight b + 1 < Z.of_nat fuel →
  0 < i → kg_mass st = i - 1 → i + nHeight b < 2 ^ 32 → 0 < s < 2 ^ 24 → 0 <= nTime last < 2 ^ 32 →
  wf_arith (kg_avg st) → wf_arith (kg_prev st) → 0 <= kg_actual st < 2 ^ 32 → 0 <= kg_target st < 2 ^ 64 →
  ∃ st', kgw_loop fuel t last (Some p) i s lo hi st = Some st' ∧ wf_arith (kg_avg st') ∧
    0 <= kg_actual st' < 2 ^ 32 ∧ 0 <= kg_target st' < 2 ^ 64.
Proof using Ht Hv.
  revert p b i st. induction fuel as [|fuel IH]; intros p b i st Hp Hf Hi Hm Hb Hs Hl Wa Wp Hac Hta;
    pose proof (entry_height t Ht p b Hp); [lia|].
  cbn [kgw_loop]. rewrite Hp. cbn [mbind option_bind]. destruct (Z.leb_spec (nHeight b) 0); [by exists st|].
  destruct (_ && _); [by exists st|].
  destruct (valid_target L _ (Hv p b Hp)) as (Wb&_). destruct (kgw_average_spec _ (kg_prev st) i Wb Wp ltac:(lia)) as (avg&Eavg&Wavg).
  rewrite Eavg. cbn [mbind option_bind].
  destruct (Ht p b Hp) as [_ [Htb _] _ _].
  set (actual := if GetBlockTime last - GetBlockTime b <? 0 then 0 else GetBlockTime last - GetBlockTime b).
  assert (Hactual : 0 <= actual < 2 ^ 32).
  { unfold actual, GetBlockTime. destruct (Z.ltb_spec (nTime last - nTime b) 0); lia. }
  assert (Htarget : 0 <= s * (kg_mass st + 1) < 2 ^ 64) by nia.
  set (st' := mkKgw _ _ _ _ _ _).
  assert (Hst : wf_arith (kg_avg st') ∧ 0 <= kg_actual st' < 2 ^ 32 ∧ 0 <= kg_target st' < 2 ^ 64) by done.
  match goal with |- context [if ?c then Some st' else _] => destruct c; [exists st'; split; [done|exact Hst]|] end.
  destruct (entry_parent t Ht p b Hp ltac:(lia)) as (q&bq&Eq&Hq&?). rewrite Eq.
  apply (IH q bq (i + 1) st' Hq); try done; try lia. cbn [kg_mass st']. lia.
Qed.
Lemma KimotoGravityWell_within p b s : t !! p = Some b → nHeight b < 2 ^ 31 → 0 < s < 2 ^ 24 →
  within L (KimotoGravityWell t (Some p) P s).
Proof using HP Ht Hv.
  intros Hp Hh Hs. unfold KimotoGravityWell. destruct (po_seconds P HP) as [m Em]. rewrite Em. cbn [mbind option_bind].
  destruct (Z.eqb_spec s 0); [lia|]. rewrite Hp. cbn [mbind option_bind]. destruct (_ || _); [apply limit_within|].
  pose proof (entry_height t Ht p b Hp). destruct (Ht p b Hp) as [_ Hti _ _].
  match goal with |- context [kgw_loop _ t b (Some p) 1 s ?lo ?hi ?st] =>
    destruct (kgw_loop_spec (S (S (Z.to_nat (nHeight b)))) b p b 1 s lo hi st) as (st'&Est&Wst&Hac&Hta) end;
    [exact Hp|lia|lia|reflexivity|lia|done|exact Hti|apply wf_zero|apply wf_zero|simpl; lia|simpl; lia|].
  rewrite Est. cbn [mbind option_bind].
  destruct (Z.eqb_spec (kg_actual st') 0), (Z.eqb_spec (kg_target st') 0); cbn [negb andb mbind option_bind];
    try by apply limited_within.
  destruct (retarget_spec (kg_avg st') (kg_actual st') (kg_target st') Wst) as (r&Er&Wr&_); [done|lia|].
  rewrite Er. cbn [mbind option_bind]. by apply limited_within.
Qed.

(** *** The rule in force *)
Lemma GetNextWorkRequired_spec p b h : t !! p = Some b → nHeight b < 2 ^ 31 → within L (GetNextWorkRequired t p h P).
Proof using HP Ht Hv.
  intros Hp Hh. unfold GetNextWorkRequired. rewrite Hp. cbn [mbind option_bind].
  assert (Hb : within L (Some (nBits b))) by (by apply valid_within, (Hv p)).
  pose proof (spacing_range (nHeight b + 1)) as Hs. destruct limit_spec as [W V].
  assert (Hw : within L (if nHeight b + 1 <? nPowDGWHeight P then KimotoGravityWell t (Some p) P (PowTargetSpacing P (nHeight b + 1))
                        else DarkGravityWave t (Some p) P (PowTargetSpacing P (nHeight b + 1)))).
  { destruct (_ <? _); [by apply (KimotoGravityWell_within p b)|by apply (DarkGravityWave_within p b)]. }
  assert (H10 : within L (GetCompact (limit_target (op_mul32 (cp_value (SetCompact (nBits b))) 10) limit) false)).
  { apply limited_within, op_mul32_spec; [apply (valid_target L _ (Hv p b Hp))|unfold in_width; lia]. }
  pose proof limit_within. repeat case_match; try done; by apply (GetNextWorkRequiredBTC_within p b).
Qed.
End rules.

(** ** The check *)
Lemma CheckProofOfWork_spec P hash c : length (powLimit P) = 32%nat → bytes (powLimit P) → length hash = 32%nat → bytes hash → is_u32 c →
  CheckProofOfWork hash c P = target_ok c && (compact_val c <=? le_val (powLimit P)) && (le_val hash <=? compact_val c).
Proof.
  intros Hl Hb Hhl Hhb Hc. destruct (UintToArith256_spec _ Hl Hb) as [Wl Vl], (UintToArith256_spec _ Hhl Hhb) as [Wh Vh].
  pose proof (target_flags c Hc) as Hf. cbv zeta in Hf. unfold CheckProofOfWork.
  destruct (SetCompact c) as [v n o] eqn:E. cbn [cp_value cp_negative cp_overflow] in Hf.
  assert (Hf' : n || EqualTo v 0 || o = negb (target_ok c)) by (rewrite <- Hf; by destruct n, o, (EqualTo v 0)).
  rewrite Hf'. destruct (target_ok c) eqn:Et; cbn [negb orb andb]; [|done].
  destruct (target_val c Hc Et) as (W&V&_). rewrite E in W, V. cbn [cp_value] in W, V.
  rewrite !op_gt_spec, Vl, Vh, V by done.
  destruct (Z.ltb_spec (le_val (powLimit P)) (compact_val c)), (Z.leb_spec (compact_val c) (le_val (powLimit P))); try lia; try done. cbn [andb].
  destruct (Z.ltb_spec (compact_val c) (le_val hash)), (Z.leb_spec (le_val hash) (compact_val c)); try lia; done.
Qed.

(** A chain of [n] blocks, [dt] seconds apart, all with the same bits. *)
Definition even_headers (n : nat) (dt bits : Z) : list (CBlockHeader * ptr * Z) :=
  (λ i, (mkHeader 1 (Z.of_nat i) [] (1000000 + dt * Z.of_nat i) bits 0, Z.of_nat i + 1, BLOCK_VALID_TREE)) <$> seq 0 n.
Definition even_tree (n : nat) (dt bits : Z) : block_tree :=
  m_block_index (default empty_manager (add_all (even_headers n dt bits) empty_manager)).
Lemma main_params_ok : pow_params_ok main_params.
Proof.
  split; [split; [reflexivity|]|vm_compute; split_and!; congruence..|vm_compute; by eexists].
  apply Forall_app. split; [apply Forall_replicate; split; [lia|reflexivity]|].
  apply Forall_app. split; [apply Forall_replicate; split; [lia|reflexivity]|]. apply Forall_singleton. split; [lia|reflexivity].
Qed.
Lemma even_tree_ok n dt bits bm : add_all (even_headers n dt bits) empty_manager = Some bm →
  0 <= dt → 1000000 + dt * Z.of_nat n < 2 ^ 32 → is_u32 bits → tree_ok (m_block_index bm).
Proof.
  intros E Hdt Hn Hb. apply mo_tree, reachable_ok. apply (add_all_reachable _ empty_manager _) in E; [done| |constructor].
  apply Forall_fmap, Forall_seq. intros i Hi. split; [split; [|done]|split; [simpl; lia|by left]].
  unfold in_width. simpl. nia.
Qed.
Lemma same_bits_valid L bits t : valid_bits L bits → forallb (λ x, nBits x.2 =? bits) (map_to_list t) = true → tree_valid L t.
Proof.
  intros Hv Hall p b Hp. apply elem_of_map_to_list in Hp. rewrite forallb_forall in Hall.
  apply list_elem_of_In in Hp. specialize (Hall _ Hp). simpl in Hall. apply Z.eqb_eq in Hall. by rewrite Hall.
Qed.

(** ** Statements *)

(** C16: what Dark Gravity Wave requires, exactly.  Below height 20 it is the
    limit of the network; from there on it is the compact form of the running
    average of the last twenty targets, scaled by the time they took, which is
    clamped to a third and three times the intended time, and bounded by the
    limit.  The product is reduced modulo [2^256]: the formula is the intended
    one whenever the product fits. *)
Theorem DarkGravityWave_exact P t p b s :
  pow_params_ok P → tree_ok t → tree_valid (le_val (powLimit P)) t → t !! p = Some b → 0 < s < 2 ^ 24 →
  (nHeight b < 20 → DarkGravityWave t (Some p) P s = Some (compact_of (le_val (powLimit P)))) ∧
  (20 <= nHeight b → ∃ x l q first, past_targets 20 t p = Some (x :: l) ∧ length l = 19%nat ∧
     Forall (λ y, 0 < y <= le_val (powLimit P)) (x :: l) ∧ up 19 t p = Some q ∧ t !! q = Some first ∧
     let actual := Z.min (Z.max (nTime b - nTime first) ((20 * s) `div` 3)) (3 * (20 * s)) in
     DarkGravityWave t (Some p) P s =
       Some (compact_of (Z.min (((dgw_average 2 x l * actual) `mod` 2 ^ 256) `div` (20 * s)) (le_val (powLimit P))))).
Proof. intros HP Ht Hv. apply DarkGravityWave_spec; done. Qed.
Lemma DarkGravityWave_exact_witness :
  ∃ x l, past_targets 20 (even_tree 25 30 0x1e00ffff) 24 = Some (x :: l) ∧
    DarkGravityWave (even_tree 25 30 0x1e00ffff) (Some 24) main_params 60 =
      Some (compact_of ((dgw_average 2 x l * 570) `div` 1200)).
Proof.
  set (t := even_tree 25 30 0x1e00ffff). destruct (t !! 24) as [b|] eqn:E; [|vm_compute in E; discriminate].
  destruct (DarkGravityWave_exact main_params t 24 b 60) as [_ H].
  - exact main_params_ok.
  - apply (even_tree_ok 25 30 0x1e00ffff); [vm_compute; reflexivity|lia|lia|split; [lia|reflexivity]].
  - apply (same_bits_valid _ 0x1e00ffff); [|vm_compute; reflexivity]. split; [split; [lia|reflexivity]|vm_compute; split; congruence].
  - exact E.
  - lia.
  - destruct H as (x&l&q&first&El&_&_&_&_&Ed); [vm_compute in E; injection E as <-; vm_compute; congruence|].
    exists x, l. split; [exact El|]. vm_compute in El. injection El as <- <-. vm_compute. reflexivity.
Defined.

(** C15: the required difficulty.  On a well-formed tree whose targets are within
    the limit, whatever the parameters switch on (the original rule, Kimoto
    Gravity Well, Dark Gravity Wave, minimum-difficulty blocks, the
    twenty-block interval), [GetNextWorkRequired] returns bits whose target is
    at most the limit of the network, and no assertion fails, no pointer is
    null and nothing is divided by zero. *)
Theorem GetNextWorkRequired_within_limit `{LibM} P t p b h :
  pow_params_ok P → tree_ok t → tree_valid (le_val (powLimit P)) t → t !! p = Some b → nHeight b < 2 ^ 31 →
  ∃ c, GetNextWorkRequired t p h P = Some c ∧ is_u32 c ∧ compact_val c <= le_val (powLimit P).
Proof. intros HP Ht Hv Hp Hh. by apply (GetNextWorkRequired_spec P HP t Ht Hv p b). Qed.
Lemma GetNextWorkRequired_within_limit_witness :
  ∃ c, GetNextWorkRequired (H:=sample_libm) (even_tree 25 60 0x1e00ffff) 25 (mkHeader 1 25 [] 1001560 0 0) main_params = Some c ∧
    compact_val c <= le_val (powLimit main_params).
Proof.
  set (t := even_tree 25 60 0x1e00ffff). destruct (t !! 25) as [b|] eqn:E; [|vm_compute in E; discriminate].
  destruct (GetNextWorkRequired_within_limit (H:=sample_libm) main_params t 25 b (mkHeader 1 25 [] 1001560 0 0)) as (c&Ec&_&Hc).
  - exact main_params_ok.
  - apply (even_tree_ok 25 60 0x1e00ffff); [vm_compute; reflexivity|lia|lia|split; [lia|reflexivity]].
  - apply (same_bits_valid _ 0x1e00ffff); [|vm_compute; reflexivity]. split; [split; [lia|reflexivity]|vm_compute; split; congruence].
  - exact E.
  - vm_compute in E. injection E as <-. vm_compute. reflexivity.
  - exists c. split; [exact Ec|exact Hc].
Defined.

(** C17: [CheckProofOfWork] accepts exactly the hashes that, read as
    little-endian numbers, do not exceed the target of the bits, for bits whose
    target is positive, fits in 256 bits and is within the limit. *)
Theorem CheckProofOfWork_iff P hash c :
  length (powLimit P) = 32%nat → bytes (powLimit P) → length hash = 32%nat → bytes hash → is_u32 c →
  CheckProofOfWork hash c P = true ↔
    Z.testbit c 23 = false ∧ 0 < compact_val c < 2 ^ 256 ∧ compact_val c <= le_val (powLimit P) ∧ le_val hash <= compact_val c.
Proof.
  intros H1 H2 H3 H4 H5. rewrite CheckProofOfWork_spec by done. unfold target_ok.
  rewrite !andb_true_iff, negb_true_iff, !Z.ltb_lt, !Z.leb_le. tauto.
Qed.
Lemma CheckProofOfWork_iff_witness : CheckProofOfWork (replicate 32 0) 0x1e00ffff main_params = true.
Proof.
  apply (CheckProofOfWork_iff main_params (replicate 32 0) 0x1e00ffff).
  - reflexivity.
  - exact (proj2 (po_limit _ main_params_ok)).
  - reflexivity.
  - apply Forall_replicate. split; [lia|reflexivity].
  - split; [lia|reflexivity].
  - vm_compute. split_and!; congruence.
Defined.

(** C31: near the limit the product of Dark Gravity Wave does not fit.  On the
    main network at one block per minute, whenever the last twenty blocks have
    the minimum difficulty, and whatever time they took, the product of the
    average target and the clamped time span reaches [2^256] and is reduced:
    the required target is less than a quarter of the last one, although the
    formula without the reduction never gives less than a third. *)
Theorem DarkGravityWave_overflows t p b :
  tree_ok t → tree_valid (le_val (powLimit main_params)) t → t !! p = Some b → 20 <= nHeight b →
  let T := compact_val 0x2000ffff in past_targets 20 t p = Some (replicate 20 T) →
  GetCompact (UintToArith256 (powLimit main_params)) false = Some 0x2000ffff ∧
  ∃ q first c, up 19 t p = Some q ∧ t !! q = Some first ∧
    let actual := Z.min (Z.max (nTime b - nTime first) 400) 3600 in
    2 ^ 256 <= T * actual ∧ T <= 3 * ((T * actual) `div` 1200) ∧
    DarkGravityWave t (Some p) main_params 60 = Some c ∧ 4 * compact_val c < T.
Proof.
  intros Ht Hv Hp Hh T HT. split; [vm_compute; reflexivity|].
  destruct (DarkGravityWave_spec main_params main_params_ok t Ht Hv p b 60 Hp ltac:(lia)) as [_ H].
  destruct (H Hh) as (x&l&q&first&El&_&_&Eu&Hq&E). clear H. cbv zeta in E. rewrite HT in El. change (replicate 20 T) with (T :: replicate 19 T) in El. injection El as <- <-.
  change (20 * 60) with 1200 in E. change (1200 `div` 3) with 400 in E. change (3 * 1200) with 3600 in E.
  change (dgw_average 2 T _) with (dgw_average 2 T (replicate 19 T)) in E. rewrite dgw_average_same in E by lia. cbv zeta.
  set (actual := Z.min (Z.max (nTime b - nTime first) 400) 3600) in *. assert (400 <= actual <= 3600) as Ha by lia.
  eexists q, first, _. split; [exact Eu|]. split; [exact Hq|].
  assert (2 ^ 256 <= T * 400 ∧ T = 3 * ((T * 400) `div` 1200) ∧ 4 * (2 ^ 256 `div` 1200) < T) as (H1&H2&H3).
  { vm_compute. split_and!; congruence. }
  assert (0 < T) as H0 by (by vm_compute).
  assert (T * 400 <= T * actual) as H4 by (apply Z.mul_le_mono_nonneg_l; lia). pose proof (Z.div_le_mono (T * 400) (T * actual) 1200 ltac:(lia) H4) as H5.
  split; [by etrans|]. split; [rewrite H2 at 1; by apply Z.mul_le_mono_nonneg_l|]. split; [exact E|].
  set (v := Z.min _ _). pose proof (Z.mod_pos_bound (T * actual) (2 ^ 256) ltac:(lia)).
  assert (0 <= v <= 2 ^ 256 `div` 1200) as Hb.
  { unfold v. split; [apply Z.min_glb; [apply Z.div_pos; lia|vm_compute; congruence]|].
    etrans; [apply Z.le_min_l|]. apply Z.div_le_mono; lia. }
  assert (2 ^ 256 `div` 1200 < 2 ^ 256) by (by vm_compute).
  destruct (compact_val_of v ltac:(lia)) as [Hc _]. lia.
Qed.
Lemma DarkGravityWave_overflows_witness :
  ∃ c, DarkGravityWave (even_tree 21 60 0x2000ffff) (Some 21) main_params 60 = Some c ∧ 4 * compact_val c < compact_val 0x2000ffff.
Proof.
  set (t := even_tree 21 60 0x2000ffff). destruct (t !! 21) as [b|] eqn:E; [|vm_compute in E; discriminate].
  destruct (DarkGravityWave_overflows t 21 b) as (_&q&first&c&_&_&_&_&Ec&Hc).
  - apply (even_tree_ok 21 60 0x2000ffff); [vm_compute; reflexivity|lia|lia|split; [lia|reflexivity]].
  - apply (same_bits_valid _ 0x2000ffff); [|vm_compute; reflexivity]. split; [split; [lia|reflexivity]|vm_compute; split; congruence].
  - exact E.
  - vm_compute in E. injection E as <-. vm_compute. congruence.
  - vm_compute. reflexivity.
  - exists c. split; [exact Ec|exact Hc].
Defined.
