(* ===== verification/Subsidy.v ===== *)
(** * Emission

    [GetBlockSubsidyHelper], [GetBlockSubsidyInner], [GetSuperblockSubsidyInner]
    and [GetMasternodePayment] of [src/src/validation.cpp].  Amounts are
    integers (a [CAmount] is 64 bits wide; every subsidy is far below, and the
    products of [GetMasternodePayment], whose argument is any amount, are
    checked).  [None] is a failing assertion, an undefined conversion or a
    signed overflow. *)
From S2P Require Import Prelude Params Double.
Local Open Scope Z_scope.

Variant network := MAIN | TESTNET | DEVNET | REGTEST.
#[global] Instance network_eq_dec : EqDecision network.
Proof. solve_decision. Defined.

(** ** The public networks *)
Definition kBaseSubsidy : Z := 2 * COIN.
Definition kNewHalvingInterval : Z := 2500000.
Definition kKSHv040MinSubsidy : Z := COIN.

Definition nHalvingInterval (P : Consensus_Params) (nPrevHeight : Z) : Z :=
  if IsKSHv040Active P (nPrevHeight + 1) || (nKSHv014Height P <=? nPrevHeight)
  then kNewHalvingInterval else nSubsidyHalvingInterval P.

(** [while (nRemainingRewardedBlocks > 0 && nEraSubsidy > 0)] *)
Fixpoint issued_loop (fuel : nat) (interval nRemaining nEraSubsidy nIssued : Z) : Z :=
  match fuel with
  | O => nIssued
  | S fuel =>
      if (0 <? nRemaining) && (0 <? nEraSubsidy) then
        let nEraBlocks := Z.min nRemaining interval in
        issued_loop fuel interval (nRemaining - nEraBlocks) (nEraSubsidy ≫ 1) (nIssued + nEraBlocks * nEraSubsidy)
      else nIssued
  end.

(** The whole subsidy of the block after [nPrevHeight], before it is split. *)
Definition public_subsidy (P : Consensus_Params) (nPrevHeight : Z) : Z :=
  let fKSHv040Active := IsKSHv040Active P (nPrevHeight + 1) in
  let interval := nHalvingInterval P nPrevHeight in
  let nSubsidyShift := nPrevHeight `quot` interval in
  let nSubsidy := if 64 <=? nSubsidyShift then 0 else kBaseSubsidy ≫ nSubsidyShift in
  let nSubsidy := if fKSHv040Active && (nSubsidy <? kKSHv040MinSubsidy) then kKSHv040MinSubsidy else nSubsidy in
  let nIssued := issued_loop 64 interval nPrevHeight kBaseSubsidy 0 in
  if nMaxMoney P <=? nIssued then 0
  else if nMaxMoney P - nIssued <? nSubsidy then nMaxMoney P - nIssued
  else nSubsidy.

(** ** The other networks *)
Section Doubles.
Context `{LibM}.

Fixpoint scale (fuel : nat) (f : double → double) (d : double) : double :=
  match fuel with O => d | S fuel => scale fuel f (f d) end.
Definition ConvertBitsToDouble (nBits : Z) : double :=
  let nShift := Z.land (nBits ≫ 24) 0xff in
  let dDiff := ddiv (double_of 0xffff) (double_of (Z.land nBits 0x00ffffff)) in
  if nShift <? 29 then scale (Z.to_nat (29 - nShift)) (λ d, dmul d (double_of 256)) dDiff
  else scale (Z.to_nat (nShift - 29)) (λ d, ddiv d (double_of 256)) dDiff.

Definition bounded (x lo hi : Z) : Z := if hi <? x then hi else if x <? lo then lo else x.
Definition base_subsidy (nPrevHeight : Z) (dDiff : double) : option Z :=
  if nPrevHeight <? 5465 then
    x ← trunc (ddiv (double_of 1111) (pow (dadd dDiff (double_of 1)) (double_of 2)));
    Some (bounded x 1 500)
  else if (nPrevHeight <? 17000) || (dle dDiff (double_of 75) && (nPrevHeight <? 24000)) then
    x ← trunc (ddiv (double_of 11111) (pow (ddiv (dadd dDiff (double_of 51)) (double_of 6)) (double_of 2)));
    Some (bounded x 25 500)
  else
    x ← trunc (ddiv (double_of 2222222) (pow (ddiv (dadd dDiff (double_of 2600)) (double_of 9)) (double_of 2)));
    Some (bounded x 5 25).

Fixpoint yearly_decline (turns : nat) (nSubsidy : Z) : Z :=
  match turns with O => nSubsidy | S turns => yearly_decline turns (nSubsidy - nSubsidy `quot` 14) end.

(** ** [GetBlockSubsidyHelper]: the subsidy and its superblock part *)
Definition GetBlockSubsidyHelper (net : network) (nPrevBits nPrevHeight : Z) (P : Consensus_Params) (fV20Active : bool)
    : option (Z * Z) :=
  if bool_decide (net = MAIN ∨ net = TESTNET) then
    let nSubsidy := public_subsidy P nPrevHeight in
    let nSuperblockPart := if nBudgetPaymentsStartBlock P <? nPrevHeight then nSubsidy `quot` 10 else 0 in
    Some (nSubsidy - nSuperblockPart, nSuperblockPart)
  else
    let isDevnet := bool_decide (net = DEVNET) in
    let dDiff := ConvertBitsToDouble nPrevBits in
    base ← (if fV20Active || (isDevnet && (nHighSubsidyBlocks P <=? nPrevHeight)) then Some 5
            else base_subsidy nPrevHeight dDiff);
    if nSubsidyHalvingInterval P <=? 0 then None else
    let nSubsidy := yearly_decline (Z.to_nat (nPrevHeight `div` nSubsidyHalvingInterval P)) (base * COIN) in
    if (nPrevHeight <? nHighSubsidyBlocks P) && negb isDevnet then None else
    let nSubsidy := if nPrevHeight <? nHighSubsidyBlocks P then nSubsidy * nHighSubsidyFactor P else nSubsidy in
    let nSuperblockPart :=
      if nBudgetPaymentsStartBlock P <? nPrevHeight then nSubsidy `quot` (if fV20Active then 5 else 10) else 0 in
    Some (nSubsidy - nSuperblockPart, nSuperblockPart).

Definition GetSuperblockSubsidyInner net nPrevBits nPrevHeight P fV20Active : option Z :=
  r ← GetBlockSubsidyHelper net nPrevBits nPrevHeight P fV20Active; Some r.2.
Definition GetBlockSubsidyInner net nPrevBits nPrevHeight P fV20Active : option Z :=
  r ← GetBlockSubsidyHelper net nPrevBits nPrevHeight P fV20Active; Some r.1.
End Doubles.

(** ** The share of the masternodes *)
Definition vecPeriods : list Z :=
  [513; 526; 533; 540; 546; 552; 557; 562; 567; 572; 577; 582; 585; 588; 591; 594; 597; 599; 600].

(** The schedule before v0.1.4: a fifth, then steps of a twentieth and a fortieth. *)
Definition legacy_share (P : Consensus_Params) (nHeight blockValue : Z) : Z :=
  let start := nMasternodePaymentsIncreaseBlock P in
  let period := nMasternodePaymentsIncreasePeriod P in
  let step k d := if start + period * k <? nHeight then blockValue `quot` d else 0 in
  blockValue `quot` 5 + step 0 20 + step 1 20 + step 2 20 + step 3 40 + step 4 40 + step 5 40 + step 6 40 + step 7 40 + step 9 40.

(** A product of [CAmount]s: signed 64-bit overflow is undefined. *)
Definition mul64 (a b : Z) : option Z := if (- 2 ^ 63 <=? a * b) && (a * b <? 2 ^ 63) then Some (a * b) else None.

Definition GetMasternodePayment (P : Consensus_Params) (nHeight blockValue : Z) (fV20Active : bool) : option Z :=
  if nKSHv030Height P <=? nHeight then x ← mul64 blockValue 4; Some (x `quot` 5)
  else if nKSHv014Height P <=? nHeight then x ← mul64 blockValue 3; Some (x `quot` 10)
  else
    let ret := legacy_share P nHeight blockValue in
    if nBRRFixHeight P <=? nHeight then Some ret
    else if nHeight <? BRRHeight P then Some ret
    else
      let cycle := nSuperblockCycle P in
      if cycle =? 0 then None else
      let nReallocStart := BRRHeight P - Z.rem (BRRHeight P) cycle + cycle in
      if nHeight <? nReallocStart then Some ret
      else if fV20Active then x ← mul64 blockValue 3; Some (x `quot` 4)
      else
        let nCurrentPeriod := Z.min ((nHeight - nReallocStart) `quot` (cycle * 3)) (Z.of_nat (length vecPeriods) - 1) in
        period ← vecPeriods !! Z.to_nat nCurrentPeriod;
        x ← mul64 blockValue period; Some (x `quot` 1000).
