(* ===== verification/SubsidyCorrect.v ===== *)
(** * Emission: the cap and the split

    The loop of [GetBlockSubsidyHelper] counts what the halving schedule has
    issued, so the sum of all subsidies is the schedule cut off at the maximal
    amount of money; the masternode share is within the block value. *)
From S2P Require Import Prelude Params Double Subsidy.
Local Open Scope Z_scope.

(** ** Sums over heights *)
Fixpoint sum_upto (f : Z → Z) (n : nat) : Z :=
  match n with O => 0 | S n => sum_upto f n + f (Z.of_nat n) end.

Lemma sum_upto_ext f g n : (∀ h, 0 <= h < Z.of_nat n → f h = g h) → sum_upto f n = sum_upto g n.
Proof. induction n as [|n IH]; intros H; [done|]. simpl. rewrite IH by (intros; apply H; lia). rewrite H by lia. done. Qed.
Lemma sum_upto_add f n m : sum_upto f (n + m) = sum_upto f n + sum_upto (λ h, f (Z.of_nat n + h)) m.
Proof.
  induction m as [|m IH]; [rewrite Nat.add_0_r; simpl; lia|]. rewrite Nat.add_succ_r. simpl. rewrite IH.
  rewrite Nat2Z.inj_add. lia.
Qed.
Lemma sum_upto_const f n c : (∀ h, 0 <= h < Z.of_nat n → f h = c) → sum_upto f n = Z.of_nat n * c.
Proof. induction n as [|n IH]; intros H; [done|]. simpl sum_upto. rewrite IH by (intros; apply H; lia). rewrite H by lia. lia. Qed.
Lemma sum_upto_ge f n c : (∀ h, 0 <= h < Z.of_nat n → c <= f h) → Z.of_nat n * c <= sum_upto f n.
Proof. induction n as [|n IH]; intros H; [done|]. simpl sum_upto. specialize (IH ltac:(intros; apply H; lia)). specialize (H (Z.of_nat n) ltac:(lia)). lia. Qed.
Lemma sum_upto_le f n c : (∀ h, 0 <= h < Z.of_nat n → f h <= c) → sum_upto f n <= Z.of_nat n * c.
Proof. induction n as [|n IH]; intros H; [done|]. simpl sum_upto. specialize (IH ltac:(intros; apply H; lia)). specialize (H (Z.of_nat n) ltac:(lia)). lia. Qed.

(** ** The schedule *)

(** What the halving schedule pays at height [h], and up to it. *)
Definition era_subsidy (I h : Z) : Z := kBaseSubsidy ≫ (h `div` I).
Definition scheduled (I : Z) (n : nat) : Z := sum_upto (era_subsidy I) n.

Lemma base_shift_zero k : 28 <= k → kBaseSubsidy ≫ k = 0.
Proof.
  intros Hk. rewrite Z.shiftr_div_pow2 by lia. apply Z.div_small. split; [done|].
  assert (2 ^ 28 <= 2 ^ k) by (apply Z.pow_le_mono_r; lia). unfold kBaseSubsidy, COIN. lia.
Qed.
Lemma base_shift_nonneg k : 0 <= kBaseSubsidy ≫ k.
Proof. by apply Z.shiftr_nonneg. Qed.
Lemma base_shift_succ k : 0 <= k → (kBaseSubsidy ≫ k) ≫ 1 = kBaseSubsidy ≫ (k + 1).
Proof. intros Hk. apply Z.shiftr_shiftr. lia. Qed.
Lemma issued_loop_spec I fuel : 0 < I → ∀ k rem acc, 0 <= k → 28 <= k + Z.of_nat fuel →
  issued_loop fuel I rem (kBaseSubsidy ≫ k) acc = acc + sum_upto (λ h, kBaseSubsidy ≫ (k + h `div` I)) (Z.to_nat rem).
Proof.
  intros HI. induction fuel as [|fuel IH]; intros k rem acc Hk Hf; cbn [issued_loop].
  - rewrite (sum_upto_const _ _ 0); [lia|]. intros h Hh. apply base_shift_zero. pose proof (Z.div_pos h I ltac:(lia) HI). lia.
  - destruct (Z.ltb_spec 0 rem) as [Hr|Hr]; cbn [andb]; [|replace (Z.to_nat rem) with 0%nat by lia; simpl; lia].
    destruct (Z.ltb_spec 0 (kBaseSubsidy ≫ k)) as [Hp|Hp].
    + rewrite base_shift_succ by done. rewrite IH by lia. set (e := Z.min rem I).
      replace (Z.to_nat rem) with (Z.to_nat e + Z.to_nat (rem - e))%nat by lia. rewrite sum_upto_add.
      rewrite (sum_upto_const _ (Z.to_nat e) (kBaseSubsidy ≫ k)).
      2:{ intros h Hh. rewrite Z.div_small by lia. by rewrite Z.add_0_r. }
      rewrite Z2Nat.id by lia.
      rewrite (sum_upto_ext (λ h, kBaseSubsidy ≫ (k + (e + h) `div` I)) (λ h, kBaseSubsidy ≫ (k + 1 + h `div` I))); [lia|].
      intros h Hh. f_equal. assert (e = I) as -> by lia.
      replace (I + h) with (h + 1 * I) by lia. rewrite Z.div_add by lia. lia.
    + rewrite (sum_upto_const _ _ 0); [lia|]. intros h Hh. pose proof (Z.div_pos h I ltac:(lia) HI).
      rewrite <- Z.shiftr_shiftr by lia. pose proof (base_shift_nonneg k). replace (kBaseSubsidy ≫ k) with 0 by lia. apply Z.shiftr_0_l.
Qed.
Lemma issued_scheduled I prev : 0 < I → issued_loop 64 I prev kBaseSubsidy 0 = scheduled I (Z.to_nat prev).
Proof. intros HI. apply (issued_loop_spec I 64 HI 0 prev 0); lia. Qed.

Lemma public_subsidy_spec P I h : 0 < I → 0 <= h → nHalvingInterval P h = I →
  let s := if IsKSHv040Active P (h + 1) then Z.max COIN (era_subsidy I h) else era_subsidy I h in
  public_subsidy P h = Z.max 0 (Z.min s (nMaxMoney P - scheduled I (Z.to_nat h))).
Proof.
  intros HI Hh Hint s. unfold public_subsidy. rewrite Hint, issued_scheduled by done. rewrite Z.quot_div_nonneg by lia.
  assert (Hs : (if 64 <=? h `div` I then 0 else kBaseSubsidy ≫ (h `div` I)) = era_subsidy I h).
  { destruct (Z.leb_spec 64 (h `div` I)); [|done]. unfold era_subsidy. by rewrite base_shift_zero by lia. }
  rewrite Hs. pose proof (base_shift_nonneg (h `div` I)) as Hn. fold (era_subsidy I h) in Hn.
  assert (Hs' : (if IsKSHv040Active P (h + 1) && (era_subsidy I h <? kKSHv040MinSubsidy) then kKSHv040MinSubsidy else era_subsidy I h) = s).
  { unfold s, kKSHv040MinSubsidy. destruct (IsKSHv040Active P (h + 1)); [|done]. cbn [andb]. destruct (Z.ltb_spec (era_subsidy I h) COIN); lia. }
  rewrite Hs'. assert (0 <= s) by (unfold s; destruct (IsKSHv040Active P (h + 1)); lia). clearbody s.
  destruct (Z.leb_spec (nMaxMoney P) (scheduled I (Z.to_nat h))); [lia|].
  destruct (Z.ltb_spec (nMaxMoney P - scheduled I (Z.to_nat h)) s); lia.
Qed.

Section paid.
Context `{LibM}.
(** Everything the block after height [h] may create. *)
Definition paid (net : network) (P : Consensus_Params) (h : Z) : Z :=
  match GetBlockSubsidyHelper net 0 h P false with Some (a, b) => a + b | None => 0 end.
Lemma paid_public net P h : net = MAIN ∨ net = TESTNET → paid net P h = public_subsidy P h.
Proof. intros Hn. unfold paid, GetBlockSubsidyHelper. rewrite bool_decide_eq_true_2 by done. lia. Qed.

Lemma emitted_spec net P I n : net = MAIN ∨ net = TESTNET → 0 < I → 0 <= nMaxMoney P →
  (∀ h, 0 <= h < Z.of_nat n → nHalvingInterval P h = I ∧ IsKSHv040Active P (h + 1) = false) →
  sum_upto (paid net P) n = Z.min (scheduled I n) (nMaxMoney P).
Proof.
  intros Hnet HI HM. induction n as [|n IH]; intros Hh; [unfold scheduled; simpl; lia|]. cbn [sum_upto]. rewrite IH by (intros; apply Hh; lia).
  destruct (Hh (Z.of_nat n) ltac:(lia)) as [Hi Ha]. rewrite paid_public by done.
  pose proof (public_subsidy_spec P I (Z.of_nat n) HI ltac:(lia) Hi) as Hs. rewrite Ha in Hs. cbv zeta iota in Hs.
  rewrite Nat2Z.id in Hs. unfold scheduled in *. cbn [sum_upto].
  pose proof (base_shift_nonneg (Z.of_nat n `div` I)) as Hn. fold (era_subsidy I (Z.of_nat n)) in Hn. lia.
Qed.
End paid.

(** ** The test network *)
Lemma era_first I h : 0 <= h < I → era_subsidy I h = kBaseSubsidy.
Proof. intros Hh. unfold era_subsidy. by rewrite Z.div_small by lia. Qed.
Lemma era_le I h k : 0 < I → 0 <= k → k * I <= h → era_subsidy I h <= kBaseSubsidy ≫ k.
Proof.
  intros HI Hk Hh. unfold era_subsidy. assert (k <= h `div` I) by (apply Z.div_le_lower_bound; lia).
  rewrite !Z.shiftr_div_pow2 by lia. apply Z.div_le_compat_l; [done|]. split; [apply Z.pow_pos_nonneg; lia|].
  apply Z.pow_le_mono_r; lia.
Qed.
Lemma scheduled_mono I n m : (n ≤ m)%nat → scheduled I n <= scheduled I m.
Proof.
  intros Hnm. unfold scheduled. replace m with (n + (m - n))%nat by lia. rewrite sum_upto_add.
  assert (Z.of_nat (m - n) * 0 <= sum_upto (λ h, era_subsidy I (Z.of_nat n + h)) (m - n)); [|lia].
  apply sum_upto_ge. intros h _. apply base_shift_nonneg.
Qed.
Lemma scheduled_bound : scheduled 2500000 (Z.to_nat 2500000 + (Z.to_nat 2500000 + Z.to_nat 2500001)) <= 9000000 * COIN.
Proof.
  unfold scheduled. rewrite !sum_upto_add.
  pose proof (sum_upto_le (era_subsidy 2500000) (Z.to_nat 2500000) (kBaseSubsidy ≫ 0)) as H1.
  specialize (H1 ltac:(intros h Hh; apply era_le; lia)).
  pose proof (sum_upto_le (λ h, era_subsidy 2500000 (Z.of_nat (Z.to_nat 2500000) + h)) (Z.to_nat 2500000) (kBaseSubsidy ≫ 1)) as H2.
  specialize (H2 ltac:(intros h Hh; apply era_le; lia)).
  pose proof (sum_upto_le (λ h, era_subsidy 2500000 (Z.of_nat (Z.to_nat 2500000) + (Z.of_nat (Z.to_nat 2500000) + h)))
    (Z.to_nat 2500001) (kBaseSubsidy ≫ 2)) as H3.
  specialize (H3 ltac:(intros h Hh; apply era_le; lia)).
  change (kBaseSubsidy ≫ 0) with 200000000 in H1. change (kBaseSubsidy ≫ 1) with 100000000 in H2.
  change (kBaseSubsidy ≫ 2) with 50000000 in H3. unfold COIN. lia.
Qed.
Lemma testnet_early h : 0 <= h < Z.of_nat (Z.to_nat 2500000) → kBaseSubsidy <= public_subsidy testnet_params h.
Proof.
  intros Hh. set (I := nHalvingInterval testnet_params h).
  assert (HI : h < I ∧ 0 < I).
  { unfold I, nHalvingInterval, IsKSHv040Active. change (nKSHv014Height testnet_params) with 40000.
    change (nKSHv040Height testnet_params) with 172800. change (nSubsidyHalvingInterval testnet_params) with 1030596.
    unfold kNewHalvingInterval. destruct (Z.leb_spec 172800 (h + 1)), (Z.leb_spec 40000 h); cbn [orb]; lia. }
  rewrite (public_subsidy_spec testnet_params I h) by (done || lia).
  assert (Hs : scheduled I (Z.to_nat h) <= Z.of_nat (Z.to_nat h) * kBaseSubsidy).
  { apply sum_upto_le. intros k Hk. rewrite era_first by lia. lia. }
  rewrite era_first by lia. change (nMaxMoney testnet_params) with (10000000 * COIN). unfold kBaseSubsidy, COIN in *.
  destruct (IsKSHv040Active testnet_params (h + 1)); lia.
Qed.
Lemma testnet_late h : 2500000 <= h <= 7500000 → COIN <= public_subsidy testnet_params h.
Proof.
  intros Hh. assert (Ha : IsKSHv040Active testnet_params (h + 1) = true).
  { unfold IsKSHv040Active. apply Z.leb_le. change (nKSHv040Height testnet_params) with 172800. lia. }
  assert (Hi : nHalvingInterval testnet_params h = 2500000) by (unfold nHalvingInterval; by rewrite Ha).
  rewrite (public_subsidy_spec testnet_params 2500000 h) by (done || lia). rewrite Ha.
  pose proof (scheduled_mono 2500000 (Z.to_nat h) (Z.to_nat 2500000 + (Z.to_nat 2500000 + Z.to_nat 2500001)) ltac:(lia)).
  pose proof scheduled_bound. change (nMaxMoney testnet_params) with (10000000 * COIN). unfold COIN in *. lia.
Qed.

(** ** The masternode share *)
Record payment_params_ok (P : Consensus_Params) : Prop := {
  pp_cycle : 0 < nSuperblockCycle P; pp_height : 0 <= BRRHeight P
}.
Lemma quot_bounds v a b : 0 <= v → 0 <= a <= b → 0 < b → 0 <= (v * a) `quot` b <= v.
Proof.
  intros Hv Ha Hb. rewrite Z.quot_div_nonneg by nia. split; [apply Z.div_pos; nia|]. apply Z.div_le_upper_bound; nia.
Qed.
Lemma legacy_share_bounds P h v : 0 <= v → 0 <= legacy_share P h v <= v.
Proof.
  intros Hv. unfold legacy_share. rewrite !Z.quot_div_nonneg by lia.
  assert (Hd : ∀ d, 0 < d → 0 <= v `div` d ∧ d * (v `div` d) <= v).
  { intros d Hd. split; [by apply Z.div_pos|by apply Z.mul_div_le]. }
  pose proof (Hd 5 ltac:(lia)). pose proof (Hd 20 ltac:(lia)). pose proof (Hd 40 ltac:(lia)). clear Hd.
  repeat match goal with |- context [if ?c then _ else _] => destruct c end; lia.
Qed.
Lemma vecPeriods_bounds k x : vecPeriods !! k = Some x → 0 <= x <= 1000.
Proof.
  assert (H : Forall (λ x, 0 <= x <= 1000) vecPeriods) by (repeat constructor; lia).
  intros Hk. by eapply (Forall_lookup_1 _ _ _ _ H).
Qed.
Lemma mul64_small v k : 0 <= v → 0 <= k → v * k < 2 ^ 63 → mul64 v k = Some (v * k).
Proof.
  intros Hv Hk H. unfold mul64. destruct (Z.leb_spec (- 2 ^ 63) (v * k)); [|nia]. by rewrite (proj2 (Z.ltb_lt _ _) H).
Qed.
Lemma vecPeriods_max k x : vecPeriods !! k = Some x → x <= 600.
Proof.
  assert (H : Forall (λ x, x <= 600) vecPeriods) by (repeat constructor; lia).
  intros Hk. by eapply (Forall_lookup_1 _ _ _ _ H).
Qed.
Lemma GetMasternodePayment_spec P h v f : payment_params_ok P → 0 <= v → 600 * v < 2 ^ 63 →
  ∃ r, GetMasternodePayment P h v f = Some r ∧ 0 <= r <= v.
Proof.
  intros [Hc Hb] Hv Hw. unfold GetMasternodePayment. pose proof (legacy_share_bounds P h v Hv).
  rewrite (mul64_small v 4), (mul64_small v 3) by lia. cbn [mbind option_bind].
  destruct (nKSHv030Height P <=? h); [eexists; split; [done|apply quot_bounds; lia]|].
  destruct (nKSHv014Height P <=? h); [eexists; split; [done|apply quot_bounds; lia]|].
  destruct (nBRRFixHeight P <=? h); [by eexists|]. destruct (Z.ltb_spec h (BRRHeight P)); [by eexists|].
  destruct (Z.eqb_spec (nSuperblockCycle P) 0); [lia|]. set (start := BRRHeight P - _ + _).
  destruct (Z.ltb_spec h start); [by eexists|].
  destruct f; [eexists; split; [done|apply quot_bounds; lia]|].
  rewrite Z.quot_div_nonneg by lia. pose proof (Z.div_pos (h - start) (nSuperblockCycle P * 3) ltac:(lia) ltac:(lia)).
  set (k := Z.min _ _). destruct (lookup_lt_is_Some_2 vecPeriods (Z.to_nat k)) as [x Hx]; [simpl in *; lia|].
  rewrite Hx. cbn [mbind option_bind]. pose proof (vecPeriods_bounds (Z.to_nat k) x Hx). pose proof (vecPeriods_max (Z.to_nat k) x Hx).
  rewrite mul64_small by nia. cbn [mbind option_bind]. eexists. split; [done|]. apply quot_bounds; [lia|done|lia].
Qed.

(** ** Statements *)

(** C14: emission on the public networks.  As long as the v0.4.0 rules are not
    active and the halving interval does not change, the subsidies of the
    first [n] blocks (superblock parts included) add up to exactly what the
    halving schedule issues, cut off at the maximal amount of money: the cap
    is never exceeded and no coin below it is lost. *)
Theorem emission_capped `{LibM} net P I n : net = MAIN ∨ net = TESTNET → 0 < I → 0 <= nMaxMoney P →
  (∀ h, 0 <= h < Z.of_nat n → nHalvingInterval P h = I ∧ IsKSHv040Active P (h + 1) = false) →
  sum_upto (paid net P) n = Z.min (scheduled I n) (nMaxMoney P).
Proof. apply emitted_spec. Qed.
Lemma emission_capped_witness : sum_upto (paid (H:=sample_libm) MAIN main_params) 3 = 3 * kBaseSubsidy.
Proof.
  rewrite (emission_capped (H:=sample_libm) MAIN main_params 2500000 3 (or_introl eq_refl)); [vm_compute; reflexivity|lia|vm_compute; congruence|].
  intros h Hh. split.
  - unfold nHalvingInterval. by destruct (_ || _).
  - unfold IsKSHv040Active. apply Z.leb_gt. change (nKSHv040Height main_params) with 999999999. lia.
Defined.

(** C30: with the v0.4.0 rules the cap does not hold.  The floor of one coin is
    paid but not counted as issued: on the test network the first 7500001
    blocks create more than the maximal amount of money. *)
Theorem testnet_emission_exceeds_cap `{LibM} :
  ∃ n, Z.of_nat n = 7500001 ∧ nMaxMoney testnet_params < sum_upto (paid TESTNET testnet_params) n.
Proof.
  exists (Z.to_nat 2500000 + Z.to_nat 5000001)%nat. split; [lia|]. rewrite sum_upto_add.
  assert (H1 : Z.of_nat (Z.to_nat 2500000) * kBaseSubsidy <= sum_upto (paid TESTNET testnet_params) (Z.to_nat 2500000)).
  { apply sum_upto_ge. intros h Hh. rewrite paid_public by auto. by apply testnet_early. }
  assert (H2 : Z.of_nat (Z.to_nat 5000001) * COIN <=
      sum_upto (λ h, paid TESTNET testnet_params (Z.of_nat (Z.to_nat 2500000) + h)) (Z.to_nat 5000001)).
  { apply sum_upto_ge. intros h Hh. rewrite paid_public by auto. apply testnet_late. lia. }
  change (nMaxMoney testnet_params) with (10000000 * COIN). unfold kBaseSubsidy in H1. unfold COIN in *. lia.
Qed.

(** C29: the masternode share.  For every block value whose product with the
    largest factor fits in 64 bits, far above the maximal amount of money, it
    is defined and lies between zero and the block value, on every branch of
    the schedule.  On the main network it is three tenths of the block value
    from the first block on, and overflows exactly for values from a third of
    [2^63] on. *)
Theorem GetMasternodePayment_bounded P h v f : payment_params_ok P → 0 <= v →
  (600 * v < 2 ^ 63 → ∃ r, GetMasternodePayment P h v f = Some r ∧ 0 <= r <= v) ∧
  (1 <= h < 999999999 →
    GetMasternodePayment main_params h v f = (if 3 * v <? 2 ^ 63 then Some ((v * 3) `div` 10) else None)).
Proof.
  intros HP Hv. split; [by apply GetMasternodePayment_spec|]. intros Hh. unfold GetMasternodePayment, mul64.
  change (nKSHv030Height main_params) with 999999999. change (nKSHv014Height main_params) with 1.
  destruct (Z.leb_spec 999999999 h), (Z.leb_spec 1 h); try lia. rewrite (Z.mul_comm 3 v).
  destruct (Z.leb_spec (- 2 ^ 63) (v * 3)); [|lia]. destruct (v * 3 <? 2 ^ 63); cbn [andb mbind option_bind]; [|done].
  f_equal. apply Z.quot_div_nonneg; lia.
Qed.
Lemma GetMasternodePayment_bounded_witness :
  (∃ r, GetMasternodePayment testnet_params 30000 (nMaxMoney testnet_params) false = Some r ∧ 0 <= r <= nMaxMoney testnet_params) ∧
  GetMasternodePayment main_params 5 kBaseSubsidy false = Some 60000000.
Proof.
  split.
  - apply (GetMasternodePayment_bounded testnet_params 30000 (nMaxMoney testnet_params) false);
      [split; vm_compute; congruence|vm_compute; congruence|reflexivity].
  - rewrite (proj2 (GetMasternodePayment_bounded main_params 5 kBaseSubsidy false ltac:(split; vm_compute; congruence) ltac:(vm_compute; congruence)));
      [reflexivity|lia].
Defined.
