(* ===== verification/Headers.v ===== *)
(** * Block headers on the wire

    Serialization of [CBlockHeader] and the compressed headers of
    [src/src/primitives/block.h] and [block.cpp], the messages [headers] and
    [headers2] and the answer to [getheaders] of [src/src/net_processing.cpp],
    and [FindForkInGlobalIndex] of [src/src/validation.cpp].  A [uint256] that
    names a block is the number of its 32 little-endian bytes. *)
From S2P Require Import Prelude Serialize ArithUint Params Chain.
Local Open Scope Z_scope.

(** Two's complement: [int32_t] and [int16_t] from the unsigned value read. *)
Definition s32 (x : Z) : Z := if x <? 2 ^ 31 then x else x - 2 ^ 32.
Definition s16 (x : Z) : Z := if x <? 2 ^ 15 then x else x - 2 ^ 16.

(** ** Plain headers *)
Definition ser_uint256 (x : Z) : list Z := le_bytes 32 x.
Definition unser_uint256 : reader Z := l ← read_bytes 32; mret (le_val l).

Definition ser_header (h : CBlockHeader) : list Z :=
  ser_writedata32 (h_nVersion h) ++ ser_uint256 (hashPrevBlock h) ++ h_hashMerkleRoot h
  ++ ser_writedata32 (h_nTime h) ++ ser_writedata32 (h_nBits h) ++ ser_writedata32 (h_nNonce h).
Definition unser_header : reader CBlockHeader :=
  v ← ser_readdata32; p ← unser_uint256; m ← read_bytes 32;
  t ← ser_readdata32; b ← ser_readdata32; n ← ser_readdata32;
  mret (mkHeader (s32 v) p m t b n).

Definition null_header : CBlockHeader := mkHeader 0 0 (replicate 32 0) 0 0 0.

(** ** The bit field of a compressed header *)
Definition PREV_BLOCK_HASH : Z := 1 ≪ 3.
Definition TIMESTAMP : Z := 1 ≪ 4.
Definition NBITS : Z := 1 ≪ 5.
Definition VERSION_BIT_MASK : Z := 7.

Definition IsCompressed (bf flag : Z) : bool := Z.land bf flag =? 0.
Definition MarkAsUncompressed (bf flag : Z) : Z := Z.lor bf flag.
Definition MarkAsCompressed (bf flag : Z) : Z := Z.land bf (u8 (Z.lnot flag)).
Definition SetVersionOffset (bf version : Z) : Z :=
  Z.lor (Z.land bf (u8 (Z.lnot VERSION_BIT_MASK))) (Z.land version VERSION_BIT_MASK).
Definition GetVersionOffset (bf : Z) : Z := Z.land bf VERSION_BIT_MASK.
Definition IsVersionCompressed (bf : Z) : bool := negb (GetVersionOffset bf =? 0).

Record CompressibleBlockHeader := mkCompressible { cb_header : CBlockHeader; bit_field : Z; time_offset : Z }.

Definition compressible (h : CBlockHeader) : CompressibleBlockHeader :=
  let bf := SetVersionOffset 0 0 in
  let bf := MarkAsUncompressed bf PREV_BLOCK_HASH in
  let bf := MarkAsUncompressed bf TIMESTAMP in
  mkCompressible h (MarkAsUncompressed bf NBITS) 0.

Definition ser_compressible (c : CompressibleBlockHeader) : list Z :=
  let h := cb_header c in let bf := bit_field c in
  ser_writedata8 bf
  ++ (if IsVersionCompressed bf then [] else ser_writedata32 (h_nVersion h))
  ++ (if IsCompressed bf PREV_BLOCK_HASH then [] else ser_uint256 (hashPrevBlock h))
  ++ h_hashMerkleRoot h
  ++ (if IsCompressed bf TIMESTAMP then ser_writedata16 (time_offset c) else ser_writedata32 (h_nTime h))
  ++ (if IsCompressed bf NBITS then [] else ser_writedata32 (h_nBits h))
  ++ ser_writedata32 (h_nNonce h).
Definition unser_compressible : reader CompressibleBlockHeader :=
  bf ← ser_readdata8;
  v ← (if IsVersionCompressed bf then mret 0 else x ← ser_readdata32; mret (s32 x));
  p ← (if IsCompressed bf PREV_BLOCK_HASH then mret 0 else unser_uint256);
  m ← read_bytes 32;
  '(t, o) ← (if IsCompressed bf TIMESTAMP then x ← ser_readdata16; mret (0, s16 x)
             else x ← ser_readdata32; mret (x, 0));
  b ← (if IsCompressed bf NBITS then mret 0 else ser_readdata32);
  n ← ser_readdata32;
  mret (mkCompressible (mkHeader v p m t b n) bf o).

(** ** The list of recent versions *)
Definition MarkVersionAsMostRecent (l : list Z) (i : nat) : list Z :=
  match l !! i with Some v => if (i =? 0)%nat then l else v :: delete i l | None => l end.
Definition max_backwards_look_ups : nat := 7.
Definition SaveVersionAsMostRecent (l : list Z) (version : Z) : list Z :=
  let l := version :: l in if (max_backwards_look_ups <? length l)%nat then take (length l - 1) l else l.

Fixpoint find_index (l : list Z) (v : Z) : option nat :=
  match l with [] => None | x :: l => if x =? v then Some 0%nat else S <$> find_index l v end.

Definition Compress (c : CompressibleBlockHeader) (previous_blocks : list CompressibleBlockHeader) (versions : list Z)
    : CompressibleBlockHeader * list Z :=
  let h := cb_header c in
  match last previous_blocks with
  | None => (c, SaveVersionAsMostRecent versions (h_nVersion h))
  | Some lb =>
      let last_block := cb_header lb in
      let '(bf, versions) :=
        match find_index versions (h_nVersion h) with
        | Some i => (SetVersionOffset (bit_field c) (u8 (Z.of_nat i + 1)), MarkVersionAsMostRecent versions i)
        | None => (bit_field c, SaveVersionAsMostRecent versions (h_nVersion h))
        end in
      let bf := MarkAsCompressed bf PREV_BLOCK_HASH in
      let time_diff := u32 (h_nTime h - h_nTime last_block) in
      let '(bf, off) :=
        if (time_diff <=? 32767) && (-32768 <=? time_diff) then (MarkAsCompressed bf TIMESTAMP, time_diff)
        else (bf, time_offset c) in
      let bf := if h_nBits h =? h_nBits last_block then MarkAsCompressed bf NBITS else bf in
      (mkCompressible h bf off, versions)
  end.

Section Uncompress.
(** The hash of a block header. *)
Context (GetHash : CBlockHeader → Z).

Definition Uncompress (c : CompressibleBlockHeader) (previous_blocks : list CBlockHeader) (versions : list Z)
    : CBlockHeader * list Z :=
  let h := cb_header c in let bf := bit_field c in
  match last previous_blocks with
  | None => (h, SaveVersionAsMostRecent versions (h_nVersion h))
  | Some last_block =>
      let '(v, versions) :=
        if IsVersionCompressed bf then
          let version_offset := GetVersionOffset bf in
          if version_offset <=? Z.of_nat (length versions) then
            let i := Z.to_nat (version_offset - 1) in
            (default (h_nVersion h) (versions !! i), MarkVersionAsMostRecent versions i)
          else (h_nVersion h, versions)
        else (h_nVersion h, SaveVersionAsMostRecent versions (h_nVersion h)) in
      (mkHeader v
         (if IsCompressed bf PREV_BLOCK_HASH then GetHash last_block else hashPrevBlock h)
         (h_hashMerkleRoot h)
         (if IsCompressed bf TIMESTAMP then u32 (h_nTime last_block + time_offset c) else h_nTime h)
         (if IsCompressed bf NBITS then h_nBits last_block else h_nBits h)
         (h_nNonce h), versions)
  end.

(** ** Messages *)
Definition MAX_HEADERS_UNCOMPRESSED_RESULT : Z := 2000.
Definition MAX_HEADERS_COMPRESSED_RESULT : Z := 8000.

(** The compressed headers of a message: [first] says whether the first header
    goes through [Compress] too (the announcement of new blocks) or not (the
    answer to [getheaders2]). *)
Fixpoint compress_all (first : bool) (hs : list CBlockHeader) (v_headers : list CompressibleBlockHeader) (versions : list Z)
    : list CompressibleBlockHeader :=
  match hs with
  | [] => v_headers
  | h :: hs =>
      let c := compressible h in
      let '(c, versions) :=
        if first || negb (length v_headers =? 0)%nat then Compress c v_headers versions else (c, versions) in
      compress_all first hs (v_headers ++ [c]) versions
  end.
Definition headers2_message (first : bool) (hs : list CBlockHeader) : list Z :=
  WriteCompactSize (Z.of_nat (length hs)) ++ (compress_all first hs [] [] ≫= ser_compressible).
Definition headers_message (hs : list CBlockHeader) : list Z :=
  WriteCompactSize (Z.of_nat (length hs)) ++ (hs ≫= λ h, ser_header h ++ WriteCompactSize 0).

Fixpoint read_headers2 (n : nat) (headers : list CBlockHeader) (versions : list Z) : reader (list CBlockHeader) :=
  match n with
  | O => mret headers
  | S n =>
      c ← unser_compressible;
      let '(h, versions) := Uncompress c headers versions in
      read_headers2 n (headers ++ [h]) versions
  end.
Fixpoint read_headers (n : nat) : reader (list CBlockHeader) :=
  match n with
  | O => mret []
  | S n => h ← unser_header; _ ← ReadCompactSize true; l ← read_headers n; mret (h :: l)
  end.

(** Reading either message; [None] in the result is a peer that misbehaves. *)
Definition receive_headers (compressed : bool) (limit : Z) : reader (option (list CBlockHeader)) :=
  nCount ← ReadCompactSize true;
  if limit <? nCount then mret None
  else l ← (if compressed then read_headers2 (Z.to_nat nCount) [] [] else read_headers (Z.to_nat nCount)); mret (Some l).
End Uncompress.

(** ** Answering a request *)
Fixpoint FindForkInGlobalIndex (t : block_tree) (vChain : CChain) (vHave : list ptr) : option (option ptr) :=
  match vHave with
  | [] => Some (Genesis vChain)
  | hash :: vHave =>
      match t !! hash with
      | Some _ => c ← Contains t vChain hash;
                  if c : bool then Some (Some hash) else FindForkInGlobalIndex t vChain vHave
      | None => FindForkInGlobalIndex t vChain vHave
      end
  end.

(** The blocks of the answer: at most [nLimit] (at least one), up to [hashStop]. *)
Fixpoint send_headers (nLimit : nat) (t : block_tree) (vChain : CChain) (hashStop : ptr) (pindex : option ptr) : option (list ptr) :=
  match pindex with
  | None => Some []
  | Some p =>
      match nLimit with
      | O => Some [p]
      | S nLimit =>
          if (nLimit =? 0)%nat || (p =? hashStop) then Some [p]
          else next ← Next t vChain p; l ← send_headers nLimit t vChain hashStop next; Some (p :: l)
      end
  end.
Definition getheaders (nLimit : nat) (t : block_tree) (vChain : CChain) (locator : list ptr) (hashStop : ptr) : option (list ptr) :=
  fork ← FindForkInGlobalIndex t vChain locator;
  first ← match fork with Some p => Next t vChain p | None => Some None end;
  send_headers nLimit t vChain hashStop first.

(** The message: which block is looked up when the locator is empty, and when
    the request is refused. *)
Definition MAX_LOCATOR_SZ : nat := 101.
Definition STALE_RELAY_AGE_LIMIT : Z := 30 * 24 * 60 * 60.
Definition INCREASE_MAX_HEADERS2_VERSION : Z := 70235.
Definition GetHeadersLimit (common_version : Z) (compressed : bool) : Z :=
  if (INCREASE_MAX_HEADERS2_VERSION <=? common_version) && compressed then MAX_HEADERS_COMPRESSED_RESULT
  else MAX_HEADERS_UNCOMPRESSED_RESULT.

Definition BlockRequestAllowed (t : block_tree) (vChain : CChain) (best_header : option ptr) (P : Consensus_Params) (pindex : ptr) : option bool :=
  b ← t !! pindex; c ← Contains t vChain pindex;
  if c : bool then Some true
  else
    v ← IsValid b BLOCK_VALID_SCRIPTS;
    match best_header with
    | Some h =>
        bh ← t !! h;
        if v && (GetBlockTime bh - GetBlockTime b <? STALE_RELAY_AGE_LIMIT)
        then e ← GetBlockProofEquivalentTime bh b bh P; Some (e <? STALE_RELAY_AGE_LIMIT)
        else Some false
    | None => Some false
    end.

(** What the node knows of its own state and of the peer. *)
Record getheaders_env := mkGetheadersEnv {
  importing : bool;                 (* fImporting || fReindex *)
  nMinimumChainWork : arith_uint256;
  download_permission : bool; common_version : Z;
  env_best_header : option ptr; env_params : Consensus_Params
}.
(** The peer is disconnected, or gets no answer, or the headers of these blocks. *)
Inductive getheaders_answer_t := Disconnect | NoAnswer | SendHeaders (l : list ptr).

Definition process_getheaders (env : getheaders_env) (compressed : bool) (t : block_tree) (vChain : CChain) (locator : list ptr) (hashStop : ptr)
    : option getheaders_answer_t :=
  let nLimit := Z.to_nat (GetHeadersLimit (common_version env) compressed) in
  if (MAX_LOCATOR_SZ <? length locator)%nat then Some Disconnect
  else if importing env then Some NoAnswer
  else match Tip vChain with
  | None => Some (SendHeaders [])
  | Some tip =>
      bt ← t !! tip;
      if op_lt (nChainWork bt) (nMinimumChainWork env) && negb (download_permission env) then Some (SendHeaders [])
      else match locator with
      | [] =>
          match t !! hashStop with
          | None => Some NoAnswer
          | Some _ =>
              allowed ← BlockRequestAllowed t vChain (env_best_header env) (env_params env) hashStop;
              if allowed : bool then l ← send_headers nLimit t vChain hashStop (Some hashStop); Some (SendHeaders l)
              else Some NoAnswer
          end
      | _ => l ← getheaders nLimit t vChain locator hashStop; Some (SendHeaders l)
      end
  end.
