(* ===== verification/HeadersCorrect.v ===== *)
(** * Headers: what is sent is what is received

    Both header messages decode to the headers that were sent, the compressed
    one for headers that form a chain, although the sender and the receiver
    keep different lists of recent versions.  A node answers the locator of
    another node with the part of its chain that the other may lack. *)
From S2P Require Import Prelude Serialize Limbs ArithUint ArithCorrect Params Chain ChainCorrect ChainIndex ChainActive Headers.
Local Open Scope Z_scope.

Record header_wf (h : CBlockHeader) : Prop := {
  hw_version : - 2 ^ 31 <= h_nVersion h < 2 ^ 31;
  hw_prev : in_width 256 (hashPrevBlock h);
  hw_merkle : length (h_hashMerkleRoot h) = 32%nat ∧ bytes (h_hashMerkleRoot h);
  hw_words : is_u32 (h_nTime h) ∧ is_u32 (h_nBits h) ∧ is_u32 (h_nNonce h)
}.

(** ** Fields *)
Lemma read_signed n x s : - 2 ^ (8 * Z.of_nat n - 1) <= x < 2 ^ (8 * Z.of_nat n - 1) → (0 < n)%nat →
  (l ← read_bytes n; mret (le_val l) : reader Z) (le_bytes n x ++ s) = Some (x `mod` 256 ^ Z.of_nat n, s).
Proof.
  intros Hx Hn. rewrite (rd_bind _ _ _ (le_bytes n x) s) by (apply read_bytes_app, length_le_bytes).
  unfold mret, reader_ret. by rewrite le_val_le_bytes.
Qed.
Lemma s32_mod x : - 2 ^ 31 <= x < 2 ^ 31 → s32 (x `mod` 256 ^ Z.of_nat 4) = x.
Proof.
  intros Hx. change (256 ^ Z.of_nat 4) with (2 ^ 32). unfold s32. destruct (Z.lt_ge_cases x 0).
  - replace (x `mod` 2 ^ 32) with (x + 2 ^ 32) by (apply Z.mod_unique with (-1); lia).
    destruct (Z.ltb_spec (x + 2 ^ 32) (2 ^ 31)); lia.
  - rewrite Z.mod_small by lia. destruct (Z.ltb_spec x (2 ^ 31)); lia.
Qed.
Lemma s16_mod x : - 2 ^ 15 <= x < 2 ^ 15 → s16 (x `mod` 256 ^ Z.of_nat 2) = x.
Proof.
  intros Hx. change (256 ^ Z.of_nat 2) with (2 ^ 16). unfold s16. destruct (Z.lt_ge_cases x 0).
  - replace (x `mod` 2 ^ 16) with (x + 2 ^ 16) by (apply Z.mod_unique with (-1); lia).
    destruct (Z.ltb_spec (x + 2 ^ 16) (2 ^ 15)); lia.
  - rewrite Z.mod_small by lia. destruct (Z.ltb_spec x (2 ^ 15)); lia.
Qed.
Lemma rd_version v s : - 2 ^ 31 <= v < 2 ^ 31 →
  (x ← ser_readdata32; mret (s32 x) : reader Z) (ser_writedata32 v ++ s) = Some (v, s).
Proof.
  intros Hv. rewrite (rd_bind _ _ _ _ _ (read_signed 4 v s Hv ltac:(lia))). unfold mret, reader_ret. by rewrite s32_mod.
Qed.
Lemma rd_offset o s : - 2 ^ 15 <= o < 2 ^ 15 →
  (x ← ser_readdata16; mret (0, s16 x) : reader (Z * Z)) (ser_writedata16 o ++ s) = Some ((0, o), s).
Proof.
  intros Ho. rewrite (rd_bind _ _ _ _ _ (read_signed 2 o s Ho ltac:(lia))). unfold mret, reader_ret. by rewrite s16_mod.
Qed.
Lemma rd_u32 x s : is_u32 x → ser_readdata32 (ser_writedata32 x ++ s) = Some (x, s).
Proof. intros Hx. by apply (read_le 4). Qed.
Lemma rd_u8 x s : is_u8 x → ser_readdata8 (ser_writedata8 x ++ s) = Some (x, s).
Proof. intros Hx. unfold ser_writedata8. rewrite u8_id by done. rewrite <- (read_le 1 x s Hx). simpl. by rewrite (u8_id x). Qed.
Lemma rd_uint256 x s : in_width 256 x → unser_uint256 (ser_uint256 x ++ s) = Some (x, s).
Proof. intros Hx. by apply (read_le 32). Qed.

(** ** Plain headers *)
Lemma unser_ser_header h s : header_wf h → unser_header (ser_header h ++ s) = Some (h, s).
Proof.
  intros [Hv Hp [Hm _] (Ht&Hb&Hn)]. unfold unser_header, ser_header. rewrite <- !app_assoc.
  rewrite (rd_bind _ _ _ _ _ (read_signed 4 (h_nVersion h) _ Hv ltac:(lia))). read (rd_uint256 (hashPrevBlock h) (h_hashMerkleRoot h ++ ser_writedata32 (h_nTime h) ++ ser_writedata32 (h_nBits h) ++ ser_writedata32 (h_nNonce h) ++ s) Hp).
  rewrite (rd_bind _ _ _ _ _ (read_bytes_app 32 (h_hashMerkleRoot h) _ Hm)).
  rewrite (rd_bind _ _ _ _ _ (rd_u32 (h_nTime h) _ Ht)), (rd_bind _ _ _ _ _ (rd_u32 (h_nBits h) _ Hb)),
    (rd_bind _ _ _ _ _ (rd_u32 (h_nNonce h) s Hn)).
  unfold mret, reader_ret. rewrite s32_mod by done. by destruct h.
Qed.

(** ** Recent versions *)
Lemma find_index_Some l v i : find_index l v = Some i → l !! i = Some v.
Proof.
  revert i. induction l as [|x l IH]; intros i; simpl; [done|]. destruct (Z.eqb_spec x v) as [->|]; [by intros [= <-]|].
  destruct (find_index l v) as [j|]; simpl; [|done]. intros [= <-]. simpl. auto.
Qed.
Lemma Save_take l v : (length l ≤ 7)%nat → SaveVersionAsMostRecent l v = take 7 (v :: l).
Proof.
  intros Hl. unfold SaveVersionAsMostRecent, max_backwards_look_ups. destruct (Nat.ltb_spec 7 (length (v :: l))) as [H|H]; simpl length in H.
  - f_equal. simpl. lia.
  - rewrite take_ge; [done|simpl; lia].
Qed.

(** The sender's list is a prefix of the receiver's. *)
Definition in_step (S R : list Z) : Prop := S `prefix_of` R ∧ (length R ≤ 7)%nat.
Lemma in_step_save S R v : in_step S R → in_step (SaveVersionAsMostRecent S v) (SaveVersionAsMostRecent R v).
Proof.
  intros [[k ->] HR]. rewrite length_app in HR. rewrite !Save_take by (rewrite ?length_app; lia). split.
  - change (v :: S ++ k) with ((v :: S) ++ k). rewrite take_app. apply prefix_app_r. reflexivity.
  - rewrite length_take. lia.
Qed.
Lemma in_step_mark S R i v : in_step S R → S !! i = Some v →
  in_step (MarkVersionAsMostRecent S i) (MarkVersionAsMostRecent R i) ∧ R !! i = Some v.
Proof.
  intros [[k ->] HR] Hi. assert (Hi' : (S ++ k) !! i = Some v) by by apply lookup_app_l_Some.
  split; [|done]. unfold MarkVersionAsMostRecent. rewrite Hi, Hi'.
  destruct (Nat.eqb_spec i 0); [split; [by apply prefix_app_r|done]|].
  pose proof (lookup_lt_Some _ _ _ Hi) as Hlt. split.
  - apply prefix_cons. rewrite delete_take_drop, delete_take_drop, take_app_le, drop_app_le by lia. rewrite app_assoc. apply prefix_app_r. reflexivity.
  - simpl. rewrite length_delete by (by eexists). rewrite length_app in *. lia.
Qed.
Lemma in_step_length S R i v : in_step S R → S !! i = Some v → (i < 7)%nat ∧ (i < length R)%nat.
Proof. intros [[k ->] HR] Hi. pose proof (lookup_lt_Some _ _ _ Hi). rewrite length_app in *. lia. Qed.

(** ** The bit field of a compressed header *)
Definition bf_of (off : Z) (tc nc : bool) : Z :=
  let bf := MarkAsCompressed (SetVersionOffset 0x38 off) PREV_BLOCK_HASH in
  let bf := if tc then MarkAsCompressed bf TIMESTAMP else bf in
  if nc then MarkAsCompressed bf NBITS else bf.
Lemma bf_of_spec off tc nc : 0 <= off < 8 →
  is_u8 (bf_of off tc nc) ∧ GetVersionOffset (bf_of off tc nc) = off ∧ IsCompressed (bf_of off tc nc) PREV_BLOCK_HASH = true ∧
  IsCompressed (bf_of off tc nc) TIMESTAMP = tc ∧ IsCompressed (bf_of off tc nc) NBITS = nc.
Proof.
  intros Ho. assert (off = 0 ∨ off = 1 ∨ off = 2 ∨ off = 3 ∨ off = 4 ∨ off = 5 ∨ off = 6 ∨ off = 7) as H by lia.
  unfold in_width. destruct tc, nc; repeat destruct H as [->|H]; try subst off; vm_compute; split_and!; congruence.
Qed.

(** What the receiver makes of a sent compressed header, before [Uncompress]. *)
Definition received (h : CBlockHeader) (off o : Z) (tc nc : bool) : CompressibleBlockHeader :=
  mkCompressible (mkHeader (if negb (off =? 0) then 0 else h_nVersion h) 0 (h_hashMerkleRoot h)
    (if tc then 0 else h_nTime h) (if nc then 0 else h_nBits h) (h_nNonce h)) (bf_of off tc nc) (if tc then o else 0).
Lemma unser_ser_sent h off o tc nc s : header_wf h → 0 <= off < 8 → - 2 ^ 15 <= o < 2 ^ 15 →
  unser_compressible (ser_compressible (mkCompressible h (bf_of off tc nc) o) ++ s) = Some (received h off o tc nc, s).
Proof.
  intros [Hv Hp [Hm _] (Ht&Hb&Hn)] Ho Hoff. destruct (bf_of_spec off tc nc Ho) as (B1&B2&B3&B4&B5).
  unfold ser_compressible, unser_compressible, received. cbn [cb_header bit_field time_offset]. rewrite <- !app_assoc.
  rewrite (rd_bind _ _ _ _ _ (rd_u8 (bf_of off tc nc) _ B1)). unfold IsVersionCompressed. rewrite B2, B3, B4, B5.
  assert (Hver : ∀ s, (if negb (off =? 0) then mret 0 else x ← ser_readdata32; mret (s32 x) : reader Z)
      ((if negb (off =? 0) then [] else ser_writedata32 (h_nVersion h)) ++ s) =
      Some (if negb (off =? 0) then 0 else h_nVersion h, s)) by (intros; destruct (negb _); [done|by apply rd_version]).
  rewrite (rd_bind _ _ _ _ _ (Hver _)). cbn [app].
  rewrite (rd_bind (mret 0) _ _ 0 _ eq_refl), (rd_bind _ _ _ _ _ (read_bytes_app 32 (h_hashMerkleRoot h) _ Hm)).
  assert (Htime : ∀ s, (if tc then x ← ser_readdata16; mret (0, s16 x) else x ← ser_readdata32; mret (x, 0) : reader (Z * Z))
      ((if tc then ser_writedata16 o else ser_writedata32 (h_nTime h)) ++ s) =
      Some ((if tc then 0 else h_nTime h, if tc then o else 0), s)).
  { intros s'. destruct tc; [by apply rd_offset|]. by rewrite (rd_bind _ _ _ _ _ (rd_u32 (h_nTime h) s' Ht)). }
  rewrite (rd_bind _ _ _ _ _ (Htime _)).
  assert (Hbits : ∀ s, (if nc then mret 0 else ser_readdata32 : reader Z) ((if nc then [] else ser_writedata32 (h_nBits h)) ++ s) =
      Some (if nc then 0 else h_nBits h, s)) by (intros; destruct nc; [done|by apply rd_u32]).
  rewrite (rd_bind _ _ _ _ _ (Hbits _)), (rd_bind _ _ _ _ _ (rd_u32 (h_nNonce h) s Hn)). done.
Qed.

(** The first header of a message is sent in full. *)
Lemma unser_ser_first h s : header_wf h →
  unser_compressible (ser_compressible (compressible h) ++ s) = Some (mkCompressible h 0x38 0, s).
Proof.
  intros [Hv Hp [Hm _] (Ht&Hb&Hn)]. change (compressible h) with (mkCompressible h 0x38 0).
  unfold ser_compressible, unser_compressible. cbn [cb_header bit_field time_offset]. rewrite <- !app_assoc.
  rewrite (rd_bind _ _ _ _ _ (rd_u8 0x38 _ ltac:(split; [lia|reflexivity]))).
  change (IsVersionCompressed 0x38) with false. change (IsCompressed 0x38 PREV_BLOCK_HASH) with false.
  change (IsCompressed 0x38 TIMESTAMP) with false. change (IsCompressed 0x38 NBITS) with false. cbv iota.
  rewrite (rd_bind _ _ _ _ _ (rd_version (h_nVersion h) _ Hv)), (rd_bind _ _ _ _ _ (rd_uint256 (hashPrevBlock h) _ Hp)),
    (rd_bind _ _ _ _ _ (read_bytes_app 32 (h_hashMerkleRoot h) _ Hm)).
  assert (Htime : ∀ s, (x ← ser_readdata32; mret (x, 0) : reader (Z * Z)) (ser_writedata32 (h_nTime h) ++ s) = Some ((h_nTime h, 0), s))
    by (intros s'; by rewrite (rd_bind _ _ _ _ _ (rd_u32 (h_nTime h) s' Ht))).
  rewrite (rd_bind _ _ _ _ _ (Htime _)), (rd_bind _ _ _ _ _ (rd_u32 (h_nBits h) _ Hb)), (rd_bind _ _ _ _ _ (rd_u32 (h_nNonce h) s Hn)).
  by destruct h.
Qed.

(** ** One header *)
Lemma time_diff_back a b : is_u32 a → is_u32 b → u32 (b + u32 (a - b)) = a.
Proof.
  intros Ha Hb. unfold u32. rewrite Zplus_mod_idemp_r. replace (b + (a - b)) with a by lia. by apply u32_id.
Qed.
Lemma Compress_sent h prevs lb S : last prevs = Some lb → header_wf h → header_wf (cb_header lb) → (length S ≤ 7)%nat →
  ∃ off o tc nc, (Compress (compressible h) prevs S).1 = mkCompressible h (bf_of off tc nc) o ∧
    0 <= off < 8 ∧ - 2 ^ 15 <= o < 2 ^ 15 ∧
    (tc = true → u32 (h_nTime (cb_header lb) + o) = h_nTime h) ∧ (nc = true → h_nBits (cb_header lb) = h_nBits h) ∧
    match find_index S (h_nVersion h) with
    | Some i => off = Z.of_nat i + 1 ∧ (Compress (compressible h) prevs S).2 = MarkVersionAsMostRecent S i
    | None => off = 0 ∧ (Compress (compressible h) prevs S).2 = SaveVersionAsMostRecent S (h_nVersion h)
    end.
Proof.
  intros Hl Hh Hlb HS. destruct (hw_words h Hh) as (Ht&_&_), (hw_words _ Hlb) as (Htl&_&_).
  unfold Compress. rewrite Hl. change (cb_header (compressible h)) with h. change (bit_field (compressible h)) with 0x38.
  change (time_offset (compressible h)) with 0.
  set (d := u32 (h_nTime h - h_nTime (cb_header lb))). pose proof (u32_width (h_nTime h - h_nTime (cb_header lb))) as Hd. fold d in Hd.
  set (off := match find_index S (h_nVersion h) with Some i => Z.of_nat i + 1 | None => 0 end).
  set (tc := (d <=? 32767) && (-32768 <=? d)). set (nc := h_nBits h =? h_nBits (cb_header lb)).
  exists off, (if tc then d else 0), tc, nc.
  assert (Hoff : 0 <= off < 8).
  { unfold off. destruct (find_index S (h_nVersion h)) as [i|] eqn:E; [|lia].
    apply find_index_Some, lookup_lt_Some in E. lia. }
  assert (Hbf : (match find_index S (h_nVersion h) with
      | Some i => (SetVersionOffset 0x38 (u8 (Z.of_nat i + 1)), MarkVersionAsMostRecent S i)
      | None => (0x38, SaveVersionAsMostRecent S (h_nVersion h)) end) =
    (SetVersionOffset 0x38 off, match find_index S (h_nVersion h) with
      | Some i => MarkVersionAsMostRecent S i | None => SaveVersionAsMostRecent S (h_nVersion h) end)).
  { unfold off in *. destruct (find_index S (h_nVersion h)); [|done]. rewrite u8_id by (unfold in_width; lia). done. }
  rewrite Hbf. clear Hbf. destruct Hd as [Hd1 Hd2]. split_and!; try apply Hoff.
  - unfold bf_of. by destruct tc, nc.
  - destruct tc; lia.
  - destruct tc eqn:Etc; [|lia]. unfold tc in Etc. apply andb_prop in Etc as [E1 _]. lia.
  - intros ->. by apply time_diff_back.
  - intros E. unfold nc in E. apply Z.eqb_eq in E. done.
  - unfold off. destruct (find_index S (h_nVersion h)); split; by destruct tc.
Qed.

Section messages.
Context (GetHash : CBlockHeader → Z).

Lemma Uncompress_received h headers lh S R off o tc nc : last headers = Some lh → hashPrevBlock h = GetHash lh →
  in_step S R → 0 <= off < 8 →
  (tc = true → u32 (h_nTime lh + o) = h_nTime h) → (nc = true → h_nBits lh = h_nBits h) →
  match find_index S (h_nVersion h) with Some i => off = Z.of_nat i + 1 | None => off = 0 end →
  Uncompress GetHash (received h off o tc nc) headers R =
    (h, match find_index S (h_nVersion h) with
        | Some i => MarkVersionAsMostRecent R i
        | None => SaveVersionAsMostRecent R (h_nVersion h) end).
Proof.
  intros Hl Hp Hst Ho Ht Hn Hf. destruct (bf_of_spec off tc nc Ho) as (B1&B2&B3&B4&B5).
  unfold Uncompress, received. cbn [cb_header bit_field time_offset]. rewrite Hl. unfold IsVersionCompressed. rewrite B2, B3, B4, B5.
  cbn [h_nVersion h_hashMerkleRoot h_nTime h_nBits h_nNonce].
  assert (Hfields : mkHeader (h_nVersion h) (GetHash lh) (h_hashMerkleRoot h)
      (if tc then u32 (h_nTime lh + (if tc then o else 0)) else (if tc then 0 else h_nTime h))
      (if nc then h_nBits lh else (if nc then 0 else h_nBits h)) (h_nNonce h) = h).
  { rewrite <- Hp. destruct tc, nc; rewrite ?Ht, ?Hn by done; by destruct h. }
  destruct (find_index S (h_nVersion h)) as [i|] eqn:E.
  - apply find_index_Some in E. destruct (in_step_mark S R i _ Hst E) as [_ HR], (in_step_length S R i _ Hst E) as [Hi7 Hilt].
    destruct (Z.eqb_spec off 0); [lia|]. cbn [negb]. destruct (Z.leb_spec off (Z.of_nat (length R))); [|lia].
    replace (Z.to_nat (off - 1)) with i by lia. rewrite HR. apply (f_equal2 pair); [exact Hfields|reflexivity].
  - subst off. apply (f_equal2 pair); [exact Hfields|reflexivity].
Qed.

(** Headers that form a chain after [prev]. *)
Fixpoint linked_headers (prev : option CBlockHeader) (hs : list CBlockHeader) : Prop :=
  match hs with
  | [] => True
  | h :: hs => match prev with Some p => hashPrevBlock h = GetHash p | None => True end ∧ linked_headers (Some h) hs
  end.

Lemma headers2_step first h prevs headers S R : header_wf h → (∀ lb, last prevs = Some lb → header_wf (cb_header lb)) →
  headers = cb_header <$> prevs → match last headers with Some p => hashPrevBlock h = GetHash p | None => True end →
  in_step S R → (prevs = [] → S = []) →
  ∃ c c' S' R', (if first || negb (length prevs =? 0)%nat then Compress (compressible h) prevs S else (compressible h, S)) = (c, S') ∧
    cb_header c = h ∧ (∀ s, unser_compressible (ser_compressible c ++ s) = Some (c', s)) ∧
    Uncompress GetHash c' headers R = (h, R') ∧ in_step S' R'.
Proof.
  intros Hh Hlb -> Hp Hst HS. rewrite fmap_last in Hp. destruct (last prevs) as [lb|] eqn:El; cbn [fmap option_fmap option_map] in Hp.
  - assert (Hne : (length prevs =? 0)%nat = false) by (apply Nat.eqb_neq; by destruct prevs). rewrite Hne, orb_true_r.
    destruct (Compress_sent h prevs lb S El Hh (Hlb lb eq_refl)) as (off&o&tc&nc&Ec&Ho&Hoff&Ht&Hn&Hf).
    { destruct Hst as [[k ->] HR]. rewrite length_app in HR. lia. }
    exists (mkCompressible h (bf_of off tc nc) o), (received h off o tc nc), (Compress (compressible h) prevs S).2.
    eexists. split; [by rewrite <- Ec; destruct (Compress _ _ _)|]. split; [done|]. split; [intros; by apply unser_ser_sent|].
    split; [apply (Uncompress_received h _ (cb_header lb) S R); auto|].
    + by rewrite fmap_last, El.
    + by destruct (find_index S (h_nVersion h)); destruct Hf.
    + destruct (find_index S (h_nVersion h)) as [i|] eqn:E; destruct Hf as [_ ->]; [|by apply in_step_save].
      apply find_index_Some in E. by apply (in_step_mark S R i _ Hst E).
  - apply last_None in El as ->. rewrite (HS eq_refl) in *. exists (compressible h), (mkCompressible h 0x38 0).
    exists (if first then SaveVersionAsMostRecent [] (h_nVersion h) else []), (SaveVersionAsMostRecent R (h_nVersion h)).
    split; [by destruct first|]. split; [done|]. split; [intros; by apply unser_ser_first|]. split; [done|].
    destruct first; [by apply (in_step_save [])|]. destruct (in_step_save [] R (h_nVersion h) Hst) as [_ HR].
    split; [apply prefix_nil|done].
Qed.

(** ** Whole messages *)
Lemma headers2_all first hs : ∀ prevs headers S R s, Forall header_wf hs → Forall header_wf headers →
  headers = cb_header <$> prevs → linked_headers (last headers) hs → in_step S R → (prevs = [] → S = []) →
  ∃ cs, compress_all first hs prevs S = prevs ++ cs ∧
    read_headers2 GetHash (length hs) headers R ((cs ≫= ser_compressible) ++ s) = Some (headers ++ hs, s).
Proof.
  induction hs as [|h hs IH]; intros prevs headers S R s Hh Hw Hm Hlk Hst HS; [exists []; by rewrite !app_nil_r|].
  apply Forall_cons in Hh as [Hh0 Hhs]. destruct Hlk as [Hp Hlk].
  assert (Hlb : ∀ lb, last prevs = Some lb → header_wf (cb_header lb)).
  { intros lb Hlb. rewrite Forall_forall in Hw. apply Hw. rewrite Hm. apply list_elem_of_fmap. exists lb. split; [done|].
    rewrite last_lookup in Hlb. by eapply list_elem_of_lookup_2. }
  destruct (headers2_step first h prevs headers S R Hh0 Hlb Hm Hp Hst HS) as (c&c'&S'&R'&Ec&Hc&Hu&Hun&Hst').
  destruct (IH (prevs ++ [c]) (headers ++ [h]) S' R' s) as (cs&Ecs&Hr).
  - done.
  - apply Forall_app. split; [done|by apply Forall_singleton].
  - by rewrite fmap_app, Hm, <- Hc.
  - by rewrite last_snoc.
  - done.
  - by destruct prevs.
  - exists (c :: cs). split.
    + cbn [compress_all]. rewrite Ec, Ecs, <- app_assoc. done.
    + cbn [length read_headers2 mbind list_bind]. rewrite <- app_assoc, (rd_bind _ _ _ _ _ (Hu _)), Hun, Hr, <- app_assoc. done.
Qed.
Lemma headers_all hs s : Forall header_wf hs →
  read_headers (length hs) ((hs ≫= λ h, ser_header h ++ WriteCompactSize 0) ++ s) = Some (hs, s).
Proof.
  induction 1 as [|h hs Hh Hhs IH]; [done|]. cbn [length read_headers mbind list_bind]. rewrite <- !app_assoc.
  rewrite (rd_bind _ _ _ _ _ (unser_ser_header h _ Hh)).
  rewrite (rd_bind _ _ _ _ _ (Read_WriteCompactSize true 0 _ ltac:(lia) ltac:(unfold MAX_SIZE; lia))).
  rewrite (rd_bind _ _ _ _ _ IH). done.
Qed.
End messages.

(** ** Answering a request *)
Section answer.
Context (t : block_tree) (Ht : tree_ok t) (tip : ptr) (bt : CBlockIndex) (c : CChain)
        (Hbt : t !! tip = Some bt) (Hc : chain_of t tip c).

Lemma Genesis_spec : ∃ g bg, Genesis c = Some g ∧ t !! g = Some bg ∧ nHeight bg = 0 ∧ ancestor t g tip.
Proof using Ht Hbt Hc.
  pose proof (entry_height t Ht tip bt Hbt). pose proof Hc as (b&Hb&Hlen&Hat). assert (b = bt) as -> by congruence.
  destruct (up_total t Ht (length c - 1 - 0) tip bt Hbt ltac:(lia)) as (g&bg&Eu&Hg&Hh). exists g, bg.
  unfold Genesis. rewrite Hat by lia. rewrite Eu. split_and!; [done|done|lia|by eexists].
Qed.
Lemma Next_spec p b : t !! p = Some b → ancestor t p tip →
  Next t c p = Some (if nHeight b <? nHeight bt then up (Z.to_nat (nHeight bt - (nHeight b + 1))) t tip else None).
Proof using Ht Hbt Hc.
  intros Hp Ha. unfold Next. rewrite Hp. cbn [mbind option_bind].
  destruct (Contains_spec t Ht tip c p b Hc Hp) as (r&Er&Hr). rewrite Er. cbn [mbind option_bind].
  rewrite (proj2 Hr Ha). rewrite (at_height_spec t Ht tip bt c _ Hc Hbt). pose proof (entry_height t Ht p b Hp).
  destruct (Z.leb_spec 0 (nHeight b + 1)), (Z.leb_spec (nHeight b + 1) (nHeight bt)), (Z.ltb_spec (nHeight b) (nHeight bt)); try lia; done.
Qed.

(** The blocks of the chain from height [h] on, at most [n]. *)
Definition segment (h : Z) (n : nat) : list ptr :=
  omap (λ i, up (Z.to_nat (nHeight bt - Z.of_nat i)) t tip)
    (seq (Z.to_nat h) (Nat.min n (Z.to_nat (nHeight bt - h + 1)))).

Lemma segment_cons h n p : 0 <= h <= nHeight bt → up (Z.to_nat (nHeight bt - h)) t tip = Some p →
  segment h (S n) = p :: segment (h + 1) n.
Proof.
  intros Hh Hp. unfold segment. replace (Nat.min (S n) (Z.to_nat (nHeight bt - h + 1)))
    with (S (Nat.min n (Z.to_nat (nHeight bt - (h + 1) + 1)))) by lia.
  cbn [seq omap list_omap]. replace (Z.of_nat (Z.to_nat h)) with h by lia. rewrite Hp.
  by replace (S (Z.to_nat h)) with (Z.to_nat (h + 1)) by lia.
Qed.
Lemma segment_nil h n : nHeight bt < h → segment h n = [].
Proof. intros Hh. unfold segment. by replace (Nat.min n (Z.to_nat (nHeight bt - h + 1))) with 0%nat by lia. Qed.

(** The answer is a segment of the chain, cut after the stop hash. *)
Fixpoint upto (stop : ptr) (l : list ptr) : list ptr :=
  match l with [] => [] | p :: l => p :: if p =? stop then [] else upto stop l end.
Lemma send_headers_spec n stop h : 0 <= h →
  send_headers (S n) t c stop (if h <=? nHeight bt then up (Z.to_nat (nHeight bt - h)) t tip else None) = Some (upto stop (segment h (S n))).
Proof using Ht Hbt Hc.
  revert h. induction n as [|n IH]; intros h Hh;
    (destruct (Z.leb_spec h (nHeight bt)) as [Hle|Hgt]; [|by rewrite segment_nil by lia]);
    destruct (up_total t Ht (Z.to_nat (nHeight bt - h)) tip bt Hbt ltac:(lia)) as (p&b&Eu&Hp&Hhp); rewrite Eu.
  - rewrite (segment_cons h 0 p) by (lia || done). unfold segment. rewrite Nat.min_0_l. cbn. by destruct (p =? stop).
  - rewrite (segment_cons h (S n) p) by (lia || done). remember (S n) as m. cbn [send_headers].
    assert (Ha : ancestor t p tip) by by eexists. subst m. cbn [Nat.eqb orb upto].
    destruct (Z.eqb_spec p stop); [done|].
    rewrite (Next_spec p b Hp Ha). cbn [mbind option_bind].
    specialize (IH (h + 1) ltac:(lia)).
    replace (nHeight b) with h by lia. destruct (Z.ltb_spec h (nHeight bt)), (Z.leb_spec (h + 1) (nHeight bt)); try lia; by rewrite IH.
Qed.
Lemma FindForkInGlobalIndex_spec l : ∃ p b, FindForkInGlobalIndex t c l = Some (Some p) ∧ t !! p = Some b ∧ ancestor t p tip ∧
  ((∀ q, q ∈ l → ¬ ancestor t q tip) ∧ nHeight b = 0 ∨ ∃ l1 l2, l = l1 ++ p :: l2 ∧ ∀ q, q ∈ l1 → ¬ ancestor t q tip).
Proof using Ht Hbt Hc.
  induction l as [|q l IH]; cbn [FindForkInGlobalIndex].
  - destruct Genesis_spec as (g&bg&Eg&Hg&Hh&Ha). exists g, bg. rewrite Eg. split_and!; [done..|]. left. split; [|done].
    intros q Hq. by apply elem_of_nil in Hq.
  - assert (Hskip : ¬ ancestor t q tip → FindForkInGlobalIndex t c l = FindForkInGlobalIndex t c l →
      ∃ p b, FindForkInGlobalIndex t c l = Some (Some p) ∧ t !! p = Some b ∧ ancestor t p tip ∧
      ((∀ q', q' ∈ q :: l → ¬ ancestor t q' tip) ∧ nHeight b = 0 ∨
       ∃ l1 l2, q :: l = l1 ++ p :: l2 ∧ ∀ q', q' ∈ l1 → ¬ ancestor t q' tip)).
    { intros Hq _. destruct IH as (p&b&E&Hp&Ha&H). exists p, b. split_and!; [done..|]. destruct H as [[H1 H2]|(l1&l2&->&H1)].
      - left. split; [|done]. intros q' [->|?]%elem_of_cons; auto.
      - right. exists (q :: l1), l2. split; [done|]. intros q' [->|?]%elem_of_cons; auto. }
    destruct (t !! q) as [b|] eqn:E.
    + destruct (Contains_spec t Ht tip c q b Hc E) as ([]&Er&Hr); rewrite Er; cbn [mbind option_bind].
      * exists q, b. split_and!; [done|done|by apply Hr|]. right. exists [], l. split; [done|]. intros q' Hq'. by apply elem_of_nil in Hq'.
      * apply Hskip; [|done]. intros Ha. apply Hr in Ha. done.
    + apply Hskip; [|done]. intros Ha. destruct (ancestor_height t Ht tip bt q Hbt Ha) as (?&?&_). congruence.
Qed.
End answer.

(** The first entry of a locator that lies on the chain is at most twice as
    far from the start as the fork. *)
Lemma locator_offset_double i : locator_offset (S i) <= 2 * locator_offset i + 1.
Proof.
  rewrite locator_offset_S. unfold locator_offset, locator_step. destruct (Nat.leb_spec i 10), (Nat.leb_spec i 11); try lia.
  assert (i = 11%nat) as -> by lia. vm_compute. congruence.
Qed.
(** Two nodes: a block is known to both under the same hash, which commits to
    its predecessor. *)
Definition same_blocks (t t' : block_tree) : Prop := ∀ h b b', t !! h = Some b → t' !! h = Some b' → pprev b = pprev b'.
Lemma same_blocks_height t t' h b b' : tree_ok t → tree_ok t' → same_blocks t t' → t !! h = Some b → t' !! h = Some b' → nHeight b = nHeight b'.
Proof.
  intros Ht Ht' HS. remember (Z.to_nat (nHeight b)) as n eqn:Hn. revert h b b' Hn.
  induction n as [n IH] using lt_wf_ind. intros h b b' Hn Hb Hb'. pose proof (HS h b b' Hb Hb') as Ep.
  destruct (Ht h b Hb) as [_ _ _ He], (Ht' h b' Hb') as [_ _ _ He']. rewrite Ep in He. destruct (pprev b') as [q|].
  - destruct He as (c&Hc&?&?&_), He' as (c'&Hc'&?&?&_). pose proof (IH (Z.to_nat (nHeight c)) ltac:(lia) q c c' eq_refl Hc Hc'). lia.
  - destruct He as [-> _], He' as [-> _]. done.
Qed.
Lemma same_blocks_ancestor t t' r b b' q : tree_ok t → tree_ok t' → same_blocks t t' → t !! r = Some b → t' !! r = Some b' →
  ancestor t q r → ancestor t' q r.
Proof.
  intros Ht Ht' HS. remember (Z.to_nat (nHeight b)) as n eqn:Hn. revert r b b' Hn.
  induction n as [n IH] using lt_wf_ind. intros r b b' Hn Hb Hb' Ha. pose proof (HS r b b' Hb Hb') as Ep.
  destruct (ancestor_uncons t r b q Hb Ha) as [->|(s&Es&Ha')]; [apply ancestor_refl|].
  apply (ancestor_cons t' r b' s q Hb'); [congruence|].
  destruct (Ht r b Hb) as [_ _ _ He], (Ht' r b' Hb') as [_ _ _ He']. rewrite <- Ep in He'. rewrite Es in He, He'.
  destruct He as (c&Hc&?&?&_), He' as (c'&Hc'&_). by apply (IH (Z.to_nat (nHeight c)) ltac:(lia) s c c').
Qed.

(** The last block of [p] in the tree [t] that is on the chain of [tip] in [t']. *)
Definition last_shared (t : block_tree) (p : ptr) (t' : block_tree) (tip r : ptr) : Prop :=
  ancestor t r p ∧ ancestor t' r tip ∧ ∀ q, ancestor t q p → ancestor t' q tip → ancestor t q r.

Section sync.
Context (t t' : block_tree) (Ht : tree_ok t) (Ht' : tree_ok t') (HS : same_blocks t t').
Context (p : ptr) (b : CBlockIndex) (Hp : t !! p = Some b) (tip : ptr) (bt : CBlockIndex) (Hbt : t' !! tip = Some bt).
Context (r : ptr) (br : CBlockIndex) (Hr : t !! r = Some br) (Hlast : last_shared t p t' tip r).

Lemma shared_below q bq : t !! q = Some bq → ancestor t q p → nHeight bq <= nHeight br → ancestor t' q tip.
Proof using Ht Ht' HS Hp Hbt Hr Hlast.
  intros Hq Hqp Hle. destruct Hlast as (Hrp&Hrt&_). apply (ancestor_trans t' q r tip); [|done].
  destruct (ancestor_height t' Ht' tip bt r Hbt Hrt) as (br'&Hr'&_).
  apply (same_blocks_ancestor t t' r br br' q); [done..|]. by apply (ancestor_mid t Ht p b r br q bq).
Qed.
Lemma fork_distance l l1 f bf l2 : locator_from t 0 p (nHeight b) l → l = l1 ++ f :: l2 → t' !! f = Some bf →
  (∀ q, q ∈ l1 → ¬ ancestor t' q tip) → ancestor t f p ∧ nHeight b - nHeight bf <= 2 * (nHeight b - nHeight br).
Proof using Ht Ht' HS Hp Hbt Hr Hlast.
  intros (Hlen&Hat&Hlt&Hge) El Hf Hl1. pose proof (entry_height t Ht p b Hp). pose proof Hlast as (Hrp&Hrt&_).
  destruct (ancestor_height t Ht p b r Hp Hrp) as (br'&Hr'&Hle&Hur). assert (br' = br) as -> by congruence.
  assert (Hlf : l !! length l1 = Some f) by (rewrite El; by apply list_lookup_middle).
  assert (Hfu := Hlf). rewrite Hat in Hfu by (by eapply lookup_lt_Some). split; [by eexists|].
  destruct (up_height t Ht _ p b f Hp Hfu) as (bf'&Hf'&Hhf).
  rewrite <- (same_blocks_height t t' f bf' bf Ht Ht' HS Hf' Hf).
  destruct (length l1) as [|i] eqn:Ei.
  - change (locator_offset (0 + 0)) with 0 in Hhf. lia.
  - destruct (lookup_lt_is_Some_2 l1 i ltac:(lia)) as [q Hq].
    assert (Hlq : l !! i = Some q) by (rewrite El; by apply lookup_app_l_Some).
    assert (Hqu := Hlq). rewrite Hat in Hqu by (by eapply lookup_lt_Some).
    destruct (up_height t Ht _ p b q Hp Hqu) as (bq&Hbq&Hhq).
    assert (Hlt' : nHeight br < nHeight bq).
    { apply Z.nle_gt. intros Hle'. apply (Hl1 q); [by eapply list_elem_of_lookup_2|].
      apply (shared_below q bq); [done|by eexists|done]. }
    pose proof (locator_offset_double i). pose proof (locator_offset_S i). cbn [Nat.add] in *. lia.
Qed.
(** The last entry of a locator is the first block. *)
Lemma locator_last l : locator_from t 0 p (nHeight b) l → ∃ g, g ∈ l ∧ ancestor t' g tip.
Proof using Ht Ht' HS Hp Hbt Hr Hlast.
  intros (Hlen&Hat&_&Hge). destruct (lookup_lt_is_Some_2 l (length l - 1)) as [g Hg]; [lia|].
  assert (Hgu := Hg). rewrite Hat in Hgu by lia. cbn [Nat.add] in Hge, Hgu. pose proof (entry_height t Ht p b Hp).
  replace (Z.max 0 _) with 0 in Hgu by lia. destruct (up_height t Ht _ p b g Hp Hgu) as (bg&Hbg&Hhg).
  exists g. split; [by eapply list_elem_of_lookup_2|]. pose proof (entry_height t Ht r br Hr).
  apply (shared_below g bg); [done|by eexists|lia].
Qed.
End sync.
Lemma locator_short t p h l : locator_from t 0 p h l → h < 2 ^ 31 → (length l ≤ MAX_LOCATOR_SZ)%nat.
Proof.
  intros (_&_&Hlt&_) Hh. destruct (Nat.le_gt_cases (length l) MAX_LOCATOR_SZ) as [|Hgt]; [done|]. unfold MAX_LOCATOR_SZ in Hgt.
  specialize (Hlt 99%nat ltac:(lia)). assert (2 ^ 31 < locator_offset (0 + 99)) by (by vm_compute). lia.
Qed.

(** ** Statements *)

(** C36: what is sent is what is received.  A [headers2] message decodes to the
    headers it was made from, for every chain of well-formed headers and
    whatever follows it in the stream: for announcements, where the first
    header goes through [Compress], and for answers to [getheaders2], where it
    does not and the two sides keep different lists of recent versions.  The
    uncompressed [headers] message decodes to its headers too, and a message
    of more headers than the limit is refused before any header is read. *)
Theorem headers_roundtrip GetHash first hs limit s : Forall header_wf hs → linked_headers GetHash None hs →
  Z.of_nat (length hs) <= MAX_SIZE →
  receive_headers GetHash true limit (headers2_message first hs ++ s) =
    Some (if limit <? Z.of_nat (length hs) then (None, (compress_all first hs [] [] ≫= ser_compressible) ++ s) else (Some hs, s)) ∧
  receive_headers GetHash false limit (headers_message hs ++ s) =
    Some (if limit <? Z.of_nat (length hs) then (None, (hs ≫= λ h, ser_header h ++ WriteCompactSize 0) ++ s) else (Some hs, s)).
Proof.
  intros Hw Hl Hn. unfold MAX_SIZE in Hn. split; unfold receive_headers, headers2_message, headers_message; rewrite <- app_assoc.
  - rewrite (rd_bind _ _ _ _ _ (Read_WriteCompactSize true (Z.of_nat (length hs)) _ ltac:(lia) ltac:(unfold MAX_SIZE; lia))).
    destruct (limit <? Z.of_nat (length hs)); [done|]. rewrite Nat2Z.id.
    destruct (headers2_all GetHash first hs [] [] [] [] s) as (cs&Ec&Hr); [done|constructor|done|done|split; [done|simpl; lia]|done|].
    rewrite Ec. cbn [app]. by rewrite (rd_bind _ _ _ _ _ Hr).
  - rewrite (rd_bind _ _ _ _ _ (Read_WriteCompactSize true (Z.of_nat (length hs)) _ ltac:(lia) ltac:(unfold MAX_SIZE; lia))).
    destruct (limit <? Z.of_nat (length hs)); [done|]. rewrite Nat2Z.id. by rewrite (rd_bind _ _ _ _ _ (headers_all hs s Hw)).
Qed.
(** Four headers with two versions, hashed by their nonces. *)
Definition sample_chain : list CBlockHeader :=
  [mkHeader 1 77 (replicate 32 9) 1000 5 100; mkHeader 2 100 (replicate 32 8) 1060 5 101;
   mkHeader (-1) 101 (replicate 32 7) 1050 6 102; mkHeader 2 102 (replicate 32 6) 1120 6 103].
Lemma headers_roundtrip_witness :
  receive_headers h_nNonce true 2000 (headers2_message false sample_chain ++ [1; 2; 3]) = Some (Some sample_chain, [1; 2; 3]).
Proof.
  destruct (headers_roundtrip h_nNonce false sample_chain 2000 [1; 2; 3]) as [H _].
  - assert (Hm : ∀ x, is_u8 x → length (replicate 32 x) = 32%nat ∧ bytes (replicate 32 x)).
    { intros x Hx. split; [reflexivity|by apply Forall_replicate]. }
    repeat apply Forall_cons_2; [..|by apply Forall_nil];
      (split; [simpl; lia|split; [simpl; lia|reflexivity]|apply Hm; split; [lia|reflexivity]|split_and!; split; (simpl; lia) || reflexivity]).
  - vm_compute. auto.
  - vm_compute. congruence.
  - exact H.
Defined.

(** C37: synchronization.  A node with the index [t] asks another node, with
    the index [t'] and the active chain of [tip], for headers with the locator
    of its block [p]; a block both know has the same predecessor in both.  A
    node that serves requests (not importing, with enough work or for a peer
    with permission) answers with a contiguous segment of its active chain; the
    segment starts right above a block [f] that [p] descends from, at most
    twice as far below [p] as the last block [r] of [p] on that chain, so right
    above [p] when [p] is on it; it ends at the stop hash, at the limit of the
    message or at the tip, whichever comes first. *)
Theorem getheaders_answer env compressed t p b cp t' tip bt c r br stop :
  tree_ok t → t !! p = Some b → chain_ok t cp → nHeight b < 2 ^ 31 →
  tree_ok t' → t' !! tip = Some bt → chain_of t' tip c → same_blocks t t' → t !! r = Some br → last_shared t p t' tip r →
  importing env = false → op_lt (nChainWork bt) (nMinimumChainWork env) = false ∨ download_permission env = true →
  ∃ l f bf, GetLocator t cp (Some p) = Some l ∧ t' !! f = Some bf ∧ ancestor t f p ∧ ancestor t' f tip ∧
    nHeight b - nHeight bf <= 2 * (nHeight b - nHeight br) ∧
    process_getheaders env compressed t' c l stop =
      Some (SendHeaders (upto stop (segment t' tip bt (nHeight bf + 1) (Z.to_nat (GetHeadersLimit (common_version env) compressed))))).
Proof.
  intros Ht Hp Hcp Hb31 Ht' Hbt Hc HS Hr Hlast Himp Hwork. destruct (GetLocator_spec t Ht cp p b Hcp Hp) as (l&El&Hl). exists l.
  destruct (FindForkInGlobalIndex_spec t' Ht' tip bt c Hbt Hc l) as (f&bf&Ef&Hf&Hft&Hcase). exists f, bf.
  pose proof (entry_height t' Ht' f bf Hf) as Hhf.
  assert (Hfp : ancestor t f p ∧ nHeight b - nHeight bf <= 2 * (nHeight b - nHeight br)).
  { destruct Hcase as [[Hnone _]|(l1&l2&E&Hl1)]; [|by apply (fork_distance t t' Ht Ht' HS p b Hp tip bt Hbt r br Hr Hlast l l1 f bf l2)].
    destruct (locator_last t t' Ht Ht' HS p b Hp tip bt Hbt r br Hr Hlast l Hl) as (g&Hg&Hgt). by destruct (Hnone g Hg). }
  destruct Hfp as [Hfp Hd]. split_and!; [done..|]. unfold process_getheaders.
  pose proof (locator_short t p _ l Hl Hb31). destruct (Nat.ltb_spec MAX_LOCATOR_SZ (length l)); [lia|].
  rewrite Himp, (chain_of_tip t' Ht' tip c Hc), Hbt. cbn [mbind option_bind].
  assert (op_lt (nChainWork bt) (nMinimumChainWork env) && negb (download_permission env) = false) as ->
    by (destruct Hwork as [-> | ->]; [done|apply andb_false_r]).
  assert (∃ n, Z.to_nat (GetHeadersLimit (common_version env) compressed) = S n) as [n ->].
  { unfold GetHeadersLimit. destruct (_ && _); by eexists. }
  destruct l as [|x l]; [destruct Hl as [Hl _]; cbn in Hl; lia|]. unfold getheaders. rewrite Ef. cbn [mbind option_bind].
  rewrite (Next_spec t' Ht' tip bt c Hbt Hc f bf Hf Hft). cbn [mbind option_bind].
  pose proof (send_headers_spec t' Ht' tip bt c Hbt Hc n stop (nHeight bf + 1) ltac:(lia)) as Hsend.
  destruct (Z.ltb_spec (nHeight bf) (nHeight bt)), (Z.leb_spec (nHeight bf + 1) (nHeight bt)); try lia; by rewrite Hsend.
Qed.
(** A node that has not seen the branch of blocks 101 and 102. *)
Definition peer_manager : BlockManager := default empty_manager (add_all (take 21 sample_headers) empty_manager).
Definition peer_tree : block_tree := m_block_index peer_manager.
Lemma peer_ok : tree_ok peer_tree.
Proof.
  apply mo_tree, reachable_ok. apply (add_all_reachable (take 21 sample_headers) empty_manager); [|constructor|vm_compute; reflexivity].
  unfold sample_headers. rewrite take_app_length' by reflexivity.
  apply Forall_fmap, Forall_seq. intros i Hi. unfold add_input_ok, header_ok, status_arg, in_width. simpl. split_and!; lia.
Qed.
Lemma peer_same_blocks : same_blocks sample_tree peer_tree ∧ same_blocks peer_tree sample_tree.
Proof.
  assert (H : Forall (λ x, ∀ b, sample_tree !! x.1 = Some b → pprev b = pprev x.2) (map_to_list peer_tree)).
  { match goal with |- Forall _ ?l => let l' := eval vm_compute in l in change l with l' end.
    repeat apply Forall_cons_2; [..|by apply Forall_nil]; intros b Hb; vm_compute in Hb; by injection Hb as <-. }
  rewrite Forall_forall in H. split; intros h b b' Hb Hb'; [|symmetry].
  - by apply (H (h, b')); [apply elem_of_map_to_list|].
  - by apply (H (h, b)); [apply elem_of_map_to_list|].
Qed.
Lemma getheaders_answer_witness :
  ∃ c l, SetTip peer_tree [] 21 = Some c ∧ GetLocator sample_tree [] (Some 102) = Some l ∧
    process_getheaders (mkGetheadersEnv false base_uint_zero false 70235 None main_params) true peer_tree c l 15 =
      Some (SendHeaders [12; 13; 14; 15]).
Proof.
  destruct (sample_tree !! 102) as [b|] eqn:E; [|vm_compute in E; discriminate].
  destruct (sample_tree !! 21) as [bs|] eqn:Es; [|vm_compute in Es; discriminate].
  destruct (peer_tree !! 21) as [bt|] eqn:Et; [|vm_compute in Et; discriminate].
  destruct (sample_tree !! 11) as [br|] eqn:Er; [|vm_compute in Er; discriminate].
  destruct (SetTip_spec peer_tree peer_ok [] 21 bt (or_introl eq_refl) Et) as (c&Ec&Hc).
  destruct (LastCommonAncestor_spec sample_tree (mo_tree _ sample_ok) 102 b 21 bs E Es) as (r&Elca&Hr).
  assert (r = Some 11) as -> by (vm_compute in Elca; congruence).
  assert (Hlast : last_shared sample_tree 102 peer_tree 21 11).
  { destruct Hr as (H1&H2&H3). split_and!; [exact H1| |intros q Hq Hq'; apply H3; [exact Hq|]].
    - exact (same_blocks_ancestor _ _ 21 bs bt 11 (mo_tree _ sample_ok) peer_ok (proj1 peer_same_blocks) Es Et H2).
    - exact (same_blocks_ancestor _ _ 21 bt bs q peer_ok (mo_tree _ sample_ok) (proj2 peer_same_blocks) Et Es Hq'). }
  destruct (getheaders_answer (mkGetheadersEnv false base_uint_zero false 70235 None main_params) true sample_tree 102 b [] peer_tree 21 bt c 11 br 15
    (mo_tree _ sample_ok) E (or_introl eq_refl)) as (l&f&bf&El&_).
  - vm_compute in E. injection E as <-. reflexivity.
  - exact peer_ok.
  - exact Et.
  - exact Hc.
  - exact (proj1 peer_same_blocks).
  - exact Er.
  - exact Hlast.
  - reflexivity.
  - left. vm_compute in Et. injection Et as <-. reflexivity.
  - exists c, l. split; [exact Ec|]. split; [exact El|]. vm_compute in Ec. injection Ec as <-. vm_compute in El. injection El as <-.
    vm_compute. reflexivity.
Defined.
