(* ===== verification/HashX11.v ===== *)
(** * The hash of a block header

    [HashX11] of [src/src/hash_x11.h] and [CBlockHeader::GetHash] of
    [src/src/primitives/block.cpp], on top of [yespower_hash]. *)
From S2P Require Import Prelude Sysendian Sha256 Hmac Simd Mem Pwxform Blockmix Smix Yespower YespowerCorrect.
From S2P Require Import Serialize Params Limbs ArithUint Chain ChainCorrect Compact Double Pow PowCorrect Headers HeadersCorrect.
Local Open Scope Z_scope.

Section Hash.
Context `{P : Platform}.

(** The header is padded or cut to 80 bytes; the result is the zero hash it was
    initialized with when [yespower_hash] returns -1. *)
Definition HashX11 (stk : nat → stack) (t : tls) (s : os) (input : list Z) : option (list Z * tls * os) :=
  let copy_size := Nat.min 80 (length input) in
  let header := memcpy (replicate 80 0) 0 (take copy_size input) in
  match yespower_hash stk t s header with
  | None => None
  | Some (ret, t, s) => Some (default (replicate 32 0) ret, t, s)
  end.

Definition GetHash (stk : nat → stack) (t : tls) (s : os) (h : CBlockHeader) : option (list Z * tls * os) :=
  HashX11 stk t s (ser_header h).
End Hash.

Lemma length_ser_header h : header_wf h → length (ser_header h) = 80%nat.
Proof.
  intros [_ _ [Hm _] _]. unfold ser_header, ser_writedata32, ser_uint256. rewrite !length_app, !length_le_bytes, Hm. reflexivity.
Qed.
Lemma bytes_ser_header h : header_wf h → bytes (ser_header h).
Proof. intros [_ _ [_ Hm] _]. unfold ser_header. repeat (apply Forall_app; split); try apply le_bytes_bytes. done. Qed.
Lemma HashX11_spec {P : Platform} {PL : PlatformLaws P} stk t s h : (∀ i, wf_stack (stk i)) → header_wf h → wf_tls t →
  ∃ t' s', GetHash stk t s h = Some
      (default (replicate 32 0) (yespower_ret (if initialized t then tl_local t else init_region) s (ser_header h) (pow_params (ser_header h))), t', s')
    ∧ wf_tls t'.
Proof.
  intros Hstk Hh Ht. unfold GetHash, HashX11. rewrite (length_ser_header h Hh).
  rewrite take_ge by (rewrite length_ser_header by done; simpl; lia).
  rewrite memcpy_all by (rewrite length_ser_header, length_replicate by done; reflexivity).
  destruct (yespower_tls_spec stk t s (take 80 (ser_header h)) (pow_params (ser_header h)) Hstk) as (t'&s'&E&Ht');
    [by apply Forall_take, bytes_ser_header|apply params_pers_bytes|done|].
  exists t', s'. split; [|done]. unfold yespower_hash. unfold pow_params in E |- *.
  destruct (1546539305 <? le32dec (drop 68 (ser_header h)))%Z; rewrite E; cbv beta iota zeta;
    by rewrite take_ge by (rewrite length_ser_header by done; lia).
Qed.

(** A platform that refuses every mapping. *)
Definition no_memory : Platform := {| os := unit; mmap _ _ _ := (None, tt); munmap _ _ _ := (false, tt) |}.
#[global] Instance no_memory_laws : PlatformLaws no_memory.
Proof. split; cbn; intros; discriminate. Qed.

(** ** Statements *)

(** C38: [GetHash] never fails and leaves the thread's region well-formed.  The
    hash is the reference yespower hash of the 80 serialized bytes, or zero;
    it is the reference hash whenever memory is available. *)
Theorem GetHash_correct {P : Platform} {PL : PlatformLaws P} stk t s h :
  (∀ i, wf_stack (stk i)) → header_wf h → wf_tls t →
  ∃ out t' s', GetHash stk t s h = Some (out, t', s') ∧ wf_tls t' ∧
    (out = pow_hash (ser_header h) ∨ out = replicate 32 0) ∧
    (memory_available → out = pow_hash (ser_header h)).
Proof.
  intros Hstk Hh Ht. destruct (HashX11_spec stk t s h Hstk Hh Ht) as (t'&s'&E&Ht'). rewrite E. eexists _, t', s'.
  split; [done|]. split; [done|]. set (local := if initialized t then _ else _).
  assert (Hcut : take 80 (ser_header h) = ser_header h) by (apply take_ge; rewrite length_ser_header by done; lia).
  pose proof (yespower_ret_pow local s (ser_header h)) as H1. pose proof (yespower_ret_available local s (ser_header h)) as H2.
  rewrite Hcut in H1, H2. split; [destruct H1 as [-> | ->]; auto|]. intros Hm. by rewrite (H2 Hm).
Qed.
Lemma GetHash_correct_witness :
  ∃ out t' s', GetHash (P:=sample_platform) sample_stack (mkTls false init_region) tt null_header = Some (out, t', s') ∧
    out = pow_hash (ser_header null_header).
Proof.
  destruct (GetHash_correct (P:=sample_platform) sample_stack (mkTls false init_region) tt null_header) as (out&t'&s'&E&_&_&H).
  - exact sample_stack_wf.
  - split; [simpl; lia|split; [simpl; lia|reflexivity]|split; [reflexivity|apply Forall_replicate; split; [lia|reflexivity]]|].
    split_and!; split; (simpl; lia) || reflexivity.
  - discriminate.
  - exists out, t', s'. split; [exact E|exact (H sample_memory_available)].
Defined.

(** C39: when memory is refused every header passes the check.  The hash of a
    header computed in a new thread without memory is zero, and
    [CheckProofOfWork] accepts it for all bits whose target is within the
    limit of the main network. *)
Theorem no_memory_passes_check stk h c : (∀ i, wf_stack (stk i)) → header_wf h → valid_bits (le_val (powLimit main_params)) c →
  ∃ out t' s', GetHash (P:=no_memory) stk (mkTls false init_region) tt h = Some (out, t', s') ∧
    out = replicate 32 0 ∧ CheckProofOfWork out c main_params = true.
Proof.
  intros Hstk Hh (Hc&Ht&HL). destruct (HashX11_spec (P:=no_memory) stk (mkTls false init_region) tt h Hstk Hh) as (t'&s'&E&_); [done|].
  exists (replicate 32 0), t', s'. split; [|split; [done|]].
  - rewrite E. do 3 f_equal. unfold pow_params. by destruct (1546539305 <? le32dec (drop 68 (ser_header h)))%Z.
  - destruct (po_limit _ main_params_ok) as [Hl Hb]. rewrite CheckProofOfWork_spec;
      [|done|done|reflexivity|apply Forall_replicate; split; [lia|reflexivity]|done].
    rewrite Ht. cbn [andb]. apply andb_true_intro. split; [by apply Z.leb_le|]. apply Z.leb_le.
    change (le_val (replicate 32 0)) with 0. pose proof (compact_val_nonneg c). done.
Qed.
Lemma no_memory_passes_check_witness :
  ∃ out t' s', GetHash (P:=no_memory) sample_stack (mkTls false init_region) tt null_header = Some (out, t', s') ∧
    out = replicate 32 0 ∧ CheckProofOfWork out 0x1e00ffff main_params = true.
Proof.
  apply (no_memory_passes_check sample_stack null_header 0x1e00ffff).
  - exact sample_stack_wf.
  - split; [simpl; lia|split; [simpl; lia|reflexivity]|split; [reflexivity|apply Forall_replicate; split; [lia|reflexivity]]|].
    split_and!; split; (simpl; lia) || reflexivity.
  - split; [split; [lia|reflexivity]|vm_compute; split; congruence].
Defined.
