(* ===== verification/Workers.v ===== *)
(** * The threads of the miner

    [hash_nonces], [worker], [publish] and the part of [main] and [run_stratum]
    of [src/contrib/korsh-miner/korsh-miner.c] that share the variables guarded
    by [g_mu].  One step is one access to the shared state by one thread, so
    that all interleavings are sequences of steps; a thread that waits for the
    mutex has no step.  The counters of hashes, sleeping and pinning leave no
    trace in the shared state.

    The critical sections of the main thread are [publish] and its copy at the
    head of the loop of [main] (which does not empty the queue: without a pool
    the queue is always empty), the emptying of the queue in [run_stratum] and
    the reading of the solution in [main].  Outside of them it pauses, resumes
    and stops the workers, and a signal may set [g_stop] at any time. *)
From S2P Require Import Prelude Sysendian Sha256 Hmac Simd Mem Pwxform Blockmix Smix Yespower Yp2 MinerUtil.
Local Open Scope Z_scope.

(** ** [hash_nonces] *)
Definition set_nonce (h : list Z) (n : Z) : list Z := memcpy h 76 (put_le32 n).

Section HashNonces.
Context `{P : Platform}.

(** What the two kernels keep per thread. *)
Record hash_thread := mkHashThread { ht_tls : tls; ht_kx : kx_thread_region_t * kx_thread_region_t }.
(** Stack frames of the calls. *)
Record hash_frames := mkFrames { fr_one : nat → stack; fr_two : nat → stack; fr_a : nat → stack; fr_b : nat → stack }.

(** A call of [yespower_hash] whose return value is ignored. *)
Definition hash_into (stk : nat → stack) (t : hash_thread) (s : os) (h out : list Z) : option (list Z * hash_thread * os) :=
  match yespower_hash stk (ht_tls t) s h with
  | None => None
  | Some (ret, tl, s) => Some (default out ret, mkHashThread tl (ht_kx t), s)
  end.

(** The header with the nonce written to it, and the two outputs. *)
Definition hash_nonces (fr : hash_frames) (g_ways : Z) (t : hash_thread) (s : os) (h : list Z) (n n2 : Z) (out : list Z * list Z)
    : option (list Z * (list Z * list Z) * hash_thread * os) :=
  if g_ways =? 2 then
    let h2 := set_nonce h n2 in
    let h := set_nonce h n in
    match korsh_yespower_hash2 (fr_a fr) (fr_b fr) (ht_kx t).1 (ht_kx t).2 s h h2 with
    | None => None
    | Some (Some outs, kx, s) => Some (h, outs, mkHashThread (ht_tls t) kx, s)
    | Some (None, kx, s) =>
        '(o1, t, s) ← hash_into (fr_one fr) (mkHashThread (ht_tls t) kx) s h2 out.2;
        '(o0, t, s) ← hash_into (fr_two fr) t s h out.1;
        Some (h, (o0, o1), t, s)
    end
  else
    let h := set_nonce h n in
    '(o0, t, s) ← hash_into (fr_one fr) t s h out.1;
    Some (h, (o0, out.2), t, s).
End HashNonces.

(** ** Shared state *)
Variant owner := Worker (id : nat) | Main.
#[global] Instance owner_eq_dec : EqDecision owner.
Proof. solve_decision. Defined.

Record share_t := mkShare { sh_job : Z; sh_nonce : Z }.
Definition QMAX : nat := 256.
Definition BATCH : Z := 64.
Definition MAX_SHARES_PER_TURN : nat := 32.

Record shared := mkShared {
  g_mu : option owner;
  g_header : list Z; g_target : list Z; g_job : Z;
  g_found_job : Z; g_found_nonce : Z;
  g_q : list share_t; g_paused : bool; g_stop : bool
}.
Definition with_mu (g : shared) (o : option owner) : shared :=
  mkShared o (g_header g) (g_target g) (g_job g) (g_found_job g) (g_found_nonce g) (g_q g) (g_paused g) (g_stop g).
Definition with_flags (g : shared) (p s : bool) : shared :=
  mkShared (g_mu g) (g_header g) (g_target g) (g_job g) (g_found_job g) (g_found_nonce g) (g_q g) p s.
Definition with_found (g : shared) (j n : Z) (q : list share_t) : shared :=
  mkShared (g_mu g) (g_header g) (g_target g) (g_job g) j n q (g_paused g) (g_stop g).
Definition with_work (g : shared) (h t : list Z) (j : Z) : shared :=
  mkShared (g_mu g) h t j (g_found_job g) (g_found_nonce g) (g_q g) (g_paused g) (g_stop g).

(** ** A worker *)
Inductive pc :=
  | Top                                        (* while (!g_stop) *)
  | Fetch                                      (* j = atomic_load (&g_job) *)
  | Loaded (j : Z)                             (* j == 0 || atomic_load (&g_paused), j != mine *)
  | Locked | HeaderCopied | TargetCopied | JobLoaded   (* the snapshot *)
  | Batch (i : Z)                              (* for (i = 0; i < BATCH && !done; ...) *)
  | Scan (i c n0 n1 : Z)                       (* for (c = 0; c < g_ways; c++) *)
  | Report (i c n0 n1 : Z) | Unlock (i c n0 n1 : Z)
  | Waiting | WaitingJob                       (* while (!g_stop && atomic_load (&g_job) == mine) *)
  | Stopped.

Record worker := mkWorker {
  w_pc : pc; w_h : list Z; w_target : list Z; w_outs : list Z * list Z; w_mine : Z; w_nonce : Z
}.
Definition at_pc (w : worker) (p : pc) : worker := mkWorker p (w_h w) (w_target w) (w_outs w) (w_mine w) (w_nonce w).

Section Threads.
(** The kernel, the number of threads, the mode, and the proof-of-work hash:
    [None] when it fails. *)
Context (g_ways g_threads : Z) (g_continue : bool) (pow : list Z → option (list Z)).

Definition next_nonce (w : worker) : Z := u32 (w_nonce w + g_ways * g_threads).
Definition out_of (w : worker) (c : Z) : list Z := if c =? 0 then (w_outs w).1 else (w_outs w).2.
Definition nonce_of (c n0 n1 : Z) : Z := if c =? 0 then n0 else n1.

(** The effect of [hash_nonces] on the outputs. *)
Definition hash_outs (h : list Z) (n0 n1 : Z) (outs : list Z * list Z) : list Z * list Z :=
  (default outs.1 (pow (set_nonce h n0)), if g_ways =? 2 then default outs.2 (pow (set_nonce h n1)) else outs.2).

Definition record_share (g : shared) (mine nonce : Z) : shared :=
  if g_continue then
    if (length (g_q g) <? QMAX)%nat
    then with_found g (g_found_job g) (g_found_nonce g) (g_q g ++ [mkShare mine nonce]) else g
  else if negb (g_found_job g =? mine) then with_found g mine nonce (g_q g) else g.

(** After the wait: [done] ends the batch once the nonce has advanced. *)
Definition resume (w : worker) : worker := mkWorker Top (w_h w) (w_target w) (w_outs w) (w_mine w) (next_nonce w).

(** [None]: the thread has to wait, or has returned. *)
Definition worker_step (id : nat) (g : shared) (w : worker) : option (shared * worker) :=
  let acquire p := match g_mu g with None => Some (with_mu g (Some (Worker id)), at_pc w p) | Some _ => None end in
  match w_pc w with
  | Top => Some (g, at_pc w (if g_stop g then Stopped else Fetch))
  | Fetch => Some (g, at_pc w (Loaded (g_job g)))
  | Loaded j =>
      if (j =? 0) || g_paused g then Some (g, at_pc w Top)
      else if negb (j =? w_mine w) then acquire Locked
      else Some (g, at_pc w (Batch 0))
  | Locked => Some (g, mkWorker HeaderCopied (g_header g) (w_target w) (w_outs w) (w_mine w) (w_nonce w))
  | HeaderCopied => Some (g, mkWorker TargetCopied (w_h w) (g_target g) (w_outs w) (w_mine w) (w_nonce w))
  | TargetCopied => Some (g, mkWorker JobLoaded (w_h w) (w_target w) (w_outs w) (g_job g) (w_nonce w))
  | JobLoaded => Some (with_mu g None, mkWorker (Batch 0) (w_h w) (w_target w) (w_outs w) (w_mine w) (Z.of_nat id))
  | Batch i =>
      if i <? BATCH then
        let n0 := w_nonce w in let n1 := u32 (w_nonce w + g_threads) in
        Some (g, mkWorker (Scan i 0 n0 n1) (set_nonce (w_h w) n0) (w_target w) (hash_outs (w_h w) n0 n1 (w_outs w))
                   (w_mine w) (w_nonce w))
      else Some (g, at_pc w Top)
  | Scan i c n0 n1 =>
      if c <? g_ways then
        if le_leq (out_of w c) (w_target w) =? 0 then Some (g, at_pc w (Scan i (c + 1) n0 n1))
        else acquire (Report i c n0 n1)
      else Some (g, mkWorker (Batch (i + g_ways)) (w_h w) (w_target w) (w_outs w) (w_mine w) (next_nonce w))
  | Report i c n0 n1 => Some (record_share g (w_mine w) (nonce_of c n0 n1), at_pc w (Unlock i c n0 n1))
  | Unlock i c n0 n1 =>
      Some (with_mu g None, at_pc w (if g_continue then Scan i (c + 1) n0 n1 else Waiting))
  | Waiting => Some (g, if g_stop g then resume w else at_pc w WaitingJob)
  | WaitingJob => Some (g, if g_job g =? w_mine w then at_pc w Waiting else resume w)
  | Stopped => None
  end.

(** ** The main thread *)
Inductive mpc :=
  | MIdle
  | MLocked (hdr tgt : list Z) | MHeader (tgt : list Z) | MTarget | MReset | MJob   (* publish *)
  | MCollect (sent : nat) | MUnlock                                                 (* collecting *)
  | MStopping | MDone.
Inductive action := Go | APublish (hdr tgt : list Z) | ACollect (sent : nat) | ADisconnect | APause (b : bool) | AStop | ASignal.

(** [m_cur] is the number of the job the main thread submits for ([job], or
    [cur.serial] while [cur.have]).  [jobs] and [submitted] are observations:
    what was published under each job number, and what was sent to the node or
    the pool. *)
Record miner := mkMiner {
  m_g : shared; m_ws : list worker; m_pc : mpc; m_cur : option Z;
  jobs : list (list Z * list Z); submitted : list share_t
}.
Definition main_at (m : miner) (g : shared) (p : mpc) : miner := mkMiner g (m_ws m) p (m_cur m) (jobs m) (submitted m).

(** The shares that are sent, those of the current job: [sent] is the number
    of messages the connection takes. *)
Definition collected (g : shared) (cur : option Z) (sent : nat) : list share_t :=
  match cur with
  | None => []
  | Some job =>
      if g_continue then take (sent `min` MAX_SHARES_PER_TURN) (filter (λ s, sh_job s = job) (g_q g))
      else if g_found_job g =? job then [mkShare (g_found_job g) (g_found_nonce g)] else []
  end.

(** [publish], and the same critical section in [main]. *)
Definition publish_step (m : miner) : option miner :=
  let g := m_g m in
  match m_pc m with
  | MLocked hdr tgt => Some (main_at m (with_work g hdr (g_target g) (g_job g)) (MHeader tgt))
  | MHeader tgt => Some (main_at m (with_work g (g_header g) tgt (g_job g)) MTarget)
  | MTarget => Some (main_at m (with_found g 0 (g_found_nonce g) []) MReset)
  | MReset =>
      let serial := u32 (g_job g + 1) in
      Some (mkMiner (with_work g (g_header g) (g_target g) serial) (m_ws m) MJob (Some serial)
              (jobs m ++ [(g_header g, g_target g)]) (submitted m))
  | MJob => Some (main_at m (with_mu g None) MIdle)
  | _ => None
  end.
(** Taking the shares out of the queue (a pool), or reading the solution. *)
Definition collect_step (m : miner) : option miner :=
  let g := m_g m in
  match m_pc m with
  | MCollect sent =>
      Some (mkMiner (with_found g (g_found_job g) (g_found_nonce g) []) (m_ws m) MUnlock (m_cur m) (jobs m)
              (submitted m ++ collected g (m_cur m) sent))
  | MUnlock => Some (main_at m (with_mu g None) MIdle)
  | _ => None
  end.
(** After the loop: the last increment of [g_job], which ends the waits. *)
Definition stop_step (m : miner) : miner :=
  let g := m_g m in
  mkMiner (with_work g (g_header g) (g_target g) (u32 (g_job g + 1))) (m_ws m) MDone (m_cur m)
    (jobs m ++ [(g_header g, g_target g)]) (submitted m).

(** The main thread: it enters a critical section, goes on in the one it is
    in, or writes one of the flags; a signal may arrive at any time. *)
Definition main_step (a : action) (m : miner) : option miner :=
  let g := m_g m in
  let acquire p := match g_mu g with None => Some (main_at m (with_mu g (Some Main)) p) | Some _ => None end in
  match a, m_pc m with
  | ASignal, p => Some (main_at m (with_flags g (g_paused g) true) p)
  | APublish hdr tgt, MIdle => acquire (MLocked hdr tgt)
  | ACollect sent, MIdle => acquire (MCollect sent)
  | ADisconnect, MIdle => Some (mkMiner (with_flags g true (g_stop g)) (m_ws m) MIdle None (jobs m) (submitted m))
  | APause b, MIdle => Some (main_at m (with_flags g b (g_stop g)) MIdle)
  | AStop, MIdle => Some (main_at m (with_flags g (g_paused g) true) MStopping)
  | Go, MStopping => Some (stop_step m)
  | Go, (MCollect _ | MUnlock) => collect_step m
  | Go, _ => publish_step m
  | _, _ => None
  end.

(** ** Interleavings *)
Inductive choice := CWorker (id : nat) | CMain (a : action).
Definition step (c : choice) (m : miner) : option miner :=
  match c with
  | CWorker id =>
      w ← m_ws m !! id; '(g, w) ← worker_step id (m_g m) w;
      Some (mkMiner g (<[id := w]> (m_ws m)) (m_pc m) (m_cur m) (jobs m) (submitted m))
  | CMain a => main_step a m
  end.
Fixpoint run (l : list choice) (m : miner) : option miner :=
  match l with [] => Some m | c :: l => m' ← step c m; run l m' end.

Definition initial (n : nat) : miner :=
  mkMiner (mkShared None (replicate 80 0) (replicate 32 0) 0 0 0 [] false false)
    ((λ id, mkWorker Top (replicate 80 0) (replicate 32 0) (replicate 32 0, replicate 32 0) 0 (Z.of_nat id)) <$> seq 0 n)
    MIdle None [] [].
End Threads.
