(* ===== verification/WorkersCorrect.v ===== *)
(** * The threads of the miner: correctness

    [hash_nonces] computes the proof-of-work hashes of its two nonces; in every
    interleaving of the threads the mutex excludes, snapshots are consistent,
    and, when hashing does not fail, every share that reaches the node or the
    pool is a solution of the job it names; without a pool a late report for an
    old job hides the solution of the current one. *)
From S2P Require Import Prelude Sysendian Sha256 Hmac Simd Mem Pwxform Blockmix Smix Yespower YespowerCorrect Yp2 Yp2Correct MinerUtil Workers.
Local Open Scope Z_scope.

Lemma Forall_memcpy {A} (Q : A → Prop) (l : list A) off k : Forall Q l → Forall Q k → Forall Q (memcpy l off k).
Proof.
  unfold memcpy. revert off. induction k as [|x k IH]; intros off Hl Hk; [done|]. apply Forall_cons in Hk as [Hx Hk].
  cbn [list_inserts]. apply Forall_insert; auto.
Qed.
Lemma set_nonce_bytes h n : bytes h → bytes (set_nonce h n).
Proof. intros Hh. apply Forall_memcpy; [done|]. rewrite put_le32_le_bytes. apply le_bytes_bytes. Qed.

(** ** [hash_nonces] *)
Section HashNonces.
Context {P : Platform} {PL : PlatformLaws P}.

Definition wf_frames (fr : hash_frames) : Prop :=
  ∀ i, wf_stack (fr_one fr i) ∧ wf_stack (fr_two fr i) ∧ wf_stack (fr_a fr i) ∧ wf_stack (fr_b fr i).
Definition wf_thread (t : hash_thread) : Prop := wf_tls (ht_tls t) ∧ wf_kx (ht_kx t).1 ∧ wf_kx (ht_kx t).2.

Lemma hash_into_spec stk t s h out : (∀ i, wf_stack (stk i)) → bytes h → wf_thread t →
  ∃ o t' s', hash_into stk t s h out = Some (o, t', s') ∧ wf_thread t' ∧ (o = out ∨ o = pow_hash h) ∧
    (memory_available → o = pow_hash h).
Proof using PL.
  intros Hstk Hh (Ht&Hk). unfold hash_into. set (local := if initialized (ht_tls t) then tl_local (ht_tls t) else init_region).
  destruct (yespower_tls_spec stk (ht_tls t) s (take 80 h) (pow_params h)) as (t'&s'&E&Ht');
    [done|by apply Forall_take|apply params_pers_bytes|done|]. fold local in E.
  assert (yespower_hash stk (ht_tls t) s h = Some (yespower_ret local s (take 80 h) (pow_params h), t', s')) as ->.
  { unfold yespower_hash. unfold pow_params in E |- *. by destruct (1546539305 <? le32dec (drop 68 h))%Z. }
  eexists _, _, _. split; [done|]. split; [done|]. split.
  - destruct (yespower_ret_pow local s h) as [-> | ->]; auto.
  - intros Hm. by rewrite (yespower_ret_available local s h Hm).
Qed.

(** Each output is the hash of the header with its nonce, or, without memory,
    what the array held before. *)
Lemma hash_nonces_spec fr ways t s h n n2 out : wf_frames fr → bytes h → wf_thread t →
  ∃ o0 o1 t' s', hash_nonces fr ways t s h n n2 out = Some (set_nonce h n, (o0, o1), t', s') ∧ wf_thread t' ∧
    (memory_available → (o0, o1) = hash_outs ways (λ h, Some (pow_hash h)) h n n2 out).
Proof using PL.
  intros Hfr Hh Ht. unfold hash_nonces, hash_outs. cbn [default from_option id].
  pose proof (set_nonce_bytes h n Hh) as H1. pose proof (set_nonce_bytes h n2 Hh) as H2.
  destruct (ways =? 2).
  2:{ destruct (hash_into_spec (fr_one fr) t s _ out.1 (λ i, proj1 (Hfr i)) H1 Ht) as (o&t'&s'&->&Ht'&_&Hm).
      eexists o, out.2, t', s'. cbn [mbind option_bind]. split_and!; [done..|]. intros Ha. rewrite (Hm Ha). reflexivity. }
  destruct Ht as (Ht&Hk0&Hk1).
  destruct (korsh_yespower_hash2_spec (fr_a fr) (fr_b fr) (ht_kx t).1 (ht_kx t).2 s _ _
    (λ i, proj1 (proj2 (proj2 (Hfr i)))) (λ i, proj2 (proj2 (proj2 (Hfr i)))) H1 H2 Hk0 Hk1)
    as (ret&k0&k1&s1&->&W0&W1&Hold&Hnew).
  destruct ret as [[o0 o1]|].
  { eexists o0, o1, _, s1. split_and!; [done..|]. intros _.
    destruct (_ || _) in Hold, Hnew; [by destruct (Hold eq_refl)|]. destruct (Hnew eq_refl) as [[? _]|[= E0 E1]]; [discriminate|]. rewrite E0, E1. reflexivity. }
  destruct (hash_into_spec (fr_one fr) (mkHashThread (ht_tls t) (k0, k1)) s1 _ out.2 (λ i, proj1 (Hfr i)) H2)
    as (o1&t1&s2&->&Ht1&_&Hm1); [done|]. cbn [mbind option_bind].
  destruct (hash_into_spec (fr_two fr) t1 s2 _ out.1 (λ i, proj1 (proj2 (Hfr i))) H1 Ht1) as (o0&t2&s3&->&Ht2&_&Hm0).
  eexists o0, o1, t2, s3. cbn [mbind option_bind]. split_and!; [done..|]. intros Ha. rewrite (Hm0 Ha), (Hm1 Ha). reflexivity.
Qed.
End HashNonces.

(** ** The invariant of the threads *)
Ltac step_cases := simplify_eq; repeat (case_match; simplify_eq).

Section Invariant.
Context (g_ways g_threads : Z) (g_continue : bool) (pow : list Z → option (list Z)).

(** A solution: its nonce solves the job it names. *)
Definition share_ok (js : list (list Z * list Z)) (s : share_t) : Prop :=
  ∃ hdr tgt out, 1 <= sh_job s ∧ js !! Z.to_nat (sh_job s - 1) = Some (hdr, tgt) ∧
    pow (set_nonce hdr (sh_nonce s)) = Some out ∧ le_leq out tgt ≠ 0.








(** ** Steps of a worker *)
Context (Hways : g_ways = 1 ∨ g_ways = 2) (Hthreads : 0 < g_threads < 2 ^ 32) (Htotal : ∀ h, is_Some (pow h)).
Local Abbreviation worker_step := (worker_step g_ways g_threads g_continue pow).






(** ** Every step keeps the invariant *)
Local Abbreviation step := (step g_ways g_threads g_continue pow).
Local Abbreviation run := (run g_ways g_threads g_continue pow).
Local Abbreviation main_step := (main_step g_continue).






Lemma step_jobs c m m' : step c m = Some m' → (length (jobs m) ≤ length (jobs m'))%nat.
Proof using.
  destruct c as [id|a]; unfold Workers.step; intros E.
  - destruct (m_ws m !! id) as [w|]; [|done]. cbn in E. destruct (Workers.worker_step _ _ _ _ _ _ _) as [[g' w']|]; [|done]. by simplify_eq/=.
  - unfold Workers.main_step, publish_step, collect_step, stop_step, main_at in E. destruct a, (m_pc m); step_cases; cbn [jobs]; rewrite ?length_app; lia.
Qed.
Lemma run_jobs l m m' : run l m = Some m' → (length (jobs m) ≤ length (jobs m'))%nat.
Proof using.
  revert m. induction l as [|c l IH]; intros m E; cbn [Workers.run] in E; [by simplify_eq|].
  destruct (step c m) as [m1|] eqn:Ec; [|done]. etrans; [by eapply step_jobs|]. by apply IH.
Qed.


End Invariant.




(** ** What a late report hides *)
Section Late.
Context (g_ways g_threads : Z) (pow : list Z → option (list Z)).
Local Abbreviation step := (step g_ways g_threads false pow).
Local Abbreviation run := (run g_ways g_threads false pow).

(** The step is the report of a solution for job [J]. *)
Definition reports (J : Z) (c : choice) (m : miner) : bool :=
  match c with
  | CWorker id =>
      match m_ws m !! id with
      | Some w => match w_pc w with Report _ _ _ _ => w_mine w =? J | _ => false end
      | None => false
      end
  | CMain _ => false
  end.
(** No solution for job [J] is reported along the run. *)
Fixpoint quiet (J : Z) (l : list choice) (m : miner) : bool :=
  match l with
  | [] => true
  | c :: l => negb (reports J c m) && match step c m with Some m' => quiet J l m' | None => true end
  end.
(** A worker that waits for the job after [J]. *)
Definition awaits (J : Z) (w : worker) : Prop := w_mine w = J ∧ (w_pc w = Waiting ∨ w_pc w = WaitingJob).

Lemma worker_step_found J id g w g' w' : Workers.worker_step g_ways g_threads false pow id g w = Some (g', w') →
  g_found_job g ≠ J → (∀ i c n0 n1, w_pc w = Report i c n0 n1 → w_mine w ≠ J) → g_found_job g' ≠ J.
Proof using.
  unfold Workers.worker_step, record_share. destruct (w_pc w) eqn:Hp; intros E Hf Hr; step_cases; cbn; try done. by eapply Hr.
Qed.
Lemma hidden_step J c m m' : 1 <= J → step c m = Some m' → reports J c m = false → g_found_job (m_g m) ≠ J →
  g_found_job (m_g m') ≠ J ∧ ∀ s, s ∈ submitted m' → sh_job s = J → s ∈ submitted m.
Proof using.
  intros HJ E Hr Hf. destruct c as [id|a]; unfold Workers.step in E.
  - unfold reports in Hr. destruct (m_ws m !! id) as [w|]; [|done]. cbn in E.
    destruct (Workers.worker_step _ _ _ _ _ _ _) as [[g' w']|] eqn:Es; [|done]. simplify_eq/=. split; [|done].
    eapply worker_step_found; [done..|]. intros i c n0 n1 Hp. rewrite Hp in Hr. lia.
  - unfold Workers.main_step, publish_step, collect_step, stop_step, main_at in E. destruct a, (m_pc m); step_cases; cbn; try (by split; [lia|]).
    split; [done|]. intros s [?|Hs]%elem_of_app Hj; [done|]. unfold collected in Hs.
    destruct (m_cur m) as [j|]; [|by apply elem_of_nil in Hs]. destruct (Z.eqb_spec (g_found_job (m_g m)) j); [|by apply elem_of_nil in Hs].
    apply list_elem_of_singleton in Hs as ->. cbn in Hj. lia.
Qed.
Lemma hidden_run J l m m' : 1 <= J → run l m = Some m' → quiet J l m = true → g_found_job (m_g m) ≠ J →
  ∀ s, s ∈ submitted m' → sh_job s = J → s ∈ submitted m.
Proof using.
  intros HJ. revert m. induction l as [|c l IH]; intros m E Hq Hf s Hs Hj; cbn [Workers.run quiet] in *; [by simplify_eq|].
  destruct (step c m) as [m1|] eqn:Ec; [|done]. cbn in E. apply andb_prop in Hq as [Hr%negb_true_iff Hq].
  destruct (hidden_step J c m m1 HJ Ec Hr Hf) as [Hf1 Hs1]. apply Hs1; [|done]. by apply (IH m1).
Qed.

(** The flag that ends the program is never reset, and the number of the job
    changes only when a job is published. *)
Lemma step_frame c m m' : step c m = Some m' → (g_stop (m_g m') = false → g_stop (m_g m) = false) ∧
  (length (jobs m') = length (jobs m) → g_job (m_g m') = g_job (m_g m)).
Proof using.
  destruct c as [id|a]; unfold Workers.step; intros E.
  - destruct (m_ws m !! id) as [w|]; [|done]. cbn in E. destruct (Workers.worker_step _ _ _ _ _ _ _) as [[g' w']|] eqn:Es; [|done].
    simplify_eq/=. revert Es. unfold Workers.worker_step, record_share. intros Es. destruct (w_pc w); step_cases; done.
  - unfold Workers.main_step, publish_step, collect_step, stop_step, main_at in E. destruct a, (m_pc m); step_cases; cbn; rewrite ?length_app; cbn; split; (done || lia).
Qed.
Lemma awaits_step c m m' k w : step c m = Some m' → g_stop (m_g m) = false → m_ws m !! k = Some w → awaits (g_job (m_g m)) w →
  ∃ w', m_ws m' !! k = Some w' ∧ awaits (g_job (m_g m)) w'.
Proof using.
  intros E Hs Hk [Hm Hw]. destruct c as [id|a]; unfold Workers.step in E.
  - destruct (m_ws m !! id) as [v|] eqn:Ev; [|done]. cbn in E.
    destruct (Workers.worker_step _ _ _ _ _ _ _) as [[g' v']|] eqn:Es; [|done]. simplify_eq/=.
    destruct (decide (id = k)) as [->|Hne]; [|exists w; rewrite list_lookup_insert_ne by done; done].
    exists v'. rewrite list_lookup_insert_eq by (by eapply lookup_lt_Some). split; [done|]. assert (v = w) as -> by congruence.
    unfold Workers.worker_step in Es. destruct Hw as [Hp|Hp]; rewrite Hp in Es; simplify_eq.
    + rewrite Hs. split; [done|by right].
    + rewrite Hm, Z.eqb_refl. split; [done|by left].
  - exists w. unfold Workers.main_step, publish_step, collect_step, stop_step, main_at in E. destruct a, (m_pc m); step_cases; done.
Qed.
Lemma awaits_run l m m' k w : run l m = Some m' → g_stop (m_g m') = false → length (jobs m') = length (jobs m) →
  m_ws m !! k = Some w → awaits (g_job (m_g m)) w → ∃ w', m_ws m' !! k = Some w' ∧ awaits (g_job (m_g m)) w'.
Proof using.
  revert m w. induction l as [|c l IH]; intros m w E Hs Hl Hk Hw; cbn [Workers.run] in E; [simplify_eq; by eexists|].
  destruct (step c m) as [m1|] eqn:Ec; [|done]. cbn in E.
  pose proof (run_jobs _ _ _ _ _ _ _ E). pose proof (step_jobs _ _ _ _ _ _ _ Ec). destruct (step_frame c m m1 Ec) as [Hs1 Hj1].
  assert (g_stop (m_g m1) = false) as Hs'.
  { clear -E Hs. revert m1 E. induction l as [|c l IH]; intros m1 E; cbn [Workers.run] in E; [by simplify_eq|].
    destruct (step c m1) as [m2|] eqn:Ec; [|done]. apply (step_frame c m1 m2 Ec). by apply IH. }
  destruct (awaits_step c m m1 k w Ec (Hs1 Hs') Hk Hw) as (w1&Hk1&Hw1). rewrite <- Hj1 in Hw1 |- * by lia.
  apply (IH m1 w1); (done || lia).
Qed.
End Late.

(** ** Statements *)


(** A run with two workers: the second one is still at work for the first job
    when the second job is published and solved. *)
Definition sample_pow (h : list Z) : option (list Z) := Some (replicate 32 0).
Definition sample_publish (b : Z) : list choice :=
  CMain (APublish (replicate 80 b) (replicate 32 b)) :: replicate 5 (CMain Go).
Definition solve (id : nat) : list choice := replicate 11 (CWorker id).
Definition overtaken : list choice :=
  sample_publish 1 ++ replicate 8 (CWorker 1) ++ sample_publish 2 ++ solve 0.
(** From the late worker's critical section on: its report and the release. *)
Definition stale_report : list choice := replicate 2 (CWorker 1).
Definition collect : list choice := CMain (ACollect 1) :: replicate 2 (CMain Go).


(** C40: a solution can be lost without a pool.  In a state where the solution
    of the current job [J] is recorded, collecting sends it.  If a worker that
    is still at work for another job reports first, it writes over the record:
    from then on, as long as no worker reports a solution of [J] again, nothing
    is sent for [J] beyond what was sent before; and until another job is
    published or the program stops, a worker that waits because it has solved
    [J] keeps waiting, so that it does not report again. *)
Theorem stale_report_hides_solution g_ways g_threads pow J m id w i c n0 n1 m1 l m2 :
  1 <= J → m_cur m = Some J → g_found_job (m_g m) = J →
  m_ws m !! id = Some w → w_pc w = Report i c n0 n1 → w_mine w ≠ J →
  step g_ways g_threads false pow (CWorker id) m = Some m1 →
  run g_ways g_threads false pow l m1 = Some m2 → quiet g_ways g_threads pow J l m1 = true →
  (∀ sent, collected false (m_g m) (m_cur m) sent = [mkShare J (g_found_nonce (m_g m))]) ∧
  (∀ s, s ∈ submitted m2 → sh_job s = J → s ∈ submitted m) ∧
  (g_job (m_g m) = J → length (jobs m2) = length (jobs m) → g_stop (m_g m2) = false →
   ∀ k v, m_ws m !! k = Some v → awaits J v → ∃ v', m_ws m2 !! k = Some v' ∧ awaits J v').
Proof.
  intros HJ Hc Hf Hw Hp Hm Es Er Hq. split; [intros sent; unfold collected; by rewrite Hc, Hf, Z.eqb_refl|]. split.
  - assert (g_found_job (m_g m1) ≠ J ∧ submitted m1 = submitted m) as [Hf1 <-]; [|by apply (hidden_run g_ways g_threads pow J l m1 m2)].
    cbn [step] in Es. rewrite Hw in Es. cbn in Es. unfold worker_step, record_share in Es. rewrite Hp in Es. cbn in Es.
    destruct (Z.eqb_spec (g_found_job (m_g m)) (w_mine w)); [congruence|]. by simplify_eq/=.
  - intros <- Hl Hs k v Hk Hv. apply (awaits_run g_ways g_threads pow (CWorker id :: l) m m2 k v); [|done..].
    cbn [run]. by rewrite Es.
Qed.
Lemma stale_report_hides_solution_witness :
  ∃ m m2, run 1 2 false sample_pow (overtaken ++ [CWorker 1]) (initial 2) = Some m ∧
    share_ok sample_pow (jobs m) (mkShare 2 (g_found_nonce (m_g m))) ∧
    collected false (m_g m) (m_cur m) 1 = [mkShare 2 0] ∧
    run 1 2 false sample_pow (stale_report ++ collect) m = Some m2 ∧ (∀ s, s ∈ submitted m2 → sh_job s = 2 → s ∈ submitted m).
Proof.
  destruct (run 1 2 false sample_pow (overtaken ++ [CWorker 1]) (initial 2)) as [m|] eqn:E; [|vm_compute in E; discriminate].
  vm_compute in E. injection E as <-.
  match goal with |- ∃ x y, Some ?m0 = Some x ∧ _ => set (m := m0) end.
  destruct (step 1 2 false sample_pow (CWorker 1) m) as [m1|] eqn:E1; [|vm_compute in E1; discriminate].
  destruct (run 1 2 false sample_pow ([CWorker 1] ++ collect) m1) as [m2|] eqn:E2;
    [|vm_compute in E1; injection E1 as <-; vm_compute in E2; discriminate].
  destruct (m_ws m !! 1%nat) as [w|] eqn:Ew; [|vm_compute in Ew; discriminate].
  destruct (stale_report_hides_solution 1 2 sample_pow 2 m 1 w 0 0 1 3 m1 ([CWorker 1] ++ collect) m2) as (Hc&Hs&_);
    [lia|reflexivity|reflexivity|exact Ew|vm_compute in Ew; injection Ew as <-; reflexivity|vm_compute in Ew; injection Ew as <-; discriminate
    |exact E1|exact E2|vm_compute in E1; injection E1 as <-; vm_compute; reflexivity|].
  exists m, m2. split; [reflexivity|]. split; [|split; [exact (Hc 1%nat)|split; [|exact Hs]]].
  - exists (replicate 80 2), (replicate 32 2), (replicate 32 0). split_and!; vm_compute; (reflexivity || discriminate).
  - change (stale_report ++ collect) with (CWorker 1 :: [CWorker 1] ++ collect). cbn [run]. rewrite E1. exact E2.
Defined.
